(** * Sculpt engine core: symmetry passes, flood fill, brush tests,
      face sets and fake neighbours

    A shallow embedding of the parts of
    [source/blender/editors/sculpt_paint/sculpt.c] that the specification
    speaks about, with the properties proved (or refuted) on it.

    Conventions.
    - C [int] and [char] values are integers of [Z]; every operation used
      here stays far from the ends of the machine range, except [abs], whose
      argument is required to differ from [INT_MIN] where that matters.
    - C [float] values are idealised as real numbers ([R]): rounding,
      infinities and NaN are outside the model.  The brush tests are the
      exception: rounding can turn their comparisons, so there a [float] is
      an IEEE 754 binary32 value.
    - Arrays are lists read with [!!] and written with [<[ _ := _ ]>]. *)

From Stdlib Require Import ZArith Reals Lra Lia Psatz Bool List.
From Stdlib Require SpecFloat.
From stdpp Require Import base list.

(* ===================================================================== *)
(** ** Shared types *)
(* ===================================================================== *)

(** The three mesh backends, [BKE_pbvh_type]. *)
Inductive PBVHType := PBVH_FACES | PBVH_GRIDS | PBVH_BMESH.

(** A vertex reference [PBVHVertRef] is its field [i]: an index for the
    face and grid backends, an address for BMesh.  [PBVH_REF_NONE] is the
    reference to nothing; the source initialises one as [-1] (sculpt.c,
    8988) and tests it against [PBVH_REF_NONE]. *)
Definition PBVHVertRef := Z.
Definition PBVH_REF_NONE : Z := -1.

(** Reading [a[i]] and writing [a[i] = x] for an [int] index; nothing
    is read or written outside the array. *)
Definition rd {A} (a : list A) (i : Z) : option A :=
  if (i <? 0)%Z then None else a !! Z.to_nat i.

Definition wr {A} (a : list A) (i : Z) (x : A) : list A :=
  if (i <? 0)%Z then a else <[Z.to_nat i := x]> a.

(** Comparisons of [float] values, as C conditions. *)
Definition float_lt (a b : R) : bool := if Rlt_dec a b then true else false.
Definition float_le (a b : R) : bool := if Rle_dec a b then true else false.
Definition float_gt (a b : R) : bool := float_lt b a.

(** Points and vectors, [float[3]]. *)
Definition vec3 : Type := R * R * R.

(** Modelled from the spec: [len_squared_v3v3] belongs to the math library,
    outside the sources at hand; it is the squared Euclidean distance. *)
Definition len_squared_v3v3 (a b : vec3) : R :=
  let '(ax, ay, az) := a in
  let '(bx, by_, bz) := b in
  ((ax - bx) * (ax - bx) + (ay - by_) * (ay - by_) + (az - bz) * (az - bz))%R.

(** *** Arrays *)

Lemma rd_wr_eq {A} (a : list A) (i : Z) (x : A) :
  (0 <= i < Z.of_nat (length a))%Z -> rd (wr a i x) i = Some x.
Proof.
  intros Hi. unfold rd, wr.
  rewrite (proj2 (Z.ltb_ge i 0)) by lia.
  apply list_lookup_insert_eq. lia.
Qed.

Lemma rd_wr_ne {A} (a : list A) (i j : Z) (x : A) :
  i <> j -> rd (wr a i x) j = rd a j.
Proof.
  intros Hne. unfold rd, wr.
  destruct (j <? 0)%Z eqn:Ej; [reflexivity|].
  destruct (i <? 0)%Z eqn:Ei; [reflexivity|].
  apply Z.ltb_ge in Ei, Ej.
  apply list_lookup_insert_ne. lia.
Qed.

Lemma length_wr {A} (a : list A) (i : Z) (x : A) : length (wr a i x) = length a.
Proof. unfold wr. destruct (i <? 0)%Z; [reflexivity | apply length_insert]. Qed.

Lemma rd_replicate {A} (n : nat) (x y : A) (i : Z) :
  rd (replicate n x) i = Some y -> y = x.
Proof.
  unfold rd. destruct (i <? 0)%Z; [discriminate|].
  intros H. apply lookup_replicate in H. tauto.
Qed.

(** *** Comparisons *)

Lemma float_lt_true a b : float_lt a b = true <-> (a < b)%R.
Proof.
  unfold float_lt. destruct (Rlt_dec a b) as [H|H]; split; intros H'.
  - exact H.
  - reflexivity.
  - discriminate H'.
  - contradiction.
Qed.

Lemma float_lt_false a b : float_lt a b = false <-> (b <= a)%R.
Proof.
  unfold float_lt. destruct (Rlt_dec a b) as [H|H]; split; intros H'.
  - discriminate H'.
  - exfalso. lra.
  - lra.
  - reflexivity.
Qed.



Lemma float_gt_true a b : float_gt a b = true <-> (b < a)%R.
Proof. apply float_lt_true. Qed.

Lemma float_gt_false a b : float_gt a b = false <-> (a <= b)%R.
Proof. apply float_lt_false. Qed.

Lemma float_gt_min x y c : float_gt (Rmin x y) c = float_gt x c && float_gt y c.
Proof.
  destruct (float_gt x c) eqn:Ex, (float_gt y c) eqn:Ey; simpl;
    rewrite ?float_gt_true, ?float_gt_false in *;
    unfold Rmin; destruct (Rle_dec x y); lra.
Qed.

Lemma float_gt_max x y c : float_gt (Rmax x y) c = float_gt x c || float_gt y c.
Proof.
  destruct (float_gt x c) eqn:Ex, (float_gt y c) eqn:Ey; simpl;
    rewrite ?float_gt_true, ?float_gt_false in *;
    unfold Rmax; destruct (Rle_dec x y); lra.
Qed.

(** *** Distances *)

Lemma len_squared_nonneg a b : (0 <= len_squared_v3v3 a b)%R.
Proof.
  destruct a as [[ax ay] az], b as [[bx by_] bz]. simpl.
  pose proof (Rle_0_sqr (ax - bx)). pose proof (Rle_0_sqr (ay - by_)).
  pose proof (Rle_0_sqr (az - bz)). unfold Rsqr in *. lra.
Qed.

Lemma len_squared_same a : len_squared_v3v3 a a = 0%R.
Proof. destruct a as [[ax ay] az]. simpl. ring. Qed.

Lemma len_squared_zero a b : len_squared_v3v3 a b = 0%R <-> a = b.
Proof.
  destruct a as [[ax ay] az], b as [[bx by_] bz]. simpl. split.
  - intros H.
    pose proof (Rle_0_sqr (ax - bx)) as Hx. pose proof (Rle_0_sqr (ay - by_)) as Hy.
    pose proof (Rle_0_sqr (az - bz)) as Hz. unfold Rsqr in *.
    assert (Ex : ((ax - bx) * (ax - bx) = 0)%R) by lra.
    assert (Ey : ((ay - by_) * (ay - by_) = 0)%R) by lra.
    assert (Ez : ((az - bz) * (az - bz) = 0)%R) by lra.
    apply Rsqr_0_uniq in Ex, Ey, Ez.
    f_equal; [f_equal|]; lra.
  - intros [= -> -> ->]. ring.
Qed.

(** For non-negative reals, comparing squares is comparing the values. *)
Lemma sqrt_lt_square d m :
  (0 <= d)%R -> (0 <= m)%R -> (d < m * m)%R <-> (sqrt d < m)%R.
Proof.
  intros Hd Hm. split; intros H.
  - rewrite <- (sqrt_square m) by exact Hm. apply sqrt_lt_1_alt. lra.
  - rewrite <- (sqrt_sqrt d) by exact Hd.
    pose proof (sqrt_pos d) as Hs.
    apply Rmult_le_0_lt_compat; assumption.
Qed.


(* ===================================================================== *)
(** ** Symmetry passes *)
(* ===================================================================== *)

Module Symmetry.

(** [bool SCULPT_is_symmetry_iteration_valid(char i, char symm)]
    (sculpt.c, 2410).  A C integer used as a truth value is true when it is
    not zero. *)
Definition SCULPT_is_symmetry_iteration_valid (i symm : Z) : bool :=
  (i =? 0)%Z
  || (negb (Z.land symm i =? 0)%Z
      && (negb (symm =? 5)%Z || negb (i =? 3)%Z)
      && (negb (symm =? 6)%Z || (negb (i =? 3)%Z && negb (i =? 5)%Z))).

(** The rule in the words of the specification: [i] is a bit-subset of
    [symm], and is not one of the redundant combined passes. *)
Definition is_bit_subset (i symm : Z) : bool := (Z.land i symm =? i)%Z.

Definition redundant_pass (i symm : Z) : bool :=
  ((symm =? 5)%Z && (i =? 3)%Z)
  || ((symm =? 6)%Z && ((i =? 3)%Z || (i =? 5)%Z)).

Definition spec_valid (i symm : Z) : bool :=
  (i =? 0)%Z || (is_bit_subset i symm && negb (redundant_pass i symm)).

(** The values [0 .. symm] of the loop variable of
    [for (i = 0; i <= symm; i++)]; none when [symm] is negative. *)
Definition passes (symm : Z) : list Z := map Z.of_nat (seq 0 (Z.to_nat (symm + 1))).

(** The passes the symmetry driver runs for [symm]: the loop
    [for (i = 0; i <= symm; i++) if (!valid(i, symm)) continue; ...]. *)
Definition valid_passes (symm : Z) : list Z :=
  filter (fun i => SCULPT_is_symmetry_iteration_valid i symm = true) (passes symm).

Lemma elem_of_passes i symm :
  (0 <= symm)%Z -> i ∈ passes symm <-> (0 <= i <= symm)%Z.
Proof.
  intros Hs. unfold passes. rewrite list_elem_of_fmap. split.
  - intros (n & -> & Hn). apply elem_of_seq in Hn. lia.
  - intros Hi. exists (Z.to_nat i). split; [lia|]. apply elem_of_seq. lia.
Qed.

Lemma spec_valid_iff i symm :
  spec_valid i symm = true <->
  i = 0%Z \/ (Z.land i symm = i /\ ~ (symm = 5%Z /\ i = 3%Z)
              /\ ~ (symm = 6%Z /\ (i = 3%Z \/ i = 5%Z))).
Proof.
  unfold spec_valid, is_bit_subset, redundant_pass.
  rewrite orb_true_iff, andb_true_iff, negb_true_iff, orb_false_iff,
    !andb_false_iff, orb_false_iff, !Z.eqb_eq, !Z.eqb_neq.
  split; (intros [H0 | (Hsub & H5 & H6)]; [left; exact H0 | right]).
  - split; [exact Hsub | split; lia].
  - split; [exact Hsub | split; lia].
Qed.

(** The code and the rule agree on every pass of every mirror setting. *)
Lemma valid_agrees_on_table :
  forallb (fun symm =>
    forallb (fun i =>
      Bool.eqb (SCULPT_is_symmetry_iteration_valid i symm) (spec_valid i symm))
      (passes symm))
    (passes 7) = true.
Proof. vm_compute. reflexivity. Qed.

Lemma valid_agrees i symm :
  (0 <= symm <= 7)%Z -> (0 <= i <= symm)%Z ->
  SCULPT_is_symmetry_iteration_valid i symm = spec_valid i symm.
Proof.
  intros Hs Hi.
  pose proof valid_agrees_on_table as T.
  rewrite forallb_forall in T.
  assert (Hin : In symm (passes 7)).
  { apply list_elem_of_In, elem_of_passes; lia. }
  specialize (T symm Hin). rewrite forallb_forall in T.
  assert (Hin' : In i (passes symm)).
  { apply list_elem_of_In, elem_of_passes; lia. }
  specialize (T i Hin'). apply eqb_prop in T. exact T.
Qed.

(** C1.  For every [symm] in [0..7] and every [i] in [0..symm],
    [SCULPT_is_symmetry_iteration_valid i symm] is true exactly when
    [i = 0], or [i] is a bit-subset of [symm] and is not a redundant
    combined pass ([i = 3] for [symm = 5]; [i = 3] or [i = 5] for
    [symm = 6]). *)
Theorem symmetry_iteration_valid_exact (i symm : Z) :
  (0 <= symm <= 7)%Z -> (0 <= i <= symm)%Z ->
  SCULPT_is_symmetry_iteration_valid i symm = true <->
  i = 0%Z \/ (Z.land i symm = i /\ ~ (symm = 5%Z /\ i = 3%Z)
              /\ ~ (symm = 6%Z /\ (i = 3%Z \/ i = 5%Z))).
Proof.
  intros Hs Hi. rewrite (valid_agrees i symm Hs Hi). apply spec_valid_iff.
Qed.

Lemma symmetry_iteration_valid_exact_witness :
  (SCULPT_is_symmetry_iteration_valid 3 5 = true <->
   3%Z = 0%Z \/ (Z.land 3 5 = 3%Z /\ ~ (5%Z = 5%Z /\ 3%Z = 3%Z)
                 /\ ~ (5%Z = 6%Z /\ (3%Z = 3%Z \/ 3%Z = 5%Z)))).
Proof. apply (symmetry_iteration_valid_exact 3 5); lia. Defined.

End Symmetry.

(* ===================================================================== *)
(** ** Face sets: visibility sign and boundaries in the base mesh *)
(* ===================================================================== *)

Module FaceSets.

Local Open Scope Z_scope.

(** Modelled from the spec: the constant [SCULPT_FACE_SET_NONE] is declared
    in a header outside the sources at hand; the specification reserves the
    ID 0 for unassigned faces. *)
Definition SCULPT_FACE_SET_NONE : Z := 0.

Definition INT_MIN : Z := - 2 ^ 31.
Definition INT_MAX : Z := 2 ^ 31 - 1.

(** C's [abs] on [int]; defined for every value but [INT_MIN]. *)
Definition abs (x : Z) : Z := Z.abs x.

(** A BMesh face: the integers of its custom-data block, by byte offset
    ([BM_ELEM_CD_GET_INT] / [BM_ELEM_CD_SET_INT]). *)
Record BMFace := { head_data : Z -> Z }.

Definition BM_ELEM_CD_GET_INT (f : BMFace) (offset : Z) : Z := head_data f offset.

Definition BM_ELEM_CD_SET_INT (f : BMFace) (offset : Z) (x : Z) : BMFace :=
  {| head_data := fun o => if o =? offset then x else head_data f o |}.

(** A BMesh: its faces, and what
    [CustomData_get_offset(&bm->pdata, CD_SCULPT_FACE_SETS)] answers
    (negative when the mesh has no face-set layer). *)
Record BMesh := {
  pdata_face_sets_offset : Z;
  bm_faces : list BMFace
}.

(** The base mesh: [MeshElemMap] (the polygons around a vertex), [MPoly],
    [MLoop]. *)
Record MeshElemMap := { indices : list Z; count : Z }.
Record MPoly := { loopstart : Z; totloop : Z }.
Record MLoop := { v : Z; e : Z }.

Record SculptSession := {
  pbvh_type : PBVHType;
  totfaces : Z;
  face_sets : list Z;
  bm : option BMesh;
  cd_faceset_offset : Z;
  cd_face_node_offset : Z;
  (** nodes flagged by [BKE_pbvh_node_mark_update_triangulation] *)
  update_triangulation : list Z;
  (** [ss->pmap->pmap], [ss->mpoly], [ss->mloop] *)
  pmap : list MeshElemMap;
  mpoly : list MPoly;
  mloop : list MLoop
}.

(** The node index of a face that belongs to no node; declared in a header
    outside the sources at hand, its value plays no part below. *)
Definition DYNTOPO_NODE_NONE : Z := -1.

(** The three statements applied to one face-set value: force ID 0 to 1,
    then give it the sign of [visible]. *)
Definition force_assigned (fset : Z) : Z :=
  if fset =? SCULPT_FACE_SET_NONE then 1 else fset.

Definition apply_visibility (visible : bool) (fset : Z) : Z :=
  if visible then abs fset else - abs fset.

(** Body of the loop over [ss->face_sets], at index [i]. *)
Definition face_sets_loop_body (visible : bool) (fs : list Z) (i : nat) : list Z :=
  let fs1 :=
    match fs !! i with
    | Some x => if x =? SCULPT_FACE_SET_NONE then <[i := 1]> fs else fs
    | None => fs
    end in
  match fs1 !! i with
  | Some y => <[i := apply_visibility visible y]> fs1
  | None => fs1
  end.

(** Body of [BM_ITER_MESH (f, ...)], threading the flagged nodes. *)
Definition bm_face_body (visible : bool) (off node_off : Z)
    (acc : list Z * list BMFace) (f : BMFace) : list Z * list BMFace :=
  let fset := BM_ELEM_CD_GET_INT f off in
  let node := BM_ELEM_CD_GET_INT f node_off in
  let marked := if node =? DYNTOPO_NODE_NONE then acc.1 else acc.1 ++ [node] in
  let fset := force_assigned fset in
  let fset := apply_visibility visible fset in
  (marked, acc.2 ++ [BM_ELEM_CD_SET_INT f off fset]).

(** [void SCULPT_face_sets_visibility_all_set(SculptSession *ss, bool visible)]
    (sculpt.c, 822). *)
Definition SCULPT_face_sets_visibility_all_set (ss : SculptSession) (visible : bool)
    : SculptSession :=
  match pbvh_type ss with
  | PBVH_FACES | PBVH_GRIDS =>
      {| pbvh_type := pbvh_type ss;
         totfaces := totfaces ss;
         face_sets := fold_left (face_sets_loop_body visible)
                        (seq 0 (Z.to_nat (totfaces ss))) (face_sets ss);
         bm := bm ss;
         cd_faceset_offset := cd_faceset_offset ss;
         cd_face_node_offset := cd_face_node_offset ss;
         update_triangulation := update_triangulation ss;
         pmap := pmap ss; mpoly := mpoly ss; mloop := mloop ss |}
  | PBVH_BMESH =>
      match bm ss with
      | None => ss
      | Some b =>
          (* paranoia check of cd_faceset_offset *)
          let off := if cd_faceset_offset ss <? 0
                     then pdata_face_sets_offset b else cd_faceset_offset ss in
          let ss1 :=
            {| pbvh_type := pbvh_type ss;
               totfaces := totfaces ss;
               face_sets := face_sets ss;
               bm := bm ss;
               cd_faceset_offset := off;
               cd_face_node_offset := cd_face_node_offset ss;
               update_triangulation := update_triangulation ss;
         pmap := pmap ss; mpoly := mpoly ss; mloop := mloop ss |} in
          if off <? 0 then ss1
          else
            let r := fold_left (bm_face_body visible off (cd_face_node_offset ss))
                       (bm_faces b) (update_triangulation ss, []) in
            {| pbvh_type := pbvh_type ss;
               totfaces := totfaces ss;
               face_sets := face_sets ss;
               bm := Some {| pdata_face_sets_offset := pdata_face_sets_offset b;
                             bm_faces := r.2 |};
               cd_faceset_offset := off;
               cd_face_node_offset := cd_face_node_offset ss;
               update_triangulation := r.1;
         pmap := pmap ss; mpoly := mpoly ss; mloop := mloop ss |}
      end
  end.

(** The face-set values a session holds, face by face.  A BMesh without a
    face-set layer holds none. *)
Definition face_set_values (ss : SculptSession) : list Z :=
  match pbvh_type ss with
  | PBVH_FACES | PBVH_GRIDS => face_sets ss
  | PBVH_BMESH =>
      match bm ss with
      | None => []
      | Some b =>
          let off := if cd_faceset_offset ss <? 0
                     then pdata_face_sets_offset b else cd_faceset_offset ss in
          if off <? 0 then [] else map (fun f => BM_ELEM_CD_GET_INT f off) (bm_faces b)
      end
  end.

(** What the caller owes: the face count is the length of the face-set
    array, and no value is [INT_MIN] (where [abs] is undefined). *)
Definition session_ok (ss : SculptSession) : Prop :=
  match pbvh_type ss with
  | PBVH_FACES | PBVH_GRIDS => totfaces ss = Z.of_nat (length (face_sets ss))
  | PBVH_BMESH => True
  end
  /\ Forall (fun x => INT_MIN < x <= INT_MAX) (face_set_values ss).

Definition sign_ok (visible : bool) (x : Z) : Prop :=
  if visible then 1 <= x <= INT_MAX else - INT_MAX <= x <= -1.

(** *** Base-mesh adjacency *)

(** The entries [indices[0 .. count-1]] a loop [for (i = 0; i < count; i++)]
    reads. *)
Definition map_entries (m : MeshElemMap) : list Z :=
  take (Z.to_nat (count m)) (indices m).

Definition face_set_at (ss : SculptSession) (p : Z) : Z :=
  default 0 (rd (face_sets ss) p).

(** Loop of [sculpt_check_unique_face_set_in_base_mesh]; [None] stands for
    the early [return false], [Some face_set] for falling through. *)
Fixpoint unique_face_set_loop (ss : SculptSession) (polys : list Z) (face_set : Z)
    : option Z :=
  match polys with
  | [] => Some face_set
  | p :: rest =>
      if face_set =? -1
      then unique_face_set_loop ss rest (abs (face_set_at ss p))
      else if negb (abs (face_set_at ss p) =? face_set) then None
      else unique_face_set_loop ss rest face_set
  end.

(** [sculpt_check_unique_face_set_in_base_mesh] (sculpt.c, 1334); for the
    face and grid backends the vertex reference is the vertex index. *)
Definition sculpt_check_unique_face_set_in_base_mesh (ss : SculptSession) (vertex : Z)
    : bool :=
  match rd (pmap ss) vertex with
  | Some vert_map =>
      match unique_face_set_loop ss (map_entries vert_map) (-1) with
      | Some _ => true
      | None => false
      end
  | None => true
  end.

(** The loops [mloop[loopstart .. loopstart + totloop - 1]] of a polygon. *)
Definition poly_loops (ss : SculptSession) (p : MPoly) : list MLoop :=
  take (Z.to_nat (totloop p)) (drop (Z.to_nat (loopstart p)) (mloop ss)).

(** Inner loop of [sculpt_check_unique_face_set_for_edge_in_base_mesh] over
    the loops of polygon [idx]; each [break] ends the scan of the polygon. *)
Fixpoint edge_scan_loops (loops : list MLoop) (v2 idx : Z) (p : Z * Z) : Z * Z :=
  match loops with
  | [] => p
  | lp :: rest =>
      if v lp =? v2 then
        if p.1 =? -1 then (idx, p.2)
        else if p.2 =? -1 then (p.1, idx)
        else edge_scan_loops rest v2 idx p
      else edge_scan_loops rest v2 idx p
  end.

(** Outer loop, over the polygons around [v1]. *)
Definition edge_scan_polys (ss : SculptSession) (polys : list Z) (v2 : Z) : Z * Z :=
  fold_left
    (fun p idx =>
       match rd (mpoly ss) idx with
       | Some poly => edge_scan_loops (poly_loops ss poly) v2 idx p
       | None => p
       end)
    polys (-1, -1).

(** [sculpt_check_unique_face_set_for_edge_in_base_mesh] (sculpt.c, 1357).
    The last comparison is the source's:
    [abs(ss->face_sets[p1]) == (ss->face_sets[p2])]. *)
Definition sculpt_check_unique_face_set_for_edge_in_base_mesh
    (ss : SculptSession) (v1 v2 : Z) : bool :=
  match rd (pmap ss) v1 with
  | Some vert_map =>
      let p := edge_scan_polys ss (map_entries vert_map) v2 in
      if negb (p.1 =? -1) && negb (p.2 =? -1)
      then abs (face_set_at ss p.1) =? face_set_at ss p.2
      else true
  | None => true
  end.

(** Two triangles [0 1 2] and [1 0 3] over the edge between the vertices 0
    and 1, with the face sets given. *)
Definition two_triangles (fs0 fs1 : Z) : SculptSession :=
  {| pbvh_type := PBVH_GRIDS; totfaces := 2; face_sets := [fs0; fs1];
     bm := None; cd_faceset_offset := -1; cd_face_node_offset := -1;
     update_triangulation := [];
     pmap := [ {| indices := [0; 1]; count := 2 |};
               {| indices := [0; 1]; count := 2 |};
               {| indices := [0]; count := 1 |};
               {| indices := [1]; count := 1 |} ];
     mpoly := [ {| loopstart := 0; totloop := 3 |};
                {| loopstart := 3; totloop := 3 |} ];
     mloop := [ {| v := 0; e := 0 |}; {| v := 1; e := 1 |}; {| v := 2; e := 2 |};
                {| v := 1; e := 0 |}; {| v := 0; e := 3 |}; {| v := 3; e := 4 |} ] |}.

(** *** Visibility of all face sets *)

Lemma face_sets_loop_body_at visible (fs : list Z) (i : nat) (x : Z) :
  fs !! i = Some x ->
  face_sets_loop_body visible fs i
  = <[i := apply_visibility visible (force_assigned x)]> fs.
Proof.
  intros Hx. unfold face_sets_loop_body, force_assigned. rewrite Hx.
  pose proof (lookup_lt_Some _ _ _ Hx) as Hlt.
  destruct (x =? SCULPT_FACE_SET_NONE).
  - rewrite list_lookup_insert_eq by exact Hlt.
    apply list_insert_insert_eq.
  - rewrite Hx. reflexivity.
Qed.

Lemma face_sets_loop_lookup visible (fs : list Z) (k : nat) :
  (k <= length fs)%nat ->
  length (fold_left (face_sets_loop_body visible) (seq 0 k) fs) = length fs
  /\ forall j : nat,
       fold_left (face_sets_loop_body visible) (seq 0 k) fs !! j
       = if (j <? k)%nat
         then (fun x => apply_visibility visible (force_assigned x)) <$> fs !! j
         else fs !! j.
Proof.
  induction k as [|k IH]; intros Hk.
  - split; [reflexivity | intros j; reflexivity].
  - destruct IH as [Hlen Hlk]; [lia|].
    rewrite seq_S, fold_left_app. cbn [fold_left Nat.add].
    set (r := fold_left (face_sets_loop_body visible) (seq 0 k) fs) in *.
    destruct (lookup_lt_is_Some_2 fs k) as [x Hx]; [lia|].
    assert (Hrk : r !! k = Some x).
    { rewrite Hlk. rewrite (proj2 (Nat.ltb_ge k k)) by lia. exact Hx. }
    rewrite (face_sets_loop_body_at visible r k x Hrk).
    split; [rewrite length_insert; exact Hlen|].
    intros j. destruct (decide (j = k)) as [->|Hne].
    + rewrite list_lookup_insert_eq by lia.
      rewrite (proj2 (Nat.ltb_lt k (S k))) by lia. rewrite Hx. reflexivity.
    + rewrite list_lookup_insert_ne by congruence. rewrite Hlk.
      destruct (j <? k)%nat eqn:E1, (j <? S k)%nat eqn:E2; try reflexivity.
      * apply Nat.ltb_lt in E1. apply Nat.ltb_ge in E2. lia.
      * apply Nat.ltb_ge in E1. apply Nat.ltb_lt in E2. lia.
Qed.

Lemma face_sets_loop_map visible (fs : list Z) :
  fold_left (face_sets_loop_body visible) (seq 0 (length fs)) fs
  = map (fun x => apply_visibility visible (force_assigned x)) fs.
Proof.
  destruct (face_sets_loop_lookup visible fs (length fs)) as [Hlen Hlk]; [lia|].
  apply list_eq. intros j. rewrite Hlk, list_lookup_fmap.
  destruct (j <? length fs)%nat eqn:E; [reflexivity|].
  apply Nat.ltb_ge in E. rewrite lookup_ge_None_2 by exact E. reflexivity.
Qed.

Lemma bm_faces_loop visible off node_off (faces : list BMFace) marked acc :
  (fold_left (bm_face_body visible off node_off) faces (marked, acc)).2
  = acc ++ map (fun f => BM_ELEM_CD_SET_INT f off
                           (apply_visibility visible
                              (force_assigned (BM_ELEM_CD_GET_INT f off)))) faces.
Proof.
  revert marked acc. induction faces as [|f faces IH]; intros marked acc; simpl.
  - rewrite app_nil_r. reflexivity.
  - unfold bm_face_body at 2. simpl. rewrite IH, <- app_assoc. reflexivity.
Qed.

Lemma BM_ELEM_CD_GET_SET f off x :
  BM_ELEM_CD_GET_INT (BM_ELEM_CD_SET_INT f off x) off = x.
Proof. unfold BM_ELEM_CD_GET_INT, BM_ELEM_CD_SET_INT. simpl. rewrite Z.eqb_refl. reflexivity. Qed.

Lemma visibility_all_set_values ss visible :
  match pbvh_type ss with
  | PBVH_FACES | PBVH_GRIDS => totfaces ss = Z.of_nat (length (face_sets ss))
  | PBVH_BMESH => True
  end ->
  face_set_values (SCULPT_face_sets_visibility_all_set ss visible)
  = map (fun x => apply_visibility visible (force_assigned x)) (face_set_values ss).
Proof.
  destruct ss as [ty n fs obm off noff marked pm mp ml].
  unfold SCULPT_face_sets_visibility_all_set, face_set_values. simpl.
  intros Hlen. destruct ty; simpl.
  - rewrite Hlen, Nat2Z.id. apply face_sets_loop_map.
  - rewrite Hlen, Nat2Z.id. apply face_sets_loop_map.
  - destruct obm as [b|]; simpl; [|reflexivity].
    destruct (off <? 0) eqn:Eoff; simpl.
    + destruct (pdata_face_sets_offset b <? 0) eqn:Ep;
        repeat (rewrite ?Ep, ?Eoff; simpl); [reflexivity|].
      rewrite bm_faces_loop. simpl.
      rewrite !map_map. apply map_ext. intros f. apply BM_ELEM_CD_GET_SET.
    + repeat (rewrite ?Eoff; simpl). rewrite bm_faces_loop. simpl.
      rewrite !map_map. apply map_ext. intros f. apply BM_ELEM_CD_GET_SET.
Qed.

Lemma apply_visibility_sign visible x :
  INT_MIN < x <= INT_MAX ->
  sign_ok visible (apply_visibility visible (force_assigned x))
  /\ apply_visibility visible (force_assigned x) <> SCULPT_FACE_SET_NONE.
Proof.
  unfold sign_ok, apply_visibility, force_assigned, abs, SCULPT_FACE_SET_NONE,
    INT_MIN, INT_MAX.
  intros Hx. destruct (x =? 0) eqn:E; [apply Z.eqb_eq in E | apply Z.eqb_neq in E];
    destruct visible; lia.
Qed.

(** C7.  For the three backends and both values of [visible]: after
    [SCULPT_face_sets_visibility_all_set], every face-set value is the old one
    with ID 0 first replaced by 1 and the sign of [visible] then applied; so
    every value is at least 1 when [visible] and at most -1 otherwise, and no
    face keeps the reserved ID 0. *)
Theorem face_sets_visibility_all_set_sign (ss : SculptSession) (visible : bool) :
  session_ok ss ->
  face_set_values (SCULPT_face_sets_visibility_all_set ss visible)
  = map (fun x => apply_visibility visible (force_assigned x)) (face_set_values ss)
  /\ Forall (fun x => (if visible then 1 <= x else x <= -1)
                     /\ x <> SCULPT_FACE_SET_NONE /\ INT_MIN < x <= INT_MAX)
       (face_set_values (SCULPT_face_sets_visibility_all_set ss visible)).
Proof.
  intros [Hlen Hrange].
  pose proof (visibility_all_set_values ss visible Hlen) as Hv.
  split; [exact Hv|]. rewrite Hv.
  apply Forall_fmap. eapply Forall_impl; [exact Hrange|].
  intros x Hx. simpl.
  destruct (apply_visibility_sign visible x Hx) as [Hs Hn].
  unfold sign_ok, INT_MIN, INT_MAX in *. destruct visible; repeat split; try lia; exact Hn.
Qed.

Definition grid_session : SculptSession :=
  {| pbvh_type := PBVH_GRIDS; totfaces := 4; face_sets := [0; 3; -2; -7];
     bm := None; cd_faceset_offset := -1; cd_face_node_offset := -1;
     update_triangulation := []; pmap := []; mpoly := []; mloop := [] |}.

Lemma face_sets_visibility_all_set_sign_witness :
  face_set_values (SCULPT_face_sets_visibility_all_set grid_session false)
  = [-1; -3; -2; -7].
Proof.
  destruct (face_sets_visibility_all_set_sign grid_session false) as [Hv _].
  - split; [reflexivity|]. unfold INT_MIN, INT_MAX. simpl.
    repeat constructor; lia.
  - rewrite Hv. reflexivity.
Defined.

(** *** Face-set boundaries across an edge *)

(** C5.  The edge check is not symmetric in its two faces and depends on the
    visibility sign: over the same edge, face sets [1] and [-1] (one ID, the
    second face hidden) are reported as differing, in the opposite order as
    equal; the check on the faces around a vertex takes the absolute value
    on both sides and reports them equal. *)
Theorem edge_face_set_check_depends_on_sign :
  sculpt_check_unique_face_set_for_edge_in_base_mesh (two_triangles 1 (-1)) 0 1 = false
  /\ sculpt_check_unique_face_set_for_edge_in_base_mesh (two_triangles (-1) 1) 0 1 = true
  /\ sculpt_check_unique_face_set_in_base_mesh (two_triangles 1 (-1)) 0 = true
  /\ sculpt_check_unique_face_set_in_base_mesh (two_triangles (-1) 1) 0 = true.
Proof. vm_compute. repeat split; reflexivity. Qed.

End FaceSets.

(* ===================================================================== *)
(** ** Fake neighbours *)
(* ===================================================================== *)

Module FakeNeighbors.

Local Open Scope Z_scope.

(** The entry of a vertex without fake neighbour; declared in a header
    outside the sources at hand, as -1. *)
Definition FAKE_NEIGHBOR_NONE : Z := -1.

(** [enum { SCULPT_TOPOLOGY_ID_NONE, SCULPT_TOPOLOGY_ID_DEFAULT }] *)
Definition SCULPT_TOPOLOGY_ID_NONE : Z := 0.
Definition SCULPT_TOPOLOGY_ID_DEFAULT : Z := 1.

(** [FLT_MAX] of [<float.h>]: [(2 - 2^-23) * 2^127 = 2^128 - 2^104]. *)
Definition FLT_MAX : R := 340282346638528859811704183484516925440%R.

Record SculptSession := {
  pbvh_type : PBVHType;
  (** [ss->fake_neighbors.fake_neighbor_index], one reference per vertex *)
  fake_neighbor_index : list PBVHVertRef;
  (** [ss->vertex_info.connected_component], [None] for the null pointer *)
  connected_component : option (list Z)
}.

(** What the vertex iterator shows of a vertex: [vd.vertex], [vd.index],
    [vd.co]. *)
Record PBVHVertexIter := {
  vertex : PBVHVertRef;
  index : Z;
  co : vec3
}.

(** A node of the spatial index, as the unique vertices
    [BKE_pbvh_vertex_iter_begin (..., PBVH_ITER_UNIQUE)] runs over. *)
Definition PBVHNode : Type := list PBVHVertexIter.

Record NearestVertexFakeNeighborTLSData := {
  nearest_vertex : PBVHVertRef;
  nearest_vertex_distance_squared : R;
  current_topology_id : Z
}.

(** Modelled from the spec: [BLI_task_parallel_range] with a reduce function
    belongs to the task library, outside the sources at hand.  The range of
    nodes is processed fork-join: a task runs the body over some nodes in
    turn on its own copy of the initial accumulator, and the accumulators
    of two tasks are merged by the reduce function.  A run on one thread is
    [Run] of all the nodes. *)
Inductive schedule :=
| Run (nodes : list PBVHNode)
| Join (l r : schedule).

Fixpoint schedule_nodes (s : schedule) : list PBVHNode :=
  match s with
  | Run nodes => nodes
  | Join l r => schedule_nodes l ++ schedule_nodes r
  end.

Fixpoint BLI_task_parallel_range {T} (func : T -> PBVHNode -> T)
    (func_reduce : T -> T -> T) (userdata_chunk : T) (s : schedule) : T :=
  match s with
  | Run nodes => fold_left func nodes userdata_chunk
  | Join l r =>
      func_reduce (BLI_task_parallel_range func func_reduce userdata_chunk l)
                  (BLI_task_parallel_range func func_reduce userdata_chunk r)
  end.

Section WithMesh.

(** [BM_elem_index_get] on the BMesh vertex behind a reference. *)
Variable BM_elem_index_get : PBVHVertRef -> Z.

(** [SCULPT_vertex_co_get]. *)
Variable SCULPT_vertex_co_get : PBVHVertRef -> vec3.

(** The slot of a vertex in the per-vertex tables: [(int)v.i], or the BMesh
    element index. *)
Definition table_index (ss : SculptSession) (v : PBVHVertRef) : Z :=
  match pbvh_type ss with
  | PBVH_BMESH => BM_elem_index_get v
  | _ => v
  end.

(** [SCULPT_vertex_get_connected_component] (sculpt.c, 8862). *)
Definition SCULPT_vertex_get_connected_component (ss : SculptSession)
    (v : PBVHVertRef) : Z :=
  let i := table_index ss v in
  match connected_component ss with
  | Some cc => default SCULPT_TOPOLOGY_ID_NONE (rd cc i)
  | None => SCULPT_TOPOLOGY_ID_DEFAULT
  end.

(** [SCULPT_fake_neighbor_init] (sculpt.c, 8874), the table part. *)
Definition SCULPT_fake_neighbor_init (ss : SculptSession) (totvert : Z) : SculptSession :=
  {| pbvh_type := pbvh_type ss;
     fake_neighbor_index := replicate (Z.to_nat totvert) FAKE_NEIGHBOR_NONE;
     connected_component := connected_component ss |}.

(** [SCULPT_fake_neighbor_add] (sculpt.c, 8886). *)
Definition SCULPT_fake_neighbor_add (ss : SculptSession) (v_index_a v_index_b : PBVHVertRef)
    : SculptSession :=
  let tablea := table_index ss v_index_a in
  let tableb := table_index ss v_index_b in
  match rd (fake_neighbor_index ss) tablea with
  | Some x =>
      if x =? FAKE_NEIGHBOR_NONE then
        {| pbvh_type := pbvh_type ss;
           fake_neighbor_index :=
             wr (wr (fake_neighbor_index ss) tablea v_index_b) tableb v_index_a;
           connected_component := connected_component ss |}
      else ss
  | None => ss
  end.

(** A sequence of calls of [SCULPT_fake_neighbor_add]. *)
Fixpoint fake_neighbor_add_all (ss : SculptSession) (calls : list (PBVHVertRef * PBVHVertRef))
    : SculptSession :=
  match calls with
  | [] => ss
  | (a, b) :: rest => fake_neighbor_add_all (SCULPT_fake_neighbor_add ss a b) rest
  end.

(** The fake neighbour recorded for a vertex. *)
Definition fake_neighbor (ss : SculptSession) (v : PBVHVertRef) : option PBVHVertRef :=
  rd (fake_neighbor_index ss) (table_index ss v).

Definition in_table (ss : SculptSession) (v : PBVHVertRef) : Prop :=
  0 <= table_index ss v < Z.of_nat (length (fake_neighbor_index ss)).

(** The table is symmetric: a vertex recorded for [A] has [A] recorded. *)
Definition symmetric (ss : SculptSession) : Prop :=
  forall A B : PBVHVertRef,
    A <> PBVH_REF_NONE -> in_table ss A ->
    fake_neighbor ss A = Some B -> B <> FAKE_NEIGHBOR_NONE ->
    in_table ss B /\ fake_neighbor ss B = Some A.

(** What the one caller, [SCULPT_fake_neighbors_ensure], provides at every
    call: both vertices have a slot, and the second one, found by the
    search, has no fake neighbour yet. *)
Fixpoint second_unassigned (ss : SculptSession) (calls : list (PBVHVertRef * PBVHVertRef))
    : Prop :=
  match calls with
  | [] => True
  | (a, b) :: rest =>
      in_table ss a /\ in_table ss b
      /\ fake_neighbor ss b = Some FAKE_NEIGHBOR_NONE
      /\ second_unassigned (SCULPT_fake_neighbor_add ss a b) rest
  end.

(** Body of [do_fake_neighbor_search_task_cb] (sculpt.c, 8914) for one
    vertex of the node. *)
Definition fake_neighbor_search_vertex (ss : SculptSession)
    (nearest_vertex_search_co : vec3) (max_distance_squared : R)
    (nvtd : NearestVertexFakeNeighborTLSData) (vd : PBVHVertexIter)
    : NearestVertexFakeNeighborTLSData :=
  let vd_topology_id := SCULPT_vertex_get_connected_component ss (vertex vd) in
  if negb (vd_topology_id =? current_topology_id nvtd)
     && match rd (fake_neighbor_index ss) (index vd) with
        | Some x => x =? FAKE_NEIGHBOR_NONE
        | None => false
        end
  then
    let distance_squared := len_squared_v3v3 (co vd) nearest_vertex_search_co in
    if float_lt distance_squared (nearest_vertex_distance_squared nvtd)
       && float_lt distance_squared max_distance_squared
    then {| nearest_vertex := vertex vd;
            nearest_vertex_distance_squared := distance_squared;
            current_topology_id := current_topology_id nvtd |}
    else nvtd
  else nvtd.

Definition do_fake_neighbor_search_task_cb (ss : SculptSession)
    (nearest_vertex_search_co : vec3) (max_distance_squared : R)
    (nvtd : NearestVertexFakeNeighborTLSData) (node : PBVHNode)
    : NearestVertexFakeNeighborTLSData :=
  fold_left (fake_neighbor_search_vertex ss nearest_vertex_search_co max_distance_squared)
            node nvtd.

(** [fake_neighbor_search_reduce] (sculpt.c, 8940). *)
Definition fake_neighbor_search_reduce (join nvtd : NearestVertexFakeNeighborTLSData)
    : NearestVertexFakeNeighborTLSData :=
  if nearest_vertex join =? PBVH_REF_NONE then
    {| nearest_vertex := nearest_vertex nvtd;
       nearest_vertex_distance_squared := nearest_vertex_distance_squared nvtd;
       current_topology_id := current_topology_id join |}
  else if float_lt (nearest_vertex_distance_squared nvtd)
                   (nearest_vertex_distance_squared join) then
    {| nearest_vertex := nearest_vertex nvtd;
       nearest_vertex_distance_squared := nearest_vertex_distance_squared nvtd;
       current_topology_id := current_topology_id join |}
  else join.

(** [SCULPT_fake_neighbor_search] (sculpt.c, 8957).  [gathered] is the
    answer of [BKE_pbvh_search_gather] to the sphere of radius
    [max_distance] around the vertex, with the way the task library spreads
    the nodes over tasks. *)
Definition SCULPT_fake_neighbor_search (ss : SculptSession) (gathered : schedule)
    (vertex : PBVHVertRef) (max_distance : R) : PBVHVertRef :=
  let totnode := length (schedule_nodes gathered) in
  if (totnode =? 0)%nat then PBVH_REF_NONE
  else
    let max_distance_squared := (max_distance * max_distance)%R in
    let nearest_vertex_search_co := SCULPT_vertex_co_get vertex in
    let nvtd := {| nearest_vertex := -1;
                   nearest_vertex_distance_squared := FLT_MAX;
                   current_topology_id :=
                     SCULPT_vertex_get_connected_component ss vertex |} in
    nearest_vertex
      (BLI_task_parallel_range
         (do_fake_neighbor_search_task_cb ss nearest_vertex_search_co max_distance_squared)
         fake_neighbor_search_reduce nvtd gathered).

(** The vertices the search looks at. *)
Definition gathered_vertices (gathered : schedule) : list PBVHVertexIter :=
  concat (schedule_nodes gathered).

(** A candidate for the fake neighbour of [source]: a gathered vertex of
    another connected component, without a fake neighbour, strictly closer
    than [max_distance]. *)
Definition candidate (ss : SculptSession) (source : PBVHVertRef) (max_distance : R)
    (vd : PBVHVertexIter) : Prop :=
  SCULPT_vertex_get_connected_component ss (vertex vd)
    <> SCULPT_vertex_get_connected_component ss source
  /\ rd (fake_neighbor_index ss) (index vd) = Some FAKE_NEIGHBOR_NONE
  /\ (sqrt (len_squared_v3v3 (co vd) (SCULPT_vertex_co_get source)) < max_distance)%R.

(** *** Symmetry of the table *)

(** Two vertices with one slot are one vertex (for the face and grid
    backends the slot is the reference itself). *)
Definition index_injective (ss : SculptSession) : Prop :=
  forall u v0 : PBVHVertRef, table_index ss u = table_index ss v0 -> u = v0.

Lemma add_pbvh_type ss a b :
  pbvh_type (SCULPT_fake_neighbor_add ss a b) = pbvh_type ss.
Proof.
  unfold SCULPT_fake_neighbor_add.
  destruct (rd (fake_neighbor_index ss) (table_index ss a)) as [x|]; [|reflexivity].
  destruct (x =? FAKE_NEIGHBOR_NONE); reflexivity.
Qed.

Lemma add_table_index ss a b u :
  table_index (SCULPT_fake_neighbor_add ss a b) u = table_index ss u.
Proof. unfold table_index. rewrite add_pbvh_type. reflexivity. Qed.

Lemma add_length ss a b :
  length (fake_neighbor_index (SCULPT_fake_neighbor_add ss a b))
  = length (fake_neighbor_index ss).
Proof.
  unfold SCULPT_fake_neighbor_add.
  destruct (rd (fake_neighbor_index ss) (table_index ss a)) as [x|]; [|reflexivity].
  destruct (x =? FAKE_NEIGHBOR_NONE); [|reflexivity].
  simpl. rewrite !length_wr. reflexivity.
Qed.

Lemma add_in_table ss a b u :
  in_table (SCULPT_fake_neighbor_add ss a b) u <-> in_table ss u.
Proof. unfold in_table. rewrite add_table_index, add_length. reflexivity. Qed.

Lemma add_index_injective ss a b :
  index_injective ss -> index_injective (SCULPT_fake_neighbor_add ss a b).
Proof.
  intros Hinj u w. rewrite !add_table_index. apply Hinj.
Qed.

Lemma add_keeps_symmetric ss a b :
  index_injective ss -> symmetric ss ->
  in_table ss a -> in_table ss b ->
  fake_neighbor ss b = Some FAKE_NEIGHBOR_NONE ->
  symmetric (SCULPT_fake_neighbor_add ss a b).
Proof.
  intros Hinj Hsym Ha Hb Hbnone.
  assert (Hti : forall u, table_index (SCULPT_fake_neighbor_add ss a b) u
                          = table_index ss u) by (intros; apply add_table_index).
  assert (Hit : forall u, in_table (SCULPT_fake_neighbor_add ss a b) u
                          <-> in_table ss u) by (intros; apply add_in_table).
  unfold symmetric, fake_neighbor in *.
  intros A B HA HinA HAB HB. rewrite Hti in HAB. rewrite Hit in HinA.
  rewrite Hit, Hti.
  revert HAB. unfold SCULPT_fake_neighbor_add.
  destruct (rd (fake_neighbor_index ss) (table_index ss a)) as [x|] eqn:Ea;
    [|intros HAB; apply Hsym; assumption].
  destruct (x =? FAKE_NEIGHBOR_NONE) eqn:Ex;
    [|intros HAB; apply Hsym; assumption].
  apply Z.eqb_eq in Ex. subst x. simpl.
  set (t := fake_neighbor_index ss) in *.
  set (ia := table_index ss a) in *. set (ib := table_index ss b) in *.
  assert (Hlen : length (wr t ia b) = length t) by apply length_wr.
  destruct (Z.eq_dec (table_index ss A) ib) as [HAb|HAb].
  - (* the slot of the second vertex *)
    rewrite HAb, rd_wr_eq by (rewrite Hlen; exact Hb).
    intros [= <-]. split; [exact Ha|].
    assert (A = b) by (apply Hinj; exact HAb). subst A.
    destruct (Z.eq_dec ia ib) as [Hab|Hab].
    + assert (a = b) by (apply Hinj; exact Hab). subst a.
      fold ib. apply rd_wr_eq. rewrite Hlen. exact Hb.
    + fold ia. rewrite rd_wr_ne by congruence. apply rd_wr_eq. exact Ha.
  - rewrite rd_wr_ne by congruence.
    destruct (Z.eq_dec (table_index ss A) ia) as [HAa|HAa].
    + (* the slot of the first vertex *)
      rewrite HAa, rd_wr_eq by exact Ha.
      intros [= <-]. split; [exact Hb|].
      assert (A = a) by (apply Hinj; exact HAa). subst A.
      fold ib. apply rd_wr_eq. rewrite Hlen. exact Hb.
    + (* any other slot is untouched, and so is the slot of its partner *)
      rewrite rd_wr_ne by congruence. intros HAB.
      destruct (Hsym A B HA HinA HAB HB) as [HinB HBA].
      split; [exact HinB|].
      assert (table_index ss B <> ib).
      { intros E. rewrite E, Hbnone in HBA. injection HBA as HBA.
        apply HA. symmetry. exact HBA. }
      assert (table_index ss B <> ia).
      { intros E. rewrite E, Ea in HBA. injection HBA as HBA.
        apply HA. symmetry. exact HBA. }
      rewrite !rd_wr_ne by congruence. exact HBA.
Qed.

Lemma add_all_keeps_symmetric calls : forall ss,
  index_injective ss -> symmetric ss -> second_unassigned ss calls ->
  symmetric (fake_neighbor_add_all ss calls).
Proof.
  induction calls as [|[a b] rest IH]; intros ss Hinj Hsym Hcalls; simpl.
  - exact Hsym.
  - destruct Hcalls as (Ha & Hb & Hnone & Hrest).
    apply IH.
    + apply add_index_injective. exact Hinj.
    + apply add_keeps_symmetric; assumption.
    + exact Hrest.
Qed.

Lemma init_symmetric ss totvert :
  symmetric (SCULPT_fake_neighbor_init ss totvert).
Proof.
  intros A B _ _ HAB HB. unfold fake_neighbor in HAB. simpl in HAB.
  apply rd_replicate in HAB. contradiction.
Qed.

(** C8, amended.  Starting from the all-unassigned table, after any sequence
    of [SCULPT_fake_neighbor_add] calls in each of which the second vertex
    has no fake neighbour when it is passed (what the search of the caller
    guarantees), the table is symmetric: if the entry of [A] is [B] then the
    entry of [B] is [A]. *)
Theorem fake_neighbor_table_symmetric (ss : SculptSession) (totvert : Z)
    (calls : list (PBVHVertRef * PBVHVertRef)) :
  index_injective ss ->
  second_unassigned (SCULPT_fake_neighbor_init ss totvert) calls ->
  symmetric (fake_neighbor_add_all (SCULPT_fake_neighbor_init ss totvert) calls).
Proof.
  intros Hinj Hcalls. apply add_all_keeps_symmetric.
  - exact Hinj.
  - apply init_symmetric.
  - exact Hcalls.
Qed.

(** *** The search *)

Section Search.

Variable ss : SculptSession.
Variable source : PBVHVertRef.
Variable max_distance : R.
Hypothesis max_distance_nonneg : (0 <= max_distance)%R.

Let center := SCULPT_vertex_co_get source.
Let step := fake_neighbor_search_vertex ss center (max_distance * max_distance)%R.

(** A vertex the iterator may show: it has a proper reference, and its
    squared distance to the source is a finite [float]. *)
Definition proper (vd : PBVHVertexIter) : Prop :=
  vertex vd <> PBVH_REF_NONE
  /\ (len_squared_v3v3 (co vd) (SCULPT_vertex_co_get source) < FLT_MAX)%R.

(** The accumulator after the vertices [seen]: still empty, and none of
    them was a candidate; or holding one of them, a candidate. *)
Definition search_inv (seen : list PBVHVertexIter)
    (st : NearestVertexFakeNeighborTLSData) : Prop :=
  current_topology_id st = SCULPT_vertex_get_connected_component ss source
  /\ ((nearest_vertex st = PBVH_REF_NONE
       /\ nearest_vertex_distance_squared st = FLT_MAX
       /\ forall vd, vd ∈ seen -> ~ candidate ss source max_distance vd)
      \/ (exists vd, vd ∈ seen /\ candidate ss source max_distance vd
                     /\ nearest_vertex st = vertex vd
                     /\ nearest_vertex_distance_squared st
                        = len_squared_v3v3 (co vd) center)).

(** The accumulator holds the candidate [w], up to its membership. *)
Ltac holds_at w :=
  exists w; split; [| split; [assumption | split; simpl; assumption]].

Lemma search_inv_vertex seen st vd :
  proper vd -> search_inv seen st -> search_inv (seen ++ [vd]) (step st vd).
Proof.
  intros [Hv Hfin] [Hid Hst]. fold center in Hfin.
  unfold step, fake_neighbor_search_vertex.
  set (d := len_squared_v3v3 (co vd) center) in *.
  assert (Hd : (0 <= d)%R) by apply len_squared_nonneg.
  assert (Hkeep : ~ candidate ss source max_distance vd ->
                  search_inv (seen ++ [vd]) st).
  { intros Hnc. split; [exact Hid|].
    destruct Hst as [(Hn & Hdist & Hnone) | (w & Hw & Hc & Hn & Hdist)].
    - left. repeat split; try assumption.
      intros u Hu. apply elem_of_app in Hu as [Hu|Hu]; [apply Hnone; exact Hu|].
      apply list_elem_of_singleton in Hu. subst u. exact Hnc.
    - right. holds_at w. apply elem_of_app. left. exact Hw. }
  destruct (negb (SCULPT_vertex_get_connected_component ss (vertex vd)
                  =? current_topology_id st)) eqn:Ecc; simpl.
  2:{ apply Hkeep. intros (Hc & _ & _).
      apply negb_false_iff, Z.eqb_eq in Ecc. rewrite Hid in Ecc. contradiction. }
  apply negb_true_iff, Z.eqb_neq in Ecc. rewrite Hid in Ecc.
  destruct (rd (fake_neighbor_index ss) (index vd)) as [x|] eqn:Ex.
  2:{ apply Hkeep. intros (_ & Hc & _). rewrite Ex in Hc. discriminate. }
  destruct (x =? FAKE_NEIGHBOR_NONE) eqn:Exn.
  2:{ apply Hkeep. intros (_ & Hc & _). rewrite Ex in Hc.
      apply Z.eqb_neq in Exn. congruence. }
  apply Z.eqb_eq in Exn. subst x.
  destruct (float_lt d (max_distance * max_distance)) eqn:Emax.
  2:{ rewrite andb_false_r. apply Hkeep. intros (_ & _ & Hc).
      apply float_lt_false in Emax. fold center d in Hc.
      apply sqrt_lt_square in Hc; [lra | exact Hd | exact max_distance_nonneg]. }
  apply float_lt_true in Emax.
  assert (Hcand : candidate ss source max_distance vd).
  { split; [exact Ecc | split; [exact Ex |]]. fold center d.
    apply sqrt_lt_square; assumption. }
  destruct (float_lt d (nearest_vertex_distance_squared st)) eqn:Enear; simpl.
  - split; [exact Hid|]. right. exists vd.
    split; [|split; [exact Hcand | split; reflexivity]].
    apply elem_of_app. right. apply list_elem_of_singleton. reflexivity.
  - split; [exact Hid|].
    apply float_lt_false in Enear.
    destruct Hst as [(Hn & Hdist & Hnone) | (w & Hw & Hc & Hn & Hdist)].
    + rewrite Hdist in Enear. lra.
    + right. holds_at w. apply elem_of_app. left. exact Hw.
Qed.

Lemma search_inv_node (node : PBVHNode) : forall seen st,
  Forall proper node -> search_inv seen st ->
  search_inv (seen ++ node) (fold_left step node st).
Proof.
  induction node as [|vd node IH]; intros seen st Hp Hinv; simpl.
  - rewrite app_nil_r. exact Hinv.
  - apply Forall_cons in Hp as [Hvd Hp].
    replace (seen ++ vd :: node) with ((seen ++ [vd]) ++ node)
      by (rewrite <- app_assoc; reflexivity).
    apply IH; [exact Hp|]. apply search_inv_vertex; assumption.
Qed.

Lemma search_inv_nodes (nodes : list PBVHNode) : forall seen st,
  Forall proper (concat nodes) -> search_inv seen st ->
  search_inv (seen ++ concat nodes)
    (fold_left (do_fake_neighbor_search_task_cb ss center (max_distance * max_distance)%R)
               nodes st).
Proof.
  induction nodes as [|node nodes IH]; intros seen st Hp Hinv; simpl.
  - rewrite app_nil_r. exact Hinv.
  - simpl in Hp. apply Forall_app in Hp as [Hnode Hp].
    rewrite app_assoc. apply IH; [exact Hp|].
    apply search_inv_node; assumption.
Qed.

Lemma search_inv_reduce seen1 seen2 join nvtd :
  Forall proper seen1 ->
  search_inv seen1 join -> search_inv seen2 nvtd ->
  search_inv (seen1 ++ seen2) (fake_neighbor_search_reduce join nvtd).
Proof.
  intros Hp [Hid1 H1] [Hid2 H2]. unfold fake_neighbor_search_reduce.
  assert (Htake : search_inv (seen1 ++ seen2)
            {| nearest_vertex := nearest_vertex nvtd;
               nearest_vertex_distance_squared := nearest_vertex_distance_squared nvtd;
               current_topology_id := current_topology_id join |}
          \/ (exists w, w ∈ seen1 /\ candidate ss source max_distance w)).
  { destruct H1 as [(Hn1 & Hd1 & Hnone1) | (w & Hw & Hc & _)];
      [left | right; exists w; split; assumption].
    split; [exact Hid1|]. simpl.
    destruct H2 as [(Hn2 & Hd2 & Hnone2) | (w & Hw & Hc & Hn2 & Hd2)].
    - left. repeat split; try assumption.
      intros u Hu. apply elem_of_app in Hu as [Hu|Hu]; [apply Hnone1 | apply Hnone2]; exact Hu.
    - right. holds_at w. apply elem_of_app. right. exact Hw. }
  assert (Hleft : (exists w, w ∈ seen1 /\ candidate ss source max_distance w
                             /\ nearest_vertex join = vertex w
                             /\ nearest_vertex_distance_squared join
                                = len_squared_v3v3 (co w) center) ->
                  search_inv (seen1 ++ seen2) join).
  { intros (w & Hw & Hc & Hn & Hd). split; [exact Hid1|]. right.
    holds_at w. apply elem_of_app. left. exact Hw. }
  destruct (nearest_vertex join =? PBVH_REF_NONE) eqn:En.
  - apply Z.eqb_eq in En.
    destruct H1 as [H1 | (w & Hw & Hc & Hn & Hd)].
    + destruct Htake as [Ht | (w & Hw & Hc)]; [exact Ht|].
      destruct H1 as (_ & _ & Hnone). exfalso. exact (Hnone w Hw Hc).
    + exfalso. rewrite Forall_forall in Hp. destruct (Hp w Hw) as [Hv _].
      congruence.
  - destruct H1 as [(Hn1 & _) | H1].
    { apply Z.eqb_neq in En. contradiction. }
    destruct (float_lt (nearest_vertex_distance_squared nvtd)
                       (nearest_vertex_distance_squared join)) eqn:Elt;
      [|apply Hleft; exact H1].
    apply float_lt_true in Elt.
    destruct H2 as [(Hn2 & Hd2 & Hnone2) | (u & Hu & Hcu & Hn2 & Hd2)].
    + exfalso. destruct H1 as (w & Hw & _ & _ & Hd).
      rewrite Forall_forall in Hp. destruct (Hp w Hw) as [_ Hfin].
      fold center in Hfin. rewrite Hd2, Hd in Elt. lra.
    + split; [exact Hid1|]. right. holds_at u. apply elem_of_app. right. exact Hu.
Qed.

Lemma search_inv_schedule (s : schedule) (init : NearestVertexFakeNeighborTLSData) :
  Forall proper (gathered_vertices s) ->
  search_inv [] init ->
  search_inv (gathered_vertices s)
    (BLI_task_parallel_range
       (do_fake_neighbor_search_task_cb ss center (max_distance * max_distance)%R)
       fake_neighbor_search_reduce init s).
Proof.
  unfold gathered_vertices.
  induction s as [nodes | l IHl r IHr]; intros Hp Hinit; simpl in *.
  - apply (search_inv_nodes nodes [] init Hp Hinit).
  - rewrite concat_app in *. apply Forall_app in Hp as [Hpl Hpr].
    apply search_inv_reduce; [exact Hpl | apply IHl | apply IHr]; assumption.
Qed.

(** The two outcomes of the search. *)
Lemma search_outcomes (gathered : schedule) :
  Forall proper (gathered_vertices gathered) ->
  (SCULPT_fake_neighbor_search ss gathered source max_distance = PBVH_REF_NONE
   /\ forall vd, vd ∈ gathered_vertices gathered ->
                 ~ candidate ss source max_distance vd)
  \/ (SCULPT_fake_neighbor_search ss gathered source max_distance <> PBVH_REF_NONE
      /\ exists vd, vd ∈ gathered_vertices gathered
           /\ SCULPT_fake_neighbor_search ss gathered source max_distance = vertex vd
           /\ SCULPT_vertex_get_connected_component ss (vertex vd)
                <> SCULPT_vertex_get_connected_component ss source
           /\ rd (fake_neighbor_index ss) (index vd) = Some FAKE_NEIGHBOR_NONE
           /\ (sqrt (len_squared_v3v3 (co vd) (SCULPT_vertex_co_get source))
                < max_distance)%R).
Proof.
  intros Hp. unfold SCULPT_fake_neighbor_search.
  destruct (length (schedule_nodes gathered) =? 0)%nat eqn:Etot.
  - left. split; [reflexivity|]. intros vd Hvd.
    apply Nat.eqb_eq, nil_length_inv in Etot.
    unfold gathered_vertices in Hvd. rewrite Etot in Hvd. simpl in Hvd.
    apply elem_of_nil in Hvd. contradiction.
  - fold center.
    set (init := {| nearest_vertex := -1;
                    nearest_vertex_distance_squared := FLT_MAX;
                    current_topology_id :=
                      SCULPT_vertex_get_connected_component ss source |}).
    assert (Hinit : search_inv [] init).
    { split; [reflexivity|]. left. split; [reflexivity | split; [reflexivity|]].
      intros vd Hvd. apply elem_of_nil in Hvd. contradiction. }
    destruct (search_inv_schedule gathered init Hp Hinit)
      as [_ [(Hn & _ & Hnone) | (vd & Hvd & Hc & Hn & _)]].
    + left. split; assumption.
    + right. rewrite Forall_forall in Hp. destruct (Hp vd Hvd) as [Hv _].
      split; [rewrite Hn; exact Hv|].
      exists vd. destruct Hc as (Hc1 & Hc2 & Hc3).
      split; [exact Hvd | split; [exact Hn | split; [exact Hc1 | split; assumption]]].
Qed.


End Search.

(** *** The caller *)

Section Ensure.

(** [BKE_pbvh_index_to_vertex], and the answer of [BKE_pbvh_search_gather]
    (with its spreading over tasks) for a session, a centre vertex and a
    distance. *)
Variable BKE_pbvh_index_to_vertex : Z -> PBVHVertRef.
Variable gather : SculptSession -> PBVHVertRef -> R -> schedule.

(** Body of the loop of [SCULPT_fake_neighbors_ensure] (sculpt.c, 9100). *)
Definition fake_neighbors_ensure_body (max_dist : R) (ss : SculptSession) (i : Z)
    : SculptSession :=
  let from_v := BKE_pbvh_index_to_vertex i in
  (* This vertex does not have a fake neighbor yet, seach one for it. *)
  match rd (fake_neighbor_index ss) i with
  | Some x =>
      if x =? FAKE_NEIGHBOR_NONE then
        let to_v := SCULPT_fake_neighbor_search ss (gather ss from_v max_dist)
                      from_v max_dist in
        if negb (to_v =? PBVH_REF_NONE)
        then (* Add the fake neighbor if available. *)
          SCULPT_fake_neighbor_add ss from_v to_v
        else ss
      else ss
  | None => ss
  end.

(** [SCULPT_fake_neighbors_ensure] once it has decided to rebuild the table:
    [SCULPT_fake_neighbor_init], then the loop over all vertices. *)
Definition fake_neighbors_rebuild (ss : SculptSession) (totvert : Z) (max_dist : R)
    : SculptSession :=
  fold_left (fake_neighbors_ensure_body max_dist)
            (map Z.of_nat (seq 0 (Z.to_nat totvert)))
            (SCULPT_fake_neighbor_init ss totvert).

(** The mesh the loop runs on: indices and references correspond, and the
    gathered vertices are proper and carry their own index. *)
Definition mesh_ok (ty : PBVHType) (totvert : Z) (max_dist : R) : Prop :=
  forall ss : SculptSession, pbvh_type ss = ty ->
    index_injective ss
    /\ (forall i, 0 <= i < totvert -> table_index ss (BKE_pbvh_index_to_vertex i) = i)
    /\ (forall source vd, vd ∈ gathered_vertices (gather ss source max_dist) ->
          proper source vd /\ table_index ss (vertex vd) = index vd).

Lemma ensure_body_keeps_symmetric ty totvert max_dist ss i :
  (0 <= max_dist)%R ->
  mesh_ok ty totvert max_dist ->
  0 <= i < totvert ->
  pbvh_type ss = ty ->
  Z.of_nat (length (fake_neighbor_index ss)) = totvert ->
  symmetric ss ->
  let ss' := fake_neighbors_ensure_body max_dist ss i in
  pbvh_type ss' = ty
  /\ Z.of_nat (length (fake_neighbor_index ss')) = totvert
  /\ symmetric ss'.
Proof.
  intros Hmax Hmesh Hi Hty Hlen Hsym. unfold fake_neighbors_ensure_body.
  destruct (Hmesh ss Hty) as (Hinj & Hidx & Hgather).
  destruct (rd (fake_neighbor_index ss) i) as [x|] eqn:Ei; [|split; [|split]; assumption].
  destruct (x =? FAKE_NEIGHBOR_NONE); [|split; [|split]; assumption].
  set (from := BKE_pbvh_index_to_vertex i).
  destruct (search_outcomes ss from max_dist Hmax (gather ss from max_dist))
    as [[Hnone _] | [Hsome (vd & Hvd & Hto & _ & Hfree & _)]].
  { apply Forall_forall. intros vd Hvd. apply (Hgather from vd Hvd). }
  { rewrite Hnone. simpl. split; [|split]; assumption. }
  apply Z.eqb_neq in Hsome. rewrite Hsome. simpl.
  rewrite add_pbvh_type, add_length.
  split; [exact Hty|]. split; [exact Hlen|].
  destruct (Hgather from vd Hvd) as [_ Hvdi].
  rewrite Hto.
  apply add_keeps_symmetric; try assumption.
  - unfold in_table, from. rewrite Hidx by exact Hi. lia.
  - unfold in_table. rewrite Hvdi. unfold rd in Hfree.
    destruct (index vd <? 0) eqn:E; [discriminate|]. apply Z.ltb_ge in E.
    apply lookup_lt_Some in Hfree. lia.
  - unfold fake_neighbor. rewrite Hvdi. exact Hfree.
Qed.

(** The table that [SCULPT_fake_neighbors_ensure] builds is symmetric: the
    search hands [SCULPT_fake_neighbor_add] an unassigned second vertex. *)
Lemma fake_neighbors_rebuild_symmetric (ss : SculptSession) totvert max_dist :
  (0 <= max_dist)%R ->
  mesh_ok (pbvh_type ss) totvert max_dist ->
  symmetric (fake_neighbors_rebuild ss totvert max_dist).
Proof.
  intros Hmax Hmesh. unfold fake_neighbors_rebuild.
  set (ty := pbvh_type ss) in *.
  assert (Hgen : forall (l : list Z) s0,
             (forall i, i ∈ l -> 0 <= i < totvert) ->
             pbvh_type s0 = ty ->
             Z.of_nat (length (fake_neighbor_index s0)) = totvert ->
             symmetric s0 ->
             symmetric (fold_left (fake_neighbors_ensure_body max_dist) l s0)).
  { induction l as [|i l IH]; intros s0 Hl Hty Hlen Hsym; simpl; [exact Hsym|].
    destruct (ensure_body_keeps_symmetric ty totvert max_dist s0 i)
      as (Hty' & Hlen' & Hsym'); try assumption.
    { apply Hl. apply elem_of_cons. left. reflexivity. }
    apply IH; try assumption.
    intros j Hj. apply Hl. apply elem_of_cons. right. exact Hj. }
  destruct (Z_le_gt_dec 0 totvert) as [Hpos|Hneg].
  - apply Hgen.
    + intros i Hin. apply list_elem_of_fmap in Hin as (n & -> & Hn).
      apply elem_of_seq in Hn. lia.
    + reflexivity.
    + simpl. rewrite length_replicate. lia.
    + apply init_symmetric.
  - replace (Z.to_nat totvert) with 0%nat by lia. simpl. apply init_symmetric.
Qed.

End Ensure.

End WithMesh.

(** *** Concrete tables *)

(** A face-backend session; the BMesh index function is not consulted. *)
Definition faces_session (cc : option (list Z)) : SculptSession :=
  {| pbvh_type := PBVH_FACES; fake_neighbor_index := []; connected_component := cc |}.

Definition no_bmesh (v0 : PBVHVertRef) : Z := v0.

(** C8 as stated fails: after [add(0, 1)] and [add(2, 1)] the entry of
    vertex 0 is 1, but the entry of vertex 1 is 2. *)
Lemma fake_neighbor_add_overwrites_partner :
  ~ symmetric no_bmesh
      (fake_neighbor_add_all no_bmesh
         (SCULPT_fake_neighbor_init (faces_session None) 3) [(0, 1); (2, 1)]).
Proof.
  intros Hsym.
  destruct (Hsym 0 1) as [_ H].
  - discriminate.
  - vm_compute. split; [discriminate | reflexivity].
  - reflexivity.
  - discriminate.
  - vm_compute in H. discriminate H.
Qed.

Lemma fake_neighbor_table_symmetric_witness :
  symmetric no_bmesh
    (fake_neighbor_add_all no_bmesh
       (SCULPT_fake_neighbor_init (faces_session None) 4) [(0, 1); (2, 3)]).
Proof.
  apply (fake_neighbor_table_symmetric no_bmesh (faces_session None) 4 [(0, 1); (2, 3)]).
  - intros u w H. exact H.
  - vm_compute. repeat split; try reflexivity; intro; discriminate.
Defined.

(** Two vertices, one unit apart, in two connected components. *)
Definition two_islands : SculptSession :=
  {| pbvh_type := PBVH_FACES;
     fake_neighbor_index := [FAKE_NEIGHBOR_NONE; FAKE_NEIGHBOR_NONE];
     connected_component := Some [0; 1] |}.

Definition two_islands_co (v0 : PBVHVertRef) : vec3 :=
  if v0 =? 0 then (0, 0, 0)%R else (1, 0, 0)%R.

Definition two_islands_gathered : schedule :=
  Join (Run [[ {| vertex := 0; index := 0; co := (0, 0, 0)%R |} ]])
       (Run [[ {| vertex := 1; index := 1; co := (1, 0, 0)%R |} ]]).


(** On the two islands the search from vertex 0 answers vertex 1. *)
Example two_islands_search :
  SCULPT_fake_neighbor_search no_bmesh two_islands_co two_islands two_islands_gathered 0 2
  = 1.
Proof.
  assert (Hproper : Forall (proper two_islands_co 0) (gathered_vertices two_islands_gathered)).
  { unfold gathered_vertices, proper, FLT_MAX. simpl.
    constructor; [split; [discriminate | cbv [len_squared_v3v3 two_islands_co co Z.eqb]; lra] |].
    constructor; [split; [discriminate | cbv [len_squared_v3v3 two_islands_co co Z.eqb]; lra] |].
    constructor. }
  assert (Hmax : (0 <= 2)%R) by lra.
  destruct (search_outcomes no_bmesh two_islands_co two_islands 0 2 Hmax
              two_islands_gathered Hproper)
    as [[_ Hnone] | [_ (vd & Hvd & Hto & Hcc & _)]].
  - exfalso.
    apply (Hnone {| vertex := 1; index := 1; co := (1, 0, 0)%R |}).
    + unfold gathered_vertices. simpl. apply elem_of_cons. right.
      apply elem_of_cons. left. reflexivity.
    + split; [vm_compute; discriminate | split; [reflexivity|]].
      cbv [len_squared_v3v3 two_islands_co co Z.eqb].
      replace ((1 - 0) * (1 - 0) + (0 - 0) * (0 - 0) + (0 - 0) * (0 - 0))%R with 1%R
        by ring.
      rewrite sqrt_1. lra.
  - unfold gathered_vertices in Hvd. simpl in Hvd.
    apply elem_of_cons in Hvd as [-> | Hvd].
    + exfalso. apply Hcc. reflexivity.
    + apply list_elem_of_singleton in Hvd. subst vd. exact Hto.
Qed.

End FakeNeighbors.

(* ===================================================================== *)
(** ** Flood fill *)
(* ===================================================================== *)

Module FloodFill.

Local Open Scope Z_scope.

(** [SculptFloodFill]: the FIFO queue (front first) and the bitmap of
    visited vertices. *)
Record SculptFloodFill := {
  queue : list PBVHVertRef;
  visited_vertices : list bool
}.

Definition BLI_BITMAP_TEST (bitmap : list bool) (i : Z) : bool :=
  default false (rd bitmap i).

Definition BLI_BITMAP_ENABLE (bitmap : list bool) (i : Z) : list bool :=
  wr bitmap i true.

(** The vertices not yet marked. *)
Fixpoint unvisited (bitmap : list bool) : nat :=
  match bitmap with
  | [] => 0
  | b :: rest => ((if b then 0 else 1) + unvisited rest)%nat
  end.

Section WithGraph.

(** [SCULPT_vertex_count_get] and [BKE_pbvh_vertex_to_index]. *)
Variable vertex_count : Z.
Variable BKE_pbvh_vertex_to_index : PBVHVertRef -> Z.

(** The adjacency graph: what
    [SCULPT_VERTEX_DUPLICATES_AND_NEIGHBORS_ITER_BEGIN (ss, from_v, ni)] runs
    over, as the pairs [(ni.vertex, ni.is_duplicate)] in order.  A vertex
    may occur several times (grid seams). *)
Variable neighbors : PBVHVertRef -> list (PBVHVertRef * bool).

Variable SCULPT_vertex_visible_get : PBVHVertRef -> bool.

(** The visitor: [func(ss, from_v, to_v, is_duplicate, userdata)], with the
    state [U] it reads and writes.  It does not touch the flood fill, the
    adjacency or the visibility. *)
Variable U : Type.
Variable func : U -> PBVHVertRef -> PBVHVertRef -> bool -> bool * U.

(** One invocation of the visitor, as observed: its arguments, its answer,
    and the bitmap at the moment of the call. *)
Record call := {
  from_v : PBVHVertRef;
  to_v : PBVHVertRef;
  is_duplicate : bool;
  answer : bool;
  visited_at_call : list bool
}.

(** A flood fill under way: the structure, the userdata, and the log of
    the invocations so far (oldest first). *)
Record run := {
  flood : SculptFloodFill;
  userdata : U;
  calls : list call
}.

(** [SCULPT_floodfill_init] (sculpt.c, 2456): [BLI_BITMAP_NEW] clears the
    bits. *)
Definition SCULPT_floodfill_init : SculptFloodFill :=
  {| queue := []; visited_vertices := replicate (Z.to_nat vertex_count) false |}.

(** [SCULPT_floodfill_add_initial] (sculpt.c, 2465). *)
Definition SCULPT_floodfill_add_initial (fl : SculptFloodFill) (vertex : PBVHVertRef)
    : SculptFloodFill :=
  {| queue := queue fl ++ [vertex]; visited_vertices := visited_vertices fl |}.

(** [SCULPT_floodfill_add_and_skip_initial] (sculpt.c, 2470). *)
Definition SCULPT_floodfill_add_and_skip_initial (fl : SculptFloodFill)
    (vertex : PBVHVertRef) : SculptFloodFill :=
  {| queue := queue fl ++ [vertex];
     visited_vertices :=
       BLI_BITMAP_ENABLE (visited_vertices fl) (BKE_pbvh_vertex_to_index vertex) |}.

(** A seed, by the function that adds it. *)
Inductive seed :=
| Initial (vertex : PBVHVertRef)
| AndSkipInitial (vertex : PBVHVertRef).

Definition add_seed (fl : SculptFloodFill) (s : seed) : SculptFloodFill :=
  match s with
  | Initial vertex => SCULPT_floodfill_add_initial fl vertex
  | AndSkipInitial vertex => SCULPT_floodfill_add_and_skip_initial fl vertex
  end.

(** Body of the neighbour loop of [SCULPT_floodfill_execute], for the
    neighbour [ni] of [from]. *)
Definition floodfill_visit (from : PBVHVertRef) (r : run) (ni : PBVHVertRef * bool) : run :=
  let to := ni.1 in
  let to_index := BKE_pbvh_vertex_to_index to in
  if BLI_BITMAP_TEST (visited_vertices (flood r)) to_index then r
  else if negb (SCULPT_vertex_visible_get to) then r
  else
    let visited := BLI_BITMAP_ENABLE (visited_vertices (flood r)) to_index in
    let res := func (userdata r) from to ni.2 in
    {| flood := {| queue := if res.1 then queue (flood r) ++ [to] else queue (flood r);
                   visited_vertices := visited |};
       userdata := res.2;
       calls := calls r ++ [ {| from_v := from; to_v := to; is_duplicate := ni.2;
                                answer := res.1; visited_at_call := visited |} ] |}.

(** Body of the [while] loop: pop the front of the queue and run over its
    neighbours. *)
Definition floodfill_pop (from : PBVHVertRef) (rest : list PBVHVertRef) (r : run) : run :=
  fold_left (floodfill_visit from) (neighbors from)
    {| flood := {| queue := rest; visited_vertices := visited_vertices (flood r) |};
       userdata := userdata r;
       calls := calls r |}.

(** [SCULPT_floodfill_execute] (sculpt.c, 2536).  [fuel] bounds the number
    of iterations of the [while] loop; [None] is running out of it. *)
Fixpoint SCULPT_floodfill_execute (fuel : nat) (r : run) : option run :=
  match queue (flood r) with
  | [] => Some r
  | from :: rest =>
      match fuel with
      | O => None
      | S fuel' => SCULPT_floodfill_execute fuel' (floodfill_pop from rest r)
      end
  end.

(** The start of a run. *)
Definition start (fl : SculptFloodFill) (u : U) : run :=
  {| flood := fl; userdata := u; calls := [] |}.

(** The vertices pushed on the queue by the run, in order. *)
Definition pushed (r : run) : list PBVHVertRef :=
  map to_v (filter (fun c => answer c = true) (calls r)).

(** Every neighbour has a bit in the bitmap. *)
Definition graph_in_range (bitmap_size : nat) : Prop :=
  forall from ni, ni ∈ neighbors from ->
    0 <= BKE_pbvh_vertex_to_index ni.1 < Z.of_nat bitmap_size.

(** *** The bitmap *)

Lemma length_enable (bitmap : list bool) (i : Z) :
  length (BLI_BITMAP_ENABLE bitmap i) = length bitmap.
Proof. apply length_wr. Qed.

Lemma test_enable_same (bitmap : list bool) (i : Z) :
  0 <= i < Z.of_nat (length bitmap) ->
  BLI_BITMAP_TEST (BLI_BITMAP_ENABLE bitmap i) i = true.
Proof.
  intros Hi. unfold BLI_BITMAP_TEST, BLI_BITMAP_ENABLE.
  rewrite rd_wr_eq by exact Hi. reflexivity.
Qed.

Lemma test_enable_mono (bitmap : list bool) (i j : Z) :
  BLI_BITMAP_TEST bitmap j = true ->
  BLI_BITMAP_TEST (BLI_BITMAP_ENABLE bitmap i) j = true.
Proof.
  intros Hj. destruct (Z.eq_dec i j) as [->|Hne].
  - unfold BLI_BITMAP_TEST in Hj.
    destruct (rd bitmap j) as [b|] eqn:E; [|discriminate].
    apply test_enable_same. unfold rd in E.
    destruct (j <? 0) eqn:Ej; [discriminate|]. apply Z.ltb_ge in Ej.
    apply lookup_lt_Some in E. lia.
  - unfold BLI_BITMAP_TEST, BLI_BITMAP_ENABLE in *.
    rewrite rd_wr_ne by exact Hne. exact Hj.
Qed.

Lemma unvisited_insert (bitmap : list bool) : forall n : nat,
  bitmap !! n = Some false -> S (unvisited (<[n := true]> bitmap)) = unvisited bitmap.
Proof.
  induction bitmap as [|b rest IH]; intros n Hn.
  - discriminate.
  - destruct n as [|n]; simpl in *.
    + injection Hn as ->. reflexivity.
    + rewrite <- (IH n Hn). destruct b; simpl; lia.
Qed.

Lemma unvisited_enable (bitmap : list bool) (i : Z) :
  0 <= i < Z.of_nat (length bitmap) ->
  BLI_BITMAP_TEST bitmap i = false ->
  S (unvisited (BLI_BITMAP_ENABLE bitmap i)) = unvisited bitmap.
Proof.
  intros Hi Ht. unfold BLI_BITMAP_TEST, BLI_BITMAP_ENABLE, rd, wr in *.
  rewrite (proj2 (Z.ltb_ge i 0)) in * by lia.
  destruct (lookup_lt_is_Some_2 bitmap (Z.to_nat i)) as [b Hb]; [lia|].
  rewrite Hb in Ht. simpl in Ht. subst b.
  apply unvisited_insert. exact Hb.
Qed.

Lemma unvisited_le_length (bitmap : list bool) : (unvisited bitmap <= length bitmap)%nat.
Proof. induction bitmap as [|[] rest IH]; simpl; lia. Qed.

(** *** What a run keeps true *)

Definition to_index (c : call) : Z := BKE_pbvh_vertex_to_index (to_v c).

(** Every logged vertex is marked now and was marked when the visitor was
    called on it, is visible, and no index is logged twice. *)
Definition run_inv (size : nat) (r : run) : Prop :=
  length (visited_vertices (flood r)) = size
  /\ NoDup (map to_index (calls r))
  /\ Forall (fun c => BLI_BITMAP_TEST (visited_vertices (flood r)) (to_index c) = true
                      /\ BLI_BITMAP_TEST (visited_at_call c) (to_index c) = true
                      /\ SCULPT_vertex_visible_get (to_v c) = true) (calls r).

(** The work left: entries of the queue and unmarked vertices. *)
Definition work_left (r : run) : nat :=
  (length (queue (flood r)) + unvisited (visited_vertices (flood r)))%nat.

Lemma visit_inv size from r ni :
  0 <= BKE_pbvh_vertex_to_index ni.1 < Z.of_nat size ->
  run_inv size r ->
  run_inv size (floodfill_visit from r ni)
  /\ (work_left (floodfill_visit from r ni) <= work_left r)%nat.
Proof.
  intros Hrange (Hlen & Hnd & Hall). unfold floodfill_visit.
  destruct (BLI_BITMAP_TEST (visited_vertices (flood r))
              (BKE_pbvh_vertex_to_index ni.1)) eqn:Etest.
  { split; [split; [|split]; assumption | lia]. }
  destruct (SCULPT_vertex_visible_get ni.1) eqn:Evis; simpl.
  2:{ split; [split; [|split]; assumption | lia]. }
  rewrite <- Hlen in Hrange.
  split.
  - split; [|split]; simpl.
    + rewrite length_enable. exact Hlen.
    + rewrite map_app. apply NoDup_app. split; [exact Hnd|]. split.
      * intros x Hx Hx'. simpl in Hx'. apply list_elem_of_singleton in Hx'.
        unfold to_index in Hx'. simpl in Hx'. subst x.
        apply list_elem_of_fmap in Hx as (c & Hc & Hin).
        rewrite Forall_forall in Hall. destruct (Hall c Hin) as (Hm & _).
        rewrite <- Hc in Hm. congruence.
      * simpl. apply NoDup_singleton.
    + apply Forall_app. split.
      * eapply Forall_impl; [exact Hall|]. intros c (Hm & Hc & Hv).
        split; [|split; assumption]. apply test_enable_mono. exact Hm.
      * apply Forall_singleton. unfold to_index. simpl.
        split; [|split]; try apply test_enable_same; try exact Hrange. exact Evis.
  - unfold work_left. simpl.
    pose proof (unvisited_enable _ _ Hrange Etest) as Hu.
    destruct (func (userdata r) from ni.1 ni.2).1; simpl;
      rewrite ?length_app; simpl; lia.
Qed.

Lemma visits_inv size from (l : list (PBVHVertRef * bool)) : forall r,
  (forall ni, ni ∈ l -> 0 <= BKE_pbvh_vertex_to_index ni.1 < Z.of_nat size) ->
  run_inv size r ->
  run_inv size (fold_left (floodfill_visit from) l r)
  /\ (work_left (fold_left (floodfill_visit from) l r) <= work_left r)%nat.
Proof.
  induction l as [|ni l IH]; intros r Hrange Hinv; simpl.
  - split; [exact Hinv | lia].
  - destruct (visit_inv size from r ni) as [Hinv' Hwork].
    { apply Hrange. apply elem_of_cons. left. reflexivity. }
    { exact Hinv. }
    destruct (IH (floodfill_visit from r ni)) as [Hinv'' Hwork'].
    { intros n Hn. apply Hrange. apply elem_of_cons. right. exact Hn. }
    { exact Hinv'. }
    split; [exact Hinv'' | lia].
Qed.

Lemma pop_inv size from rest r :
  graph_in_range size ->
  queue (flood r) = from :: rest ->
  run_inv size r ->
  run_inv size (floodfill_pop from rest r)
  /\ (S (work_left (floodfill_pop from rest r)) <= work_left r)%nat.
Proof.
  intros Hgraph Hq Hinv. unfold floodfill_pop.
  match goal with |- context [fold_left _ _ ?r0] => set (r1 := r0) end.
  assert (Hinv1 : run_inv size r1) by exact Hinv.
  assert (Hwork1 : S (work_left r1) = work_left r).
  { unfold work_left, r1. simpl. rewrite Hq. simpl. reflexivity. }
  destruct (visits_inv size from (neighbors from) r1) as [Hinv' Hwork'].
  { intros ni Hni. apply (Hgraph from ni Hni). }
  { exact Hinv1. }
  split; [exact Hinv' | lia].
Qed.

Lemma execute_inv size : forall fuel r r',
  graph_in_range size -> run_inv size r ->
  SCULPT_floodfill_execute fuel r = Some r' ->
  run_inv size r' /\ queue (flood r') = [].
Proof.
  induction fuel as [|fuel IH]; intros r r' Hgraph Hinv Hex; simpl in Hex;
    destruct (queue (flood r)) as [|from rest] eqn:Hq.
  - injection Hex as <-. split; assumption.
  - discriminate.
  - injection Hex as <-. split; assumption.
  - apply (IH (floodfill_pop from rest r)); [exact Hgraph | | exact Hex].
    apply (pop_inv size from rest r Hgraph Hq Hinv).
Qed.

Lemma execute_enough_fuel size : forall fuel r,
  graph_in_range size -> run_inv size r ->
  (work_left r <= fuel)%nat ->
  exists r', SCULPT_floodfill_execute fuel r = Some r'.
Proof.
  induction fuel as [|fuel IH]; intros r Hgraph Hinv Hfuel; simpl;
    destruct (queue (flood r)) as [|from rest] eqn:Hq.
  - exists r. reflexivity.
  - unfold work_left in Hfuel. rewrite Hq in Hfuel. simpl in Hfuel. lia.
  - exists r. reflexivity.
  - destruct (pop_inv size from rest r Hgraph Hq Hinv) as [Hinv' Hwork].
    apply IH; [exact Hgraph | exact Hinv' | lia].
Qed.

Lemma start_inv fl u : run_inv (length (visited_vertices fl)) (start fl u).
Proof.
  split; [reflexivity|]. split; simpl; [apply NoDup_nil_2 | apply Forall_nil_2].
Qed.

Lemma NoDup_map_filter {A B} (f : A -> B) (P : A -> Prop) `{forall x, Decision (P x)}
    (l : list A) :
  NoDup (map f l) -> NoDup (map f (filter P l)).
Proof.
  induction l as [|x l IH]; intros Hnd; simpl in *.
  - exact Hnd.
  - apply NoDup_cons in Hnd as [Hx Hnd].
    rewrite filter_cons. destruct (decide (P x)); simpl; [|apply IH; exact Hnd].
    apply NoDup_cons. split; [|apply IH; exact Hnd].
    intros Hin. apply Hx.
    apply list_elem_of_fmap in Hin as (y & Hy & Hin).
    apply list_elem_of_fmap. exists y. split; [exact Hy|].
    apply list_elem_of_filter in Hin as [_ Hin]. exact Hin.
Qed.

Lemma add_seed_length fl s :
  length (visited_vertices (add_seed fl s)) = length (visited_vertices fl)
  /\ length (queue (add_seed fl s)) = S (length (queue fl)).
Proof.
  destruct s; simpl; rewrite ?length_enable, length_app; simpl; split; lia.
Qed.

Lemma add_seeds_length (seeds : list seed) : forall fl,
  length (visited_vertices (fold_left add_seed seeds fl)) = length (visited_vertices fl)
  /\ length (queue (fold_left add_seed seeds fl)) = (length seeds + length (queue fl))%nat.
Proof.
  induction seeds as [|s seeds IH]; intros fl; simpl.
  - split; reflexivity.
  - destruct (IH (add_seed fl s)) as [Hv Hq].
    destruct (add_seed_length fl s) as [Hv' Hq'].
    rewrite Hv, Hq, Hv', Hq'. split; lia.
Qed.

(** C2.  In one run of [SCULPT_floodfill_execute], from any seeds, over any
    graph (duplicates included) and for any visitor: the run ends; no vertex
    is passed twice as [to_v] to the visitor; each was marked in the bitmap
    when the visitor was called on it; and each is visible. *)
Theorem floodfill_visits_at_most_once (fl : SculptFloodFill) (u : U) :
  graph_in_range (length (visited_vertices fl)) ->
  (exists r', SCULPT_floodfill_execute (work_left (start fl u)) (start fl u) = Some r')
  /\ forall fuel r',
       SCULPT_floodfill_execute fuel (start fl u) = Some r' ->
       NoDup (map to_v (calls r'))
       /\ NoDup (map to_index (calls r'))
       /\ Forall (fun c => BLI_BITMAP_TEST (visited_at_call c) (to_index c) = true
                           /\ SCULPT_vertex_visible_get (to_v c) = true) (calls r').
Proof.
  intros Hgraph. split.
  - apply (execute_enough_fuel (length (visited_vertices fl))).
    + exact Hgraph.
    + apply start_inv.
    + lia.
  - intros fuel r' Hex.
    destruct (execute_inv _ fuel (start fl u) r' Hgraph (start_inv fl u) Hex)
      as [(_ & Hnd & Hall) _].
    split; [|split].
    + apply (NoDup_fmap_1 BKE_pbvh_vertex_to_index).
      rewrite <- list_fmap_compose. exact Hnd.
    + exact Hnd.
    + eapply Forall_impl; [exact Hall|]. intros c (_ & Hc & Hv). split; assumption.
Qed.

(** C10.  [SCULPT_floodfill_execute] ends, for every graph, every seeds
    and every visitor: after [SCULPT_floodfill_init] and the seeds, a number
    of iterations of the [while] loop bounded by the number of seeds plus
    the number of vertices empties the queue; and no vertex is pushed twice
    by the run. *)
Theorem floodfill_execute_terminates (seeds : list seed) (u : U) :
  graph_in_range (Z.to_nat vertex_count) ->
  exists r',
    SCULPT_floodfill_execute (length seeds + Z.to_nat vertex_count)
      (start (fold_left add_seed seeds SCULPT_floodfill_init) u) = Some r'
    /\ queue (flood r') = []
    /\ NoDup (pushed r')
    /\ NoDup (map BKE_pbvh_vertex_to_index (pushed r')).
Proof.
  intros Hgraph.
  set (fl := fold_left add_seed seeds SCULPT_floodfill_init).
  destruct (add_seeds_length seeds SCULPT_floodfill_init) as [Hv Hq].
  fold fl in Hv, Hq. simpl in Hv, Hq. rewrite length_replicate in Hv.
  rewrite Nat.add_0_r in Hq.
  assert (Hinv : run_inv (Z.to_nat vertex_count) (start fl u)).
  { rewrite <- Hv. apply start_inv. }
  destruct (execute_enough_fuel (Z.to_nat vertex_count)
              (length seeds + Z.to_nat vertex_count) (start fl u) Hgraph Hinv)
    as [r' Hex].
  { unfold work_left. simpl. rewrite Hq.
    pose proof (unvisited_le_length (visited_vertices fl)). lia. }
  exists r'. split; [exact Hex|].
  destruct (execute_inv _ _ _ r' Hgraph Hinv Hex) as [(_ & Hnd & _) Hempty].
  split; [exact Hempty|].
  assert (Hp : NoDup (map BKE_pbvh_vertex_to_index (pushed r'))).
  { unfold pushed. rewrite map_map.
    apply (NoDup_map_filter to_index (fun c => answer c = true)). exact Hnd. }
  split; [|exact Hp].
  apply (NoDup_fmap_1 BKE_pbvh_vertex_to_index). exact Hp.
Qed.

End WithGraph.

(** *** A concrete graph *)

(** Three vertices in a row, [0 - 1 - 2], the edge from 0 to 1 listed twice
    (the second time as a duplicate). *)
Definition row_neighbors (v0 : PBVHVertRef) : list (PBVHVertRef * bool) :=
  if v0 =? 0 then [(1, false); (1, true)]
  else if v0 =? 1 then [(0, false); (2, false)]
  else if v0 =? 2 then [(1, false)]
  else [].

Definition row_index (v0 : PBVHVertRef) : Z := v0.
Definition all_visible (v0 : PBVHVertRef) : bool := true.

(** A visitor that counts its invocations and always continues. *)
Definition counting (n : nat) (from to : PBVHVertRef) (dup : bool) : bool * nat :=
  (true, S n).

Lemma row_in_range : graph_in_range row_index row_neighbors 3.
Proof.
  intros from ni Hni. unfold row_neighbors in Hni. unfold row_index.
  destruct (from =? 0); [|destruct (from =? 1); [|destruct (from =? 2)]];
    repeat (apply elem_of_cons in Hni as [-> | Hni]; [simpl; lia|]);
    apply elem_of_nil in Hni; contradiction.
Qed.

Example row_run :
  option_map (fun r => (map to_v (calls nat r), userdata nat r))
    (SCULPT_floodfill_execute row_index row_neighbors all_visible nat counting 4
       (start nat (SCULPT_floodfill_add_initial (SCULPT_floodfill_init 3) 0) 0%nat))
  = Some ([1; 0; 2], 3%nat).
Proof. vm_compute. reflexivity. Qed.

Lemma floodfill_visits_at_most_once_witness :
  exists r',
    SCULPT_floodfill_execute row_index row_neighbors all_visible nat counting 4
      (start nat (SCULPT_floodfill_add_initial (SCULPT_floodfill_init 3) 0) 0%nat)
    = Some r'
    /\ NoDup (map to_v (calls nat r'))
    /\ Forall (fun c => all_visible (to_v c) = true) (calls nat r').
Proof.
  destruct (floodfill_visits_at_most_once row_index row_neighbors all_visible nat
              counting (SCULPT_floodfill_add_initial (SCULPT_floodfill_init 3) 0) 0%nat)
    as [[r' Hex] H].
  - simpl. exact row_in_range.
  - exists r'. split; [exact Hex|].
    destruct (H _ r' Hex) as (Hnd & _ & Hall). split; [exact Hnd|].
    eapply Forall_impl; [exact Hall|]. intros c [_ Hv]. exact Hv.
Defined.

Lemma floodfill_execute_terminates_witness :
  exists r',
    SCULPT_floodfill_execute row_index row_neighbors all_visible nat counting
      (length [Initial 0; AndSkipInitial 2] + Z.to_nat 3)
      (start nat (fold_left (add_seed row_index) [Initial 0; AndSkipInitial 2]
                    (SCULPT_floodfill_init 3)) 0%nat) = Some r'
    /\ queue (flood nat r') = []
    /\ NoDup (pushed nat r')
    /\ NoDup (map row_index (pushed nat r')).
Proof.
  apply (floodfill_execute_terminates 3 row_index row_neighbors all_visible nat counting
           [Initial 0; AndSkipInitial 2] 0%nat).
  exact row_in_range.
Defined.

End FloodFill.

(* ===================================================================== *)
(** ** Brush tests *)
(* ===================================================================== *)

Module BrushTest.

Import SpecFloat.

(** *** Single precision *)

(** The brush tests decide by comparisons of [float] values, which
    rounding can turn: here a C [float] is an IEEE 754 binary32 value,
    [spec_float] with 24 bits of precision and the exponent range of
    single precision, with signed zeros, infinities and NaN, and every
    operation rounds to the nearest value, ties to even. *)
Definition prec : Z := 24.
Definition emax : Z := 128.

Definition float : Type := spec_float.

Definition f32_add : float -> float -> float := SFadd prec emax.
Definition f32_sub : float -> float -> float := SFsub prec emax.
Definition f32_mul : float -> float -> float := SFmul prec emax.
Definition f32_div : float -> float -> float := SFdiv prec emax.
(** [sqrtf], [fabsf] *)
Definition f32_sqrt : float -> float := SFsqrt prec emax.
Definition f32_abs : float -> float := SFabs.

(** [a < b], [a <= b], [a > b]; false when an operand is NaN. *)
Definition f32_lt (a b : float) : bool := SFltb a b.
Definition f32_le (a b : float) : bool := SFleb a b.
Definition f32_gt (a b : float) : bool := SFltb b a.

(** [0.0f], [1.0f], and the powers of two [2^n] of the normal range. *)
Definition f32_0 : float := S754_zero false.
Definition f32_1 : float := S754_finite false 8388608 (-23).
Definition f32_pow2 (n : Z) : float := S754_finite false 8388608 (n - 23).

(** A value of the format: the mantissa and the exponent of a finite value
    are those the format allows. *)
Definition f32_valid (a : float) : bool := valid_binary prec emax a.

Definition is_zero (a : float) : bool :=
  match a with S754_zero _ => true | _ => false end.

Definition is_finite (a : float) : bool :=
  match a with S754_zero _ | S754_finite _ _ _ => true | _ => false end.

(** Division of [float]s, with the zero divisor told apart. *)
Definition fdiv (a b : float) : option float :=
  if is_zero b then None else Some (f32_div a b).

(** Points and vectors, [float[3]] and [float[4]]. *)
Definition fvec3 : Type := float * float * float.
Definition fvec4 : Type := float * float * float * float.

(** Modelled from the spec: [len_squared_v3v3], [len_v2v2], [min_ff] and
    [max_ff] belong to the math library, outside the sources at hand.  The
    first is the squared Euclidean distance, the second the Euclidean
    distance of the first two coordinates, both computed in [float]: the
    differences, their squares, summed in order.  The last two are the
    smaller and the larger of two values, [(a < b) ? a : b] and
    [(a > b) ? a : b]. *)
Definition len_squared_v3v3 (a b : fvec3) : float :=
  let '(ax, ay, az) := a in
  let '(bx, by_, bz) := b in
  let dx := f32_sub bx ax in
  let dy := f32_sub by_ ay in
  let dz := f32_sub bz az in
  f32_add (f32_add (f32_mul dx dx) (f32_mul dy dy)) (f32_mul dz dz).

Definition len_v2v2 (a b : float * float) : float :=
  let x := f32_sub a.1 b.1 in
  let y := f32_sub a.2 b.2 in
  f32_sqrt (f32_add (f32_mul x x) (f32_mul y y)).

Definition min_ff (a b : float) : float := if f32_lt a b then a else b.
Definition max_ff (a b : float) : float := if f32_gt a b then a else b.

(** *** The order of the values *)

Local Open Scope Z_scope.

(** The place of a value in the order that the comparisons follow: NaN has
    none, the two zeros share one. *)
Definition key (f : float) : option (Z * Z * Z) :=
  match f with
  | S754_nan => None
  | S754_infinity true => Some (-2, 0, 0)
  | S754_finite true m e => Some (-1, - e, Z.neg m)
  | S754_zero _ => Some (0, 0, 0)
  | S754_finite false m e => Some (1, e, Z.pos m)
  | S754_infinity false => Some (2, 0, 0)
  end.

Definition key_lt (a b : Z * Z * Z) : Prop :=
  a.1.1 < b.1.1
  \/ (a.1.1 = b.1.1 /\ (a.1.2 < b.1.2 \/ (a.1.2 = b.1.2 /\ a.2 < b.2))).

Definition below (a b : float) : Prop :=
  match key a, key b with
  | Some ka, Some kb => key_lt ka kb
  | _, _ => False
  end.

Definition level (a b : float) : Prop :=
  match key a, key b with
  | Some ka, Some kb => ka = kb
  | _, _ => False
  end.

Lemma compare_below a b : SFcompare a b = Some Lt <-> below a b.
Proof.
  unfold below, key_lt.
  destruct a as [[]|[]| |[] m1 e1], b as [[]|[]| |[] m2 e2]; simpl;
    try (split; [discriminate | intros H; lia]);
    try (split; [intros _; lia | reflexivity]);
    try (split; [discriminate | intros H; contradiction]).
  - change (Pos.compare_cont Eq m1 m2) with (Pos.compare m1 m2).
    destruct (Z.compare_spec e1 e2), (Pos.compare_spec m1 m2); simpl;
      split; try discriminate; try reflexivity; try lia.
  - change (Pos.compare_cont Eq m1 m2) with (Pos.compare m1 m2).
    destruct (Z.compare_spec e1 e2), (Pos.compare_spec m1 m2); simpl;
      split; try discriminate; try reflexivity; try lia.
Qed.

Lemma compare_level a b : SFcompare a b = Some Eq <-> level a b.
Proof.
  unfold level.
  destruct a as [[]|[]| |[] m1 e1], b as [[]|[]| |[] m2 e2]; simpl;
    try (split; [discriminate | intros H; congruence]);
    try (split; [intros _; reflexivity | reflexivity]);
    try (split; [discriminate | intros H; contradiction]).
  - change (Pos.compare_cont Eq m1 m2) with (Pos.compare m1 m2).
    destruct (Z.compare_spec e1 e2), (Pos.compare_spec m1 m2); simpl;
      split; try discriminate; try reflexivity; try (intros [= H1 H2]; lia);
      intros _; f_equal; f_equal; lia.
  - change (Pos.compare_cont Eq m1 m2) with (Pos.compare m1 m2).
    destruct (Z.compare_spec e1 e2), (Pos.compare_spec m1 m2); simpl;
      split; try discriminate; try reflexivity; try (intros [= H1 H2]; lia);
      intros _; f_equal; f_equal; lia.
Qed.

Lemma f32_lt_true a b : f32_lt a b = true <-> below a b.
Proof.
  unfold f32_lt, SFltb. rewrite <- compare_below.
  destruct (SFcompare a b) as [[]|]; split; congruence.
Qed.

Lemma f32_gt_true a b : f32_gt a b = true <-> below b a.
Proof. apply f32_lt_true. Qed.

Lemma f32_le_true a b : f32_le a b = true <-> below a b \/ level a b.
Proof.
  unfold f32_le, SFleb. rewrite <- compare_below, <- compare_level.
  destruct (SFcompare a b) as [[]|]; split; intros H;
    try reflexivity; try discriminate; try (destruct H; discriminate);
    [right; reflexivity | left; reflexivity].
Qed.

(** What the order lemmas below need of [below] and [level]. *)
Lemma below_cases a b :
  below a b \/ level a b \/ below b a \/ key a = None \/ key b = None.
Proof.
  unfold below, level, key_lt.
  destruct (key a) as [[[c1 e1] m1]|], (key b) as [[[c2 e2] m2]|]; simpl; try tauto.
  destruct (Z.lt_trichotomy c1 c2) as [H | [H | H]]; [lia | | lia].
  destruct (Z.lt_trichotomy e1 e2) as [H' | [H' | H']]; [lia | | lia].
  destruct (Z.lt_trichotomy m1 m2) as [H'' | [H'' | H'']]; [lia | | lia].
  right. left. congruence.
Qed.

Lemma below_trans a b c : below a b -> below b c -> below a c.
Proof.
  unfold below, key_lt.
  destruct (key a) as [[[c1 e1] m1]|], (key b) as [[[c2 e2] m2]|],
           (key c) as [[[c3 e3] m3]|]; simpl; try tauto. lia.
Qed.

Lemma below_level a b c : below a b -> level b c -> below a c.
Proof.
  unfold below, level, key_lt.
  destruct (key a) as [[[c1 e1] m1]|], (key b) as [[[c2 e2] m2]|],
           (key c) as [[[c3 e3] m3]|]; simpl; try tauto.
  intros H [= <- <- <-]. exact H.
Qed.

Lemma level_below a b c : level a b -> below b c -> below a c.
Proof.
  unfold below, level, key_lt.
  destruct (key a) as [[[c1 e1] m1]|], (key b) as [[[c2 e2] m2]|],
           (key c) as [[[c3 e3] m3]|]; simpl; try tauto.
  intros [= -> -> ->] H. exact H.
Qed.

Lemma below_irrefl a b : below a b -> ~ below b a /\ ~ level b a.
Proof.
  unfold below, level, key_lt.
  destruct (key a) as [[[c1 e1] m1]|], (key b) as [[[c2 e2] m2]|]; simpl; try tauto.
  intros H. split; [lia | intros [= -> -> ->]; lia].
Qed.

Lemma below_key a b : below a b -> key a <> None /\ key b <> None.
Proof.
  unfold below. destruct (key a), (key b); try tauto. intros _. split; discriminate.
Qed.

Lemma level_key a b : level a b -> key a <> None /\ key b <> None.
Proof.
  unfold level. destruct (key a), (key b); try tauto. intros _. split; discriminate.
Qed.

Lemma f32_le_key a b : f32_le a b = true -> key a <> None /\ key b <> None.
Proof.
  rewrite f32_le_true. intros [H | H]; [apply (below_key _ _ H) | apply (level_key _ _ H)].
Qed.

(** [a <= b] excludes [a > b]. *)
Lemma f32_le_not_gt a b : f32_le a b = true -> f32_gt a b = false.
Proof.
  intros H. apply not_true_is_false. rewrite f32_gt_true. intros Hgt.
  apply f32_le_true in H as [H | H].
  - destruct (below_irrefl a b H) as [H1 _]. exact (H1 Hgt).
  - destruct (below_irrefl b a Hgt) as [_ H2]. exact (H2 H).
Qed.

(** Above a threshold: the smaller of two values is when both are, the
    larger when one is. *)
Lemma min_ff_gt a b c :
  key a <> None -> key b <> None ->
  f32_gt (min_ff a b) c = f32_gt a c && f32_gt b c.
Proof.
  intros Ha Hb. unfold min_ff.
  destruct (f32_lt a b) eqn:E.
  - apply f32_lt_true in E.
    destruct (f32_gt a c) eqn:Eac; [|reflexivity].
    apply f32_gt_true in Eac. symmetry. apply f32_gt_true.
    apply (below_trans _ _ _ Eac E).
  - destruct (f32_gt b c) eqn:Ebc; [|rewrite andb_false_r; reflexivity].
    rewrite andb_true_r. symmetry. apply f32_gt_true. apply f32_gt_true in Ebc.
    destruct (below_cases a b) as [H | [H | [H | [H | H]]]]; try contradiction.
    + apply f32_lt_true in H. congruence.
    + apply (below_level c b a Ebc). unfold level in *.
      destruct (key a), (key b); try contradiction. symmetry. exact H.
    + apply (below_trans _ _ _ Ebc H).
Qed.

Lemma max_ff_gt a b c :
  key a <> None -> key b <> None ->
  f32_gt (max_ff a b) c = f32_gt a c || f32_gt b c.
Proof.
  intros Ha Hb. unfold max_ff.
  destruct (f32_gt a b) eqn:E.
  - apply f32_gt_true in E.
    destruct (f32_gt a c) eqn:Eac; [reflexivity|]. simpl.
    destruct (f32_gt b c) eqn:Ebc; [|reflexivity].
    apply f32_gt_true in Ebc. apply not_true_iff_false in Eac.
    exfalso. apply Eac. apply f32_gt_true. apply (below_trans _ _ _ Ebc E).
  - destruct (f32_gt b c) eqn:Ebc; [rewrite orb_true_r; reflexivity|].
    rewrite orb_false_r. symmetry. apply not_true_is_false. intros Eac.
    apply f32_gt_true in Eac. apply not_true_iff_false in Ebc. apply Ebc.
    apply f32_gt_true.
    destruct (below_cases a b) as [H | [H | [H | [H | H]]]]; try contradiction.
    + apply (below_trans _ _ _ Eac H).
    + apply (below_level _ _ _ Eac H).
    + apply f32_gt_true in H. congruence.
Qed.

(** With one value above the threshold and the other not, the larger is
    the one above. *)
Lemma max_ff_left a b c :
  key b <> None -> f32_gt a c = true -> f32_gt b c = false -> max_ff a b = a.
Proof.
  intros Hb Ha Hbc. unfold max_ff.
  apply f32_gt_true in Ha. apply not_true_iff_false in Hbc.
  destruct (f32_gt a b) eqn:E; [reflexivity|]. exfalso.
  apply not_true_iff_false in E. apply E. apply f32_gt_true.
  destruct (below_cases c b) as [H | [H | [H | [H | H]]]].
  - exfalso. apply Hbc. apply f32_gt_true. exact H.
  - apply (level_below b c a); [|exact Ha]. unfold level in *.
    destruct (key c), (key b); try contradiction. symmetry. exact H.
  - apply (below_trans _ _ _ H Ha).
  - apply below_key in Ha as [Hc _]. contradiction.
  - contradiction.
Qed.

Lemma max_ff_right a b c :
  f32_gt a c = false -> f32_gt b c = true -> max_ff a b = b.
Proof.
  intros Hac Hb. unfold max_ff.
  apply f32_gt_true in Hb. apply not_true_iff_false in Hac.
  destruct (f32_gt a b) eqn:E; [|reflexivity]. exfalso.
  apply f32_gt_true in E. apply Hac. apply f32_gt_true.
  apply (below_trans _ _ _ Hb E).
Qed.

(** *** Arithmetic used below *)

Lemma f32_mul_1_r s m e :
  bounded prec emax m e = true ->
  f32_mul (S754_finite s m e) f32_1 = S754_finite s m e.
Proof.
  intros Hb. unfold f32_mul, SFmul, f32_1.
  unfold bounded, canonical_mantissa in Hb.
  apply andb_true_iff in Hb as [Hc He].
  apply Z.eqb_eq in Hc.
  rewrite xorb_false_r, Pos.mul_comm.
  change (Pos.mul 8388608 m) with (Pos.iter xO m 23).
  unfold binary_round_aux, shr_fexp. unfold Zdigits2 at 1.
  replace (Z.pos (digits2_pos (Pos.iter xO m 23)) + (e + -23))
    with (Z.pos (digits2_pos m) + e) by (simpl; lia).
  rewrite Hc.
  replace (e - (e + -23)) with 23 by lia.
  assert (Hit : SpecFloat.iter_pos shr_1 23
                  {| shr_m := Z.pos (Pos.iter xO m 23); shr_r := false; shr_s := false |}
                = {| shr_m := Z.pos m; shr_r := false; shr_s := false |}) by reflexivity.
  cbv beta iota delta [shr shr_record_of_loc]. rewrite Hit.
  cbn [shr_m loc_of_shr_record round_nearest_even Zdigits2].
  replace (e + -23 + 23) with e by lia. rewrite Hc, Z.sub_diag.
  cbn [shr_m]. rewrite He. reflexivity.
Qed.

Lemma f32_sub_diag (a : float) : is_finite a = true -> f32_sub a a = f32_0.
Proof.
  destruct a as [s|s| |s m e]; try discriminate; intros _.
  - destruct s; reflexivity.
  - unfold f32_sub, SFsub. rewrite Z.sub_diag. reflexivity.
Qed.

(** The squared distance of a point to itself is zero. *)
Lemma len_squared_v3v3_same_point (a : fvec3) :
  is_finite a.1.1 = true -> is_finite a.1.2 = true -> is_finite a.2 = true ->
  len_squared_v3v3 a a = f32_0.
Proof.
  destruct a as [[x y] z]. simpl. intros Hx Hy Hz.
  unfold len_squared_v3v3. rewrite !f32_sub_diag by assumption. reflexivity.
Qed.

(** Times zero, a value is zero or not a number, and never above zero. *)
Lemma f32_mul_zero_not_gt (d z : float) :
  is_zero z = true -> f32_gt (f32_mul d (f32_mul d z)) z = false.
Proof.
  destruct z as [sz| | |]; try discriminate. intros _.
  destruct d as [[]|[]| |[] m e]; destruct sz; reflexivity.
Qed.

(** A roundness between 0 and 1 is a zero or a positive finite value. *)
Lemma roundness_cases (r : float) :
  f32_le f32_0 r = true -> f32_le r f32_1 = true ->
  (exists s, r = S754_zero s) \/ (exists m e, r = S754_finite false m e).
Proof.
  intros H0 H1. destruct r as [s|[]| |[] m e]; try discriminate.
  - left. exists s. reflexivity.
  - right. exists m, e. reflexivity.
Qed.

(** *** The rule of the three regions *)

(** The operations the rule is made of.  [f32_arith] is the arithmetic of the
    code, every operation rounded to [float]; [real_arith] is the arithmetic
    of the real numbers. *)
Record arith (T : Type) := {
  a_gt : T -> T -> bool;
  a_sub : T -> T -> T;
  a_div : T -> T -> T;
  a_len : T * T -> T * T -> T;
  a_zero : T
}.

Arguments a_gt {T}.
Arguments a_sub {T}.
Arguments a_div {T}.
Arguments a_len {T}.
Arguments a_zero {T}.

(** The three regions in the words of the specification, for the hardness
    threshold [c] and the falloff side [f], at absolute local coordinates
    [x] and [y]: in the corner (both above the threshold) the Euclidean
    distance to the centre of the corner circle over the falloff side; on
    a flat side (one above) linear in that coordinate; in the core 0. *)
Definition corner_distance {T} (ar : arith T) (c f x y : T) : T :=
  a_div ar (a_len ar (c, c) (x, y)) f.

Definition side_distance {T} (ar : arith T) (c f a : T) : T :=
  a_div ar (a_sub ar a c) f.

Definition cube_rule {T} (ar : arith T) (c f x y : T) : T :=
  if a_gt ar x c && a_gt ar y c then corner_distance ar c f x y
  else if a_gt ar x c then side_distance ar c f x
  else if a_gt ar y c then side_distance ar c f y
  else a_zero ar.

Definition f32_arith : arith float :=
  {| a_gt := f32_gt; a_sub := f32_sub; a_div := f32_div; a_len := len_v2v2;
     a_zero := f32_0 |}.



(** **** In exact arithmetic: the rule as a norm, the boundaries, and a
    bound on the variation *)

Section Exact.

Local Open Scope R_scope.










End Exact.


(** *** The tests *)

Section WithView.

(** The view and the matrix library, outside the sources at hand. *)
Variable RegionView3D : Type.
Variable ED_view3d_clipping_test : RegionView3D -> fvec3 -> bool -> bool.
Variable flip_v3_v3 : fvec3 -> Z -> fvec3.
Variable mat4 : Type.
Variable mul_m4_v3 : mat4 -> fvec3 -> fvec3.
Variable closest_to_plane_normalized_v3 : fvec4 -> fvec3 -> fvec3.

Record SculptBrushTest := {
  radius_squared : float;
  radius : float;
  location : fvec3;
  dist : float;
  mirror_symmetry_pass : Z;
  radial_symmetry_pass : Z;
  symm_rot_mat_inv : mat4;
  tip_roundness : float;
  tip_scale_x : float;
  cube_matrix : mat4;
  plane_view : fvec4;
  clip_rv3d : option RegionView3D
}.

(** [test->dist = d] *)
Definition set_dist (test : SculptBrushTest) (d : float) : SculptBrushTest :=
  {| radius_squared := radius_squared test;
     radius := radius test;
     location := location test;
     dist := d;
     mirror_symmetry_pass := mirror_symmetry_pass test;
     radial_symmetry_pass := radial_symmetry_pass test;
     symm_rot_mat_inv := symm_rot_mat_inv test;
     tip_roundness := tip_roundness test;
     tip_scale_x := tip_scale_x test;
     cube_matrix := cube_matrix test;
     plane_view := plane_view test;
     clip_rv3d := clip_rv3d test |}.

(** [sculpt_brush_test_clipping] (sculpt.c, 2977). *)
Definition sculpt_brush_test_clipping (test : SculptBrushTest) (co : fvec3) : bool :=
  match clip_rv3d test with
  | None => false
  | Some rv3d =>
      let symm_co := flip_v3_v3 co (mirror_symmetry_pass test) in
      let symm_co :=
        if radial_symmetry_pass test =? 0 then symm_co
        else mul_m4_v3 (symm_rot_mat_inv test) symm_co in
      ED_view3d_clipping_test rv3d symm_co true
  end.

(** [SCULPT_brush_test_sphere] (sculpt.c, 2991). *)
Definition SCULPT_brush_test_sphere (test : SculptBrushTest) (co : fvec3)
    : bool * SculptBrushTest :=
  let distsq := len_squared_v3v3 co (location test) in
  if f32_gt distsq (radius_squared test) then (false, test)
  else if sculpt_brush_test_clipping test co then (false, test)
  else (true, set_dist test (f32_sqrt distsq)).

(** [SCULPT_brush_test_sphere_sq] (sculpt.c, 3033). *)
Definition SCULPT_brush_test_sphere_sq (test : SculptBrushTest) (co : fvec3)
    : bool * SculptBrushTest :=
  let distsq := len_squared_v3v3 co (location test) in
  if f32_gt distsq (radius_squared test) then (false, test)
  else if sculpt_brush_test_clipping test co then (false, test)
  else (true, set_dist test distsq).

(** [SCULPT_brush_test_sphere_fast] (sculpt.c, 3047). *)
Definition SCULPT_brush_test_sphere_fast (test : SculptBrushTest) (co : fvec3) : bool :=
  if sculpt_brush_test_clipping test co then false
  else f32_le (len_squared_v3v3 co (location test)) (radius_squared test).

(** [SCULPT_brush_test_circle_sq] (sculpt.c, 3055). *)
Definition SCULPT_brush_test_circle_sq (test : SculptBrushTest) (co : fvec3)
    : bool * SculptBrushTest :=
  let co_proj := closest_to_plane_normalized_v3 (plane_view test) co in
  let distsq := len_squared_v3v3 co_proj (location test) in
  if f32_gt distsq (radius_squared test) then (false, test)
  else if sculpt_brush_test_clipping test co then (false, test)
  else (true, set_dist test distsq).

(** The absolute local coordinates of a point, [fabsf] of
    [mul_v3_m4v3(local_co, local, co)]. *)
Definition abs_local_co (local : mat4) (co : fvec3) : fvec3 :=
  let '(x, y, z) := mul_m4_v3 local co in (f32_abs x, f32_abs y, f32_abs z).

(** The quantities [SCULPT_brush_test_cube] derives from the roundness:
    [side] after [side += (1.0f - side) * roundness], [hardness],
    [constant_side] and [falloff_side]. *)
Definition cube_side (roundness : float) : float :=
  f32_add f32_1 (f32_mul (f32_sub f32_1 f32_1) roundness).
Definition hardness (roundness : float) : float := f32_sub f32_1 roundness.
Definition constant_side (roundness : float) : float :=
  f32_mul (hardness roundness) (cube_side roundness).
Definition falloff_side (roundness : float) : float :=
  f32_mul roundness (cube_side roundness).

(** [SCULPT_brush_test_cube] (sculpt.c, 3073); [None] is a division by
    zero. *)
Definition SCULPT_brush_test_cube (test : SculptBrushTest) (co : fvec3)
    (local : mat4) (roundness : float) (test_z : bool)
    : option (bool * SculptBrushTest) :=
  let side := f32_1 in
  if sculpt_brush_test_clipping test co then Some (false, test)
  else
    let '(x, y, z) := abs_local_co local co in
    (* Keep the square and circular brush tips the same size. *)
    let side := f32_add side (f32_mul (f32_sub f32_1 side) roundness) in
    let hardness := f32_sub f32_1 roundness in
    let constant_side := f32_mul hardness side in
    let falloff_side := f32_mul roundness side in
    if negb (f32_le x side && f32_le y side && (negb test_z || f32_le z side))
    then (* Outside the square. *) Some (false, test)
    else if f32_gt (min_ff x y) constant_side then
      (* Corner, distance to the center of the corner circle. *)
      match fdiv (len_v2v2 (constant_side, constant_side) (x, y)) falloff_side with
      | Some d => Some (true, set_dist test d)
      | None => None
      end
    else if f32_gt (max_ff x y) constant_side then
      (* Side, distance to the square XY axis. *)
      match fdiv (f32_sub (max_ff x y) constant_side) falloff_side with
      | Some d => Some (true, set_dist test d)
      | None => None
      end
    else (* Inside the square, constant distance. *)
      Some (true, set_dist test f32_0).

(** [SCULPT_brush_test_cube_sq] (sculpt.c, 3007). *)
Definition SCULPT_brush_test_cube_sq (test : SculptBrushTest) (co : fvec3)
    : option (bool * SculptBrushTest) :=
  match SCULPT_brush_test_cube test co (cube_matrix test) (tip_roundness test) true with
  | Some (true, t) =>
      let t := set_dist t (f32_mul (dist t) (f32_mul (dist t) (radius_squared t))) in
      if f32_gt (dist t) (radius_squared t) then Some (false, t) else Some (true, t)
  | Some (false, t) => Some (false, t)
  | None => None
  end.

(** [SCULPT_brush_test_thru_cube_sq] (sculpt.c, 3022). *)
Definition SCULPT_brush_test_thru_cube_sq (test : SculptBrushTest) (co : fvec3)
    : option (bool * SculptBrushTest) :=
  match SCULPT_brush_test_cube test co (cube_matrix test) (tip_roundness test) false with
  | Some (true, t) => Some (true, set_dist t (f32_mul (dist t) (radius t)))
  | Some (false, t) => Some (false, t)
  | None => None
  end.

(** The rule at the absolute local coordinates [p] of a point, for the
    roundness [r]: only the two in-plane coordinates count. *)
Definition rule_distance (r : float) (p : fvec3) : float :=
  cube_rule f32_arith (constant_side r) (falloff_side r) p.1.1 p.1.2.

(** The points of the square: [side] is 1 for every roundness from 0 to 1. *)
Definition inside_square (p : fvec3) (test_z : bool) : bool :=
  f32_le p.1.1 f32_1 && f32_le p.1.2 f32_1 && (negb test_z || f32_le p.2 f32_1).

(** *** The cube test *)

Lemma cube_side_1 (r : float) :
  f32_le f32_0 r = true -> f32_le r f32_1 = true -> cube_side r = f32_1.
Proof.
  intros H0 H1.
  destruct (roundness_cases r H0 H1) as [[s ->] | (m & e & ->)].
  - destruct s; reflexivity.
  - reflexivity.
Qed.

(** Without roundness the threshold is the side, and nothing of the square
    lies above it. *)
Lemma constant_side_zero s : constant_side (S754_zero s) = f32_1.
Proof. destruct s; reflexivity. Qed.

(** A positive roundness is its own falloff side. *)
Lemma falloff_side_finite m e :
  f32_valid (S754_finite false m e) = true ->
  f32_le (S754_finite false m e) f32_1 = true ->
  falloff_side (S754_finite false m e) = S754_finite false m e.
Proof.
  intros Hv H1. unfold falloff_side.
  rewrite cube_side_1; [apply f32_mul_1_r; exact Hv | reflexivity | exact H1].
Qed.

(** The regions where the code divides are reached only with a falloff
    side that is not zero. *)
Lemma cube_divisor_nonzero (r x y : float) :
  f32_valid r = true -> f32_le f32_0 r = true -> f32_le r f32_1 = true ->
  f32_le x f32_1 = true -> f32_le y f32_1 = true ->
  f32_gt x (constant_side r) || f32_gt y (constant_side r) = true ->
  is_zero (falloff_side r) = false.
Proof.
  intros Hv H0 H1 Hx Hy Hout.
  destruct (roundness_cases r H0 H1) as [[s ->] | (m & e & ->)].
  - rewrite constant_side_zero in Hout.
    rewrite (f32_le_not_gt x f32_1 Hx), (f32_le_not_gt y f32_1 Hy) in Hout.
    discriminate.
  - rewrite (falloff_side_finite m e Hv H1). reflexivity.
Qed.


(** Which points the test accepts and what it stores. *)
Lemma cube_result (test : SculptBrushTest) co local r test_z :
  f32_valid r = true -> f32_le f32_0 r = true -> f32_le r f32_1 = true ->
  let local_co := mul_m4_v3 local co in
  let p := (f32_abs local_co.1.1, f32_abs local_co.1.2, f32_abs local_co.2) in
  SCULPT_brush_test_cube test co local r test_z
  = if negb (sculpt_brush_test_clipping test co) && inside_square p test_z
    then Some (true, set_dist test (rule_distance r p))
    else Some (false, test).
Proof.
  intros Hv H0 H1. unfold SCULPT_brush_test_cube, abs_local_co.
  destruct (sculpt_brush_test_clipping test co); [reflexivity|]. cbn [negb andb].
  destruct (mul_m4_v3 local co) as [[lx ly] lz]. cbn [fst snd].
  set (x := f32_abs lx). set (y := f32_abs ly). set (z := f32_abs lz). cbv zeta.
  fold (cube_side r). fold (hardness r). fold (constant_side r). fold (falloff_side r).
  rewrite (cube_side_1 r H0 H1). unfold inside_square, rule_distance. cbn [fst snd].
  destruct (f32_le x f32_1) eqn:Hx; [|reflexivity].
  destruct (f32_le y f32_1) eqn:Hy; [|reflexivity].
  destruct (negb test_z || f32_le z f32_1) eqn:Hz; [|reflexivity].
  cbn [negb andb].
  pose proof (f32_le_key _ _ Hx) as [Kx _]. pose proof (f32_le_key _ _ Hy) as [Ky _].
  rewrite (min_ff_gt x y (constant_side r) Kx Ky), (max_ff_gt x y (constant_side r) Kx Ky).
  unfold cube_rule, corner_distance, side_distance, f32_arith.
  cbn [a_gt a_sub a_div a_len a_zero].
  destruct (f32_gt x (constant_side r)) eqn:Ex, (f32_gt y (constant_side r)) eqn:Ey;
    cbn [andb orb].
  - unfold fdiv. rewrite (cube_divisor_nonzero r x y Hv H0 H1 Hx Hy)
      by (rewrite Ex; reflexivity). reflexivity.
  - unfold fdiv. rewrite (cube_divisor_nonzero r x y Hv H0 H1 Hx Hy)
      by (rewrite Ex; reflexivity).
    rewrite (max_ff_left x y (constant_side r) Ky Ex Ey). reflexivity.
  - unfold fdiv. rewrite (cube_divisor_nonzero r x y Hv H0 H1 Hx Hy)
      by (rewrite Ex, Ey; reflexivity).
    rewrite (max_ff_right x y (constant_side r) Ex Ey). reflexivity.
  - reflexivity.
Qed.


(** *** Clipping and the radius *)

Definition finite_v3 (a : fvec3) : bool :=
  is_finite a.1.1 && is_finite a.1.2 && is_finite a.2.

(** Above a zero, whatever its sign, is above [0.0f]. *)
Lemma f32_gt_zero (d z : float) : is_zero z = true -> f32_gt d z = f32_gt d f32_0.
Proof. destruct z; try discriminate. intros _. destruct d as [|[]| |[]]; reflexivity. Qed.

Lemma f32_le_zero (d z : float) : is_zero z = true -> f32_le d z = f32_le d f32_0.
Proof. destruct z; try discriminate. intros _. destruct d as [|[]| |[]]; reflexivity. Qed.

Lemma sphere_accepts_iff (test : SculptBrushTest) co :
  (SCULPT_brush_test_sphere test co).1 = true
  <-> f32_gt (len_squared_v3v3 co (location test)) (radius_squared test) = false
      /\ sculpt_brush_test_clipping test co = false.
Proof.
  unfold SCULPT_brush_test_sphere.
  destruct (f32_gt (len_squared_v3v3 co (location test)) (radius_squared test));
    destruct (sculpt_brush_test_clipping test co); simpl;
    split; try discriminate; try tauto; intros [H1 H2]; discriminate.
Qed.

Lemma sphere_sq_accepts_iff (test : SculptBrushTest) co :
  (SCULPT_brush_test_sphere_sq test co).1 = true
  <-> f32_gt (len_squared_v3v3 co (location test)) (radius_squared test) = false
      /\ sculpt_brush_test_clipping test co = false.
Proof.
  unfold SCULPT_brush_test_sphere_sq.
  destruct (f32_gt (len_squared_v3v3 co (location test)) (radius_squared test));
    destruct (sculpt_brush_test_clipping test co); simpl;
    split; try discriminate; try tauto; intros [H1 H2]; discriminate.
Qed.

Lemma sphere_fast_accepts_iff (test : SculptBrushTest) co :
  SCULPT_brush_test_sphere_fast test co = true
  <-> f32_le (len_squared_v3v3 co (location test)) (radius_squared test) = true
      /\ sculpt_brush_test_clipping test co = false.
Proof.
  unfold SCULPT_brush_test_sphere_fast.
  destruct (sculpt_brush_test_clipping test co).
  - split; [discriminate | intros [_ H]; discriminate].
  - split; [intros H; split; [exact H | reflexivity] | tauto].
Qed.

Lemma circle_sq_accepts_iff (test : SculptBrushTest) co :
  (SCULPT_brush_test_circle_sq test co).1 = true
  <-> f32_gt (len_squared_v3v3 (closest_to_plane_normalized_v3 (plane_view test) co)
                (location test)) (radius_squared test) = false
      /\ sculpt_brush_test_clipping test co = false.
Proof.
  unfold SCULPT_brush_test_circle_sq.
  destruct (f32_gt (len_squared_v3v3
                      (closest_to_plane_normalized_v3 (plane_view test) co)
                      (location test)) (radius_squared test));
    destruct (sculpt_brush_test_clipping test co); simpl;
    split; try discriminate; try tauto; intros [H1 H2]; discriminate.
Qed.

(** With a zero radius the centre itself is within the radius. *)
Lemma centre_within_zero_radius (test : SculptBrushTest) :
  is_zero (radius_squared test) = true -> finite_v3 (location test) = true ->
  f32_gt (len_squared_v3v3 (location test) (location test)) (radius_squared test) = false
  /\ f32_le (len_squared_v3v3 (location test) (location test)) (radius_squared test) = true.
Proof.
  intros Hz Hfin. unfold finite_v3 in Hfin.
  apply andb_true_iff in Hfin as [Hfin H3]. apply andb_true_iff in Hfin as [H1 H2].
  rewrite (len_squared_v3v3_same_point (location test) H1 H2 H3).
  rewrite (f32_gt_zero _ _ Hz), (f32_le_zero _ _ Hz). split; reflexivity.
Qed.

Lemma cube_clipped (test : SculptBrushTest) co local r test_z :
  sculpt_brush_test_clipping test co = true ->
  SCULPT_brush_test_cube test co local r test_z = Some (false, test).
Proof. intros H. unfold SCULPT_brush_test_cube. rewrite H. reflexivity. Qed.

Lemma cube_no_division_by_zero (test : SculptBrushTest) co local r test_z :
  f32_valid r = true -> f32_le f32_0 r = true -> f32_le r f32_1 = true ->
  SCULPT_brush_test_cube test co local r test_z <> None.
Proof.
  intros Hv H0 H1. rewrite (cube_result test co local r test_z Hv H0 H1).
  cbv zeta. destruct (negb _ && _); discriminate.
Qed.

(** The test leaves the squared radius as it is. *)
Lemma cube_keeps_radius (test : SculptBrushTest) co local r test_z b t :
  SCULPT_brush_test_cube test co local r test_z = Some (b, t) ->
  radius_squared t = radius_squared test.
Proof.
  unfold SCULPT_brush_test_cube. intros E.
  repeat match type of E with
         | (if ?c then _ else _) = _ => destruct c
         | (let '(_, _) := ?p in _) = _ => destruct p
         | match ?o with Some _ => _ | None => _ end = _ => destruct o
         end; try discriminate; injection E as _ <-; reflexivity.
Qed.

(** C6, amended.  For each brush test (sphere, circle, cube) and each point:
    a point that the clipping planes reject is rejected whatever its
    distance to the brush centre.  The tests have no case for a zero radius:
    with a zero squared radius the sphere and circle tests accept the
    points that are not clipped and whose squared distance to the centre,
    as computed in [float] (for the circle test after projection), is not
    above zero; the brush centre is among them, and so is any point near
    enough for the squares to underflow.  The cube tests with a zero
    squared radius accept what the cube itself accepts.  For a tip
    roundness from 0 to 1 nothing is divided by zero. *)
Theorem brush_tests_clipping_and_zero_radius (test : SculptBrushTest) (co : fvec3) :
  (sculpt_brush_test_clipping test co = true ->
     (SCULPT_brush_test_sphere test co).1 = false
     /\ (SCULPT_brush_test_sphere_sq test co).1 = false
     /\ SCULPT_brush_test_sphere_fast test co = false
     /\ (SCULPT_brush_test_circle_sq test co).1 = false
     /\ (forall local r test_z,
           SCULPT_brush_test_cube test co local r test_z = Some (false, test))
     /\ SCULPT_brush_test_cube_sq test co = Some (false, test)
     /\ SCULPT_brush_test_thru_cube_sq test co = Some (false, test))
  /\ (is_zero (radius_squared test) = true ->
       ((SCULPT_brush_test_sphere test co).1 = true
        <-> f32_gt (len_squared_v3v3 co (location test)) f32_0 = false
            /\ sculpt_brush_test_clipping test co = false)
       /\ ((SCULPT_brush_test_sphere_sq test co).1 = true
           <-> f32_gt (len_squared_v3v3 co (location test)) f32_0 = false
               /\ sculpt_brush_test_clipping test co = false)
       /\ (SCULPT_brush_test_sphere_fast test co = true
           <-> f32_le (len_squared_v3v3 co (location test)) f32_0 = true
               /\ sculpt_brush_test_clipping test co = false)
       /\ ((SCULPT_brush_test_circle_sq test co).1 = true
           <-> f32_gt (len_squared_v3v3
                         (closest_to_plane_normalized_v3 (plane_view test) co)
                         (location test)) f32_0 = false
               /\ sculpt_brush_test_clipping test co = false)
       /\ option_map fst (SCULPT_brush_test_cube_sq test co)
          = option_map fst (SCULPT_brush_test_cube test co (cube_matrix test)
                              (tip_roundness test) true)
       /\ option_map fst (SCULPT_brush_test_thru_cube_sq test co)
          = option_map fst (SCULPT_brush_test_cube test co (cube_matrix test)
                              (tip_roundness test) false))
  /\ (is_zero (radius_squared test) = true -> finite_v3 (location test) = true ->
       (SCULPT_brush_test_sphere test (location test)).1
       = negb (sculpt_brush_test_clipping test (location test))
       /\ (SCULPT_brush_test_sphere_sq test (location test)).1
          = negb (sculpt_brush_test_clipping test (location test))
       /\ SCULPT_brush_test_sphere_fast test (location test)
          = negb (sculpt_brush_test_clipping test (location test)))
  /\ (forall local r test_z,
        f32_valid r = true -> f32_le f32_0 r = true -> f32_le r f32_1 = true ->
        SCULPT_brush_test_cube test co local r test_z <> None)
  /\ (f32_valid (tip_roundness test) = true ->
      f32_le f32_0 (tip_roundness test) = true ->
      f32_le (tip_roundness test) f32_1 = true ->
       SCULPT_brush_test_cube_sq test co <> None
       /\ SCULPT_brush_test_thru_cube_sq test co <> None).
Proof.
  split; [|split; [|split; [|split]]].
  - intros Hclip.
    assert (Hcube : forall local r test_z,
               SCULPT_brush_test_cube test co local r test_z = Some (false, test))
      by (intros; apply cube_clipped; exact Hclip).
    repeat split.
    + apply not_true_is_false. rewrite sphere_accepts_iff. intros [_ H]. congruence.
    + apply not_true_is_false. rewrite sphere_sq_accepts_iff. intros [_ H]. congruence.
    + apply not_true_is_false. rewrite sphere_fast_accepts_iff. intros [_ H]. congruence.
    + apply not_true_is_false. rewrite circle_sq_accepts_iff. intros [_ H]. congruence.
    + exact Hcube.
    + unfold SCULPT_brush_test_cube_sq. rewrite Hcube. reflexivity.
    + unfold SCULPT_brush_test_thru_cube_sq. rewrite Hcube. reflexivity.
  - intros Hzero. split; [|split; [|split; [|split; [|split]]]].
    + rewrite sphere_accepts_iff, (f32_gt_zero _ _ Hzero). reflexivity.
    + rewrite sphere_sq_accepts_iff, (f32_gt_zero _ _ Hzero). reflexivity.
    + rewrite sphere_fast_accepts_iff, (f32_le_zero _ _ Hzero). reflexivity.
    + rewrite circle_sq_accepts_iff, (f32_gt_zero _ _ Hzero). reflexivity.
    + unfold SCULPT_brush_test_cube_sq.
      destruct (SCULPT_brush_test_cube test co (cube_matrix test) (tip_roundness test) true)
        as [[[] t]|] eqn:E; cbn [option_map fst]; try reflexivity.
      pose proof (cube_keeps_radius _ _ _ _ _ _ _ E) as Ht.
      cbn [dist radius_squared set_dist].
      rewrite f32_mul_zero_not_gt by (rewrite Ht; exact Hzero). reflexivity.
    + unfold SCULPT_brush_test_thru_cube_sq.
      destruct (SCULPT_brush_test_cube test co (cube_matrix test) (tip_roundness test) false)
        as [[[] t]|]; reflexivity.
  - intros Hzero Hfin.
    destruct (centre_within_zero_radius test Hzero Hfin) as [Hgt Hle].
    unfold SCULPT_brush_test_sphere, SCULPT_brush_test_sphere_sq,
      SCULPT_brush_test_sphere_fast.
    rewrite Hgt, Hle.
    destruct (sculpt_brush_test_clipping test (location test)); repeat split; reflexivity.
  - intros local r test_z. apply cube_no_division_by_zero.
  - intros Hv H0 H1.
    pose proof (cube_no_division_by_zero test co (cube_matrix test) (tip_roundness test)
                  true Hv H0 H1) as Ht.
    pose proof (cube_no_division_by_zero test co (cube_matrix test) (tip_roundness test)
                  false Hv H0 H1) as Hf.
    unfold SCULPT_brush_test_cube_sq, SCULPT_brush_test_thru_cube_sq. split.
    + destruct (SCULPT_brush_test_cube test co (cube_matrix test) (tip_roundness test) true)
        as [[[] t]|]; [|discriminate|contradiction].
      destruct (f32_gt _ _); discriminate.
    + destruct (SCULPT_brush_test_cube test co (cube_matrix test) (tip_roundness test) false)
        as [[[] t]|]; [discriminate|discriminate|contradiction].
Qed.

End WithView.

(** *** Concrete tests *)

Definition never_clipped (_ : unit) (_ : fvec3) (_ : bool) : bool := false.
Definition always_clipped (_ : unit) (_ : fvec3) (_ : bool) : bool := true.
Definition no_flip (co : fvec3) (_ : Z) : fvec3 := co.
Definition unit_matrix (_ : unit) (co : fvec3) : fvec3 := co.
Definition no_projection (_ : fvec4) (co : fvec3) : fvec3 := co.

(** A brush of radius 0 at the origin; [clip] tells whether view clipping
    is enabled. *)
Definition zero_radius_test (clip : bool) : SculptBrushTest unit unit :=
  {| radius_squared := f32_0; radius := f32_0; location := (f32_0, f32_0, f32_0);
     dist := f32_0;
     mirror_symmetry_pass := 0; radial_symmetry_pass := 0; symm_rot_mat_inv := tt;
     tip_roundness := f32_1; tip_scale_x := f32_1; cube_matrix := tt;
     plane_view := (f32_0, f32_0, f32_0, f32_0);
     clip_rv3d := if clip then Some tt else None |}.


(** C6 as stated fails: with radius 0 and no clipping, the sphere test
    accepts the brush centre. *)
Lemma sphere_accepts_centre_at_zero_radius :
  radius unit unit (zero_radius_test false) = f32_0
  /\ radius_squared unit unit (zero_radius_test false) = f32_0
  /\ (SCULPT_brush_test_sphere unit never_clipped no_flip unit unit_matrix
        (zero_radius_test false) (f32_0, f32_0, f32_0)).1 = true.
Proof. split; [reflexivity|]. split; reflexivity. Qed.

(** It also accepts a point at the distance [2^-80] of the centre: the
    square of the distance, [2^-160], is below the least positive [float]
    and rounds to zero. *)
Example sphere_accepts_near_centre_at_zero_radius :
  len_squared_v3v3 (f32_pow2 (-80), f32_0, f32_0) (f32_0, f32_0, f32_0) = f32_0
  /\ (SCULPT_brush_test_sphere unit never_clipped no_flip unit unit_matrix
        (zero_radius_test false) (f32_pow2 (-80), f32_0, f32_0)).1 = true.
Proof. split; reflexivity. Qed.

Lemma brush_tests_clipping_and_zero_radius_witness :
  (SCULPT_brush_test_sphere unit always_clipped no_flip unit unit_matrix
     (zero_radius_test true) (f32_0, f32_0, f32_0)).1 = false
  /\ (SCULPT_brush_test_sphere unit never_clipped no_flip unit unit_matrix
        (zero_radius_test false) (f32_0, f32_0, f32_0)).1 = true
  /\ (SCULPT_brush_test_sphere unit never_clipped no_flip unit unit_matrix
        (zero_radius_test false) (f32_1, f32_0, f32_0)).1 = false
  /\ SCULPT_brush_test_cube_sq unit never_clipped no_flip unit unit_matrix
       (zero_radius_test false) (f32_1, f32_0, f32_0) <> None.
Proof.
  split; [|split; [|split]].
  - destruct (brush_tests_clipping_and_zero_radius unit always_clipped no_flip unit
                unit_matrix no_projection (zero_radius_test true) (f32_0, f32_0, f32_0))
      as [H _].
    destruct H as [H _]; [reflexivity | exact H].
  - destruct (brush_tests_clipping_and_zero_radius unit never_clipped no_flip unit
                unit_matrix no_projection (zero_radius_test false) (f32_0, f32_0, f32_0))
      as (_ & _ & H & _).
    destruct H as [H _]; [reflexivity | reflexivity | exact H].
  - destruct (brush_tests_clipping_and_zero_radius unit never_clipped no_flip unit
                unit_matrix no_projection (zero_radius_test false) (f32_1, f32_0, f32_0))
      as (_ & H & _).
    destruct H as [H _]; [reflexivity|].
    apply not_true_is_false. intros Hacc. apply H in Hacc as [Hgt _].
    discriminate Hgt.
  - destruct (brush_tests_clipping_and_zero_radius unit never_clipped no_flip unit
                unit_matrix no_projection (zero_radius_test false) (f32_1, f32_0, f32_0))
      as (_ & _ & _ & _ & H).
    destruct H as [H _]; [reflexivity | reflexivity | reflexivity | exact H].
Defined.


(** The threshold is the one the code computes: at roundness [2^-30] the
    hardness [1.0f - roundness] rounds to 1, the point [(1, 0, 0)] is not
    above the threshold, and the test stores 0. *)
Example cube_threshold_rounds :
  constant_side (f32_pow2 (-30)) = f32_1
  /\ SCULPT_brush_test_cube unit never_clipped no_flip unit unit_matrix
       (zero_radius_test false) (f32_1, f32_0, f32_0) tt (f32_pow2 (-30)) true
     = Some (true, set_dist unit unit (zero_radius_test false) f32_0).
Proof. split; reflexivity. Qed.

End BrushTest.

(* ===================================================================== *)
(** ** Symmetry feather *)
(* ===================================================================== *)

Module Feather.

Local Open Scope R_scope.

Record Sculpt := {
  (** [sd->radial_symm], one count per axis X, Y, Z *)
  radial_symm : list Z;
  (** [sd->paint.symmetry_flags] *)
  symmetry_flags : Z
}.

Record StrokeCache := {
  true_location : vec3;
  radius : R;
  radius_squared : R;
  symmetry : Z
}.

(** The character codes of the axes; [0] is no axis. *)
Definition axis_X : Z := 88.
Definition axis_Y : Z := 89.
Definition axis_Z : Z := 90.

Fixpoint Rsum (l : list R) : R :=
  match l with
  | [] => 0
  | x :: rest => x + Rsum rest
  end.

(** The overlap score of the specification, for a brush of radius [r] and a
    copy of its centre at distance [d] of the true centre. *)
Definition overlap_score (r d : R) : R :=
  if float_lt d (2 * r) then (2 * r - d) / (2 * r) else 0.

Section WithTransforms.

(** Mirroring and rotation come from the math library, and the flag from a
    header, outside the sources at hand. *)
Variable flip_v3_v3 : vec3 -> Z -> vec3.
(** [axis_angle_to_mat3_single(mat, axis, angle); mul_m3_v3(mat, v)] *)
Variable rotate_axis_angle : Z -> R -> vec3 -> vec3.
Variable PAINT_SYMMETRY_FEATHER : Z.

(** The centre of the brush copy for the mirror pass [symm], rotated by
    [angle] around [axis] unless [axis] is 0. *)
Definition instance_center (cache : StrokeCache) (symm axis : Z) (angle : R) : vec3 :=
  let mirror := flip_v3_v3 (true_location cache) symm in
  if (axis =? 0)%Z then mirror else rotate_axis_angle axis angle mirror.

(** [calc_overlap] (sculpt.c, 3322). *)
Definition calc_overlap (cache : StrokeCache) (symm axis : Z) (angle : R) : R :=
  let mirror := instance_center cache symm axis angle in
  let distsq := len_squared_v3v3 mirror (true_location cache) in
  if float_gt (radius cache) 0 && float_le distsq (4 * radius_squared cache)
  then (2 * radius cache - sqrt distsq) / (2 * radius cache)
  else 0.

(** [sd->radial_symm[axis - 'X']] *)
Definition radial_count (sd : Sculpt) (axis : Z) : Z :=
  default 0%Z (rd (radial_symm sd) (axis - axis_X)).

(** The values [1 .. n-1] of the loop variable of
    [for (i = 1; i < n; i++)]. *)
Definition radial_steps (n : Z) : list Z := map Z.of_nat (seq 1 (Z.to_nat (n - 1))).

Definition radial_angle (i n : Z) : R := 2 * PI * IZR i / IZR n.

(** [calc_radial_symmetry_feather] (sculpt.c, 3343). *)
Definition calc_radial_symmetry_feather (sd : Sculpt) (cache : StrokeCache)
    (symm axis : Z) : R :=
  fold_left
    (fun overlap i =>
       overlap + calc_overlap cache symm axis (radial_angle i (radial_count sd axis)))
    (radial_steps (radial_count sd axis)) 0.

(** [calc_symmetry_feather] (sculpt.c, 3358). *)
Definition calc_symmetry_feather (sd : Sculpt) (cache : StrokeCache) : R :=
  if (Z.land (symmetry_flags sd) PAINT_SYMMETRY_FEATHER =? 0)%Z then 1
  else
    let symm := symmetry cache in
    let overlap :=
      fold_left
        (fun overlap i =>
           if negb (Symmetry.SCULPT_is_symmetry_iteration_valid i symm) then overlap
           else
             let overlap := overlap + calc_overlap cache i 0 0 in
             let overlap := overlap + calc_radial_symmetry_feather sd cache i axis_X in
             let overlap := overlap + calc_radial_symmetry_feather sd cache i axis_Y in
             overlap + calc_radial_symmetry_feather sd cache i axis_Z)
        (Symmetry.passes symm) 0 in
    (* mathwise divice by zero is infinity, so use maximum value (1) in that case? *)
    if Req_dec_T overlap 0 then 1 else 1 / overlap.

(** The copies of the brush, in the words of the specification: for every
    valid mirror pass, the mirrored copy and its radial copies around the
    three axes. *)
Definition radial_instances (sd : Sculpt) (symm axis : Z) : list (Z * Z * R) :=
  map (fun i => (symm, axis, radial_angle i (radial_count sd axis)))
      (radial_steps (radial_count sd axis)).

Definition instances (sd : Sculpt) (cache : StrokeCache) : list (Z * Z * R) :=
  flat_map
    (fun i => (i, 0%Z, 0) :: radial_instances sd i axis_X
              ++ radial_instances sd i axis_Y ++ radial_instances sd i axis_Z)
    (Symmetry.valid_passes (symmetry cache)).

(** The distance of a copy of the centre to the true centre. *)
Definition instance_distance (cache : StrokeCache) (inst : Z * Z * R) : R :=
  sqrt (len_squared_v3v3 (instance_center cache inst.1.1 inst.1.2 inst.2)
                         (true_location cache)).

Definition total_overlap (sd : Sculpt) (cache : StrokeCache) : R :=
  Rsum (map (fun inst => overlap_score (radius cache) (instance_distance cache inst))
            (instances sd cache)).

(** *** The factor *)







End WithTransforms.

(** *** A concrete stroke *)

(** Mirroring across the planes of the bits of [symm] (X, Y, Z). *)
Definition mirror_bits (co : vec3) (symm : Z) : vec3 :=
  let '(x, y, z) := co in
  (if Z.testbit symm 0 then - x else x,
   if Z.testbit symm 1 then - y else y,
   if Z.testbit symm 2 then - z else z).

Definition no_rotation (_ : Z) (_ : R) (co : vec3) : vec3 := co.

(** Mirror symmetry across X, feather enabled, no radial symmetry; a brush
    of radius 1 half a unit from the mirror plane. *)
Definition mirror_x_settings : Sculpt :=
  {| radial_symm := [1; 1; 1]%Z; symmetry_flags := 9 |}.

Definition half_unit_stroke : StrokeCache :=
  {| true_location := (1 / 2, 0, 0); radius := 1; radius_squared := 1; symmetry := 1 |}.


(** The two copies are one unit apart: scores 1 and 1/2, factor 2/3. *)
Example half_unit_total_overlap :
  total_overlap mirror_bits no_rotation mirror_x_settings half_unit_stroke = 3 / 2.
Proof.
  unfold total_overlap, instances.
  replace (Symmetry.valid_passes (symmetry half_unit_stroke)) with [0; 1]%Z
    by (vm_compute; reflexivity).
  unfold radial_instances, radial_count, radial_steps, instance_distance,
    instance_center, overlap_score.
  cbn [flat_map map app Rsum fst snd radius true_location half_unit_stroke
       mirror_x_settings radial_symm rd axis_X axis_Y axis_Z mirror_bits
       Z.testbit Z.eqb Z.sub Z.ltb Z.to_nat seq default lookup].
  simpl.
  replace ((1 / 2 - 1 / 2) * (1 / 2 - 1 / 2) + (0 - 0) * (0 - 0) + (0 - 0) * (0 - 0))
    with 0 by ring.
  replace ((- (1 / 2) - 1 / 2) * (- (1 / 2) - 1 / 2) + (0 - 0) * (0 - 0)
           + (0 - 0) * (0 - 0))
    with 1 by field.
  rewrite sqrt_0, sqrt_1.
  assert (H0 : float_lt 0 (2 * 1) = true) by (apply float_lt_true; lra).
  assert (H1 : float_lt 1 (2 * 1) = true) by (apply float_lt_true; lra).
  rewrite H0, H1. field.
Qed.

End Feather.

(* ===================================================================== *)
(** ** Face sets: the other operations *)
(* ===================================================================== *)

Module FaceSetOps.

Import FaceSets.

Local Open Scope Z_scope.

(** [ss->face_sets = fs], and the BMesh with its faces and the flagged nodes
    replaced. *)
Definition set_face_sets (ss : SculptSession) (fs : list Z) : SculptSession :=
  {| pbvh_type := pbvh_type ss; totfaces := totfaces ss; face_sets := fs;
     bm := bm ss; cd_faceset_offset := cd_faceset_offset ss;
     cd_face_node_offset := cd_face_node_offset ss;
     update_triangulation := update_triangulation ss;
     pmap := pmap ss; mpoly := mpoly ss; mloop := mloop ss |}.

Definition set_bm_faces (ss : SculptSession) (b : BMesh) (faces : list BMFace)
    (marked : list Z) : SculptSession :=
  {| pbvh_type := pbvh_type ss; totfaces := totfaces ss; face_sets := face_sets ss;
     bm := Some {| pdata_face_sets_offset := pdata_face_sets_offset b;
                   bm_faces := faces |};
     cd_faceset_offset := cd_faceset_offset ss;
     cd_face_node_offset := cd_face_node_offset ss;
     update_triangulation := marked;
     pmap := pmap ss; mpoly := mpoly ss; mloop := mloop ss |}.

(** Body of the loop of [SCULPT_face_set_visibility_set] over
    [ss->face_sets]. *)
Definition visibility_set_body (face_set : Z) (visible : bool) (fs : list Z) (i : nat)
    : list Z :=
  match fs !! i with
  | Some x =>
      if negb (abs x =? face_set) then fs
      else <[i := if visible then abs x else - abs x]> fs
  | None => fs
  end.

(** Body of its [BM_ITER_MESH] loop. *)
Definition visibility_set_bm_body (face_set : Z) (visible : bool) (off node_off : Z)
    (acc : list Z * list BMFace) (f : BMFace) : list Z * list BMFace :=
  let fset := BM_ELEM_CD_GET_INT f off in
  let node := BM_ELEM_CD_GET_INT f node_off in
  if negb (abs fset =? face_set) then (acc.1, acc.2 ++ [f])
  else
    let fset := if visible then abs fset else - abs fset in
    let marked := if negb (node =? DYNTOPO_NODE_NONE) then acc.1 ++ [node] else acc.1 in
    (marked, acc.2 ++ [BM_ELEM_CD_SET_INT f off fset]).

(** [SCULPT_face_set_visibility_set] (sculpt.c, 750).  The BMesh case
    iterates over [ss->bm], which is there. *)
Definition SCULPT_face_set_visibility_set (ss : SculptSession) (face_set : Z)
    (visible : bool) : SculptSession :=
  match pbvh_type ss with
  | PBVH_FACES | PBVH_GRIDS =>
      set_face_sets ss
        (fold_left (visibility_set_body face_set visible)
                   (seq 0 (Z.to_nat (totfaces ss))) (face_sets ss))
  | PBVH_BMESH =>
      match bm ss with
      | Some b =>
          let r := fold_left
                     (visibility_set_bm_body face_set visible (cd_faceset_offset ss)
                        (cd_face_node_offset ss))
                     (bm_faces b) (update_triangulation ss, []) in
          set_bm_faces ss b r.2 r.1
      | None => ss
      end
  end.

(** Body of the loop of [SCULPT_face_sets_visibility_invert]:
    [ss->face_sets[i] *= -1]. *)
Definition visibility_invert_body (fs : list Z) (i : nat) : list Z :=
  match fs !! i with
  | Some x => <[i := x * -1]> fs
  | None => fs
  end.

(** [SCULPT_face_sets_visibility_invert] (sculpt.c, 797). *)
Definition SCULPT_face_sets_visibility_invert (ss : SculptSession) : SculptSession :=
  match pbvh_type ss with
  | PBVH_FACES | PBVH_GRIDS =>
      set_face_sets ss
        (fold_left visibility_invert_body (seq 0 (Z.to_nat (totfaces ss))) (face_sets ss))
  | PBVH_BMESH =>
      match bm ss with
      | Some b =>
          set_bm_faces ss b
            (fold_left
               (fun acc f =>
                  let fset := BM_ELEM_CD_GET_INT f (cd_faceset_offset ss) in
                  let fset := - fset in
                  acc ++ [BM_ELEM_CD_SET_INT f (cd_faceset_offset ss) fset])
               (bm_faces b) [])
            (update_triangulation ss)
      | None => ss
      end
  end.

(** Body of the loops of [SCULPT_face_set_next_available_get]. *)
Definition next_available_body (next_face_set : Z) (x : Z) : Z :=
  if abs x >? next_face_set then abs x else next_face_set.

(** [SCULPT_face_set_next_available_get] (sculpt.c, 1392).  In the BMesh
    case the test [!ss->cd_faceset_offset] is on the offset being 0. *)
Definition SCULPT_face_set_next_available_get (ss : SculptSession) : Z :=
  match pbvh_type ss with
  | PBVH_FACES | PBVH_GRIDS =>
      let next_face_set :=
        fold_left
          (fun next i =>
             match face_sets ss !! i with
             | Some x => next_available_body next x
             | None => next
             end)
          (seq 0 (Z.to_nat (totfaces ss))) 0 in
      next_face_set + 1
  | PBVH_BMESH =>
      if cd_faceset_offset ss =? 0 then 0
      else
        match bm ss with
        | Some b =>
            let next_face_set :=
              fold_left
                (fun next f =>
                   next_available_body next (BM_ELEM_CD_GET_INT f (cd_faceset_offset ss)))
                (bm_faces b) 0 in
            next_face_set + 1
        | None => 1
        end
  end.

(** The face-set values of the faces, as these functions read them: the
    array, or the custom data at [ss->cd_faceset_offset]. *)
Definition values (ss : SculptSession) : list Z :=
  match pbvh_type ss with
  | PBVH_FACES | PBVH_GRIDS => face_sets ss
  | PBVH_BMESH =>
      match bm ss with
      | Some b => map (fun f => BM_ELEM_CD_GET_INT f (cd_faceset_offset ss)) (bm_faces b)
      | None => []
      end
  end.

(** What these functions rely on: the face count is the length of the
    face-set array; for BMesh, [ss->bm] is there (they do not test it). *)
Definition counted (ss : SculptSession) : Prop :=
  match pbvh_type ss with
  | PBVH_FACES | PBVH_GRIDS => totfaces ss = Z.of_nat (length (face_sets ss))
  | PBVH_BMESH => is_Some (bm ss)
  end.

(** No stored value is [INT_MIN]: [abs] and the negations are defined, and
    the model on [Z] computes what the code computes on [int]. *)
Definition in_int_range (ss : SculptSession) : Prop :=
  Forall (fun x => INT_MIN < x <= INT_MAX) (values ss).

(** *** Loops that rewrite an array in place *)

Lemma index_loop_lookup (g : Z -> Z) (body : list Z -> nat -> list Z) :
  (forall (fs : list Z) (i : nat) (x : Z), fs !! i = Some x -> body fs i = <[i := g x]> fs) ->
  forall (fs : list Z) (k : nat),
    (k <= length fs)%nat ->
    length (fold_left body (seq 0 k) fs) = length fs
    /\ forall j : nat,
         fold_left body (seq 0 k) fs !! j
         = if (j <? k)%nat then g <$> fs !! j else fs !! j.
Proof.
  intros Hbody fs. induction k as [|k IH]; intros Hk.
  - split; [reflexivity | intros j; reflexivity].
  - destruct IH as [Hlen Hlk]; [lia|].
    rewrite seq_S, fold_left_app. cbn [fold_left Nat.add].
    set (r := fold_left body (seq 0 k) fs) in *.
    destruct (lookup_lt_is_Some_2 fs k) as [x Hx]; [lia|].
    assert (Hrk : r !! k = Some x).
    { rewrite Hlk. rewrite (proj2 (Nat.ltb_ge k k)) by lia. exact Hx. }
    rewrite (Hbody r k x Hrk).
    split; [rewrite length_insert; exact Hlen|].
    intros j. destruct (decide (j = k)) as [->|Hne].
    + rewrite list_lookup_insert_eq by lia.
      rewrite (proj2 (Nat.ltb_lt k (S k))) by lia. rewrite Hx. reflexivity.
    + rewrite list_lookup_insert_ne by congruence. rewrite Hlk.
      destruct (j <? k)%nat eqn:E1, (j <? S k)%nat eqn:E2; try reflexivity.
      * apply Nat.ltb_lt in E1. apply Nat.ltb_ge in E2. lia.
      * apply Nat.ltb_ge in E1. apply Nat.ltb_lt in E2. lia.
Qed.

Lemma index_loop_map (g : Z -> Z) (body : list Z -> nat -> list Z) :
  (forall (fs : list Z) (i : nat) (x : Z), fs !! i = Some x -> body fs i = <[i := g x]> fs) ->
  forall fs : list Z, fold_left body (seq 0 (length fs)) fs = map g fs.
Proof.
  intros Hbody fs.
  destruct (index_loop_lookup g body Hbody fs (length fs)) as [Hlen Hlk]; [lia|].
  apply list_eq. intros j. rewrite Hlk, list_lookup_fmap.
  destruct (j <? length fs)%nat eqn:E; [reflexivity|].
  apply Nat.ltb_ge in E. rewrite lookup_ge_None_2 by exact E. reflexivity.
Qed.

Lemma bm_loop_map (h : BMFace -> BMFace) (faces : list BMFace) : forall acc,
  fold_left (fun acc f => acc ++ [h f]) faces acc = acc ++ map h faces.
Proof.
  induction faces as [|f faces IH]; intros acc; simpl.
  - rewrite app_nil_r. reflexivity.
  - rewrite IH, <- app_assoc. reflexivity.
Qed.

(** *** Showing and hiding one face set *)

(** What the loop does to one value. *)
Definition shown (face_set : Z) (visible : bool) (x : Z) : Z :=
  if abs x =? face_set then (if visible then abs x else - abs x) else x.

Lemma visibility_set_body_at face_set visible (fs : list Z) (i : nat) (x : Z) :
  fs !! i = Some x ->
  visibility_set_body face_set visible fs i = <[i := shown face_set visible x]> fs.
Proof.
  intros Hx. unfold visibility_set_body, shown. rewrite Hx.
  destruct (abs x =? face_set); simpl; [reflexivity|].
  symmetry. apply list_insert_id. exact Hx.
Qed.

Lemma visibility_set_bm_loop face_set visible off node_off (faces : list BMFace) :
  forall marked acc,
    (fold_left (visibility_set_bm_body face_set visible off node_off) faces (marked, acc)).2
    = acc ++ map (fun f => if abs (BM_ELEM_CD_GET_INT f off) =? face_set
                           then BM_ELEM_CD_SET_INT f off
                                  (shown face_set visible (BM_ELEM_CD_GET_INT f off))
                           else f) faces.
Proof.
  induction faces as [|f faces IH]; intros marked acc; simpl.
  - rewrite app_nil_r. reflexivity.
  - unfold visibility_set_bm_body at 2. unfold shown.
    destruct (abs (BM_ELEM_CD_GET_INT f off) =? face_set) eqn:E; simpl;
      rewrite IH, <- app_assoc; reflexivity.
Qed.

Lemma visibility_set_values ss face_set visible :
  counted ss ->
  values (SCULPT_face_set_visibility_set ss face_set visible)
  = map (shown face_set visible) (values ss).
Proof.
  destruct ss as [ty n fs obm off noff marked pm mp ml].
  unfold counted, SCULPT_face_set_visibility_set, values. simpl.
  intros Hc. destruct ty; simpl.
  - rewrite Hc, Nat2Z.id.
    apply (index_loop_map _ _ (visibility_set_body_at face_set visible)).
  - rewrite Hc, Nat2Z.id.
    apply (index_loop_map _ _ (visibility_set_body_at face_set visible)).
  - destruct obm as [b|]; simpl; [|reflexivity].
    rewrite visibility_set_bm_loop. simpl. rewrite !map_map.
    apply map_ext. intros f. unfold shown.
    destruct (abs (BM_ELEM_CD_GET_INT f off) =? face_set) eqn:E.
    + rewrite BM_ELEM_CD_GET_SET. reflexivity.
    + reflexivity.
Qed.

(** X1.  [SCULPT_face_set_visibility_set] changes signs only: it keeps the
    ID of every face, leaves the faces of other face sets untouched, and
    makes every face of the given (positive) face set visible or hidden as
    asked.  The ID 0 cannot be hidden, and a negative argument changes
    nothing. *)
Theorem face_set_visibility_set_signs (ss : SculptSession) (face_set : Z) (visible : bool) :
  counted ss -> in_int_range ss ->
  Forall2 (fun x y =>
             Z.abs y = Z.abs x
             /\ (Z.abs x <> face_set -> y = x)
             /\ (Z.abs x = face_set -> 0 < face_set ->
                 if visible then 0 < y else y < 0)
             /\ (x = 0 -> y = 0))
          (values ss) (values (SCULPT_face_set_visibility_set ss face_set visible))
  /\ (face_set < 0 ->
      values (SCULPT_face_set_visibility_set ss face_set visible) = values ss)
  /\ in_int_range (SCULPT_face_set_visibility_set ss face_set visible).
Proof.
  intros Hc Hr. unfold in_int_range in *.
  rewrite (visibility_set_values ss face_set visible Hc). split; [|split].
  - apply Forall2_fmap_r. apply Forall_Forall2_diag. apply Forall_forall.
    intros x _. unfold compose, shown, abs.
    destruct (Z.eqb_spec (Z.abs x) face_set) as [E|E]; destruct visible;
      repeat split; intros; lia.
  - intros Hneg. rewrite <- (map_id (values ss)) at 2. apply map_ext.
    intros x. unfold shown, abs.
    destruct (Z.abs x =? face_set) eqn:E; [apply Z.eqb_eq in E; lia | reflexivity].
  - apply Forall_fmap. eapply Forall_impl; [exact Hr|]. intros x Hx. simpl.
    unfold shown, abs, INT_MIN, INT_MAX in *.
    destruct (Z.abs x =? face_set); [destruct visible|]; lia.
Qed.

(** *** Inverting the visibility *)

Lemma visibility_invert_body_at (fs : list Z) (i : nat) (x : Z) :
  fs !! i = Some x -> visibility_invert_body fs i = <[i := - x]> fs.
Proof.
  intros Hx. unfold visibility_invert_body. rewrite Hx. f_equal. lia.
Qed.

Lemma invert_values ss :
  counted ss ->
  values (SCULPT_face_sets_visibility_invert ss) = map Z.opp (values ss).
Proof.
  destruct ss as [ty n fs obm off noff marked pm mp ml].
  unfold counted, SCULPT_face_sets_visibility_invert, values. simpl.
  intros Hc. destruct ty; simpl.
  - rewrite Hc, Nat2Z.id. apply (index_loop_map _ _ visibility_invert_body_at).
  - rewrite Hc, Nat2Z.id. apply (index_loop_map _ _ visibility_invert_body_at).
  - destruct obm as [b|]; simpl; [|reflexivity].
    rewrite (bm_loop_map (fun f => BM_ELEM_CD_SET_INT f off (- BM_ELEM_CD_GET_INT f off))).
    simpl. rewrite !map_map. apply map_ext. intros f. apply BM_ELEM_CD_GET_SET.
Qed.

Lemma invert_counted ss : counted ss -> counted (SCULPT_face_sets_visibility_invert ss).
Proof.
  destruct ss as [ty n fs obm off noff marked pm mp ml].
  unfold counted, SCULPT_face_sets_visibility_invert. simpl.
  intros Hc. destruct ty; simpl.
  - destruct (index_loop_lookup _ _ visibility_invert_body_at fs (Z.to_nat n)) as [Hl _];
      [lia|]. rewrite Hl. exact Hc.
  - destruct (index_loop_lookup _ _ visibility_invert_body_at fs (Z.to_nat n)) as [Hl _];
      [lia|]. rewrite Hl. exact Hc.
  - destruct obm as [b|]; simpl; [eexists; reflexivity | exact Hc].
Qed.

(** X2.  [SCULPT_face_sets_visibility_invert] negates every face-set value:
    visible faces become hidden and hidden ones visible with their ID kept,
    a face with ID 0 stays as it is, and inverting twice gives the values
    back. *)
Theorem face_sets_visibility_invert_involution (ss : SculptSession) :
  counted ss -> in_int_range ss ->
  Forall2 (fun x y => y = - x) (values ss) (values (SCULPT_face_sets_visibility_invert ss))
  /\ values (SCULPT_face_sets_visibility_invert (SCULPT_face_sets_visibility_invert ss))
     = values ss
  /\ in_int_range (SCULPT_face_sets_visibility_invert ss).
Proof.
  intros Hc Hr. split; [|split].
  - rewrite (invert_values ss Hc). apply Forall2_fmap_r, Forall_Forall2_diag.
    apply Forall_forall. intros x _. reflexivity.
  - rewrite (invert_values _ (invert_counted ss Hc)), (invert_values ss Hc), map_map.
    rewrite <- (map_id (values ss)) at 2. apply map_ext. intros x. lia.
  - unfold in_int_range in *. rewrite (invert_values ss Hc).
    apply Forall_fmap. eapply Forall_impl; [exact Hr|]. intros x Hx. simpl.
    unfold INT_MIN, INT_MAX in *. lia.
Qed.

(** *** The next free ID *)

Lemma next_available_seq (fs : list Z) : forall (k : nat) (a : Z),
  (k <= length fs)%nat ->
  fold_left (fun next i => match fs !! i with
                           | Some x => next_available_body next x
                           | None => next
                           end) (seq 0 k) a
  = fold_left next_available_body (take k fs) a.
Proof.
  induction k as [|k IH]; intros a Hk.
  - reflexivity.
  - destruct (lookup_lt_is_Some_2 fs k) as [x Hx]; [lia|].
    rewrite seq_S, fold_left_app, IH by lia. cbn [fold_left Nat.add].
    rewrite Hx, (take_S_r fs k x Hx), fold_left_app. reflexivity.
Qed.

Lemma next_available_max (l : list Z) : forall a : Z,
  a <= fold_left next_available_body l a
  /\ Forall (fun x => Z.abs x <= fold_left next_available_body l a) l
  /\ (fold_left next_available_body l a = a
      \/ exists x, x ∈ l /\ Z.abs x = fold_left next_available_body l a).
Proof.
  induction l as [|x l IH]; intros a; simpl.
  - split; [lia|]. split; [constructor | left; reflexivity].
  - destruct (IH (next_available_body a x)) as (Hge & Hall & Hex).
    assert (Hstep : a <= next_available_body a x /\ Z.abs x <= next_available_body a x
                    /\ (next_available_body a x = a \/ next_available_body a x = Z.abs x)).
    { unfold next_available_body, abs. destruct (Z.abs x >? a) eqn:E; lia. }
    destruct Hstep as (H1 & H2 & H3).
    split; [lia|]. split.
    + constructor; [lia | exact Hall].
    + destruct Hex as [Heq | (y & Hy & Hyx)].
      * destruct H3 as [H3|H3].
        -- left. lia.
        -- right. exists x. split; [apply elem_of_cons; left; reflexivity | lia].
      * right. exists y. split; [apply elem_of_cons; right; exact Hy | exact Hyx].
Qed.

Lemma next_available_value ss :
  counted ss ->
  (pbvh_type ss = PBVH_BMESH -> cd_faceset_offset ss <> 0) ->
  SCULPT_face_set_next_available_get ss
  = fold_left next_available_body (values ss) 0 + 1.
Proof.
  destruct ss as [ty n fs obm off noff marked pm mp ml].
  unfold counted, SCULPT_face_set_next_available_get, values. simpl.
  intros Hc Hoff. destruct ty; simpl.
  - rewrite Hc, Nat2Z.id, next_available_seq, firstn_all by lia. reflexivity.
  - rewrite Hc, Nat2Z.id, next_available_seq, firstn_all by lia. reflexivity.
  - destruct (Z.eqb_spec off 0) as [E|E]; [exfalso; apply Hoff; [reflexivity | exact E]|].
    destruct Hc as [b ->]. simpl. f_equal.
    generalize 0. induction (bm_faces b) as [|f l IH]; intros a; simpl;
      [reflexivity | apply IH].
Qed.

(** X3.  [SCULPT_face_set_next_available_get] returns an ID that no face
    uses, visible or hidden: it is at least 1, above the ID of every face,
    and it is the smallest such number.  The ID [INT_MAX] must be unused,
    for the increment not to overflow. *)
Theorem face_set_next_available_is_fresh (ss : SculptSession) :
  counted ss ->
  Forall (fun x => - INT_MAX < x < INT_MAX) (values ss) ->
  (pbvh_type ss = PBVH_BMESH -> cd_faceset_offset ss <> 0) ->
  1 <= SCULPT_face_set_next_available_get ss <= INT_MAX
  /\ Forall (fun x => Z.abs x < SCULPT_face_set_next_available_get ss) (values ss)
  /\ (SCULPT_face_set_next_available_get ss = 1
      \/ exists x, x ∈ values ss
                   /\ Z.abs x = SCULPT_face_set_next_available_get ss - 1).
Proof.
  intros Hc Hr Hoff. rewrite (next_available_value ss Hc Hoff).
  destruct (next_available_max (values ss) 0) as (Hge & Hall & Hex).
  split; [|split].
  - split; [lia|]. destruct Hex as [Heq | (x & Hx & Hxv)].
    + rewrite Heq. unfold INT_MAX. lia.
    + rewrite Forall_forall in Hr. specialize (Hr x Hx). lia.
  - eapply Forall_impl; [exact Hall|]. intros x Hx. simpl in Hx. lia.
  - destruct Hex as [Heq | (x & Hx & Hxv)].
    + left. lia.
    + right. exists x. split; [exact Hx | lia].
Qed.

(** *** Hiding everything *)

(** X4.  Showing every face and then inverting the visibility is hiding
    every face: both leave each face hidden with its ID, the ID 0 replaced
    by 1. *)
Theorem invert_after_show_all_is_hide_all (ss : SculptSession) :
  counted ss -> in_int_range ss ->
  (pbvh_type ss = PBVH_BMESH -> 0 <= cd_faceset_offset ss) ->
  values (SCULPT_face_sets_visibility_invert (SCULPT_face_sets_visibility_all_set ss true))
  = values (SCULPT_face_sets_visibility_all_set ss false)
  /\ Forall (fun x => - INT_MAX <= x <= -1)
            (values (SCULPT_face_sets_visibility_all_set ss false)).
Proof.
  intros Hc Hr Hoff.
  assert (Hlen : match pbvh_type ss with
                 | PBVH_FACES | PBVH_GRIDS => totfaces ss = Z.of_nat (length (face_sets ss))
                 | PBVH_BMESH => True
                 end).
  { unfold counted in Hc. destruct (pbvh_type ss); [exact Hc | exact Hc | exact I]. }
  assert (Hv : forall visible,
             values (SCULPT_face_sets_visibility_all_set ss visible)
             = map (fun x => apply_visibility visible (force_assigned x)) (values ss)
             /\ counted (SCULPT_face_sets_visibility_all_set ss visible)).
  { intros visible.
    pose proof (visibility_all_set_values ss visible Hlen) as H.
    destruct ss as [ty n fs obm off noff marked pm mp ml].
    unfold counted, values, face_set_values, SCULPT_face_sets_visibility_all_set in *.
    simpl in *. destruct ty; simpl in *.
    - split; [exact H|]. rewrite Hc, Nat2Z.id, face_sets_loop_map, length_map. reflexivity.
    - split; [exact H|]. rewrite Hc, Nat2Z.id, face_sets_loop_map, length_map. reflexivity.
    - destruct Hc as [b ->]. specialize (Hoff eq_refl).
      assert (E : (off <? 0) = false) by (apply Z.ltb_ge; exact Hoff).
      simpl in *. repeat (rewrite ?E in H; simpl in H). repeat (rewrite ?E; simpl).
      split; [exact H | eexists; reflexivity]. }
  destruct (Hv true) as [Ht Hct]. destruct (Hv false) as [Hf _].
  rewrite (invert_values _ Hct), Ht, Hf, map_map. split.
  - apply map_ext. intros x. unfold apply_visibility. lia.
  - apply Forall_fmap. eapply Forall_impl; [exact Hr|]. intros x Hx. simpl.
    unfold apply_visibility, force_assigned, abs, SCULPT_FACE_SET_NONE, INT_MIN, INT_MAX in *.
    destruct (x =? 0) eqn:E; [|apply Z.eqb_neq in E]; lia.
Qed.

(** *** Concrete sessions *)

Ltac values_in_range :=
  unfold in_int_range;
  match goal with
  | |- Forall ?P ?l => let l' := eval vm_compute in l in change (Forall P l')
  end;
  repeat (apply Forall_cons_2; [unfold INT_MIN, INT_MAX; lia|]); apply Forall_nil_2.

(** A BMesh session of three faces whose face-set layer sits at offset 2. *)
Definition bmesh_face (x : Z) : BMFace :=
  {| head_data := fun o => if o =? 2 then x else 0 |}.

Definition bmesh_session : SculptSession :=
  {| pbvh_type := PBVH_BMESH; totfaces := 0; face_sets := [];
     bm := Some {| pdata_face_sets_offset := 2;
                   bm_faces := [bmesh_face 4; bmesh_face (-9); bmesh_face 0] |};
     cd_faceset_offset := 2; cd_face_node_offset := -1;
     update_triangulation := []; pmap := []; mpoly := []; mloop := [] |}.

Lemma face_set_visibility_set_signs_witness :
  counted grid_session
  /\ values (SCULPT_face_set_visibility_set grid_session 7 true) = [0; 3; -2; 7]
  /\ values (SCULPT_face_set_visibility_set grid_session (-2) true) = values grid_session.
Proof.
  split; [reflexivity|]. split; [reflexivity|].
  destruct (face_set_visibility_set_signs grid_session (-2) true) as (_ & H & _);
    [reflexivity | values_in_range |].
  apply H. lia.
Defined.

Lemma face_sets_visibility_invert_involution_witness :
  counted bmesh_session
  /\ values (SCULPT_face_sets_visibility_invert
               (SCULPT_face_sets_visibility_invert bmesh_session)) = [4; -9; 0].
Proof.
  split; [eexists; reflexivity|].
  destruct (face_sets_visibility_invert_involution bmesh_session) as (_ & H & _);
    [eexists; reflexivity | values_in_range |].
  rewrite H. reflexivity.
Defined.

Lemma face_set_next_available_is_fresh_witness :
  counted bmesh_session
  /\ cd_faceset_offset bmesh_session <> 0
  /\ SCULPT_face_set_next_available_get bmesh_session = 10
  /\ Forall (fun x => Z.abs x < 10) (values bmesh_session).
Proof.
  split; [eexists; reflexivity|]. split; [discriminate|]. split; [reflexivity|].
  destruct (face_set_next_available_is_fresh bmesh_session) as (_ & H & _).
  - eexists; reflexivity.
  - values_in_range.
  - intros _. discriminate.
  - exact H.
Defined.

Lemma invert_after_show_all_is_hide_all_witness :
  counted bmesh_session
  /\ 0 <= cd_faceset_offset bmesh_session
  /\ values (SCULPT_face_sets_visibility_invert
               (SCULPT_face_sets_visibility_all_set bmesh_session true)) = [-4; -9; -1].
Proof.
  split; [eexists; reflexivity|]. split; [simpl; lia|].
  destruct (invert_after_show_all_is_hide_all bmesh_session) as [H _].
  - eexists; reflexivity.
  - values_in_range.
  - intros _. simpl. lia.
  - rewrite H. reflexivity.
Defined.

End FaceSetOps.

(* ===================================================================== *)
(** ** The nearest vertex *)
(* ===================================================================== *)

Module NearestVertex.

Local Open Scope Z_scope.

Abbreviation PBVHVertexIter := FakeNeighbors.PBVHVertexIter.
Abbreviation vertex := FakeNeighbors.vertex.
Abbreviation co := FakeNeighbors.co.
Abbreviation schedule := FakeNeighbors.schedule.
Abbreviation gathered_vertices := FakeNeighbors.gathered_vertices.
Abbreviation FLT_MAX := FakeNeighbors.FLT_MAX.

Record NearestVertexTLSData := {
  nearest_vertex : PBVHVertRef;
  nearest_vertex_distance_squared : R
}.

(** The body of the vertex loop of [do_nearest_vertex_get_task_cb]. *)
Definition nearest_vertex_get_vertex (nearest_vertex_search_co : vec3)
    (max_distance_squared : R) (nvtd : NearestVertexTLSData) (vd : PBVHVertexIter)
    : NearestVertexTLSData :=
  let distance_squared := len_squared_v3v3 (co vd) nearest_vertex_search_co in
  if float_lt distance_squared (nearest_vertex_distance_squared nvtd)
     && float_lt distance_squared max_distance_squared
  then {| nearest_vertex := vertex vd;
          nearest_vertex_distance_squared := distance_squared |}
  else nvtd.

(** [do_nearest_vertex_get_task_cb] (sculpt.c, 2332): one node. *)
Definition do_nearest_vertex_get_task_cb (nearest_vertex_search_co : vec3)
    (max_distance_squared : R) (nvtd : NearestVertexTLSData)
    (node : FakeNeighbors.PBVHNode) : NearestVertexTLSData :=
  fold_left (nearest_vertex_get_vertex nearest_vertex_search_co max_distance_squared)
            node nvtd.

(** [nearest_vertex_get_reduce] (sculpt.c, 2352). *)
Definition nearest_vertex_get_reduce (join nvtd : NearestVertexTLSData)
    : NearestVertexTLSData :=
  if nearest_vertex join =? PBVH_REF_NONE then
    {| nearest_vertex := nearest_vertex nvtd;
       nearest_vertex_distance_squared := nearest_vertex_distance_squared nvtd |}
  else if float_lt (nearest_vertex_distance_squared nvtd)
                   (nearest_vertex_distance_squared join) then
    {| nearest_vertex := nearest_vertex nvtd;
       nearest_vertex_distance_squared := nearest_vertex_distance_squared nvtd |}
  else join.

(** [SCULPT_nearest_vertex_get] (sculpt.c, 2368), on the nodes that
    [BKE_pbvh_search_gather] found, as the tasks share them. *)
Definition SCULPT_nearest_vertex_get (gathered : schedule) (co0 : vec3)
    (max_distance : R) : PBVHVertRef :=
  if (length (FakeNeighbors.schedule_nodes gathered) =? 0)%nat then PBVH_REF_NONE
  else
    nearest_vertex
      (FakeNeighbors.BLI_task_parallel_range
         (do_nearest_vertex_get_task_cb co0 (max_distance * max_distance)%R)
         nearest_vertex_get_reduce
         {| nearest_vertex := PBVH_REF_NONE;
            nearest_vertex_distance_squared := FLT_MAX |}
         gathered).

Section Search.

Variable co0 : vec3.
Variable max_distance : R.

Let dist (vd : PBVHVertexIter) : R := len_squared_v3v3 (co vd) co0.
Let step := nearest_vertex_get_vertex co0 (max_distance * max_distance)%R.

(** A vertex the iterator may show: it has a proper reference, and its
    squared distance to the search position is a [float] below [FLT_MAX]. *)
Definition proper (vd : PBVHVertexIter) : Prop :=
  vertex vd <> PBVH_REF_NONE /\ (len_squared_v3v3 (co vd) co0 < FLT_MAX)%R.









End Search.

(** *** Gathering the nodes *)



(** What the search callback asks of a node: its bounding boxes (minimum
    and maximum corner) and its flags; and its unique vertices. *)
Record PBVHNode := {
  unique_verts : FakeNeighbors.PBVHNode;
  BB : vec3 * vec3;
  original_BB : vec3 * vec3;
  fully_hidden : bool;
  fully_masked : bool
}.

Record SculptSearchSphereData := {
  (** [ss->cache->location], [None] when [ss->cache] is null *)
  cache_location : option vec3;
  cursor_location : vec3;
  radius_squared : R;
  original : bool;
  ignore_fully_ineffective : bool;
  (** [data->center], [None] for the null pointer *)
  center : option vec3
}.



Definition search_box (node : PBVHNode) (data : SculptSearchSphereData) : vec3 * vec3 :=
  if original data then original_BB node else BB node.



(** A point of a box. *)
Definition in_box (box : vec3 * vec3) (p : vec3) : Prop :=
  let '((nx, ny, nz), (mx, my, mz)) := box in
  let '(px, py, pz) := p in
  (nx <= px <= mx /\ ny <= py <= my /\ nz <= pz <= mz)%R.







(** *** The search over the whole tree *)



(** The box searched bounds the vertices of the node. *)
Definition bounded (data : SculptSearchSphereData) (n : PBVHNode) : Prop :=
  Forall (fun vd => in_box (search_box n data) (co vd)) (unique_verts n).




(** *** Concrete searches *)









End NearestVertex.

(* ===================================================================== *)
(** ** The fake neighbour found is the nearest one *)
(* ===================================================================== *)

Module FakeNeighborNearest.

Import FakeNeighbors.

Local Open Scope Z_scope.

Section WithMesh.

Variable BM_elem_index_get : PBVHVertRef -> Z.
Variable SCULPT_vertex_co_get : PBVHVertRef -> vec3.
Variable ss : SculptSession.
Variable source : PBVHVertRef.
Variable max_distance : R.

Let component := SCULPT_vertex_get_connected_component BM_elem_index_get ss.
Let center := SCULPT_vertex_co_get source.

(** The test of [do_fake_neighbor_search_task_cb] on a vertex, before any
    distance is looked at: another connected component than the source, and
    no fake neighbour yet. *)
Definition eligible (vd : PBVHVertexIter) : bool :=
  negb (component (vertex vd) =? component source)
  && match rd (fake_neighbor_index ss) (index vd) with
     | Some x => x =? FAKE_NEIGHBOR_NONE
     | None => false
     end.

(** The eligible vertices of each node, the nodes shared among the tasks as
    they were. *)
Fixpoint eligible_only (s : schedule) : schedule :=
  match s with
  | Run nodes => Run (map (List.filter eligible) nodes)
  | Join l r => Join (eligible_only l) (eligible_only r)
  end.

(** What the two accumulators have in common. *)
Definition forget (st : NearestVertexFakeNeighborTLSData)
    : NearestVertex.NearestVertexTLSData :=
  {| NearestVertex.nearest_vertex := nearest_vertex st;
     NearestVertex.nearest_vertex_distance_squared := nearest_vertex_distance_squared st |}.

Let fake_step :=
  fake_neighbor_search_vertex BM_elem_index_get ss center (max_distance * max_distance)%R.
Let near_step :=
  NearestVertex.nearest_vertex_get_vertex center (max_distance * max_distance)%R.

Lemma fake_step_topology st vd :
  current_topology_id (fake_step st vd) = current_topology_id st.
Proof.
  unfold fake_step, fake_neighbor_search_vertex.
  repeat match goal with |- context [if ?b then _ else _] => destruct b end;
    reflexivity.
Qed.

Lemma fake_step_forget st vd :
  current_topology_id st = component source ->
  forget (fake_step st vd)
  = if eligible vd then near_step (forget st) vd else forget st.
Proof.
  intros Hid. unfold fake_step, fake_neighbor_search_vertex, eligible.
  rewrite Hid. fold component.
  destruct (negb (component (vertex vd) =? component source)
            && match rd (fake_neighbor_index ss) (index vd) with
               | Some x => x =? FAKE_NEIGHBOR_NONE
               | None => false
               end); [|reflexivity].
  unfold near_step, NearestVertex.nearest_vertex_get_vertex. simpl.
  destruct (float_lt (len_squared_v3v3 (co vd) center) (nearest_vertex_distance_squared st)
            && float_lt (len_squared_v3v3 (co vd) center) (max_distance * max_distance));
    reflexivity.
Qed.

Lemma fake_node_forget (node : PBVHNode) : forall st,
  current_topology_id st = component source ->
  current_topology_id (fold_left fake_step node st) = component source
  /\ forget (fold_left fake_step node st)
     = fold_left near_step (List.filter eligible node) (forget st).
Proof.
  induction node as [|vd node IH]; intros st Hid; simpl.
  - split; [exact Hid | reflexivity].
  - destruct (IH (fake_step st vd)) as [Hid' Hf];
      [rewrite fake_step_topology; exact Hid|].
    split; [exact Hid'|]. rewrite Hf, (fake_step_forget st vd Hid).
    destruct (eligible vd); reflexivity.
Qed.

Lemma fake_nodes_forget (nodes : list PBVHNode) : forall st,
  current_topology_id st = component source ->
  current_topology_id
    (fold_left (do_fake_neighbor_search_task_cb BM_elem_index_get ss center
                  (max_distance * max_distance)%R) nodes st) = component source
  /\ forget (fold_left (do_fake_neighbor_search_task_cb BM_elem_index_get ss center
                          (max_distance * max_distance)%R) nodes st)
     = fold_left (NearestVertex.do_nearest_vertex_get_task_cb center
                    (max_distance * max_distance)%R)
                 (map (List.filter eligible) nodes) (forget st).
Proof.
  induction nodes as [|node nodes IH]; intros st Hid; simpl.
  - split; [exact Hid | reflexivity].
  - destruct (fake_node_forget node st Hid) as [Hid' Hf].
    destruct (IH _ Hid') as [Hid'' Hf']. split; [exact Hid''|].
    change (do_fake_neighbor_search_task_cb BM_elem_index_get ss center
              (max_distance * max_distance)%R st node)
      with (fold_left fake_step node st).
    change (NearestVertex.do_nearest_vertex_get_task_cb center
              (max_distance * max_distance)%R (forget st) (List.filter eligible node))
      with (fold_left near_step (List.filter eligible node) (forget st)).
    rewrite Hf', Hf. reflexivity.
Qed.

Lemma fake_reduce_forget join nvtd :
  current_topology_id (fake_neighbor_search_reduce join nvtd) = current_topology_id join
  /\ forget (fake_neighbor_search_reduce join nvtd)
     = NearestVertex.nearest_vertex_get_reduce (forget join) (forget nvtd).
Proof.
  unfold fake_neighbor_search_reduce, NearestVertex.nearest_vertex_get_reduce. simpl.
  destruct (nearest_vertex join =? PBVH_REF_NONE); [split; reflexivity|].
  destruct (float_lt (nearest_vertex_distance_squared nvtd)
                     (nearest_vertex_distance_squared join)); split; reflexivity.
Qed.

Lemma fake_schedule_forget (s : schedule) : forall st,
  current_topology_id st = component source ->
  current_topology_id
    (BLI_task_parallel_range
       (do_fake_neighbor_search_task_cb BM_elem_index_get ss center
          (max_distance * max_distance)%R)
       fake_neighbor_search_reduce st s) = component source
  /\ forget (BLI_task_parallel_range
               (do_fake_neighbor_search_task_cb BM_elem_index_get ss center
                  (max_distance * max_distance)%R)
               fake_neighbor_search_reduce st s)
     = BLI_task_parallel_range
         (NearestVertex.do_nearest_vertex_get_task_cb center
            (max_distance * max_distance)%R)
         NearestVertex.nearest_vertex_get_reduce (forget st) (eligible_only s).
Proof.
  induction s as [nodes | l IHl r IHr]; intros st Hid; simpl.
  - apply fake_nodes_forget. exact Hid.
  - destruct (IHl st Hid) as [Hl Hfl]. destruct (IHr st Hid) as [Hr Hfr].
    destruct (fake_reduce_forget
                (BLI_task_parallel_range
                   (do_fake_neighbor_search_task_cb BM_elem_index_get ss center
                      (max_distance * max_distance)%R)
                   fake_neighbor_search_reduce st l)
                (BLI_task_parallel_range
                   (do_fake_neighbor_search_task_cb BM_elem_index_get ss center
                      (max_distance * max_distance)%R)
                   fake_neighbor_search_reduce st r)) as [Hid' Hf].
    split; [rewrite Hid'; exact Hl|]. rewrite Hf, Hfl, Hfr. reflexivity.
Qed.

Lemma eligible_only_nodes (s : schedule) :
  length (schedule_nodes (eligible_only s)) = length (schedule_nodes s).
Proof.
  induction s as [nodes | l IHl r IHr]; simpl.
  - apply length_map.
  - rewrite !length_app, IHl, IHr. reflexivity.
Qed.

Lemma search_as_nearest (gathered : schedule) :
  SCULPT_fake_neighbor_search BM_elem_index_get SCULPT_vertex_co_get ss gathered source
                              max_distance
  = NearestVertex.SCULPT_nearest_vertex_get (eligible_only gathered) center max_distance.
Proof.
  unfold SCULPT_fake_neighbor_search, NearestVertex.SCULPT_nearest_vertex_get.
  rewrite eligible_only_nodes.
  destruct (length (schedule_nodes gathered) =? 0)%nat; [reflexivity|].
  fold center component.
  set (init := {| nearest_vertex := -1; nearest_vertex_distance_squared := FLT_MAX;
                  current_topology_id := component source |}).
  destruct (fake_schedule_forget gathered init eq_refl) as [_ Hf].
  change (NearestVertex.nearest_vertex
            (forget (BLI_task_parallel_range
               (do_fake_neighbor_search_task_cb BM_elem_index_get ss center
                  (max_distance * max_distance)%R)
               fake_neighbor_search_reduce init gathered))
          = NearestVertex.nearest_vertex
              (BLI_task_parallel_range
                 (NearestVertex.do_nearest_vertex_get_task_cb center
                    (max_distance * max_distance)%R)
                 NearestVertex.nearest_vertex_get_reduce (forget init)
                 (eligible_only gathered))).
  rewrite Hf. reflexivity.
Qed.

(** X8.  [SCULPT_fake_neighbor_search] is [SCULPT_nearest_vertex_get] around
    the source vertex, run on the gathered vertices of another connected
    component that have no fake neighbour. *)
Theorem fake_neighbor_search_is_nearest_vertex_search (gathered : schedule) :
  SCULPT_fake_neighbor_search BM_elem_index_get SCULPT_vertex_co_get ss gathered source
                              max_distance
  = NearestVertex.SCULPT_nearest_vertex_get (eligible_only gathered)
      (SCULPT_vertex_co_get source) max_distance.
Proof. apply search_as_nearest. Qed.




End WithMesh.






End FakeNeighborNearest.

(* ===================================================================== *)
(** ** The symmetry driver *)
(* ===================================================================== *)

Module SymmetryDriver.

Local Open Scope Z_scope.

(** The [float[3]] members of the stroke cache that the driver writes or
    reads. *)
Inductive vec_field :=
| location | true_location
| last_location | true_last_location
| grab_delta_symmetry | grab_delta
| view_normal | true_view_normal
| view_origin | true_view_origin
| prev_grab_delta_symmetry | prev_grab_delta
| next_grab_delta_symmetry | next_grab_delta
| initial_location | true_initial_location
| initial_normal | true_initial_normal
| plane_offset
| gravity_direction | true_gravity_direction.

Definition vec_field_eqb (a b : vec_field) : bool :=
  match a, b with
  | location, location | true_location, true_location
  | last_location, last_location | true_last_location, true_last_location
  | grab_delta_symmetry, grab_delta_symmetry | grab_delta, grab_delta
  | view_normal, view_normal | true_view_normal, true_view_normal
  | view_origin, view_origin | true_view_origin, true_view_origin
  | prev_grab_delta_symmetry, prev_grab_delta_symmetry
  | prev_grab_delta, prev_grab_delta
  | next_grab_delta_symmetry, next_grab_delta_symmetry
  | next_grab_delta, next_grab_delta
  | initial_location, initial_location
  | true_initial_location, true_initial_location
  | initial_normal, initial_normal | true_initial_normal, true_initial_normal
  | plane_offset, plane_offset
  | gravity_direction, gravity_direction
  | true_gravity_direction, true_gravity_direction => true
  | _, _ => false
  end.

(** [float] to [int], as the cast [(int)x] converts: towards zero. *)
Definition float_to_int (x : R) : Z :=
  if Rle_dec 0 x then Int_part x else - Int_part (- x).

(** The values [a .. b] of the loop variable of
    [for (i = a; i <= b; i++)]. *)
Definition int_range (a b : Z) : list Z :=
  map (fun k => a + Z.of_nat k) (seq 0 (Z.to_nat (b - a + 1))).

Definition axis_of (v : vec3) (dim : Z) : R :=
  if dim =? 0 then v.1.1 else if dim =? 1 then v.1.2 else v.2.

Section WithTransforms.

(** Mirroring and the matrices come from the math library, the flag from a
    header, and the strength of the brush from another file, all outside
    the sources at hand. *)
Variable flip_v3_v3 : vec3 -> Z -> vec3.
Variable mat4 : Type.
Variable unit_m4 : mat4.
Variable rotate_m4 : mat4 -> Z -> R -> mat4.
Variable mul_m4_v3 : mat4 -> vec3 -> vec3.
Variable quat : Type.
Variable flip_qt_qt : quat -> Z -> quat.
Variable PAINT_TILE_X : Z.

Record StrokeCache := {
  mirror_symmetry_pass : Z;
  radial_symmetry_pass : Z;
  tile_pass : Z;
  first_time : bool;
  radius : R;
  vec : vec_field -> vec3;
  symm_rot_mat : mat4;
  symm_rot_mat_inv : mat4;
  supports_gravity : bool;
  is_rake_rotation_valid : bool;
  rake_rotation : quat;
  rake_rotation_symmetry : quat;
  bstrength : R;
  symmetry : Z
}.

(** What the driver reads of [sd] and of the object. *)
Record Sculpt := {
  (** [sd->radial_symm], one count per axis X, Y, Z *)
  radial_symm : list Z;
  (** [sd->paint.symmetry_flags] *)
  symmetry_flags : Z;
  (** [sd->paint.tile_offset] *)
  tile_offset : vec3;
  (** [BKE_object_boundbox_get(ob)]: the corners [vec[0]] and [vec[6]] *)
  bbMin : vec3;
  bbMax : vec3
}.

(** Assignments to members of the cache. *)
Definition set_vec (cache : StrokeCache) (f : vec_field) (v : vec3) : StrokeCache :=
  {| mirror_symmetry_pass := mirror_symmetry_pass cache;
     radial_symmetry_pass := radial_symmetry_pass cache;
     tile_pass := tile_pass cache; first_time := first_time cache;
     radius := radius cache;
     vec := fun g => if vec_field_eqb g f then v else vec cache g;
     symm_rot_mat := symm_rot_mat cache; symm_rot_mat_inv := symm_rot_mat_inv cache;
     supports_gravity := supports_gravity cache;
     is_rake_rotation_valid := is_rake_rotation_valid cache;
     rake_rotation := rake_rotation cache;
     rake_rotation_symmetry := rake_rotation_symmetry cache;
     bstrength := bstrength cache; symmetry := symmetry cache |}.

Definition set_passes (cache : StrokeCache) (mirror radial tile : Z) : StrokeCache :=
  {| mirror_symmetry_pass := mirror; radial_symmetry_pass := radial;
     tile_pass := tile; first_time := first_time cache;
     radius := radius cache; vec := vec cache;
     symm_rot_mat := symm_rot_mat cache; symm_rot_mat_inv := symm_rot_mat_inv cache;
     supports_gravity := supports_gravity cache;
     is_rake_rotation_valid := is_rake_rotation_valid cache;
     rake_rotation := rake_rotation cache;
     rake_rotation_symmetry := rake_rotation_symmetry cache;
     bstrength := bstrength cache; symmetry := symmetry cache |}.

Definition set_rot_mats (cache : StrokeCache) (m m_inv : mat4) : StrokeCache :=
  {| mirror_symmetry_pass := mirror_symmetry_pass cache;
     radial_symmetry_pass := radial_symmetry_pass cache;
     tile_pass := tile_pass cache; first_time := first_time cache;
     radius := radius cache; vec := vec cache;
     symm_rot_mat := m; symm_rot_mat_inv := m_inv;
     supports_gravity := supports_gravity cache;
     is_rake_rotation_valid := is_rake_rotation_valid cache;
     rake_rotation := rake_rotation cache;
     rake_rotation_symmetry := rake_rotation_symmetry cache;
     bstrength := bstrength cache; symmetry := symmetry cache |}.

Definition set_rake_rotation_symmetry (cache : StrokeCache) (q : quat) : StrokeCache :=
  {| mirror_symmetry_pass := mirror_symmetry_pass cache;
     radial_symmetry_pass := radial_symmetry_pass cache;
     tile_pass := tile_pass cache; first_time := first_time cache;
     radius := radius cache; vec := vec cache;
     symm_rot_mat := symm_rot_mat cache; symm_rot_mat_inv := symm_rot_mat_inv cache;
     supports_gravity := supports_gravity cache;
     is_rake_rotation_valid := is_rake_rotation_valid cache;
     rake_rotation := rake_rotation cache;
     rake_rotation_symmetry := q;
     bstrength := bstrength cache; symmetry := symmetry cache |}.

Definition set_strength (cache : StrokeCache) (strength : R) (symm : Z) : StrokeCache :=
  {| mirror_symmetry_pass := mirror_symmetry_pass cache;
     radial_symmetry_pass := radial_symmetry_pass cache;
     tile_pass := tile_pass cache; first_time := first_time cache;
     radius := radius cache; vec := vec cache;
     symm_rot_mat := symm_rot_mat cache; symm_rot_mat_inv := symm_rot_mat_inv cache;
     supports_gravity := supports_gravity cache;
     is_rake_rotation_valid := is_rake_rotation_valid cache;
     rake_rotation := rake_rotation cache;
     rake_rotation_symmetry := rake_rotation_symmetry cache;
     bstrength := strength; symmetry := symm |}.

(** [SCULPT_stroke_is_main_symmetry_pass] (sculpt.c, 2284). *)
Definition SCULPT_stroke_is_main_symmetry_pass (cache : StrokeCache) : bool :=
  (mirror_symmetry_pass cache =? 0) && (radial_symmetry_pass cache =? 0)
  && (tile_pass cache =? 0).

(** [SCULPT_stroke_is_first_brush_step] (sculpt.c, 2297). *)
Definition SCULPT_stroke_is_first_brush_step (cache : StrokeCache) : bool :=
  first_time cache && (mirror_symmetry_pass cache =? 0)
  && (radial_symmetry_pass cache =? 0) && (tile_pass cache =? 0).

(** [SCULPT_stroke_is_first_brush_step_of_symmetry_pass] (sculpt.c, 2303). *)
Definition SCULPT_stroke_is_first_brush_step_of_symmetry_pass (cache : StrokeCache)
    : bool :=
  first_time cache.

(** [flip_v3_v3(cache->dst, cache->src, symm)] *)
Definition flip_field (dst src : vec_field) (symm : Z) (cache : StrokeCache)
    : StrokeCache :=
  set_vec cache dst (flip_v3_v3 (vec cache src) symm).

(** [mul_m4_v3(cache->symm_rot_mat, cache->dst)] *)
Definition rotate_field (dst : vec_field) (cache : StrokeCache) : StrokeCache :=
  set_vec cache dst (mul_m4_v3 (symm_rot_mat cache) (vec cache dst)).

(** [SCULPT_cache_calc_brushdata_symm] (sculpt.c, 6226). *)
Definition SCULPT_cache_calc_brushdata_symm (cache : StrokeCache) (symm axis : Z)
    (angle : R) : StrokeCache :=
  let cache := flip_field location true_location symm cache in
  let cache := flip_field last_location true_last_location symm cache in
  let cache := flip_field grab_delta_symmetry grab_delta symm cache in
  let cache := flip_field view_normal true_view_normal symm cache in
  let cache := flip_field view_origin true_view_origin symm cache in
  let cache := flip_field prev_grab_delta_symmetry prev_grab_delta symm cache in
  let cache := flip_field next_grab_delta_symmetry next_grab_delta symm cache in
  let cache := flip_field initial_location true_initial_location symm cache in
  let cache := flip_field initial_normal true_initial_normal symm cache in
  let cache := set_rot_mats cache unit_m4 unit_m4 in
  let cache := set_vec cache plane_offset (0, 0, 0)%R in
  let cache :=
    if negb (axis =? 0) then
      set_rot_mats cache (rotate_m4 (symm_rot_mat cache) axis angle)
                   (rotate_m4 (symm_rot_mat_inv cache) axis (- angle)%R)
    else cache in
  let cache := rotate_field location cache in
  let cache := rotate_field grab_delta_symmetry cache in
  let cache :=
    if supports_gravity cache then
      rotate_field gravity_direction
        (flip_field gravity_direction true_gravity_direction symm cache)
    else cache in
  if is_rake_rotation_valid cache then
    set_rake_rotation_symmetry cache (flip_qt_qt (rake_rotation cache) symm)
  else cache.

(** *** The driver *)

(** The brush action may change the cache and anything else, [U]; the
    strength of the brush and the feather factor are computed elsewhere. *)
Variable U : Type.
Variable action : StrokeCache -> U -> StrokeCache * U.
Variable brush_strength : StrokeCache -> R -> R.
Variable calc_symmetry_feather : Sculpt -> StrokeCache -> R.

(** The cache, the rest of the state, and (for the proofs) the cache as it
    was at each call of the action. *)
Record driver := {
  cache : StrokeCache;
  world : U;
  calls : list StrokeCache
}.

(** [action(sd, ob, brush, ups, paint_mode_settings, userdata)] *)
Definition call_action (st : driver) : driver :=
  let '(cache', world') := action (cache st) (world st) in
  {| cache := cache'; world := world'; calls := calls st ++ [cache st] |}.

Definition with_cache (st : driver) (c : StrokeCache) : driver :=
  {| cache := c; world := world st; calls := calls st |}.

(** [start[dim]] and [end[dim]] of [do_tiled]. *)
Definition tile_bounds (sd : Sculpt) (orgLoc : vec3) (radius0 : R) (dim : Z) : Z * Z :=
  let step := axis_of (tile_offset sd) dim in
  if negb (Z.land (symmetry_flags sd) (Z.shiftl PAINT_TILE_X dim) =? 0)
     && float_gt step 0
  then (float_to_int ((axis_of (bbMin sd) dim - axis_of orgLoc dim - radius0) / step),
        float_to_int ((axis_of (bbMax sd) dim - axis_of orgLoc dim + radius0) / step))
  else (0, 0).

(** The tiles in the order of the three nested loops. *)
Definition tiles (b0 b1 b2 : Z * Z) : list (Z * Z * Z) :=
  flat_map (fun c0 =>
    flat_map (fun c1 =>
      map (fun c2 => (c0, c1, c2)) (int_range b2.1 b2.2))
      (int_range b1.1 b1.2))
    (int_range b0.1 b0.2).

(** [cur[dim] * step[dim] + org[dim]], for the three [dim]. *)
Definition tile_shift (cur : Z * Z * Z) (step org : vec3) : vec3 :=
  (IZR cur.1.1 * step.1.1 + org.1.1, IZR cur.1.2 * step.1.2 + org.1.2,
   IZR cur.2 * step.2 + org.2)%R.

Definition tile_offset_of (cur : Z * Z * Z) (step : vec3) : vec3 :=
  (IZR cur.1.1 * step.1.1, IZR cur.1.2 * step.1.2, IZR cur.2 * step.2)%R.

(** The body of the innermost loop of [do_tiled]. *)
Definition do_tile (sd : Sculpt) (orgLoc original_initial_location : vec3)
    (st : driver) (cur : Z * Z * Z) : driver :=
  if (cur.1.1 =? 0) && (cur.1.2 =? 0) && (cur.2 =? 0) then st
  else
    let c := cache st in
    let c := set_passes c (mirror_symmetry_pass c) (radial_symmetry_pass c)
                        (tile_pass c + 1) in
    let c := set_vec c location (tile_shift cur (tile_offset sd) orgLoc) in
    let c := set_vec c plane_offset (tile_offset_of cur (tile_offset sd)) in
    let c := set_vec c initial_location
                     (tile_shift cur (tile_offset sd) original_initial_location) in
    call_action (with_cache st c).

(** [do_tiled] (sculpt.c, 6281). *)
Definition do_tiled (sd : Sculpt) (st : driver) : driver :=
  let radius0 := radius (cache st) in
  let orgLoc := vec (cache st) location in
  let original_initial_location := vec (cache st) initial_location in
  let b0 := tile_bounds sd orgLoc radius0 0 in
  let b1 := tile_bounds sd orgLoc radius0 1 in
  let b2 := tile_bounds sd orgLoc radius0 2 in
  let c := cache st in
  let st := call_action
              (with_cache st (set_passes c (mirror_symmetry_pass c)
                                         (radial_symmetry_pass c) 0)) in
  fold_left (do_tile sd orgLoc original_initial_location) (tiles b0 b1 b2) st.

(** [sd->radial_symm[axis - 'X']] *)
Definition radial_count (sd : Sculpt) (axis : Z) : Z :=
  default 0 (rd (radial_symm sd) (axis - Feather.axis_X)).

(** The body of the loop of [do_radial_symmetry]. *)
Definition do_radial_step (sd : Sculpt) (symm axis : Z) (st : driver) (i : Z) : driver :=
  let angle := Feather.radial_angle i (radial_count sd axis) in
  let c := cache st in
  let c := set_passes c (mirror_symmetry_pass c) i (tile_pass c) in
  let c := SCULPT_cache_calc_brushdata_symm c symm axis angle in
  do_tiled sd (with_cache st c).

(** [do_radial_symmetry] (sculpt.c, 6346). *)
Definition do_radial_symmetry (sd : Sculpt) (symm axis : Z) (st : driver) : driver :=
  fold_left (do_radial_step sd symm axis) (Feather.radial_steps (radial_count sd axis)) st.

(** One valid mirror pass of [do_symmetrical_brush_actions]. *)
Definition do_mirror_pass (sd : Sculpt) (st : driver) (i : Z) : driver :=
  let c := cache st in
  let c := set_passes c i 0 (tile_pass c) in
  let c := SCULPT_cache_calc_brushdata_symm c i 0 0 in
  let st := do_tiled sd (with_cache st c) in
  let st := do_radial_symmetry sd i Feather.axis_X st in
  let st := do_radial_symmetry sd i Feather.axis_Y st in
  do_radial_symmetry sd i Feather.axis_Z st.

(** The body of the loop of [do_symmetrical_brush_actions]. *)
Definition do_mirror_step (sd : Sculpt) (symm : Z) (st : driver) (i : Z) : driver :=
  if negb (Symmetry.SCULPT_is_symmetry_iteration_valid i symm) then st
  else do_mirror_pass sd st i.

(** [do_symmetrical_brush_actions] (sculpt.c, 6382); [symm] is what
    [SCULPT_mesh_symmetry_xyz_get] answers. *)
Definition do_symmetrical_brush_actions (sd : Sculpt) (symm : Z) (st : driver) : driver :=
  let c := cache st in
  let feather := calc_symmetry_feather sd c in
  let c := set_strength c (brush_strength c feather) symm in
  fold_left (do_mirror_step sd symm) (Symmetry.passes symm) (with_cache st c).

(** *** The passes of the calls *)

(** The brush actions leave the three pass counters alone (no assignment to
    them outside the driver). *)
Definition keeps_passes : Prop :=
  forall c u,
    mirror_symmetry_pass (action c u).1 = mirror_symmetry_pass c
    /\ radial_symmetry_pass (action c u).1 = radial_symmetry_pass c
    /\ tile_pass (action c u).1 = tile_pass c.

(** A call in the mirror pass [m] and the radial pass [r], on a tile but the
    first. *)
Definition later_tile (m r : Z) (c : StrokeCache) : Prop :=
  mirror_symmetry_pass c = m /\ radial_symmetry_pass c = r /\ 1 <= tile_pass c.

Lemma brushdata_passes c symm axis angle :
  mirror_symmetry_pass (SCULPT_cache_calc_brushdata_symm c symm axis angle)
  = mirror_symmetry_pass c
  /\ radial_symmetry_pass (SCULPT_cache_calc_brushdata_symm c symm axis angle)
     = radial_symmetry_pass c
  /\ tile_pass (SCULPT_cache_calc_brushdata_symm c symm axis angle) = tile_pass c.
Proof.
  unfold SCULPT_cache_calc_brushdata_symm.
  repeat match goal with
         | |- context [if ?b then _ else _] => destruct b
         end; simpl; repeat split; reflexivity.
Qed.

Section Passes.

Hypothesis Hkeeps : keeps_passes.

Lemma call_action_passes st :
  calls (call_action st) = calls st ++ [cache st]
  /\ mirror_symmetry_pass (cache (call_action st)) = mirror_symmetry_pass (cache st)
  /\ radial_symmetry_pass (cache (call_action st)) = radial_symmetry_pass (cache st)
  /\ tile_pass (cache (call_action st)) = tile_pass (cache st).
Proof.
  unfold call_action. pose proof (Hkeeps (cache st) (world st)) as H.
  destruct (action (cache st) (world st)) as [c' w']. simpl in *.
  split; [reflexivity | exact H].
Qed.

Lemma do_tiles_passes sd orgLoc oil (l : list (Z * Z * Z)) : forall st,
  0 <= tile_pass (cache st) ->
  exists more,
    calls (fold_left (do_tile sd orgLoc oil) l st) = calls st ++ more
    /\ Forall (later_tile (mirror_symmetry_pass (cache st))
                          (radial_symmetry_pass (cache st))) more
    /\ mirror_symmetry_pass (cache (fold_left (do_tile sd orgLoc oil) l st))
       = mirror_symmetry_pass (cache st)
    /\ radial_symmetry_pass (cache (fold_left (do_tile sd orgLoc oil) l st))
       = radial_symmetry_pass (cache st)
    /\ 0 <= tile_pass (cache (fold_left (do_tile sd orgLoc oil) l st)).
Proof.
  induction l as [|cur l IH]; intros st Ht; simpl.
  - exists []. rewrite app_nil_r. repeat split; [constructor | exact Ht].
  - unfold do_tile at 2 4 6 8.
    destruct ((cur.1.1 =? 0) && (cur.1.2 =? 0) && (cur.2 =? 0)); [apply IH; exact Ht|].
    match goal with
    | |- context [call_action ?x] => set (st1 := x)
    end.
    destruct (call_action_passes st1) as (Hc & Hm & Hr & Htl).
    assert (Hm1 : mirror_symmetry_pass (cache st1) = mirror_symmetry_pass (cache st))
      by reflexivity.
    assert (Hr1 : radial_symmetry_pass (cache st1) = radial_symmetry_pass (cache st))
      by reflexivity.
    assert (Ht1 : tile_pass (cache st1) = tile_pass (cache st) + 1) by reflexivity.
    destruct (IH (call_action st1)) as (more & Hcalls & Hall & Hm' & Hr' & Ht');
      [rewrite Htl, Ht1; lia|].
    exists (cache st1 :: more).
    split; [rewrite Hcalls, Hc; simpl; rewrite <- app_assoc; reflexivity|].
    rewrite Hm, Hr, Hm1, Hr1 in *.
    split; [|split; [exact Hm' | split; [exact Hr' | exact Ht']]].
    constructor; [|exact Hall].
    split; [exact Hm1 | split; [exact Hr1 | rewrite Ht1; lia]].
Qed.

(** The calls of [do_tiled]: first on the tile 0, then on later tiles, all
    in the mirror and radial pass of the cache. *)
Lemma do_tiled_passes sd st :
  exists first more,
    calls (do_tiled sd st) = calls st ++ first :: more
    /\ mirror_symmetry_pass first = mirror_symmetry_pass (cache st)
    /\ radial_symmetry_pass first = radial_symmetry_pass (cache st)
    /\ tile_pass first = 0
    /\ Forall (later_tile (mirror_symmetry_pass (cache st))
                          (radial_symmetry_pass (cache st))) more
    /\ mirror_symmetry_pass (cache (do_tiled sd st)) = mirror_symmetry_pass (cache st)
    /\ radial_symmetry_pass (cache (do_tiled sd st)) = radial_symmetry_pass (cache st).
Proof.
  unfold do_tiled.
  match goal with
  | |- context [call_action ?x] => set (st0 := x)
  end.
  destruct (call_action_passes st0) as (Hc & Hm & Hr & Htl).
  match goal with
  | |- context [fold_left ?f ?l (call_action st0)] =>
      destruct (do_tiles_passes sd (vec (cache st) location)
                  (vec (cache st) initial_location) l (call_action st0))
        as (more & Hcalls & Hall & Hm' & Hr' & _)
  end; [rewrite Htl; simpl; lia|].
  exists (cache st0), more.
  rewrite Hm, Hr in *. simpl in Hall, Hm', Hr'.
  split; [rewrite Hcalls, Hc; simpl; rewrite <- app_assoc; reflexivity|].
  repeat split; assumption.
Qed.

Lemma do_radial_steps_passes sd symm axis (l : list Z) : forall st,
  Forall (fun i => 1 <= i) l ->
  exists more,
    calls (fold_left (do_radial_step sd symm axis) l st) = calls st ++ more
    /\ Forall (fun c => mirror_symmetry_pass c = mirror_symmetry_pass (cache st)
                        /\ 1 <= radial_symmetry_pass c) more
    /\ mirror_symmetry_pass (cache (fold_left (do_radial_step sd symm axis) l st))
       = mirror_symmetry_pass (cache st).
Proof.
  induction l as [|i l IH]; intros st Hl.
  - exists []. simpl. rewrite app_nil_r. split; [reflexivity | split; [constructor | reflexivity]].
  - apply Forall_cons in Hl as [Hi Hl]. cbn [fold_left]. unfold do_radial_step at 2 4.
    set (c1 := SCULPT_cache_calc_brushdata_symm
                 (set_passes (cache st) (mirror_symmetry_pass (cache st)) i
                             (tile_pass (cache st)))
                 symm axis (Feather.radial_angle i (radial_count sd axis))).
    destruct (brushdata_passes
                (set_passes (cache st) (mirror_symmetry_pass (cache st)) i
                            (tile_pass (cache st)))
                symm axis (Feather.radial_angle i (radial_count sd axis)))
      as (Hbm & Hbr & _).
    fold c1 in Hbm, Hbr. simpl in Hbm, Hbr.
    destruct (do_tiled_passes sd (with_cache st c1))
      as (first & more1 & Hc1 & Hfm & Hfr & _ & Hall1 & Hm1 & _).
    simpl in Hc1, Hfm, Hfr, Hall1, Hm1. rewrite Hbm in *. rewrite Hbr in *.
    destruct (IH (do_tiled sd (with_cache st c1)) Hl) as (more & Hc & Hall & Hm).
    rewrite Hm1 in *.
    exists (first :: more1 ++ more).
    split; [rewrite Hc, Hc1, <- app_assoc; reflexivity|].
    split; [|exact Hm].
    constructor; [split; [exact Hfm | lia]|].
    apply Forall_app. split; [|exact Hall].
    eapply Forall_impl; [exact Hall1|]. intros c (H1 & H2 & _). split; [exact H1 | lia].
Qed.

Lemma radial_steps_positive n : Forall (fun i => 1 <= i) (Feather.radial_steps n).
Proof.
  unfold Feather.radial_steps. apply Forall_forall. intros i Hi.
  apply list_elem_of_fmap in Hi as (k & -> & Hk). apply elem_of_seq in Hk. lia.
Qed.

Lemma do_radial_symmetry_passes sd symm axis st :
  exists more,
    calls (do_radial_symmetry sd symm axis st) = calls st ++ more
    /\ Forall (fun c => mirror_symmetry_pass c = mirror_symmetry_pass (cache st)
                        /\ 1 <= radial_symmetry_pass c) more
    /\ mirror_symmetry_pass (cache (do_radial_symmetry sd symm axis st))
       = mirror_symmetry_pass (cache st).
Proof.
  apply do_radial_steps_passes, radial_steps_positive.
Qed.

(** A call that is not the first of its mirror pass: in a radial pass or on
    a tile other than the first. *)
Definition later_call (i : Z) (c : StrokeCache) : Prop :=
  mirror_symmetry_pass c = i /\ (1 <= radial_symmetry_pass c \/ 1 <= tile_pass c).

Lemma do_mirror_pass_passes sd st i :
  exists first more,
    calls (do_mirror_pass sd st i) = calls st ++ first :: more
    /\ mirror_symmetry_pass first = i
    /\ radial_symmetry_pass first = 0
    /\ tile_pass first = 0
    /\ Forall (later_call i) more.
Proof.
  unfold do_mirror_pass.
  destruct (brushdata_passes (set_passes (cache st) i 0 (tile_pass (cache st))) i 0 0)
    as (Hbm & Hbr & _).
  remember (SCULPT_cache_calc_brushdata_symm
              (set_passes (cache st) i 0 (tile_pass (cache st))) i 0 0) as c1 eqn:Ec1.
  clear Ec1.
  destruct (do_tiled_passes sd (with_cache st c1))
    as (first & more0 & Hc0 & Hfm & Hfr & Hft & Hall0 & Hm0 & _).
  remember (do_tiled sd (with_cache st c1)) as st0 eqn:E0. clear E0.
  destruct (do_radial_symmetry_passes sd i Feather.axis_X st0) as (mx & Hcx & Hallx & Hmx).
  remember (do_radial_symmetry sd i Feather.axis_X st0) as stx eqn:Ex. clear Ex.
  destruct (do_radial_symmetry_passes sd i Feather.axis_Y stx) as (my & Hcy & Hally & Hmy).
  remember (do_radial_symmetry sd i Feather.axis_Y stx) as sty eqn:Ey. clear Ey.
  destruct (do_radial_symmetry_passes sd i Feather.axis_Z sty) as (mz & Hcz & Hallz & _).
  exists first, (more0 ++ mx ++ my ++ mz).
  split; [rewrite Hcz, Hcy, Hcx, Hc0; rewrite <- !app_assoc; reflexivity|].
  split; [rewrite Hfm; exact Hbm | split; [rewrite Hfr; exact Hbr | split; [exact Hft|]]].
  repeat (apply Forall_app; split).
  - eapply Forall_impl; [exact Hall0|]. intros c (H1 & _ & H3).
    split; [rewrite H1; exact Hbm | right; exact H3].
  - eapply Forall_impl; [exact Hallx|]. intros c (H1 & H2).
    split; [rewrite H1, Hm0; exact Hbm | left; exact H2].
  - eapply Forall_impl; [exact Hally|]. intros c (H1 & H2).
    split; [rewrite H1, Hmx, Hm0; exact Hbm | left; exact H2].
  - eapply Forall_impl; [exact Hallz|]. intros c (H1 & H2).
    split; [rewrite H1, Hmy, Hmx, Hm0; exact Hbm | left; exact H2].
Qed.

(** The calls of the mirror passes [l]: each in a valid pass of [l]. *)
Lemma mirror_passes_calls sd symm (l : list Z) : forall st,
  exists more,
    calls (fold_left (do_mirror_step sd symm) l st) = calls st ++ more
    /\ Forall (fun c => mirror_symmetry_pass c ∈ l
                        /\ Symmetry.SCULPT_is_symmetry_iteration_valid
                             (mirror_symmetry_pass c) symm = true) more.
Proof.
  induction l as [|i l IH]; intros st.
  - exists []. simpl. rewrite app_nil_r. split; [reflexivity | constructor].
  - cbn [fold_left]. unfold do_mirror_step at 2.
    destruct (Symmetry.SCULPT_is_symmetry_iteration_valid i symm) eqn:Ev; cbn [negb].
    + destruct (do_mirror_pass_passes sd st i) as (first & more0 & Hc0 & Hfm & _ & _ & Hall0).
      destruct (IH (do_mirror_pass sd st i)) as (more & Hc & Hall).
      exists (first :: more0 ++ more).
      split; [rewrite Hc, Hc0, <- app_assoc; reflexivity|].
      constructor; [rewrite Hfm; split; [apply elem_of_cons; left; reflexivity | exact Ev]|].
      apply Forall_app. split.
      * eapply Forall_impl; [exact Hall0|]. intros c [H1 _]. rewrite H1.
        split; [apply elem_of_cons; left; reflexivity | exact Ev].
      * eapply Forall_impl; [exact Hall|]. intros c [H1 H2].
        split; [apply elem_of_cons; right; exact H1 | exact H2].
    + destruct (IH st) as (more & Hc & Hall). exists more. split; [exact Hc|].
      eapply Forall_impl; [exact Hall|]. intros c [H1 H2].
      split; [apply elem_of_cons; right; exact H1 | exact H2].
Qed.

End Passes.

(** X10.  [do_symmetrical_brush_actions] calls the brush action on the main
    symmetry pass (mirror pass 0, radial pass 0, tile 0) first, and on no
    later call: [SCULPT_stroke_is_main_symmetry_pass] holds once per run. *)
Theorem main_symmetry_pass_first_and_once (sd : Sculpt) (symm : Z) (st : driver) :
  keeps_passes -> 0 <= symm ->
  exists first more,
    calls (do_symmetrical_brush_actions sd symm st) = calls st ++ first :: more
    /\ SCULPT_stroke_is_main_symmetry_pass first = true
    /\ Forall (fun c => SCULPT_stroke_is_main_symmetry_pass c = false) more.
Proof.
  intros Hkeeps Hs. unfold do_symmetrical_brush_actions.
  set (st0 := with_cache st _).
  assert (Hp : Symmetry.passes symm
               = 0 :: map Z.of_nat (seq 1 (Z.to_nat symm))).
  { unfold Symmetry.passes. replace (Z.to_nat (symm + 1)) with (S (Z.to_nat symm)) by lia.
    reflexivity. }
  rewrite Hp. cbn [fold_left]. unfold do_mirror_step at 2.
  change (Symmetry.SCULPT_is_symmetry_iteration_valid 0 symm) with true. cbn [negb].
  destruct (do_mirror_pass_passes Hkeeps sd st0 0)
    as (first & more0 & Hc0 & Hfm & Hfr & Hft & Hall0).
  destruct (mirror_passes_calls Hkeeps sd symm (map Z.of_nat (seq 1 (Z.to_nat symm)))
              (do_mirror_pass sd st0 0)) as (more & Hc & Hall).
  exists first, (more0 ++ more).
  split; [rewrite Hc, Hc0, <- app_assoc; reflexivity|].
  split.
  - unfold SCULPT_stroke_is_main_symmetry_pass. rewrite Hfm, Hfr, Hft. reflexivity.
  - apply Forall_app. split.
    + eapply Forall_impl; [exact Hall0|]. intros c [_ H].
      unfold SCULPT_stroke_is_main_symmetry_pass.
      destruct H as [H|H].
      * replace (radial_symmetry_pass c =? 0) with false
          by (symmetry; apply Z.eqb_neq; lia).
        rewrite andb_false_r. reflexivity.
      * replace (tile_pass c =? 0) with false by (symmetry; apply Z.eqb_neq; lia).
        rewrite andb_false_r. reflexivity.
    + eapply Forall_impl; [exact Hall|]. intros c [H _].
      apply list_elem_of_fmap in H as (k & Hk & Hin). apply elem_of_seq in Hin.
      unfold SCULPT_stroke_is_main_symmetry_pass.
      replace (mirror_symmetry_pass c =? 0) with false
        by (symmetry; apply Z.eqb_neq; lia).
      reflexivity.
Qed.

(** X11.  Every call of the brush action by [do_symmetrical_brush_actions]
    is made in a mirror pass between 0 and [symm] that
    [SCULPT_is_symmetry_iteration_valid] accepts. *)
Theorem brush_actions_in_valid_passes (sd : Sculpt) (symm : Z) (st : driver) :
  keeps_passes -> 0 <= symm ->
  exists more,
    calls (do_symmetrical_brush_actions sd symm st) = calls st ++ more
    /\ Forall (fun c => 0 <= mirror_symmetry_pass c <= symm
                        /\ Symmetry.SCULPT_is_symmetry_iteration_valid
                             (mirror_symmetry_pass c) symm = true) more.
Proof.
  intros Hkeeps Hs. unfold do_symmetrical_brush_actions.
  set (st0 := with_cache st _).
  destruct (mirror_passes_calls Hkeeps sd symm (Symmetry.passes symm) st0)
    as (more & Hc & Hall).
  exists more. split; [exact Hc|].
  eapply Forall_impl; [exact Hall|]. intros c [H1 H2].
  split; [apply Symmetry.elem_of_passes; assumption | exact H2].
Qed.

End WithTransforms.

(** *** A concrete run *)

(** No tiling, two radial copies around Y, an action that counts its
    calls; the transformations are left out (identities). *)
Definition plain_cache : StrokeCache unit unit :=
  {| mirror_symmetry_pass := 0; radial_symmetry_pass := 0; tile_pass := 0;
     first_time := true; radius := 1; vec := fun _ => (0, 0, 0)%R;
     symm_rot_mat := tt; symm_rot_mat_inv := tt;
     supports_gravity := false; is_rake_rotation_valid := false;
     rake_rotation := tt; rake_rotation_symmetry := tt;
     bstrength := 0; symmetry := 0 |}.

Definition plain_sculpt : Sculpt :=
  {| radial_symm := [1; 2; 1]; symmetry_flags := 0; tile_offset := (0, 0, 0)%R;
     bbMin := (-1, -1, -1)%R; bbMax := (1, 1, 1)%R |}.

Definition counting_action (c : StrokeCache unit unit) (u : nat)
    : StrokeCache unit unit * nat :=
  (c, S u).

Definition plain_run (symm : Z) : driver unit unit nat :=
  do_symmetrical_brush_actions (fun v _ => v) unit tt (fun m _ _ => m) (fun _ v => v)
    unit (fun q _ => q) 0 nat counting_action (fun _ feather => feather)
    (fun _ _ => 1%R) plain_sculpt symm
    {| cache := plain_cache; world := 0%nat; calls := [] |}.

Lemma counting_keeps_passes : keeps_passes unit unit nat counting_action.
Proof. intros c u. simpl. repeat split; reflexivity. Qed.

Lemma main_symmetry_pass_first_and_once_witness :
  keeps_passes unit unit nat counting_action
  /\ 0 <= 3
  /\ exists first more,
       calls unit unit nat (plain_run 3) = first :: more
       /\ SCULPT_stroke_is_main_symmetry_pass unit unit first = true
       /\ Forall (fun c => SCULPT_stroke_is_main_symmetry_pass unit unit c = false) more.
Proof.
  split; [exact counting_keeps_passes|]. split; [lia|].
  apply (main_symmetry_pass_first_and_once (fun v _ => v) unit tt (fun m _ _ => m)
           (fun _ v => v) unit (fun q _ => q) 0 nat counting_action
           (fun _ feather => feather) (fun _ _ => 1%R) plain_sculpt 3
           {| cache := plain_cache; world := 0%nat; calls := [] |}).
  - exact counting_keeps_passes.
  - lia.
Defined.

Lemma brush_actions_in_valid_passes_witness :
  keeps_passes unit unit nat counting_action
  /\ 0 <= 5
  /\ exists more,
       calls unit unit nat (plain_run 5) = more
       /\ Forall (fun c => 0 <= mirror_symmetry_pass unit unit c <= 5
                           /\ Symmetry.SCULPT_is_symmetry_iteration_valid
                                (mirror_symmetry_pass unit unit c) 5 = true) more.
Proof.
  split; [exact counting_keeps_passes|]. split; [lia|].
  apply (brush_actions_in_valid_passes (fun v _ => v) unit tt (fun m _ _ => m)
           (fun _ v => v) unit (fun q _ => q) 0 nat counting_action
           (fun _ feather => feather) (fun _ _ => 1%R) plain_sculpt 5
           {| cache := plain_cache; world := 0%nat; calls := [] |}).
  - exact counting_keeps_passes.
  - lia.
Defined.

(** The run for [symm = 5] (X and Z): the passes 0, 1, 4 and 5, each with
    its radial copy around Y; eight calls. *)
Example plain_run_passes :
  map (fun c => (mirror_symmetry_pass unit unit c, radial_symmetry_pass unit unit c,
                 tile_pass unit unit c))
      (calls unit unit nat (plain_run 5))
  = [(0, 0, 0); (0, 1, 0); (1, 0, 0); (1, 1, 0); (4, 0, 0); (4, 1, 0);
     (5, 0, 0); (5, 1, 0)]
  /\ world unit unit nat (plain_run 5) = 8%nat.
Proof. split; reflexivity. Qed.

End SymmetryDriver.

(* ===================================================================== *)
(** ** Selecting the faces of a material *)
(* ===================================================================== *)

Module SelectByMaterial.

Local Open Scope Z_scope.

(** A [Material *], as its address; 0 is [nullptr]. *)
Definition Material : Type := Z.

Record MPoly := { mat_nr : Z }.

Record Mesh := {
  totpoly : Z;
  totcol : Z;
  (** [mesh.mat], the material slots *)
  mat : list Material;
  mpoly : list MPoly
}.

(** [IndexRange(n)]: the indices [0 .. n-1]. *)
Definition IndexRange (n : Z) : list Z := map Z.of_nat (seq 0 (Z.to_nat n)).

(** [Vector<int>::contains] *)
Definition contains (v : list Z) (x : Z) : bool := existsb (Z.eqb x) v.

(** The body of the first loop of [select_mesh_by_material]. *)
Definition collect_slot (mesh : Mesh) (material : Material) (material_indices : list Z)
    (i : Z) : list Z :=
  match rd (mat mesh) i with
  | Some m => if m =? material then material_indices ++ [i] else material_indices
  | None => material_indices
  end.

Definition collect_slots (mesh : Mesh) (material : Material) : list Z :=
  fold_left (collect_slot mesh material) (IndexRange (totcol mesh)) [].

(** The body of the loop of the tasks. *)
Definition select_face (mesh : Mesh) (material_indices : list Z)
    (r_selection : list bool) (i : Z) : list bool :=
  match rd (mpoly mesh) i with
  | Some p => wr r_selection i (contains material_indices (mat_nr p))
  | None => r_selection
  end.

(** [select_mesh_by_material]
    (node_geo_legacy_select_by_material.cc, 25).  [order] is the order in
    which the tasks of [threading::parallel_for] get to the indices of
    [r_selection]: each index is written by one task. *)
Definition select_mesh_by_material (mesh : Mesh) (material : Material)
    (order : list Z) (r_selection : list bool) : list bool :=
  let material_indices := collect_slots mesh material in
  fold_left (select_face mesh material_indices) order r_selection.

(** The face uses a slot of the mesh that holds the material. *)
Definition uses_material (mesh : Mesh) (material : Material) (p : MPoly) : Prop :=
  0 <= mat_nr p < totcol mesh /\ rd (mat mesh) (mat_nr p) = Some material.

Lemma elem_of_IndexRange (n i : Z) : i ∈ IndexRange n <-> 0 <= i < n.
Proof.
  unfold IndexRange. rewrite list_elem_of_fmap. split.
  - intros (k & -> & Hk). apply elem_of_seq in Hk. lia.
  - intros Hi. exists (Z.to_nat i). split; [lia|]. apply elem_of_seq. lia.
Qed.

Lemma contains_iff (v : list Z) (x : Z) : contains v x = true <-> x ∈ v.
Proof.
  unfold contains. rewrite existsb_exists. split.
  - intros (y & Hy & E). apply Z.eqb_eq in E. subst y. apply list_elem_of_In. exact Hy.
  - intros H. exists x. split; [apply list_elem_of_In; exact H | apply Z.eqb_refl].
Qed.

Lemma collect_slots_from (mesh : Mesh) (material : Material) (l : list Z) :
  forall acc x,
    x ∈ fold_left (collect_slot mesh material) l acc
    <-> x ∈ acc \/ (x ∈ l /\ rd (mat mesh) x = Some material).
Proof.
  induction l as [|i l IH]; intros acc x; simpl.
  - split; [intros H; left; exact H | intros [H | [H _]]; [exact H|]].
    apply elem_of_nil in H. contradiction.
  - rewrite IH. unfold collect_slot.
    destruct (rd (mat mesh) i) as [m|] eqn:Em.
    + destruct (Z.eqb_spec m material) as [E|E].
      * subst m. rewrite elem_of_app, list_elem_of_singleton, elem_of_cons. split.
        -- intros [[H | ->] | [H1 H2]]; [left; exact H | right | right]; tauto.
        -- intros [H | [[-> | H1] H2]]; tauto.
      * rewrite elem_of_cons. split.
        -- intros [H | [H1 H2]]; tauto.
        -- intros [H | [[-> | H1] H2]]; [tauto | | tauto].
           rewrite Em in H2. injection H2 as H2. contradiction.
    + rewrite elem_of_cons. split.
      * intros [H | [H1 H2]]; tauto.
      * intros [H | [[-> | H1] H2]]; [tauto | | tauto].
        rewrite Em in H2. discriminate H2.
Qed.

Lemma collect_slots_iff (mesh : Mesh) (material : Material) (p : MPoly) :
  contains (collect_slots mesh material) (mat_nr p) = true
  <-> uses_material mesh material p.
Proof.
  rewrite contains_iff. unfold collect_slots, uses_material.
  rewrite collect_slots_from, elem_of_IndexRange. split.
  - intros [H | H]; [apply elem_of_nil in H; contradiction | exact H].
  - intros H. right. exact H.
Qed.

Lemma select_faces_at (mesh : Mesh) (indices : list Z) (order : list Z) :
  forall r_selection j,
    length (mpoly mesh) = length r_selection ->
    length (fold_left (select_face mesh indices) order r_selection) = length r_selection
    /\ rd (fold_left (select_face mesh indices) order r_selection) j
       = match rd (mpoly mesh) j with
         | Some p => if decide (j ∈ order) then Some (contains indices (mat_nr p))
                     else rd r_selection j
         | None => rd r_selection j
         end.
Proof.
  induction order as [|i order IH]; intros r j Hlen; simpl.
  - split; [reflexivity|]. destruct (rd (mpoly mesh) j); [|reflexivity].
    destruct (decide (j ∈ [])) as [H|_]; [|reflexivity].
    apply elem_of_nil in H. contradiction.
  - assert (Hlen' : length (select_face mesh indices r i) = length r).
    { unfold select_face. destruct (rd (mpoly mesh) i); [apply length_wr | reflexivity]. }
    destruct (IH (select_face mesh indices r i) j) as [Hl Hrd]; [congruence|].
    split; [congruence|]. rewrite Hrd.
    assert (Hstep : rd (select_face mesh indices r i) j
                    = match rd (mpoly mesh) j with
                      | Some p => if decide (j = i) then Some (contains indices (mat_nr p))
                                  else rd r j
                      | None => rd r j
                      end).
    { unfold select_face. destruct (decide (j = i)) as [->|Hne].
      - destruct (rd (mpoly mesh) i) as [p|] eqn:Ep; [|reflexivity].
        destruct (decide (i = i)) as [_|H]; [|contradiction].
        apply rd_wr_eq. rewrite <- Hlen. unfold rd in Ep.
        destruct (i <? 0) eqn:Ei; [discriminate|]. apply Z.ltb_ge in Ei.
        apply lookup_lt_Some in Ep. lia.
      - destruct (rd (mpoly mesh) i).
        + rewrite rd_wr_ne by congruence. destruct (rd (mpoly mesh) j); [|reflexivity].
          destruct (decide (j = i)); [contradiction | reflexivity].
        + destruct (rd (mpoly mesh) j); [|reflexivity].
          destruct (decide (j = i)); [contradiction | reflexivity]. }
    rewrite Hstep. destruct (rd (mpoly mesh) j) as [p|]; [|reflexivity].
    destruct (decide (j ∈ order)) as [Hin|Hnin].
    + destruct (decide (j ∈ i :: order)) as [_|H]; [reflexivity|].
      exfalso. apply H, elem_of_cons. right. exact Hin.
    + destruct (decide (j = i)) as [->|Hne].
      * destruct (decide (i ∈ i :: order)) as [_|H]; [reflexivity|].
        exfalso. apply H, elem_of_cons. left. reflexivity.
      * destruct (decide (j ∈ i :: order)) as [H|_]; [|reflexivity].
        apply elem_of_cons in H as [H|H]; contradiction.
Qed.

(** X12.  [select_mesh_by_material] selects exactly the faces that use the
    material: after it, the entry of a face is true if and only if the
    material index of the face is a slot of the mesh, between 0 and
    [totcol], that holds the material; whatever the order in which the
    parallel tasks get to the faces. *)
Theorem select_by_material_exact (mesh : Mesh) (material : Material)
    (order : list Z) (r_selection : list bool) :
  totpoly mesh = Z.of_nat (length r_selection) ->
  length (mpoly mesh) = length r_selection ->
  (forall i, i ∈ order <-> 0 <= i < totpoly mesh) ->
  length (select_mesh_by_material mesh material order r_selection) = length r_selection
  /\ forall i p, rd (mpoly mesh) i = Some p ->
       exists b, rd (select_mesh_by_material mesh material order r_selection) i = Some b
                 /\ (b = true <-> uses_material mesh material p).
Proof.
  intros Htot Hlen Horder. unfold select_mesh_by_material. split.
  - apply (select_faces_at mesh (collect_slots mesh material) order r_selection 0 Hlen).
  - intros i p Hp.
    destruct (select_faces_at mesh (collect_slots mesh material) order r_selection i Hlen)
      as [_ Hrd].
    rewrite Hrd, Hp.
    destruct (decide (i ∈ order)) as [_|Hnin].
    + eexists. split; [reflexivity|]. apply collect_slots_iff.
    + exfalso. apply Hnin, Horder. rewrite Htot, <- Hlen. unfold rd in Hp.
      destruct (i <? 0) eqn:Ei; [discriminate|]. apply Z.ltb_ge in Ei.
      apply lookup_lt_Some in Hp. lia.
Qed.

(** Three slots, two of them with the material 7, and four faces, the last
    one with a material index that is no slot. *)
Definition three_slots : Mesh :=
  {| totpoly := 4; totcol := 3; mat := [7; 9; 7];
     mpoly := [ {| mat_nr := 0 |}; {| mat_nr := 1 |}; {| mat_nr := 2 |};
                {| mat_nr := 5 |} ] |}.

Lemma select_by_material_exact_witness :
  totpoly three_slots = 4
  /\ (forall i, i ∈ [2; 0; 3; 1] <-> 0 <= i < totpoly three_slots)
  /\ exists b, rd (select_mesh_by_material three_slots 7 [2; 0; 3; 1]
                     [false; false; false; true]) 3 = Some b
               /\ (b = true <-> uses_material three_slots 7 {| mat_nr := 5 |}).
Proof.
  assert (Ho : forall i, i ∈ [2; 0; 3; 1] <-> 0 <= i < totpoly three_slots).
  { intros i. rewrite !elem_of_cons, elem_of_nil. simpl. lia. }
  split; [reflexivity|]. split; [exact Ho|].
  apply (select_by_material_exact three_slots 7 [2; 0; 3; 1] [false; false; false; true]
           eq_refl eq_refl Ho).
  reflexivity.
Defined.

Example three_slots_selection :
  select_mesh_by_material three_slots 7 [2; 0; 3; 1] [false; false; false; true]
  = [true; false; true; false].
Proof. reflexivity. Qed.

End SelectByMaterial.

(* ===================================================================== *)
(** ** The sphere batches *)
(* ===================================================================== *)

Module SphereBatch.

Local Open Scope Z_scope.

(** The two attributes of the vertex format, as [pos_id] and [nor_id] name
    them. *)
Inductive attr_id := pos_id | nor_id.

Inductive Gwn_PrimType := GWN_PRIM_TRIS | GWN_PRIM_LINES.

(** The calls into the vertex-buffer library, which is outside the sources
    at hand: what the file asks of it, in order. *)
Inductive gwn_call :=
| GWN_vertformat_attr_add (name : attr_id)
| GWN_vertbuf_create_with_format
| GWN_vertbuf_data_alloc (v_ct : Z)
| GWN_vertbuf_attr_set (a_idx : attr_id) (v_idx : Z) (data : vec3)
| GWN_batch_create_ex (prim : Gwn_PrimType).

(** The static variables of the file, and the calls made so far. *)
Record globals := {
  (** [format.attrib_ct] *)
  attrib_ct : Z;
  vert : Z;
  calls : list gwn_call
}.

Definition call (g : globals) (c : list gwn_call) : globals :=
  {| attrib_ct := attrib_ct g; vert := vert g; calls := calls g ++ c |}.

(** [batch_sphere_lat_lon_vert] (gpu_batch.c, 51). *)
Definition batch_sphere_lat_lon_vert (g : globals) (lat lon : R) : globals :=
  let pos := (sin lat * cos lon, cos lat, sin lat * sin lon)%R in
  {| attrib_ct := attrib_ct g; vert := vert g + 1;
     calls := calls g ++ [GWN_vertbuf_attr_set nor_id (vert g) pos;
                          GWN_vertbuf_attr_set pos_id (vert g) pos] |}.

(** [if (format.attrib_ct == 0) { pos_id = ...; nor_id = ...; }] *)
Definition format_init (g : globals) : globals :=
  if attrib_ct g =? 0 then
    {| attrib_ct := 2; vert := vert g;
       calls := calls g ++ [GWN_vertformat_attr_add pos_id;
                            GWN_vertformat_attr_add nor_id] |}
  else g.

(** [vbo = ...; GWN_vertbuf_data_alloc(vbo, v_ct); vert = 0;] *)
Definition buffer_init (g : globals) (v_ct : Z) : globals :=
  {| attrib_ct := attrib_ct g; vert := 0;
     calls := calls g ++ [GWN_vertbuf_create_with_format; GWN_vertbuf_data_alloc v_ct] |}.

(** The values [0 .. n-1] of the loop variable of
    [for (i = 0; i < n; i++)]. *)
Definition loop_range (n : Z) : list Z := map Z.of_nat (seq 0 (Z.to_nat n)).

(** The body of the inner loop of [batch_sphere], with [lat += lat_inc]. *)
Definition sphere_cell (lat_res : Z) (lat_inc lon_inc lon : R) (st : globals * R)
    (j : Z) : globals * R :=
  let '(g, lat) := st in
  let g :=
    if negb (j =? lat_res - 1) then
      let g := batch_sphere_lat_lon_vert g (lat + lat_inc) (lon + lon_inc) in
      let g := batch_sphere_lat_lon_vert g (lat + lat_inc) lon in
      batch_sphere_lat_lon_vert g lat lon
    else g in
  let g :=
    if negb (j =? 0) then
      let g := batch_sphere_lat_lon_vert g lat (lon + lon_inc) in
      let g := batch_sphere_lat_lon_vert g (lat + lat_inc) (lon + lon_inc) in
      batch_sphere_lat_lon_vert g lat lon
    else g in
  (g, (lat + lat_inc)%R).

(** The body of the outer loop, with [lon += lon_inc]. *)
Definition sphere_strip (lat_res : Z) (lat_inc lon_inc : R) (st : globals * R) (i : Z)
    : globals * R :=
  let '(g, lon) := st in
  let '(g, _) :=
    fold_left (sphere_cell lat_res lat_inc lon_inc lon) (loop_range lat_res) (g, 0%R) in
  (g, (lon + lon_inc)%R).

(** [batch_sphere] (gpu_batch.c, 63). *)
Definition batch_sphere (g : globals) (lat_res lon_res : Z) : globals :=
  let lon_inc := (2 * PI / IZR lon_res)%R in
  let lat_inc := (PI / IZR lat_res)%R in
  let g := format_init g in
  let g := buffer_init g ((lat_res - 1) * lon_res * 6) in
  let '(g, _) :=
    fold_left (sphere_strip lat_res lat_inc lon_inc) (loop_range lon_res) (g, 0%R) in
  call g [GWN_batch_create_ex GWN_PRIM_TRIS].

(** The body of the inner loop of [batch_sphere_wire]. *)
Definition wire_cell (lat_res : Z) (lat_inc lon_inc lon : R) (st : globals * R)
    (j : Z) : globals * R :=
  let '(g, lat) := st in
  let g := batch_sphere_lat_lon_vert g (lat + lat_inc) lon in
  let g := batch_sphere_lat_lon_vert g lat lon in
  let g :=
    if negb (j =? lat_res - 1) then
      let g := batch_sphere_lat_lon_vert g (lat + lat_inc) (lon + lon_inc) in
      batch_sphere_lat_lon_vert g (lat + lat_inc) lon
    else g in
  (g, (lat + lat_inc)%R).

Definition wire_strip (lat_res : Z) (lat_inc lon_inc : R) (st : globals * R) (i : Z)
    : globals * R :=
  let '(g, lon) := st in
  let '(g, _) :=
    fold_left (wire_cell lat_res lat_inc lon_inc lon) (loop_range lat_res) (g, 0%R) in
  (g, (lon + lon_inc)%R).

(** [batch_sphere_wire] (gpu_batch.c, 99). *)
Definition batch_sphere_wire (g : globals) (lat_res lon_res : Z) : globals :=
  let lon_inc := (2 * PI / IZR lon_res)%R in
  let lat_inc := (PI / IZR lat_res)%R in
  let g := format_init g in
  let g := buffer_init g ((lat_res * lon_res * 2) + ((lat_res - 1) * lon_res * 2)) in
  let '(g, _) :=
    fold_left (wire_strip lat_res lat_inc lon_inc) (loop_range lon_res) (g, 0%R) in
  call g [GWN_batch_create_ex GWN_PRIM_LINES].

(** [gpu_batch_init] (gpu_batch.c, 153). *)
Definition gpu_batch_init (g : globals) : globals :=
  let g := batch_sphere g 8 16 in
  let g := batch_sphere g 16 10 in
  let g := batch_sphere g 32 24 in
  let g := batch_sphere_wire g 6 8 in
  batch_sphere_wire g 8 16.

(** *** What is stored *)

(** The stores of the vertices [ps] from the index [k] on: the normal and
    the position of each, both the same vector. *)
Fixpoint stores (k : Z) (ps : list vec3) : list gwn_call :=
  match ps with
  | [] => []
  | p :: ps => GWN_vertbuf_attr_set nor_id k p :: GWN_vertbuf_attr_set pos_id k p
               :: stores (k + 1) ps
  end.

Definition unit_length (p : vec3) : Prop :=
  (p.1.1 * p.1.1 + p.1.2 * p.1.2 + p.2 * p.2 = 1)%R.

(** From [g0] to [g], the vertices [ps] were stored at the next indices. *)
Definition emitted (g0 g : globals) (ps : list vec3) : Prop :=
  attrib_ct g = attrib_ct g0
  /\ vert g = vert g0 + Z.of_nat (length ps)
  /\ calls g = calls g0 ++ stores (vert g0) ps
  /\ Forall unit_length ps.

Lemma stores_app (ps qs : list vec3) : forall k,
  stores k (ps ++ qs) = stores k ps ++ stores (k + Z.of_nat (length ps)) qs.
Proof.
  induction ps as [|p ps IH]; intros k; simpl.
  - f_equal. lia.
  - rewrite IH. do 2 f_equal.
    replace (k + 1 + Z.of_nat (length ps)) with (k + Z.of_nat (S (length ps))) by lia.
    reflexivity.
Qed.

Lemma emitted_refl g : emitted g g [].
Proof.
  unfold emitted. simpl. rewrite app_nil_r.
  split; [reflexivity | split; [lia | split; [reflexivity | constructor]]].
Qed.

Lemma emitted_trans g0 g1 g2 ps qs :
  emitted g0 g1 ps -> emitted g1 g2 qs -> emitted g0 g2 (ps ++ qs).
Proof.
  intros (Ha1 & Hv1 & Hc1 & Hu1) (Ha2 & Hv2 & Hc2 & Hu2).
  split; [congruence|]. split; [rewrite length_app; lia|].
  split; [|apply Forall_app; split; assumption].
  rewrite Hc2, Hc1, stores_app, <- app_assoc, Hv1. reflexivity.
Qed.

Lemma lat_lon_unit (lat lon : R) :
  unit_length (sin lat * cos lon, cos lat, sin lat * sin lon)%R.
Proof.
  unfold unit_length. simpl.
  pose proof (sin2_cos2 lat) as Hlat. pose proof (sin2_cos2 lon) as Hlon.
  unfold Rsqr in *.
  replace (sin lat * cos lon * (sin lat * cos lon) + cos lat * cos lat
           + sin lat * sin lon * (sin lat * sin lon))%R
    with (sin lat * sin lat * (sin lon * sin lon + cos lon * cos lon)
          + cos lat * cos lat)%R by ring.
  rewrite Hlon. lra.
Qed.

Lemma emitted_vert g lat lon :
  emitted g (batch_sphere_lat_lon_vert g lat lon)
          [(sin lat * cos lon, cos lat, sin lat * sin lon)%R].
Proof.
  unfold emitted, batch_sphere_lat_lon_vert. simpl.
  split; [reflexivity | split; [lia | split; [reflexivity|]]].
  constructor; [apply lat_lon_unit | constructor].
Qed.

(** A loop whose pass [j] stores [C (j + 1) - C j] vertices stores
    [C n - C 0] of them. *)
Lemma loop_emitted (body : globals * R -> Z -> globals * R) (C : Z -> Z) (n : nat) :
  (forall g x j, 0 <= j < Z.of_nat n ->
     exists ps, emitted g (body (g, x) j).1 ps
                /\ Z.of_nat (length ps) = C (j + 1) - C j) ->
  forall g x,
    exists ps, emitted g (fold_left body (map Z.of_nat (seq 0 n)) (g, x)).1 ps
               /\ Z.of_nat (length ps) = C (Z.of_nat n) - C 0.
Proof.
  induction n as [|n IH]; intros Hbody g x.
  - exists []. split; [apply emitted_refl | change (Z.of_nat 0) with 0; simpl; lia].
  - rewrite seq_S, map_app, fold_left_app. cbn [fold_left map Nat.add].
    destruct (IH (fun g x j Hj => Hbody g x j ltac:(lia)) g x) as (ps & Hps & Hlen).
    destruct (fold_left body (map Z.of_nat (seq 0 n)) (g, x)) as [g1 x1].
    destruct (Hbody g1 x1 (Z.of_nat n) ltac:(lia)) as (qs & Hqs & Hlenq).
    exists (ps ++ qs). split; [eapply emitted_trans; eassumption|].
    rewrite length_app. simpl in Hlen. replace (Z.of_nat (S n)) with (Z.of_nat n + 1) by lia.
    lia.
Qed.

Ltac emit_vertices :=
  repeat match goal with
         | |- emitted ?g ?g _ => apply emitted_refl
         | |- emitted _ (batch_sphere_lat_lon_vert _ _ _) _ =>
             eapply emitted_trans; [|apply emitted_vert]
         end.

Lemma sphere_cell_emitted lat_res lat_inc lon_inc lon g lat j :
  exists ps,
    emitted g (sphere_cell lat_res lat_inc lon_inc lon (g, lat) j).1 ps
    /\ Z.of_nat (length ps)
       = (if j =? lat_res - 1 then 0 else 3) + (if j =? 0 then 0 else 3).
Proof.
  unfold sphere_cell.
  destruct (j =? lat_res - 1), (j =? 0); simpl; eexists; (split; [emit_vertices | reflexivity]).
Qed.

Lemma sphere_strip_emitted lat_res lat_inc lon_inc g lon i :
  1 <= lat_res ->
  exists ps,
    emitted g (sphere_strip lat_res lat_inc lon_inc (g, lon) i).1 ps
    /\ Z.of_nat (length ps) = (lat_res - 1) * 6.
Proof.
  intros HL. unfold sphere_strip, loop_range.
  destruct (loop_emitted (sphere_cell lat_res lat_inc lon_inc lon)
              (fun j => 3 * Z.min j (lat_res - 1) + 3 * Z.max (j - 1) 0)
              (Z.to_nat lat_res)) with (g := g) (x := 0%R) as (ps & Hps & Hlen).
  - intros g1 x j Hj.
    destruct (sphere_cell_emitted lat_res lat_inc lon_inc lon g1 x j) as (ps & Hps & Hlen).
    exists ps. split; [exact Hps|]. rewrite Hlen.
    destruct (Z.eqb_spec j (lat_res - 1)), (Z.eqb_spec j 0); lia.
  - destruct (fold_left _ _ _) as [g1 x1]. exists ps. split; [exact Hps|]. simpl in *. lia.
Qed.

Lemma wire_cell_emitted lat_res lat_inc lon_inc lon g lat j :
  exists ps,
    emitted g (wire_cell lat_res lat_inc lon_inc lon (g, lat) j).1 ps
    /\ Z.of_nat (length ps) = 2 + (if j =? lat_res - 1 then 0 else 2).
Proof.
  unfold wire_cell.
  destruct (j =? lat_res - 1); simpl; eexists; (split; [emit_vertices | reflexivity]).
Qed.

Lemma wire_strip_emitted lat_res lat_inc lon_inc g lon i :
  1 <= lat_res ->
  exists ps,
    emitted g (wire_strip lat_res lat_inc lon_inc (g, lon) i).1 ps
    /\ Z.of_nat (length ps) = lat_res * 2 + (lat_res - 1) * 2.
Proof.
  intros HL. unfold wire_strip, loop_range.
  destruct (loop_emitted (wire_cell lat_res lat_inc lon_inc lon)
              (fun j => 2 * j + 2 * Z.min j (lat_res - 1))
              (Z.to_nat lat_res)) with (g := g) (x := 0%R) as (ps & Hps & Hlen).
  - intros g1 x j Hj.
    destruct (wire_cell_emitted lat_res lat_inc lon_inc lon g1 x j) as (ps & Hps & Hlen).
    exists ps. split; [exact Hps|]. rewrite Hlen.
    destruct (Z.eqb_spec j (lat_res - 1)); lia.
  - destruct (fold_left _ _ _) as [g1 x1]. exists ps. split; [exact Hps|]. simpl in *. lia.
Qed.

(** The outer loop: [lon_res] strips of [per_strip] vertices each. *)
Lemma strips_emitted (strip : globals * R -> Z -> globals * R) (per_strip lon_res : Z) :
  0 <= lon_res ->
  (forall g lon i, exists ps, emitted g (strip (g, lon) i).1 ps
                              /\ Z.of_nat (length ps) = per_strip) ->
  forall g lon,
    exists ps, emitted g (fold_left strip (loop_range lon_res) (g, lon)).1 ps
               /\ Z.of_nat (length ps) = per_strip * lon_res.
Proof.
  intros HN Hstrip g lon. unfold loop_range.
  destruct (loop_emitted strip (fun i => i * per_strip) (Z.to_nat lon_res))
    with (g := g) (x := lon) as (ps & Hps & Hlen).
  - intros g1 x i _. destruct (Hstrip g1 x i) as (ps & Hps & Hlen).
    exists ps. split; [exact Hps | lia].
  - exists ps. split; [exact Hps|]. rewrite Hlen, Z2Nat.id by lia. lia.
Qed.

(** The shape of a run of either function: the buffer of [v_ct] vertices is
    created, each of its indices from 0 on is stored once, with a normal
    and a position that are the same unit vector, and the batch is
    created. *)
Definition fills_buffer (g0 g : globals) (v_ct : Z) (prim : Gwn_PrimType) : Prop :=
  exists ps : list vec3,
    calls g = calls (format_init g0)
              ++ [GWN_vertbuf_create_with_format; GWN_vertbuf_data_alloc v_ct]
              ++ stores 0 ps ++ [GWN_batch_create_ex prim]
    /\ Z.of_nat (length ps) = v_ct
    /\ Forall unit_length ps
    /\ vert g = v_ct
    /\ attrib_ct g = attrib_ct (format_init g0).

Lemma batch_sphere_fills g lat_res lon_res :
  1 <= lat_res -> 0 <= lon_res ->
  fills_buffer g (batch_sphere g lat_res lon_res) ((lat_res - 1) * lon_res * 6)
               GWN_PRIM_TRIS.
Proof.
  intros HL HN. unfold batch_sphere.
  set (g1 := buffer_init (format_init g) ((lat_res - 1) * lon_res * 6)).
  destruct (strips_emitted
              (sphere_strip lat_res (PI / IZR lat_res) (2 * PI / IZR lon_res))
              ((lat_res - 1) * 6) lon_res HN) with (g := g1) (lon := 0%R)
    as (ps & (Ha & Hv & Hc & Hu) & Hlen).
  - intros g2 lon i. apply sphere_strip_emitted. exact HL.
  - destruct (fold_left _ _ _) as [g2 x2]. simpl in Ha, Hv, Hc.
    exists ps. simpl. rewrite Hc, <- !app_assoc. simpl.
    split; [reflexivity|]. split; [lia|]. split; [exact Hu|]. split; [lia | exact Ha].
Qed.

Lemma batch_sphere_wire_fills g lat_res lon_res :
  1 <= lat_res -> 0 <= lon_res ->
  fills_buffer g (batch_sphere_wire g lat_res lon_res)
               ((lat_res * lon_res * 2) + ((lat_res - 1) * lon_res * 2)) GWN_PRIM_LINES.
Proof.
  intros HL HN. unfold batch_sphere_wire.
  set (g1 := buffer_init (format_init g)
                         ((lat_res * lon_res * 2) + ((lat_res - 1) * lon_res * 2))).
  destruct (strips_emitted
              (wire_strip lat_res (PI / IZR lat_res) (2 * PI / IZR lon_res))
              (lat_res * 2 + (lat_res - 1) * 2) lon_res HN) with (g := g1) (lon := 0%R)
    as (ps & (Ha & Hv & Hc & Hu) & Hlen).
  - intros g2 lon i. apply wire_strip_emitted. exact HL.
  - destruct (fold_left _ _ _) as [g2 x2]. simpl in Ha, Hv, Hc.
    exists ps. simpl. rewrite Hc, <- !app_assoc. simpl.
    split; [reflexivity|]. split; [lia|]. split; [exact Hu|]. split; [lia | exact Ha].
Qed.

(** X13.  [batch_sphere] fills the buffer it allocates, no more and no
    less: it allocates [(lat_res - 1) * lon_res * 6] vertices and stores
    each index from 0 to the last exactly once, in order, with a position
    of length 1 and a normal equal to the position. *)
Theorem batch_sphere_fills_buffer (g : globals) (lat_res lon_res : Z) :
  1 <= lat_res -> 0 <= lon_res ->
  fills_buffer g (batch_sphere g lat_res lon_res) ((lat_res - 1) * lon_res * 6)
               GWN_PRIM_TRIS.
Proof. apply batch_sphere_fills. Qed.

(** X14.  [batch_sphere_wire] fills the buffer it allocates:
    [lat_res * lon_res * 2 + (lat_res - 1) * lon_res * 2] vertices, each
    index stored exactly once, in order, with a position of length 1 and a
    normal equal to the position. *)
Theorem batch_sphere_wire_fills_buffer (g : globals) (lat_res lon_res : Z) :
  1 <= lat_res -> 0 <= lon_res ->
  fills_buffer g (batch_sphere_wire g lat_res lon_res)
               ((lat_res * lon_res * 2) + ((lat_res - 1) * lon_res * 2)) GWN_PRIM_LINES.
Proof. apply batch_sphere_wire_fills. Qed.

(** *** The five batches *)

Definition is_format_call (c : gwn_call) : bool :=
  match c with
  | GWN_vertformat_attr_add _ => true
  | _ => false
  end.

Definition is_alloc_call (c : gwn_call) : bool :=
  match c with
  | GWN_vertbuf_data_alloc _ => true
  | _ => false
  end.

Lemma stores_no_setup (ps : list vec3) : forall k,
  List.filter is_format_call (stores k ps) = []
  /\ List.filter is_alloc_call (stores k ps) = [].
Proof.
  induction ps as [|p ps IH]; intros k; simpl; [split; reflexivity | apply IH].
Qed.

(** A run on a format that is set up adds no attribute, and allocates its
    one buffer. *)
Lemma fills_buffer_setup g0 g v_ct prim :
  attrib_ct g0 <> 0 ->
  fills_buffer g0 g v_ct prim ->
  attrib_ct g = attrib_ct g0
  /\ List.filter is_format_call (calls g) = List.filter is_format_call (calls g0)
  /\ List.filter is_alloc_call (calls g)
     = List.filter is_alloc_call (calls g0) ++ [GWN_vertbuf_data_alloc v_ct].
Proof.
  intros Hne (ps & Hc & _ & _ & _ & Ha).
  assert (Hf : format_init g0 = g0).
  { unfold format_init. destruct (Z.eqb_spec (attrib_ct g0) 0); [contradiction | reflexivity]. }
  rewrite Hf in *. destruct (stores_no_setup ps 0) as [Hs1 Hs2].
  split; [exact Ha|].
  rewrite Hc, !List.filter_app, Hs1, Hs2. simpl. rewrite !app_nil_r.
  split; reflexivity.
Qed.

(** X15.  [gpu_batch_init], starting with a vertex format without
    attributes, adds the two attributes once, for the five batches to
    share, and allocates five buffers, of 672, 900, 4464, 176 and 480
    vertices. *)
Theorem gpu_batch_init_calls (g : globals) :
  attrib_ct g = 0 ->
  List.filter is_format_call (calls (gpu_batch_init g))
  = List.filter is_format_call (calls g)
    ++ [GWN_vertformat_attr_add pos_id; GWN_vertformat_attr_add nor_id]
  /\ List.filter is_alloc_call (calls (gpu_batch_init g))
     = List.filter is_alloc_call (calls g)
       ++ [GWN_vertbuf_data_alloc 672; GWN_vertbuf_data_alloc 900;
           GWN_vertbuf_data_alloc 4464; GWN_vertbuf_data_alloc 176;
           GWN_vertbuf_data_alloc 480].
Proof.
  intros H0. unfold gpu_batch_init.
  destruct (batch_sphere_fills g 8 16 ltac:(lia) ltac:(lia))
    as (ps & Hc1 & _ & _ & _ & Ha1).
  assert (Hf : format_init g
               = {| attrib_ct := 2; vert := vert g;
                    calls := calls g ++ [GWN_vertformat_attr_add pos_id;
                                         GWN_vertformat_attr_add nor_id] |}).
  { unfold format_init. rewrite H0. reflexivity. }
  remember (batch_sphere g 8 16) as g1 eqn:E1. clear E1.
  rewrite Hf in Hc1. rewrite Hf in Ha1. cbn [calls attrib_ct] in Hc1, Ha1.
  destruct (stores_no_setup ps 0) as [Hs1 Hs2].
  destruct (fills_buffer_setup g1 (batch_sphere g1 16 10) _ _ ltac:(lia)
              (batch_sphere_fills g1 16 10 ltac:(lia) ltac:(lia))) as (Ha2 & Hf2 & Hl2).
  remember (batch_sphere g1 16 10) as g2 eqn:E2. clear E2.
  destruct (fills_buffer_setup g2 (batch_sphere g2 32 24) _ _ ltac:(lia)
              (batch_sphere_fills g2 32 24 ltac:(lia) ltac:(lia))) as (Ha3 & Hf3 & Hl3).
  remember (batch_sphere g2 32 24) as g3 eqn:E3. clear E3.
  destruct (fills_buffer_setup g3 (batch_sphere_wire g3 6 8) _ _ ltac:(lia)
              (batch_sphere_wire_fills g3 6 8 ltac:(lia) ltac:(lia))) as (Ha4 & Hf4 & Hl4).
  remember (batch_sphere_wire g3 6 8) as g4 eqn:E4. clear E4.
  destruct (fills_buffer_setup g4 (batch_sphere_wire g4 8 16) _ _ ltac:(lia)
              (batch_sphere_wire_fills g4 8 16 ltac:(lia) ltac:(lia))) as (_ & Hf5 & Hl5).
  split.
  - rewrite Hf5, Hf4, Hf3, Hf2, Hc1, !List.filter_app, Hs1. simpl.
    rewrite !app_nil_r. reflexivity.
  - rewrite Hl5, Hl4, Hl3, Hl2, Hc1, !List.filter_app, Hs2. simpl.
    rewrite !app_nil_r, <- !app_assoc. reflexivity.
Qed.

(** *** Concrete runs *)

Definition at_start : globals := {| attrib_ct := 0; vert := 0; calls := [] |}.

Lemma batch_sphere_fills_buffer_witness :
  1 <= 8 /\ 0 <= 16 /\ fills_buffer at_start (batch_sphere at_start 8 16) 672 GWN_PRIM_TRIS.
Proof.
  split; [lia|]. split; [lia|].
  apply (batch_sphere_fills_buffer at_start 8 16); lia.
Defined.

Lemma batch_sphere_wire_fills_buffer_witness :
  1 <= 6 /\ 0 <= 8
  /\ fills_buffer at_start (batch_sphere_wire at_start 6 8) 176 GWN_PRIM_LINES.
Proof.
  split; [lia|]. split; [lia|].
  apply (batch_sphere_wire_fills_buffer at_start 6 8); lia.
Defined.

Lemma gpu_batch_init_calls_witness :
  attrib_ct at_start = 0
  /\ List.filter is_format_call (calls (gpu_batch_init at_start))
     = [GWN_vertformat_attr_add pos_id; GWN_vertformat_attr_add nor_id].
Proof.
  split; [reflexivity|].
  destruct (gpu_batch_init_calls at_start eq_refl) as [H _]. exact H.
Defined.

End SphereBatch.

(* ===================================================================== *)
(** ** What the flood fill reaches *)
(* ===================================================================== *)

Module FloodFillReach.

Import FloodFill.

Local Open Scope Z_scope.

Definition seed_vertex (s : seed) : PBVHVertRef :=
  match s with
  | Initial vertex => vertex
  | AndSkipInitial vertex => vertex
  end.

Definition is_skipped (s : seed) : bool :=
  match s with
  | Initial _ => false
  | AndSkipInitial _ => true
  end.

Section WithGraph.

Variable vertex_count : Z.
Variable BKE_pbvh_vertex_to_index : PBVHVertRef -> Z.
Variable neighbors : PBVHVertRef -> list (PBVHVertRef * bool).
Variable SCULPT_vertex_visible_get : PBVHVertRef -> bool.
Variable U : Type.
Variable func : U -> PBVHVertRef -> PBVHVertRef -> bool -> bool * U.
Variable seeds : list seed.

Local Abbreviation execute :=
  (SCULPT_floodfill_execute BKE_pbvh_vertex_to_index neighbors
     SCULPT_vertex_visible_get U func).
Local Abbreviation visit :=
  (floodfill_visit BKE_pbvh_vertex_to_index SCULPT_vertex_visible_get U func).
Local Abbreviation marked r v :=
  (BLI_BITMAP_TEST (visited_vertices (flood U r)) (BKE_pbvh_vertex_to_index v) = true).

(** The run, from [SCULPT_floodfill_init] and the seeds. *)
Definition seeded (u : U) : run U :=
  start U (fold_left (add_seed BKE_pbvh_vertex_to_index) seeds
             (SCULPT_floodfill_init vertex_count)) u.

(** The vertices that a path from a seed leads to, every vertex of the path
    after the seed being visible. *)
Inductive reach : PBVHVertRef -> Prop :=
| reach_seed s : s ∈ seeds -> reach (seed_vertex s)
| reach_step u v d :
    reach u -> (v, d) ∈ neighbors u -> SCULPT_vertex_visible_get v = true -> reach v.

(** *** Every visited vertex is reached *)

Definition sound (r : run U) : Prop :=
  Forall reach (queue (flood U r))
  /\ Forall (fun c => reach (from_v c) /\ reach (to_v c)
                      /\ (to_v c, is_duplicate c) ∈ neighbors (from_v c)
                      /\ SCULPT_vertex_visible_get (to_v c) = true) (calls U r).

Lemma visit_sound from r ni :
  reach from -> ni ∈ neighbors from -> sound r -> sound (visit from r ni).
Proof.
  intros Hfrom Hni [Hq Hc]. unfold floodfill_visit.
  destruct (BLI_BITMAP_TEST _ _); [split; assumption|].
  destruct (SCULPT_vertex_visible_get ni.1) eqn:Evis; simpl; [|split; assumption].
  assert (Hto : reach ni.1).
  { apply (reach_step from ni.1 ni.2); [exact Hfrom | | exact Evis].
    destruct ni; exact Hni. }
  split; simpl.
  - destruct (func (userdata U r) from ni.1 ni.2).1; [|exact Hq].
    apply Forall_app. split; [exact Hq | apply Forall_singleton; exact Hto].
  - apply Forall_app. split; [exact Hc|]. apply Forall_singleton. simpl.
    split; [exact Hfrom | split; [exact Hto | split; [destruct ni; exact Hni | exact Evis]]].
Qed.

Lemma visits_sound from (l : list (PBVHVertRef * bool)) : forall r,
  reach from -> (forall ni, ni ∈ l -> ni ∈ neighbors from) -> sound r ->
  sound (fold_left (visit from) l r).
Proof.
  induction l as [|ni l IH]; intros r Hfrom Hl Hs; simpl; [exact Hs|].
  apply IH; [exact Hfrom | |].
  - intros n Hn. apply Hl, elem_of_cons. right. exact Hn.
  - apply visit_sound; [exact Hfrom | | exact Hs].
    apply Hl, elem_of_cons. left. reflexivity.
Qed.

Lemma execute_sound : forall fuel r r',
  sound r -> execute fuel r = Some r' -> sound r'.
Proof.
  induction fuel as [|fuel IH]; intros r r' Hs Hex; simpl in Hex;
    destruct (queue (flood U r)) as [|from rest] eqn:Hq.
  - injection Hex as <-. exact Hs.
  - discriminate.
  - injection Hex as <-. exact Hs.
  - refine (IH _ r' _ Hex). destruct Hs as [Hqs Hcs]. rewrite Hq in Hqs.
    apply Forall_cons in Hqs as [Hfrom Hrest].
    unfold floodfill_pop. apply visits_sound.
    + exact Hfrom.
    + intros ni Hni. exact Hni.
    + split; assumption.
Qed.

Lemma seeded_queue (l : list seed) : forall fl,
  queue (fold_left (add_seed BKE_pbvh_vertex_to_index) l fl)
  = queue fl ++ map seed_vertex l.
Proof.
  induction l as [|s l IH]; intros fl; simpl.
  - rewrite app_nil_r. reflexivity.
  - rewrite IH. destruct s; simpl; rewrite <- app_assoc; reflexivity.
Qed.

Lemma seeded_sound u : sound (seeded u).
Proof.
  split; simpl; [|constructor].
  rewrite seeded_queue. simpl. apply Forall_forall. intros v Hv.
  apply list_elem_of_fmap in Hv as (s & -> & Hs). apply reach_seed. exact Hs.
Qed.

(** X16.  Whatever the visitor answers, [SCULPT_floodfill_execute] calls it
    only along edges of the graph into visible vertices, from vertices that
    a path of such edges from a seed leads to: every visited vertex is
    reached from a seed. *)
Theorem floodfill_visits_only_reached (u : U) (fuel : nat) (r' : run U) :
  execute fuel (seeded u) = Some r' ->
  Forall (fun c => reach (from_v c) /\ reach (to_v c)
                   /\ (to_v c, is_duplicate c) ∈ neighbors (from_v c)
                   /\ SCULPT_vertex_visible_get (to_v c) = true) (calls U r').
Proof.
  intros Hex. destruct (execute_sound fuel (seeded u) r' (seeded_sound u) Hex) as [_ H].
  exact H.
Qed.

(** *** Every reached vertex is visited *)

(** The run between two vertices taken off the queue.  [A] are the vertices
    whose neighbours have all been looked at, [B] those taken off the queue
    (the current one included). *)
Definition closed (A B : list PBVHVertRef) (r : run U) : Prop :=
  length (visited_vertices (flood U r)) = Z.to_nat vertex_count
  /\ (forall v ni, v ∈ A -> ni ∈ neighbors v ->
        SCULPT_vertex_visible_get ni.1 = true -> marked r ni.1)
  /\ (forall c, c ∈ calls U r -> answer c = true ->
        to_v c ∈ B \/ to_v c ∈ queue (flood U r))
  /\ (forall s, s ∈ seeds -> seed_vertex s ∈ B \/ seed_vertex s ∈ queue (flood U r))
  /\ (forall i, BLI_BITMAP_TEST (visited_vertices (flood U r)) i = true ->
        (exists c, c ∈ calls U r /\ to_index BKE_pbvh_vertex_to_index c = i)
        \/ (exists s, s ∈ seeds /\ is_skipped s = true
                      /\ BKE_pbvh_vertex_to_index (seed_vertex s) = i)).

Hypothesis Hrange : graph_in_range BKE_pbvh_vertex_to_index neighbors (Z.to_nat vertex_count).

Lemma visit_closed A B from r ni :
  ni ∈ neighbors from -> closed A B r ->
  closed A B (visit from r ni)
  /\ (SCULPT_vertex_visible_get ni.1 = true -> marked (visit from r ni) ni.1)
  /\ (forall i, BLI_BITMAP_TEST (visited_vertices (flood U r)) i = true ->
        BLI_BITMAP_TEST (visited_vertices (flood U (visit from r ni))) i = true).
Proof.
  intros Hni (Hlen & Ha & Hb & Hc & Hd). unfold floodfill_visit.
  destruct (BLI_BITMAP_TEST (visited_vertices (flood U r))
              (BKE_pbvh_vertex_to_index ni.1)) eqn:Etest.
  { split; [repeat split; assumption|]. split; [intros _; exact Etest | intros i Hi; exact Hi]. }
  destruct (SCULPT_vertex_visible_get ni.1) eqn:Evis; simpl.
  2:{ split; [repeat split; assumption|].
      split; [intros H; discriminate H | intros i Hi; exact Hi]. }
  pose proof (Hrange from ni Hni) as Hin. rewrite <- Hlen in Hin.
  split; [|split].
  - split; [simpl; rewrite length_enable; exact Hlen|].
    split; [|split; [|split]]; simpl.
    + intros v n Hv Hn Hvis. apply test_enable_mono. apply (Ha v n Hv Hn Hvis).
    + intros c Hcin Hans. apply elem_of_app in Hcin as [Hcin|Hcin].
      * destruct (Hb c Hcin Hans) as [H|H]; [left; exact H | right].
        destruct (func (userdata U r) from ni.1 ni.2).1; [|exact H].
        apply elem_of_app. left. exact H.
      * apply list_elem_of_singleton in Hcin. subst c. simpl in *.
        right. rewrite Hans. apply elem_of_app. right.
        apply list_elem_of_singleton. reflexivity.
    + intros s0 Hs0. destruct (Hc s0 Hs0) as [H|H]; [left; exact H | right].
      destruct (func (userdata U r) from ni.1 ni.2).1; [|exact H].
      apply elem_of_app. left. exact H.
    + intros i Hi.
      destruct (Z.eq_dec i (BKE_pbvh_vertex_to_index ni.1)) as [->|Hne].
      * left. eexists. split; [apply elem_of_app; right; apply list_elem_of_singleton;
                               reflexivity | reflexivity].
      * unfold BLI_BITMAP_TEST, BLI_BITMAP_ENABLE in Hi.
        rewrite rd_wr_ne in Hi by congruence.
        destruct (Hd i Hi) as [(c & Hcin & Hci) | H]; [left | right; exact H].
        exists c. split; [apply elem_of_app; left; exact Hcin | exact Hci].
  - intros _. apply test_enable_same. exact Hin.
  - intros i Hi. apply test_enable_mono. exact Hi.
Qed.

Lemma visits_closed A B from (l : list (PBVHVertRef * bool)) : forall r,
  (forall ni, ni ∈ l -> ni ∈ neighbors from) -> closed A B r ->
  closed A B (fold_left (visit from) l r)
  /\ (forall ni, ni ∈ l -> SCULPT_vertex_visible_get ni.1 = true ->
        marked (fold_left (visit from) l r) ni.1)
  /\ (forall i, BLI_BITMAP_TEST (visited_vertices (flood U r)) i = true ->
        BLI_BITMAP_TEST (visited_vertices (flood U (fold_left (visit from) l r))) i = true).
Proof.
  induction l as [|ni l IH]; intros r Hl Hcl; simpl.
  - split; [exact Hcl|]. split; [|intros i Hi; exact Hi].
    intros ni Hni. apply elem_of_nil in Hni. contradiction.
  - destruct (visit_closed A B from r ni) as (Hcl1 & Hm1 & Hmono1);
      [apply Hl, elem_of_cons; left; reflexivity | exact Hcl|].
    destruct (IH (visit from r ni)) as (Hcl2 & Hm2 & Hmono2);
      [intros n Hn; apply Hl, elem_of_cons; right; exact Hn | exact Hcl1|].
    split; [exact Hcl2|]. split.
    + intros n Hn Hvis. apply elem_of_cons in Hn as [->|Hn].
      * apply Hmono2, Hm1, Hvis.
      * apply Hm2; assumption.
    + intros i Hi. apply Hmono2, Hmono1, Hi.
Qed.

Lemma pop_closed D from rest r :
  queue (flood U r) = from :: rest -> closed D D r ->
  closed (from :: D) (from :: D)
    (floodfill_pop BKE_pbvh_vertex_to_index neighbors SCULPT_vertex_visible_get U func
       from rest r).
Proof.
  intros Hq (Hlen & Ha & Hb & Hc & Hd). unfold floodfill_pop.
  match goal with |- closed _ _ (fold_left _ _ ?r0) => set (r1 := r0) end.
  assert (Hcl1 : closed D (from :: D) r1).
  { split; [exact Hlen|]. split; [exact Ha|]. split; [|split; [|exact Hd]]; simpl.
    - intros c Hcin Hans. destruct (Hb c Hcin Hans) as [H|H].
      + left. apply elem_of_cons. right. exact H.
      + rewrite Hq in H. apply elem_of_cons in H as [->|H];
          [left; apply elem_of_cons; left; reflexivity | right; exact H].
    - intros s0 Hs0. destruct (Hc s0 Hs0) as [H|H].
      + left. apply elem_of_cons. right. exact H.
      + rewrite Hq in H. apply elem_of_cons in H as [->|H];
          [left; apply elem_of_cons; left; reflexivity | right; exact H]. }
  destruct (visits_closed D (from :: D) from (neighbors from) r1)
    as ((Hlen' & Ha' & Hb' & Hc' & Hd') & Hm & _);
    [intros ni Hni; exact Hni | exact Hcl1|].
  split; [exact Hlen'|]. split; [|split; [exact Hb' | split; [exact Hc' | exact Hd']]].
  intros v ni Hv Hni Hvis. apply elem_of_cons in Hv as [->|Hv].
  - apply Hm; assumption.
  - apply (Ha' v ni Hv Hni Hvis).
Qed.

Lemma execute_closed : forall fuel r r' D,
  closed D D r -> execute fuel r = Some r' ->
  exists D', closed D' D' r' /\ queue (flood U r') = [].
Proof.
  induction fuel as [|fuel IH]; intros r r' D Hcl Hex; simpl in Hex;
    destruct (queue (flood U r)) as [|from rest] eqn:Hq.
  - injection Hex as <-. exists D. split; assumption.
  - discriminate.
  - injection Hex as <-. exists D. split; assumption.
  - refine (IH _ r' (from :: D) _ Hex). apply pop_closed; assumption.
Qed.

Lemma seeded_marks (l : list seed) : forall fl i,
  BLI_BITMAP_TEST (visited_vertices (fold_left (add_seed BKE_pbvh_vertex_to_index) l fl)) i
  = true ->
  BLI_BITMAP_TEST (visited_vertices fl) i = true
  \/ exists s, s ∈ l /\ is_skipped s = true
                /\ BKE_pbvh_vertex_to_index (seed_vertex s) = i.
Proof.
  induction l as [|s l IH]; intros fl i Hi; simpl in *; [left; exact Hi|].
  destruct (IH _ i Hi) as [H | (s0 & Hs0 & Hsk & Hidx)].
  - destruct s as [v|v]; simpl in H; [left; exact H|].
    destruct (Z.eq_dec i (BKE_pbvh_vertex_to_index v)) as [->|Hne].
    + right. exists (AndSkipInitial v).
      split; [apply elem_of_cons; left; reflexivity | split; reflexivity].
    + left. unfold BLI_BITMAP_TEST, BLI_BITMAP_ENABLE in H.
      rewrite rd_wr_ne in H by congruence. exact H.
  - right. exists s0. split; [apply elem_of_cons; right; exact Hs0 | split; assumption].
Qed.

Lemma seeded_closed u : closed [] [] (seeded u).
Proof.
  unfold seeded.
  destruct (add_seeds_length BKE_pbvh_vertex_to_index seeds
              (SCULPT_floodfill_init vertex_count)) as [Hv _].
  split; [simpl; rewrite Hv; simpl; apply length_replicate|].
  split; [intros v ni Hv0; apply elem_of_nil in Hv0; contradiction|].
  split; [intros c Hc; apply elem_of_nil in Hc; contradiction|].
  split; simpl.
  - intros s Hs. right. rewrite seeded_queue. simpl.
    apply list_elem_of_fmap. exists s. split; [reflexivity | exact Hs].
  - intros i Hi. right. destruct (seeded_marks _ _ _ Hi) as [H|H]; [|exact H].
    unfold BLI_BITMAP_TEST, SCULPT_floodfill_init in H. simpl in H.
    destruct (rd (replicate (Z.to_nat vertex_count) false) i) as [b|] eqn:E;
      [|discriminate H].
    apply rd_replicate in E. subst b. discriminate H.
Qed.

Lemma seeded_runs u :
  exists r', execute (length seeds + Z.to_nat vertex_count) (seeded u) = Some r'.
Proof.
  unfold seeded.
  set (fl := fold_left (add_seed BKE_pbvh_vertex_to_index) seeds
               (SCULPT_floodfill_init vertex_count)).
  destruct (add_seeds_length BKE_pbvh_vertex_to_index seeds
              (SCULPT_floodfill_init vertex_count)) as [Hv Hq].
  fold fl in Hv, Hq. simpl in Hv, Hq. rewrite length_replicate in Hv.
  rewrite Nat.add_0_r in Hq.
  apply (execute_enough_fuel BKE_pbvh_vertex_to_index neighbors SCULPT_vertex_visible_get
           U func (Z.to_nat vertex_count)).
  - exact Hrange.
  - rewrite <- Hv. apply start_inv.
  - unfold work_left. simpl. rewrite Hq.
    pose proof (unvisited_le_length (visited_vertices fl)). lia.
Qed.

(** At the end, the neighbours of what was on the queue are marked. *)
Lemma execute_closure u fuel r' :
  execute fuel (seeded u) = Some r' ->
  forall v ni,
    ((exists s, s ∈ seeds /\ seed_vertex s = v)
     \/ (exists c, c ∈ calls U r' /\ answer c = true /\ to_v c = v)) ->
    ni ∈ neighbors v -> SCULPT_vertex_visible_get ni.1 = true ->
    marked r' ni.1
    /\ ((exists c, c ∈ calls U r' /\ to_index BKE_pbvh_vertex_to_index c
                                     = BKE_pbvh_vertex_to_index ni.1)
        \/ (exists s, s ∈ seeds /\ is_skipped s = true
                      /\ BKE_pbvh_vertex_to_index (seed_vertex s)
                         = BKE_pbvh_vertex_to_index ni.1)).
Proof.
  intros Hex v ni Hv Hni Hvis.
  destruct (execute_closed fuel (seeded u) r' [] (seeded_closed u) Hex)
    as (D & (_ & Ha & Hb & Hc & Hd) & Hq).
  assert (HvD : v ∈ D).
  { destruct Hv as [(s & Hs & <-) | (c & Hc0 & Hans & <-)].
    - destruct (Hc s Hs) as [H|H]; [exact H|]. rewrite Hq in H.
      apply elem_of_nil in H. contradiction.
    - destruct (Hb c Hc0 Hans) as [H|H]; [exact H|]. rewrite Hq in H.
      apply elem_of_nil in H. contradiction. }
  pose proof (Ha v ni HvD Hni Hvis) as Hm. split; [exact Hm|]. apply Hd. exact Hm.
Qed.

(** X17.  Whatever the visitor answers, the fill from the seeds ends, and
    is complete within what the visitor lets through: every visible
    neighbour of a seed, or of a vertex on which the visitor answered true,
    is marked in the bitmap at the end, being a vertex that the visitor was
    called on or a seed added as already visited (or sharing its index with
    one). *)
Theorem floodfill_closed_under_neighbors (u : U) :
  exists r',
    execute (length seeds + Z.to_nat vertex_count) (seeded u) = Some r'
    /\ forall v ni,
         ((exists s, s ∈ seeds /\ seed_vertex s = v)
          \/ (exists c, c ∈ calls U r' /\ answer c = true /\ to_v c = v)) ->
         ni ∈ neighbors v -> SCULPT_vertex_visible_get ni.1 = true ->
         marked r' ni.1
         /\ ((exists c, c ∈ calls U r' /\ to_index BKE_pbvh_vertex_to_index c
                                          = BKE_pbvh_vertex_to_index ni.1)
             \/ (exists s, s ∈ seeds /\ is_skipped s = true
                           /\ BKE_pbvh_vertex_to_index (seed_vertex s)
                              = BKE_pbvh_vertex_to_index ni.1)).
Proof.
  destruct (seeded_runs u) as [r' Hex]. exists r'. split; [exact Hex|].
  apply (execute_closure u _ r' Hex).
Qed.

(** *** A visitor that always continues *)

Hypothesis Hinj : forall a b : PBVHVertRef,
  BKE_pbvh_vertex_to_index a = BKE_pbvh_vertex_to_index b -> a = b.
Hypothesis Hcontinue : forall (u : U) (a b : PBVHVertRef) (d : bool), (func u a b d).1 = true.

Lemma visits_continue from (l : list (PBVHVertRef * bool)) : forall r,
  Forall (fun c => answer c = true) (calls U r) ->
  Forall (fun c => answer c = true) (calls U (fold_left (visit from) l r)).
Proof.
  induction l as [|ni l IH]; intros r Hr; simpl; [exact Hr|].
  apply IH. unfold floodfill_visit.
  destruct (BLI_BITMAP_TEST _ _); [exact Hr|].
  destruct (SCULPT_vertex_visible_get ni.1); simpl; [|exact Hr].
  apply Forall_app. split; [exact Hr|]. apply Forall_singleton. simpl. apply Hcontinue.
Qed.

Lemma execute_continue : forall fuel r r',
  Forall (fun c => answer c = true) (calls U r) ->
  execute fuel r = Some r' ->
  Forall (fun c => answer c = true) (calls U r').
Proof.
  induction fuel as [|fuel IH]; intros r r' Hr Hex; simpl in Hex;
    destruct (queue (flood U r)) as [|from rest] eqn:Hq.
  - injection Hex as <-. exact Hr.
  - discriminate.
  - injection Hex as <-. exact Hr.
  - refine (IH _ r' _ Hex). unfold floodfill_pop. apply visits_continue. exact Hr.
Qed.

Lemma execute_reaches u fuel r' :
  execute fuel (seeded u) = Some r' ->
  forall v, reach v ->
    (exists s, s ∈ seeds /\ seed_vertex s = v) \/ v ∈ map to_v (calls U r').
Proof.
  intros Hex v Hv.
  assert (Hans : Forall (fun c => answer c = true) (calls U r')).
  { apply (execute_continue fuel (seeded u) r'); [constructor | exact Hex]. }
  rewrite Forall_forall in Hans.
  induction Hv as [s Hs | w v d Hw IH Hedge Hvis].
  - left. exists s. split; [exact Hs | reflexivity].
  - assert (Hon : (exists s, s ∈ seeds /\ seed_vertex s = w)
                  \/ (exists c, c ∈ calls U r' /\ answer c = true /\ to_v c = w)).
    { destruct IH as [H | H]; [left; exact H | right].
      apply list_elem_of_fmap in H as (c & -> & Hc). exists c.
      split; [exact Hc | split; [apply Hans; exact Hc | reflexivity]]. }
    destruct (execute_closure u fuel r' Hex w (v, d) Hon Hedge Hvis)
      as [_ [(c & Hc & Hidx) | (s & Hs & _ & Hidx)]].
    + right. apply list_elem_of_fmap. exists c. split; [|exact Hc].
      symmetry. apply Hinj. exact Hidx.
    + left. exists s. split; [exact Hs | apply Hinj; exact Hidx].
Qed.

(** X18.  With a visitor that always answers true, and vertices of distinct
    indices, the fill visits everything it can reach: every vertex that a
    path through visible vertices leads to from a seed is a seed or is
    passed to the visitor. *)
Theorem floodfill_visits_all_reached (u : U) :
  exists r',
    execute (length seeds + Z.to_nat vertex_count) (seeded u) = Some r'
    /\ forall v, reach v ->
         (exists s, s ∈ seeds /\ seed_vertex s = v) \/ v ∈ map to_v (calls U r').
Proof.
  destruct (seeded_runs u) as [r' Hex]. exists r'. split; [exact Hex|].
  apply (execute_reaches u _ r' Hex).
Qed.

End WithGraph.

(** *** The row of three vertices *)

Lemma floodfill_visits_only_reached_witness :
  exists r',
    SCULPT_floodfill_execute row_index row_neighbors all_visible nat counting 4
      (seeded 3 row_index nat [Initial 0] 0%nat) = Some r'
    /\ Forall (fun c => reach row_neighbors all_visible [Initial 0] (to_v c))
              (calls nat r').
Proof.
  eexists. split; [vm_compute; reflexivity|].
  eapply Forall_impl.
  - apply (floodfill_visits_only_reached 3 row_index row_neighbors all_visible nat
             counting [Initial 0] 0%nat 4).
    vm_compute. reflexivity.
  - intros c (_ & H & _). exact H.
Defined.

Lemma floodfill_closed_under_neighbors_witness :
  graph_in_range row_index row_neighbors (Z.to_nat 3)
  /\ exists r',
       SCULPT_floodfill_execute row_index row_neighbors all_visible nat counting
         (length [AndSkipInitial 1] + Z.to_nat 3)
         (seeded 3 row_index nat [AndSkipInitial 1] 0%nat) = Some r'
       /\ BLI_BITMAP_TEST (visited_vertices (flood nat r')) (row_index 2) = true.
Proof.
  split; [exact row_in_range|].
  destruct (floodfill_closed_under_neighbors 3 row_index row_neighbors all_visible nat
              counting [AndSkipInitial 1] row_in_range 0%nat) as (r' & Hex & H).
  exists r'. split; [exact Hex|].
  apply (H 1 (2, false)).
  - left. exists (AndSkipInitial 1).
    split; [apply list_elem_of_singleton; reflexivity | reflexivity].
  - apply elem_of_cons. right. apply elem_of_cons. left. reflexivity.
  - reflexivity.
Defined.

Lemma floodfill_visits_all_reached_witness :
  graph_in_range row_index row_neighbors (Z.to_nat 3)
  /\ (forall a b : PBVHVertRef, row_index a = row_index b -> a = b)
  /\ (forall (u : nat) (a b : PBVHVertRef) (d : bool), (counting u a b d).1 = true)
  /\ exists r',
       SCULPT_floodfill_execute row_index row_neighbors all_visible nat counting
         (length [Initial 0] + Z.to_nat 3) (seeded 3 row_index nat [Initial 0] 0%nat)
       = Some r'
       /\ 2 ∈ map to_v (calls nat r').
Proof.
  split; [exact row_in_range|]. split; [intros a b H; exact H|].
  split; [intros u a b d; reflexivity|].
  destruct (floodfill_visits_all_reached 3 row_index row_neighbors all_visible nat
              counting [Initial 0] row_in_range (fun a b H => H)
              (fun u a b d => eq_refl) 0%nat) as (r' & Hex & H).
  exists r'. split; [exact Hex|].
  destruct (H 2) as [(s & Hs & Hv) | Hin]; [| |exact Hin].
  - apply (reach_step row_neighbors all_visible [Initial 0] 1 2 false).
    + apply (reach_step row_neighbors all_visible [Initial 0] 0 1 false).
      * apply (reach_seed row_neighbors all_visible [Initial 0] (Initial 0)).
        apply list_elem_of_singleton. reflexivity.
      * apply elem_of_cons. left. reflexivity.
      * reflexivity.
    + apply elem_of_cons. right. apply elem_of_cons. left. reflexivity.
    + reflexivity.
  - apply list_elem_of_singleton in Hs. subst s. discriminate Hv.
Defined.

End FloodFillReach.

(* ===================================================================== *)
(** ** Connected components *)
(* ===================================================================== *)

Module ConnectedComponents.

Import FloodFill.

Local Open Scope Z_scope.

Abbreviation SCULPT_TOPOLOGY_ID_NONE := FakeNeighbors.SCULPT_TOPOLOGY_ID_NONE.

Section WithMesh.

(** [SCULPT_vertex_count_get], [BKE_pbvh_vertex_to_index] and
    [BKE_pbvh_index_to_vertex], the adjacency and the visibility. *)
Variable totvert : Z.
Variable BKE_pbvh_vertex_to_index : PBVHVertRef -> Z.
Variable BKE_pbvh_index_to_vertex : Z -> PBVHVertRef.
Variable neighbors : PBVHVertRef -> list (PBVHVertRef * bool).
Variable SCULPT_vertex_visible_get : PBVHVertRef -> bool.

(** [SCULPT_connected_components_floodfill_cb] (sculpt.c, 9008), for
    [data->next_id = next_id]; the state is the array
    [ss->vertex_info.connected_component]. *)
Definition SCULPT_connected_components_floodfill_cb (next_id : Z)
    (connected_component : list Z) (from_v0 to_v0 : PBVHVertRef) (is_duplicate0 : bool)
    : bool * list Z :=
  let connected_component :=
    wr connected_component (BKE_pbvh_vertex_to_index from_v0) next_id in
  (true, wr connected_component (BKE_pbvh_vertex_to_index to_v0) next_id).

(** The flood fill of the loop body: from [vertex] alone. *)
Definition component_fill (fuel : nat) (connected_component : list Z) (next_id : Z)
    (vertex : PBVHVertRef) : option (run (list Z)) :=
  SCULPT_floodfill_execute BKE_pbvh_vertex_to_index neighbors SCULPT_vertex_visible_get
    (list Z) (SCULPT_connected_components_floodfill_cb next_id) fuel
    (start (list Z)
       (SCULPT_floodfill_add_initial (SCULPT_floodfill_init totvert) vertex)
       connected_component).

(** The body of the second loop of [SCULPT_connected_components_ensure];
    [fuel] bounds the iterations of each flood fill. *)
Definition components_vertex (fuel : nat) (st : option (list Z * Z)) (i : Z)
    : option (list Z * Z) :=
  match st with
  | None => None
  | Some (connected_component, next_id) =>
      let vertex := BKE_pbvh_index_to_vertex i in
      if negb (SCULPT_vertex_visible_get vertex) then Some (connected_component, next_id)
      else if match rd connected_component i with
              | Some x => x =? SCULPT_TOPOLOGY_ID_NONE
              | None => false
              end
      then
        match component_fill fuel connected_component next_id vertex with
        | Some r => Some (userdata (list Z) r, next_id + 1)
        | None => None
        end
      else Some (connected_component, next_id)
  end.

(** [SCULPT_connected_components_ensure] (sculpt.c, 9020), on
    [ss->vertex_info.connected_component] ([None] for the null pointer);
    the answer is [None] when a flood fill runs out of [fuel]. *)
Definition SCULPT_connected_components_ensure (fuel : nat)
    (connected_component : option (list Z)) : option (list Z) :=
  match connected_component with
  | Some cc => Some cc
  | None =>
      let cc := replicate (Z.to_nat totvert) SCULPT_TOPOLOGY_ID_NONE in
      option_map fst
        (fold_left (components_vertex fuel)
                   (map Z.of_nat (seq 0 (Z.to_nat totvert))) (Some (cc, 0)))
  end.

(** A path from [u] to [v], every vertex after [u] on it being visible. *)
Local Abbreviation path u v :=
  (FloodFillReach.reach neighbors SCULPT_vertex_visible_get [Initial u] v).

Lemma path_refl u : path u u.
Proof.
  apply (FloodFillReach.reach_seed neighbors SCULPT_vertex_visible_get [Initial u]
           (Initial u)).
  apply list_elem_of_singleton. reflexivity.
Qed.

Lemma path_trans u v w : path u v -> path v w -> path u w.
Proof.
  intros Huv Hvw. induction Hvw as [s Hs | x y d Hx IH Hedge Hvis].
  - apply list_elem_of_singleton in Hs. subst s. exact Huv.
  - apply (FloodFillReach.reach_step _ _ _ x y d); assumption.
Qed.

Lemma path_visible u v :
  SCULPT_vertex_visible_get u = true -> path u v -> SCULPT_vertex_visible_get v = true.
Proof.
  intros Hu Huv. induction Huv as [s Hs | x y d Hx IH Hedge Hvis].
  - apply list_elem_of_singleton in Hs. subst s. exact Hu.
  - exact Hvis.
Qed.

(** The adjacency is symmetric. *)
Definition symmetric_graph : Prop :=
  forall u v d, (v, d) ∈ neighbors u -> exists d', (u, d') ∈ neighbors v.

Lemma path_sym u v :
  symmetric_graph -> SCULPT_vertex_visible_get u = true -> path u v -> path v u.
Proof.
  intros Hsym Hu Huv. induction Huv as [s Hs | x y d Hx IH Hedge Hvis].
  - apply list_elem_of_singleton in Hs. subst s. apply path_refl.
  - destruct (Hsym x y d Hedge) as [d' Hback].
    apply (path_trans y x u); [|exact IH].
    apply (FloodFillReach.reach_step _ _ _ y x d'); [apply path_refl | exact Hback|].
    apply (path_visible u x Hu Hx).
Qed.

(** *** One flood fill *)

Section Fill.

Variable s : PBVHVertRef.
Variable next_id : Z.
Variable cc : list Z.

Hypothesis Hrange : graph_in_range BKE_pbvh_vertex_to_index neighbors (Z.to_nat totvert).
Hypothesis Hlen : length cc = Z.to_nat totvert.
Hypothesis Hs : 0 <= BKE_pbvh_vertex_to_index s < totvert.

Local Abbreviation idx := BKE_pbvh_vertex_to_index.
Local Abbreviation cb := (SCULPT_connected_components_floodfill_cb next_id).
Local Abbreviation visit :=
  (floodfill_visit BKE_pbvh_vertex_to_index SCULPT_vertex_visible_get (list Z) cb).

(** The index [j] is one the visitor wrote to. *)
Definition touched (r : run (list Z)) (j : Z) : Prop :=
  Exists (fun c => idx (from_v c) = j \/ idx (to_v c) = j) (calls (list Z) r).

(** The array during the fill: [next_id] where the visitor wrote, as it
    was elsewhere; the queue holds [s] or visited vertices; and the first
    call, if any, was from [s]. *)
Definition fill_inv (r : run (list Z)) : Prop :=
  length (userdata (list Z) r) = length cc
  /\ (forall j, touched r j -> rd (userdata (list Z) r) j = Some next_id)
  /\ (forall j, ~ touched r j -> rd (userdata (list Z) r) j = rd cc j)
  /\ (forall v, v ∈ queue (flood (list Z) r) ->
        0 <= idx v < totvert /\ (v = s \/ v ∈ map to_v (calls (list Z) r)))
  /\ (calls (list Z) r = [] \/ s ∈ map from_v (calls (list Z) r)).

Lemma wr_keeps (a : list Z) (i j : Z) :
  rd a j = Some next_id -> rd (wr a i next_id) j = Some next_id.
Proof.
  intros H. destruct (Z.eq_dec i j) as [->|Hne].
  - apply rd_wr_eq. unfold rd in H. destruct (j <? 0) eqn:Ej; [discriminate|].
    apply Z.ltb_ge in Ej. apply lookup_lt_Some in H. lia.
  - rewrite rd_wr_ne by exact Hne. exact H.
Qed.

Lemma visit_fill from r ni :
  0 <= idx from < totvert -> (from = s \/ from ∈ map to_v (calls (list Z) r)) ->
  ni ∈ neighbors from -> fill_inv r -> fill_inv (visit from r ni).
Proof.
  intros Hfrom Hfs Hni Hinv. pose proof Hinv as (Hl & Ht & Hu & Hq & Hfirst).
  unfold floodfill_visit.
  destruct (BLI_BITMAP_TEST _ _); [exact Hinv|].
  destruct (SCULPT_vertex_visible_get ni.1) eqn:Evis; simpl; [|exact Hinv].
  pose proof (Hrange from ni Hni) as Hto. rewrite Z2Nat.id in Hto by lia.
  assert (Hlen' : Z.of_nat (length (userdata (list Z) r)) = totvert)
    by (rewrite Hl, Hlen; lia).
  split; [|split; [|split; [|split]]]; simpl.
  - rewrite !length_wr. exact Hl.
  - intros j Hj. unfold touched in Hj. simpl in Hj.
    apply Exists_app in Hj as [Hj|Hj].
    + apply wr_keeps, wr_keeps. apply Ht. exact Hj.
    + apply Exists_cons in Hj as [[Hj|Hj]|Hj]; simpl in Hj.
      * subst j. apply wr_keeps. apply rd_wr_eq. lia.
      * subst j. apply rd_wr_eq. rewrite length_wr. lia.
      * apply Exists_nil in Hj. contradiction.
  - intros j Hj.
    assert (Hne1 : idx from <> j).
    { intros E. apply Hj. unfold touched. simpl. apply Exists_app. right.
      apply Exists_cons. left. left. exact E. }
    assert (Hne2 : idx ni.1 <> j).
    { intros E. apply Hj. unfold touched. simpl. apply Exists_app. right.
      apply Exists_cons. left. right. exact E. }
    rewrite !rd_wr_ne by assumption. apply Hu.
    intros Hold. apply Hj. unfold touched. simpl. apply Exists_app. left. exact Hold.
  - intros v Hv. rewrite map_app. simpl.
    assert (Hv' : v ∈ queue (flood (list Z) r) \/ v = ni.1).
    { apply elem_of_app in Hv as [Hv|Hv]; [left; exact Hv | right].
      apply list_elem_of_singleton in Hv. exact Hv. }
    destruct Hv' as [Hv'| ->].
    + destruct (Hq v Hv') as [H1 H2]. split; [exact H1|].
      destruct H2 as [H2|H2]; [left; exact H2 | right; apply elem_of_app; left; exact H2].
    + split; [exact Hto|]. right. apply elem_of_app. right.
      apply list_elem_of_singleton. reflexivity.
  - right. rewrite map_app. simpl. destruct Hfirst as [Hnil | Hin].
    + apply elem_of_app. right. apply list_elem_of_singleton.
      destruct Hfs as [E|E]; [exact (eq_sym E)|].
      rewrite Hnil in E. apply elem_of_nil in E. contradiction.
    + apply elem_of_app. left. exact Hin.
Qed.

Lemma visit_keeps_visited from r ni v :
  v ∈ map to_v (calls (list Z) r) -> v ∈ map to_v (calls (list Z) (visit from r ni)).
Proof.
  intros Hv. unfold floodfill_visit.
  destruct (BLI_BITMAP_TEST _ _); [exact Hv|].
  destruct (SCULPT_vertex_visible_get ni.1); simpl; [|exact Hv].
  rewrite map_app. apply elem_of_app. left. exact Hv.
Qed.

Lemma visits_fill from (l : list (PBVHVertRef * bool)) : forall r,
  0 <= idx from < totvert -> (from = s \/ from ∈ map to_v (calls (list Z) r)) ->
  (forall ni, ni ∈ l -> ni ∈ neighbors from) ->
  fill_inv r -> fill_inv (fold_left (visit from) l r).
Proof.
  induction l as [|ni l IH]; intros r Hfrom Hfs Hl Hinv; simpl; [exact Hinv|].
  apply IH.
  - exact Hfrom.
  - destruct Hfs as [E|E]; [left; exact E | right; apply visit_keeps_visited; exact E].
  - intros n Hn. apply Hl, elem_of_cons. right. exact Hn.
  - apply visit_fill; [exact Hfrom | exact Hfs | | exact Hinv].
    apply Hl, elem_of_cons. left. reflexivity.
Qed.

Lemma execute_fill : forall fuel r r',
  fill_inv r ->
  SCULPT_floodfill_execute BKE_pbvh_vertex_to_index neighbors SCULPT_vertex_visible_get
    (list Z) cb fuel r = Some r' ->
  fill_inv r'.
Proof.
  induction fuel as [|fuel IH]; intros r r' Hinv Hex; simpl in Hex;
    destruct (queue (flood (list Z) r)) as [|from rest] eqn:Hq.
  - injection Hex as <-. exact Hinv.
  - discriminate.
  - injection Hex as <-. exact Hinv.
  - refine (IH _ r' _ Hex). destruct Hinv as (Hl & Ht & Hu & Hqv & Hfirst).
    destruct (Hqv from) as [Hfrom Hfs]; [rewrite Hq; apply elem_of_cons; left; reflexivity|].
    unfold floodfill_pop. apply visits_fill.
    + exact Hfrom.
    + exact Hfs.
    + intros ni Hni. exact Hni.
    + split; [exact Hl|]. split; [exact Ht|]. split; [exact Hu|]. split; [|exact Hfirst].
      simpl. intros v Hv. apply Hqv. rewrite Hq. apply elem_of_cons. right. exact Hv.
Qed.

Lemma start_fill :
  fill_inv (start (list Z)
              (SCULPT_floodfill_add_initial (SCULPT_floodfill_init totvert) s) cc).
Proof.
  split; [reflexivity|]. split; [|split; [|split]]; simpl.
  - intros j Hj. apply Exists_nil in Hj. contradiction.
  - intros j _. reflexivity.
  - intros v Hv. apply list_elem_of_singleton in Hv. subst v.
    split; [exact Hs | left; reflexivity].
  - left. reflexivity.
Qed.

Hypothesis Hinj : forall a b : PBVHVertRef, idx a = idx b -> a = b.

(** What one flood fill does to the array: nothing when [s] has no visible
    neighbour; otherwise it writes [next_id] at the vertices that a path
    from [s] leads to, and only there. *)
Lemma fill_effect :
  exists r',
    component_fill (S (Z.to_nat totvert)) cc next_id s = Some r'
    /\ length (userdata (list Z) r') = Z.to_nat totvert
    /\ (((forall j, rd (userdata (list Z) r') j = rd cc j)
         /\ forall x d, (x, d) ∈ neighbors s -> SCULPT_vertex_visible_get x = false)
        \/ ((forall v, (path s v /\ rd (userdata (list Z) r') (idx v) = Some next_id)
                       \/ (~ path s v
                           /\ rd (userdata (list Z) r') (idx v) = rd cc (idx v)))
            /\ exists x d, (x, d) ∈ neighbors s /\ SCULPT_vertex_visible_get x = true)).
Proof.
  destruct (FloodFillReach.seeded_runs totvert idx neighbors SCULPT_vertex_visible_get
              (list Z) cb [Initial s] Hrange cc) as [r' Hex].
  exists r'. split; [exact Hex|].
  destruct (execute_fill _ _ r' start_fill Hex) as (Hl & Ht & Hu & _ & Hfirst).
  split; [rewrite Hl; exact Hlen|].
  destruct (FloodFillReach.execute_sound idx neighbors SCULPT_vertex_visible_get
              (list Z) cb [Initial s] _ _ r'
              (FloodFillReach.seeded_sound totvert idx neighbors
                 SCULPT_vertex_visible_get (list Z) [Initial s] cc) Hex) as [_ Hcalls].
  rewrite Forall_forall in Hcalls.
  destruct Hfirst as [Hnil | Hin].
  - left. split.
    + intros j. apply Hu. unfold touched. rewrite Hnil. intros H.
      apply Exists_nil in H. exact H.
    + intros x d Hx. destruct (SCULPT_vertex_visible_get x) eqn:Evis; [|reflexivity].
      exfalso.
      destruct (FloodFillReach.execute_closure totvert idx neighbors
                  SCULPT_vertex_visible_get (list Z) cb [Initial s] Hrange cc _ r' Hex
                  s (x, d)) as [_ [(c & Hc & _) | (s0 & Hs0 & Hsk & _)]].
      * left. exists (Initial s).
        split; [apply list_elem_of_singleton; reflexivity | reflexivity].
      * exact Hx.
      * exact Evis.
      * rewrite Hnil in Hc. apply elem_of_nil in Hc. exact Hc.
      * apply list_elem_of_singleton in Hs0. subst s0. discriminate Hsk.
  - right. split.
    2:{ apply list_elem_of_fmap in Hin as (c & Hc & Hcin).
        destruct (Hcalls c Hcin) as (_ & _ & Hedge & Hvis).
        exists (to_v c), (is_duplicate c). rewrite Hc. split; assumption. }
    intros v.
    assert (Hpath : touched r' (idx v) -> path s v).
    { intros Hto. unfold touched in Hto.
      apply Exists_exists in Hto as (c & Hcin & Hc).
      destruct (Hcalls c Hcin) as (Hf & Ht0 & _).
      destruct Hc as [Hc|Hc]; apply Hinj in Hc; subst v; assumption. }
    assert (Htouched : path s v -> touched r' (idx v)).
    { intros Hv. unfold touched. apply Exists_exists.
      destruct (FloodFillReach.execute_reaches totvert idx neighbors
                  SCULPT_vertex_visible_get (list Z) cb [Initial s] Hrange Hinj
                  (fun u a b d => eq_refl) cc _ r' Hex v Hv)
        as [(s0 & Hs0 & Hv0) | Hvis].
      - apply list_elem_of_singleton in Hs0. subst s0. simpl in Hv0. subst v.
        apply list_elem_of_fmap in Hin as (c & Hc & Hcin).
        exists c. split; [exact Hcin | left; rewrite <- Hc; reflexivity].
      - apply list_elem_of_fmap in Hvis as (c & Hc & Hcin).
        exists c. split; [exact Hcin | right; rewrite <- Hc; reflexivity]. }
    unfold touched in *.
    destruct (decide (Exists (fun c => idx (from_v c) = idx v \/ idx (to_v c) = idx v)
                             (calls (list Z) r'))) as [Hyes | Hno].
    + left. split; [apply Hpath; exact Hyes | apply Ht; exact Hyes].
    + right. split; [intros Hv; apply Hno, Htouched, Hv | apply Hu; exact Hno].
Qed.

End Fill.

(** *** All the flood fills *)

Hypothesis Hrange : graph_in_range BKE_pbvh_vertex_to_index neighbors (Z.to_nat totvert).
Hypothesis Hinj : forall a b : PBVHVertRef,
  BKE_pbvh_vertex_to_index a = BKE_pbvh_vertex_to_index b -> a = b.
Hypothesis Hvtx : forall i, 0 <= i < totvert ->
  BKE_pbvh_vertex_to_index (BKE_pbvh_index_to_vertex i) = i.
Hypothesis Hsym : symmetric_graph.

(** Along a path between visible vertices the ID does not change. *)
Definition uniform (cc : list Z) : Prop :=
  length cc = Z.to_nat totvert
  /\ forall u v, 0 <= BKE_pbvh_vertex_to_index u < totvert ->
       SCULPT_vertex_visible_get u = true -> path u v ->
       rd cc (BKE_pbvh_vertex_to_index u) = rd cc (BKE_pbvh_vertex_to_index v).

Lemma components_vertex_uniform cc next_id i :
  0 <= i < totvert -> uniform cc ->
  exists cc' next_id',
    components_vertex (S (Z.to_nat totvert)) (Some (cc, next_id)) i = Some (cc', next_id')
    /\ uniform cc'.
Proof.
  intros Hi Hun. pose proof Hun as [Hlen Huv]. unfold components_vertex.
  destruct (SCULPT_vertex_visible_get (BKE_pbvh_index_to_vertex i)) eqn:Evis; simpl;
    [|exists cc, next_id; split; [reflexivity | exact Hun]].
  destruct (match rd cc i with
            | Some x => x =? SCULPT_TOPOLOGY_ID_NONE
            | None => false
            end); [|exists cc, next_id; split; [reflexivity | exact Hun]].
  set (s := BKE_pbvh_index_to_vertex i) in *.
  assert (Hs : 0 <= BKE_pbvh_vertex_to_index s < totvert)
    by (unfold s; rewrite Hvtx; exact Hi).
  destruct (fill_effect s next_id cc Hrange Hlen Hs Hinj) as (r' & Hex & Hl & Heff).
  rewrite Hex. exists (userdata (list Z) r'), (next_id + 1).
  split; [reflexivity|]. split; [exact Hl|].
  intros u v Hu Huvis Hpath.
  destruct Heff as [[Hsame _] | [Hfill _]].
  - rewrite !Hsame. apply Huv; assumption.
  - destruct (Hfill u) as [[Hsu Hru] | [Hnsu Hru]].
    + destruct (Hfill v) as [[_ Hrv] | [Hnsv _]]; [congruence|].
      exfalso. apply Hnsv. apply (path_trans s u v); assumption.
    + destruct (Hfill v) as [[Hsv _] | [_ Hrv]].
      * exfalso. apply Hnsu. apply (path_trans s v u); [exact Hsv|].
        apply path_sym; assumption.
      * rewrite Hru, Hrv. apply Huv; assumption.
Qed.

Lemma components_loop_uniform (l : list Z) : forall cc next_id,
  (forall i, i ∈ l -> 0 <= i < totvert) -> uniform cc ->
  exists cc' next_id',
    fold_left (components_vertex (S (Z.to_nat totvert))) l (Some (cc, next_id))
    = Some (cc', next_id')
    /\ uniform cc'.
Proof.
  induction l as [|i l IH]; intros cc next_id Hl Hun; cbn [fold_left].
  - exists cc, next_id. split; [reflexivity | exact Hun].
  - destruct (components_vertex_uniform cc next_id i) as (cc1 & n1 & Hstep & Hun1);
      [apply Hl, elem_of_cons; left; reflexivity | exact Hun|].
    rewrite Hstep. apply IH; [|exact Hun1].
    intros j Hj. apply Hl, elem_of_cons. right. exact Hj.
Qed.

Lemma ensure_uniform :
  exists cc,
    SCULPT_connected_components_ensure (S (Z.to_nat totvert)) None = Some cc
    /\ uniform cc.
Proof.
  unfold SCULPT_connected_components_ensure.
  destruct (components_loop_uniform (map Z.of_nat (seq 0 (Z.to_nat totvert)))
              (replicate (Z.to_nat totvert) SCULPT_TOPOLOGY_ID_NONE) 0)
    as (cc & n & Hfold & Hun).
  - intros i Hi. apply list_elem_of_fmap in Hi as (k & -> & Hk).
    apply elem_of_seq in Hk. lia.
  - split; [apply length_replicate|]. intros u v Hu _ Hpath.
    assert (Hv : 0 <= BKE_pbvh_vertex_to_index v < totvert).
    { destruct Hpath as [s0 Hs0 | x y d _ Hedge _].
      - apply list_elem_of_singleton in Hs0. subst s0. exact Hu.
      - pose proof (Hrange x (y, d) Hedge) as H. simpl in H. lia. }
    unfold rd.
    rewrite (proj2 (Z.ltb_ge (BKE_pbvh_vertex_to_index u) 0)) by lia.
    rewrite (proj2 (Z.ltb_ge (BKE_pbvh_vertex_to_index v) 0)) by lia.
    rewrite !lookup_replicate_2 by lia. reflexivity.
  - exists cc. rewrite Hfold. split; [reflexivity | exact Hun].
Qed.

(** X19.  [SCULPT_connected_components_ensure], on a mesh without IDs, ends
    and gives the same ID to any two vertices joined by a path of visible
    vertices of the symmetric adjacency.  (With IDs already there it changes
    nothing.) *)
Theorem connected_components_same_id_along_paths :
  (exists cc,
     SCULPT_connected_components_ensure (S (Z.to_nat totvert)) None = Some cc
     /\ length cc = Z.to_nat totvert
     /\ forall u v, 0 <= BKE_pbvh_vertex_to_index u < totvert ->
          SCULPT_vertex_visible_get u = true -> path u v ->
          rd cc (BKE_pbvh_vertex_to_index u) = rd cc (BKE_pbvh_vertex_to_index v))
  /\ forall fuel cc, SCULPT_connected_components_ensure fuel (Some cc) = Some cc.
Proof.
  split; [|intros fuel cc; reflexivity].
  destruct ensure_uniform as (cc & Hens & Hlen & Hun).
  exists cc. split; [exact Hens | split; [exact Hlen | exact Hun]].
Qed.

(** *** The IDs tell the components apart *)

(** No vertex is its own neighbour. *)
Hypothesis Hirr : forall u d, (u, d) ∉ neighbors u.

Local Abbreviation idx := BKE_pbvh_vertex_to_index.
Local Abbreviation vtx := BKE_pbvh_index_to_vertex.
Local Abbreviation visible := SCULPT_vertex_visible_get.
Local Abbreviation valid u := (0 <= BKE_pbvh_vertex_to_index u < totvert).

(** A visible vertex with a visible neighbour; and the others, which stand
    alone. *)
Definition joined (u : PBVHVertRef) : Prop :=
  visible u = true /\ exists x d, (x, d) ∈ neighbors u /\ visible x = true.

Definition lone (u : PBVHVertRef) : Prop :=
  visible u = false \/ forall x d, (x, d) ∈ neighbors u -> visible x = false.

Lemma joined_not_lone u : joined u -> lone u -> False.
Proof.
  intros [Hv (x & d & Hx & Hxv)] [Hl | Hl]; [congruence|].
  rewrite (Hl x d Hx) in Hxv. discriminate.
Qed.

Lemma vtx_idx u : valid u -> vtx (idx u) = u.
Proof. intros Hu. apply Hinj. apply Hvtx. exact Hu. Qed.

Lemma path_valid u v : valid u -> path u v -> valid v.
Proof.
  intros Hu Hp. destruct Hp as [s0 Hs0 | x y d _ Hedge _].
  - apply list_elem_of_singleton in Hs0. subst s0. exact Hu.
  - pose proof (Hrange x (y, d) Hedge) as H. simpl in H. lia.
Qed.

Lemma path_end u v :
  visible u = true -> path u v -> v = u \/ joined v.
Proof.
  intros Hu Hp. destruct Hp as [s0 Hs0 | x y d Hx Hedge Hvis].
  - apply list_elem_of_singleton in Hs0. subst s0. left. reflexivity.
  - right. split; [exact Hvis|]. destruct (Hsym x y d Hedge) as [d' Hback].
    exists x, d'. split; [exact Hback | apply (path_visible u x Hu Hx)].
Qed.

(** The state of the loop before the index [i]. *)
Definition labelled (i : Z) (cc : list Z) (next_id : Z) : Prop :=
  uniform cc
  /\ 0 <= next_id
  /\ (forall j x, rd cc j = Some x -> x = 0 \/ 0 < x < next_id)
  /\ (forall u v x, valid u -> valid v -> visible u = true -> visible v = true ->
        rd cc (idx u) = Some x -> x <> 0 -> rd cc (idx v) = Some x -> path u v)
  /\ (forall j, 0 <= j < i -> visible (vtx j) = true -> 1 <= next_id)
  /\ (forall j, 0 <= j < i -> joined (vtx j) ->
        rd cc j <> Some 0 \/ exists j', i <= j' < totvert /\ path (vtx j) (vtx j'))
  /\ (forall u, valid u -> lone u -> rd cc (idx u) = Some 0).

Lemma labelled_skip i cc next_id :
  0 <= i < totvert -> labelled i cc next_id ->
  (visible (vtx i) = false \/ exists x, rd cc i = Some x /\ x <> 0) ->
  labelled (i + 1) cc next_id.
Proof.
  intros Hi (Hun & Hn & H2 & H3 & H5 & H4 & H6) Hcase.
  split; [exact Hun|]. split; [exact Hn|]. split; [exact H2|]. split; [exact H3|].
  split; [|split; [|exact H6]].
  - intros j Hj Hvis. destruct (Z.eq_dec j i) as [->|Hne]; [|apply (H5 j); [lia | exact Hvis]].
    destruct Hcase as [Hinv | (x & Hx & Hx0)]; [congruence|].
    destruct (H2 i x Hx) as [E|E]; [contradiction | lia].
  - intros j Hj Hjoin.
    assert (Hseen : forall j0, 0 <= j0 < i -> joined (vtx j0) -> path (vtx j0) (vtx i) ->
                    rd cc j0 <> Some 0).
    { intros j0 Hj0 [Hv0 _] Hp. destruct Hcase as [Hinv | (x & Hx & Hx0)].
      - destruct (path_end (vtx j0) (vtx i) Hv0 Hp) as [E | [Hv _]]; [|congruence].
        exfalso. apply (f_equal idx) in E. rewrite !Hvtx in E by lia. lia.
      - destruct Hun as [_ Huv].
        pose proof (Huv (vtx j0) (vtx i) ltac:(rewrite Hvtx; lia) Hv0 Hp) as E.
        rewrite !Hvtx in E by lia. rewrite E, Hx. intros [= E']. contradiction. }
    destruct (Z.eq_dec j i) as [->|Hne].
    + left. destruct Hcase as [Hinv | (x & Hx & Hx0)].
      * destruct Hjoin as [Hv _]. congruence.
      * rewrite Hx. intros [= E']. contradiction.
    + destruct (H4 j ltac:(lia) Hjoin) as [H | (j' & Hj' & Hp)]; [left; exact H|].
      destruct (Z.eq_dec j' i) as [->|Hne'].
      * left. apply Hseen; [lia | exact Hjoin | exact Hp].
      * right. exists j'. split; [lia | exact Hp].
Qed.

(** A fill from a vertex that stands alone: the array is as it was. *)
Lemma labelled_lone_fill i cc cc' next_id :
  0 <= i < totvert -> labelled i cc next_id ->
  visible (vtx i) = true ->
  length cc' = Z.to_nat totvert ->
  (forall j, rd cc' j = rd cc j) ->
  (forall x d, (x, d) ∈ neighbors (vtx i) -> visible x = false) ->
  labelled (i + 1) cc' (next_id + 1).
Proof.
  intros Hi (Hun & Hn & H2 & H3 & H5 & H4 & H6) Hvis Hlen' Hsame Halone.
  assert (Hlone : lone (vtx i)) by (right; exact Halone).
  split; [|split; [lia|]].
  { split; [exact Hlen'|]. intros u v Hu Huv Hp. rewrite !Hsame.
    destruct Hun as [_ H]. apply H; assumption. }
  split; [|split; [|split; [|split]]].
  - intros j x Hx. rewrite Hsame in Hx. destruct (H2 j x Hx); [left; assumption | right; lia].
  - intros u v x Hu Hv Huv Hvv Hux Hx0 Hvx. rewrite Hsame in Hux, Hvx.
    apply (H3 u v x); assumption.
  - intros j _ _. lia.
  - intros j Hj Hjoin. rewrite Hsame.
    destruct (Z.eq_dec j i) as [->|Hne]; [exfalso; apply (joined_not_lone _ Hjoin Hlone)|].
    destruct (H4 j ltac:(lia) Hjoin) as [H | (j' & Hj' & Hp)]; [left; exact H|].
    destruct (Z.eq_dec j' i) as [->|Hne']; [|right; exists j'; split; [lia | exact Hp]].
    exfalso. destruct Hjoin as [Hvj _].
    destruct (path_end (vtx j) (vtx i) Hvj Hp) as [E | Hji].
    + apply (f_equal idx) in E. rewrite !Hvtx in E by lia. lia.
    + apply (joined_not_lone _ Hji Hlone).
  - intros u Hu Hl. rewrite Hsame. apply H6; assumption.
Qed.

(** A fill from a vertex with a visible neighbour: its component gets the
    new ID. *)
Lemma labelled_fill i cc cc' next_id :
  0 <= i < totvert -> labelled i cc next_id ->
  visible (vtx i) = true -> rd cc i = Some 0 ->
  length cc' = Z.to_nat totvert ->
  (forall v, (path (vtx i) v /\ rd cc' (idx v) = Some next_id)
             \/ (~ path (vtx i) v /\ rd cc' (idx v) = rd cc (idx v))) ->
  (exists x d, (x, d) ∈ neighbors (vtx i) /\ visible x = true) ->
  labelled (i + 1) cc' (next_id + 1).
Proof.
  intros Hi (Hun & Hn & H2 & H3 & H5 & H4 & H6) Hvis Hcci Hlen' Hfill Hnbr.
  set (s := vtx i) in *.
  assert (Hs : valid s) by (unfold s; rewrite Hvtx; lia).
  assert (Hjoin_s : joined s) by (split; assumption).
  assert (Hback : forall u, visible u = true -> path s u -> path u s).
  { intros u _ Hp. apply path_sym; assumption. }
  split; [|split; [lia|]].
  { split; [exact Hlen'|]. intros u v Hu Huv Hp.
    destruct (Hfill u) as [[Hsu Hru] | [Hnsu Hru]].
    - destruct (Hfill v) as [[_ Hrv] | [Hnsv _]]; [congruence|].
      exfalso. apply Hnsv. apply (path_trans s u v); assumption.
    - destruct (Hfill v) as [[Hsv _] | [_ Hrv]].
      + exfalso. apply Hnsu. apply (path_trans s v u); [exact Hsv|].
        apply path_sym; assumption.
      + rewrite Hru, Hrv. destruct Hun as [_ H]. apply H; assumption. }
  split; [|split; [|split; [|split]]].
  - intros j x Hx.
    assert (Hj : 0 <= j < totvert).
    { unfold rd in Hx. destruct (j <? 0) eqn:Ej; [discriminate|]. apply Z.ltb_ge in Ej.
      apply lookup_lt_Some in Hx. lia. }
    destruct (Hfill (vtx j)) as [[_ Hr] | [_ Hr]]; rewrite Hvtx in Hr by exact Hj.
    + rewrite Hr in Hx. injection Hx as <-. lia.
    + rewrite Hr in Hx. destruct (H2 j x Hx); [left; assumption | right; lia].
  - intros u v x Hu Hv Huv Hvv Hux Hx0 Hvx.
    destruct (Hfill u) as [[Hsu Hru] | [Hnsu Hru]];
      destruct (Hfill v) as [[Hsv Hrv] | [Hnsv Hrv]].
    + apply (path_trans u s v); [apply Hback; assumption | exact Hsv].
    + exfalso. rewrite Hru in Hux. injection Hux as <-.
      rewrite Hrv in Hvx. destruct (H2 _ _ Hvx); lia.
    + exfalso. rewrite Hrv in Hvx. injection Hvx as <-.
      rewrite Hru in Hux. destruct (H2 _ _ Hux); lia.
    + rewrite Hru in Hux. rewrite Hrv in Hvx. apply (H3 u v x); assumption.
  - intros j _ _. lia.
  - intros j Hj Hjoin. pose proof Hjoin as [Hvj _].
    assert (Hvalid : valid (vtx j)) by (rewrite Hvtx; lia).
    destruct (Hfill (vtx j)) as [[Hsj Hr] | [Hnsj Hr]]; rewrite Hvtx in Hr by lia.
    + destruct (Z.eq_dec next_id 0) as [E0|Hne0];
        [|left; rewrite Hr; intros [= E]; contradiction].
      (* the first flood fill: no visible vertex comes before [i] *)
      assert (Hfirst : forall j0, 0 <= j0 < i -> visible (vtx j0) = false).
      { intros j0 Hj0. destruct (visible (vtx j0)) eqn:E; [|reflexivity].
        pose proof (H5 j0 Hj0 E). lia. }
      assert (j = i).
      { destruct (Z.eq_dec j i) as [E|E]; [exact E|].
        rewrite Hfirst in Hvj by lia. discriminate. }
      subst j. right. destruct Hnbr as (x & d & Hx & Hxv).
      pose proof (Hrange s (x, d) Hx) as Hxr. simpl in Hxr. rewrite Z2Nat.id in Hxr by lia.
      exists (idx x). rewrite (vtx_idx x Hxr). split.
      * assert (idx x <> i).
        { intros E. assert (Exs : x = s) by (rewrite <- (vtx_idx x Hxr), E; reflexivity).
          rewrite Exs in Hx. exact (Hirr s d Hx). }
        assert (~ idx x < i).
        { intros Hlt. rewrite <- (vtx_idx x Hxr) in Hxv.
          rewrite Hfirst in Hxv by lia. discriminate. }
        lia.
      * apply (FloodFillReach.reach_step _ _ _ s x d); [apply path_refl | exact Hx | exact Hxv].
    + assert (Hji : j <> i).
      { intros ->. apply Hnsj. apply path_refl. }
      rewrite Hr. destruct (H4 j ltac:(lia) Hjoin) as [H | (j' & Hj' & Hp)];
        [left; exact H|].
      right. exists j'. split; [|exact Hp].
      destruct (Z.eq_dec j' i) as [->|Hne']; [|lia].
      exfalso. apply Hnsj. apply path_sym; assumption.
  - intros u Hu Hl. destruct (Hfill u) as [[Hsu _] | [_ Hr]].
    + exfalso. destruct (path_end s u Hvis Hsu) as [-> | Hju];
        [apply (joined_not_lone _ Hjoin_s Hl) | apply (joined_not_lone _ Hju Hl)].
    + rewrite Hr. apply H6; assumption.
Qed.

Lemma rd_in_range (cc : list Z) (j : Z) :
  length cc = Z.to_nat totvert -> 0 <= j < totvert -> exists x, rd cc j = Some x.
Proof.
  intros Hlen Hj. unfold rd. rewrite (proj2 (Z.ltb_ge j 0)) by lia.
  apply lookup_lt_is_Some_2. lia.
Qed.

Lemma components_vertex_labelled i cc next_id :
  0 <= i < totvert -> labelled i cc next_id ->
  exists cc' next_id',
    components_vertex (S (Z.to_nat totvert)) (Some (cc, next_id)) i = Some (cc', next_id')
    /\ labelled (i + 1) cc' next_id'.
Proof.
  intros Hi Hlab. pose proof Hlab as ([Hlen _] & _). unfold components_vertex.
  destruct (visible (vtx i)) eqn:Evis; simpl.
  2:{ exists cc, next_id. split; [reflexivity|].
      apply labelled_skip; [exact Hi | exact Hlab | left; exact Evis]. }
  destruct (rd_in_range cc i Hlen Hi) as [x Hx]. rewrite Hx.
  destruct (Z.eqb_spec x SCULPT_TOPOLOGY_ID_NONE) as [E|E].
  2:{ exists cc, next_id. split; [reflexivity|].
      apply labelled_skip; [exact Hi | exact Hlab | right; exists x; split; assumption]. }
  change SCULPT_TOPOLOGY_ID_NONE with 0 in E. subst x.
  assert (Hs : valid (vtx i)) by (rewrite Hvtx; lia).
  destruct (fill_effect (vtx i) next_id cc Hrange Hlen Hs Hinj) as (r' & Hex & Hl & Heff).
  rewrite Hex. exists (userdata (list Z) r'), (next_id + 1). split; [reflexivity|].
  destruct Heff as [[Hsame Halone] | [Hfill Hnbr]].
  - apply (labelled_lone_fill i cc); assumption.
  - apply (labelled_fill i cc); assumption.
Qed.

Lemma components_loop_labelled (n : nat) :
  Z.of_nat n <= totvert ->
  forall cc next_id, labelled 0 cc next_id ->
  exists cc' next_id',
    fold_left (components_vertex (S (Z.to_nat totvert))) (map Z.of_nat (seq 0 n))
              (Some (cc, next_id)) = Some (cc', next_id')
    /\ labelled (Z.of_nat n) cc' next_id'.
Proof.
  induction n as [|n IH]; intros Hn cc next_id Hlab.
  - exists cc, next_id. split; [reflexivity | exact Hlab].
  - destruct (IH ltac:(lia) cc next_id Hlab) as (cc1 & n1 & Hfold & Hlab1).
    rewrite seq_S, map_app, fold_left_app, Hfold. cbn [fold_left map Nat.add].
    destruct (components_vertex_labelled (Z.of_nat n) cc1 n1 ltac:(lia) Hlab1)
      as (cc2 & n2 & Hstep & Hlab2).
    exists cc2, n2. split; [exact Hstep|].
    replace (Z.of_nat (S n)) with (Z.of_nat n + 1) by lia. exact Hlab2.
Qed.

Lemma labelled_init :
  labelled 0 (replicate (Z.to_nat totvert) SCULPT_TOPOLOGY_ID_NONE) 0.
Proof.
  assert (Hrep : forall u, valid u ->
            rd (replicate (Z.to_nat totvert) SCULPT_TOPOLOGY_ID_NONE) (idx u) = Some 0).
  { intros u Hu. unfold rd. rewrite (proj2 (Z.ltb_ge (idx u) 0)) by lia.
    apply lookup_replicate_2. lia. }
  split; [|split; [lia|]].
  { split; [apply length_replicate|]. intros u v Hu _ Hp.
    rewrite (Hrep u Hu), (Hrep v (path_valid u v Hu Hp)). reflexivity. }
  split; [|split; [|split; [|split]]].
  - intros j x Hx. apply rd_replicate in Hx. left. exact Hx.
  - intros u v x _ _ _ _ Hx Hx0 _. apply rd_replicate in Hx. contradiction.
  - intros j Hj. lia.
  - intros j Hj. lia.
  - intros u Hu _. apply Hrep. exact Hu.
Qed.

Lemma ensure_labelled :
  exists cc next_id,
    SCULPT_connected_components_ensure (S (Z.to_nat totvert)) None = Some cc
    /\ labelled totvert cc next_id.
Proof.
  unfold SCULPT_connected_components_ensure.
  destruct (Z_le_gt_dec 0 totvert) as [Hpos | Hneg].
  - destruct (components_loop_labelled (Z.to_nat totvert) ltac:(lia) _ _ labelled_init)
      as (cc & n & Hfold & Hlab).
    exists cc, n. rewrite Hfold. split; [reflexivity|].
    rewrite Z2Nat.id in Hlab by lia. exact Hlab.
  - replace (Z.to_nat totvert) with 0%nat by lia. simpl.
    exists [], 0. split; [reflexivity|].
    split; [split; [simpl; lia | intros u v Hu; lia]|].
    split; [lia|]. split; [intros j x Hx; unfold rd in Hx; destruct (j <? 0); discriminate|].
    split; [intros u v x Hu; lia|]. split; [intros j Hj; lia|].
    split; [intros j Hj; lia | intros u Hu; lia].
Qed.

(** X20.  After [SCULPT_connected_components_ensure] on a mesh without IDs,
    the IDs tell the components apart: every visible vertex with a visible
    neighbour has an ID of at least 1, two such vertices with the same ID
    are joined by a path of visible vertices, and every other vertex
    (hidden, or without visible neighbour) keeps
    [SCULPT_TOPOLOGY_ID_NONE]. *)
Theorem connected_components_ids_separate :
  exists cc,
    SCULPT_connected_components_ensure (S (Z.to_nat totvert)) None = Some cc
    /\ (forall u, valid u -> joined u -> exists x, rd cc (idx u) = Some x /\ 1 <= x)
    /\ (forall u v, valid u -> valid v -> joined u -> joined v ->
          rd cc (idx u) = rd cc (idx v) -> path u v)
    /\ (forall u, valid u -> lone u -> rd cc (idx u) = Some SCULPT_TOPOLOGY_ID_NONE).
Proof.
  destruct ensure_labelled as (cc & n & Hens & ([Hlen _] & _ & H2 & H3 & _ & H4 & H6)).
  exists cc. split; [exact Hens|].
  assert (Hid : forall u, valid u -> joined u -> exists x, rd cc (idx u) = Some x /\ 1 <= x).
  { intros u Hu Hj. destruct (rd_in_range cc (idx u) Hlen Hu) as [x Hx].
    exists x. split; [exact Hx|].
    destruct (H4 (idx u) Hu) as [Hne | (j' & Hj' & _)]; [rewrite vtx_idx; assumption | | lia].
    destruct (H2 _ _ Hx) as [-> | H]; [contradiction | lia]. }
  split; [exact Hid|]. split; [|exact H6].
  intros u v Hu Hv Hju Hjv Heq.
  destruct (Hid u Hu Hju) as (x & Hx & Hx1).
  apply (H3 u v x); try assumption.
  - destruct Hju as [H _]. exact H.
  - destruct Hjv as [H _]. exact H.
  - lia.
  - rewrite <- Heq. exact Hx.
Qed.

End WithMesh.

(** *** A row of three vertices and a vertex alone *)

Definition same (i : Z) : Z := i.

Lemma row4_in_range : graph_in_range row_index row_neighbors (Z.to_nat 4).
Proof.
  intros from ni Hni. pose proof (row_in_range from ni Hni). lia.
Qed.

Lemma row_cases (u : PBVHVertRef) (ni : PBVHVertRef * bool) :
  ni ∈ row_neighbors u ->
  (u = 0 /\ ni.1 = 1) \/ (u = 1 /\ (ni.1 = 0 \/ ni.1 = 2)) \/ (u = 2 /\ ni.1 = 1).
Proof.
  unfold row_neighbors. intros H.
  destruct (Z.eqb_spec u 0) as [->|_].
  { left. split; [reflexivity|].
    repeat (apply elem_of_cons in H as [->|H]; [reflexivity|]).
    apply elem_of_nil in H. contradiction. }
  destruct (Z.eqb_spec u 1) as [->|_].
  { right. left. split; [reflexivity|].
    apply elem_of_cons in H as [->|H]; [left; reflexivity|].
    apply elem_of_cons in H as [->|H]; [right; reflexivity|].
    apply elem_of_nil in H. contradiction. }
  destruct (Z.eqb_spec u 2) as [->|_].
  { right. right. split; [reflexivity|].
    apply elem_of_cons in H as [->|H]; [reflexivity|].
    apply elem_of_nil in H. contradiction. }
  apply elem_of_nil in H. contradiction.
Qed.

Lemma row_symmetric : symmetric_graph row_neighbors.
Proof.
  intros u v d H. apply row_cases in H. simpl in H.
  destruct H as [[-> ->] | [[-> [-> | ->]] | [-> ->]]]; exists false; vm_compute;
    repeat first [apply list_elem_of_here | apply list_elem_of_further].
Qed.

Lemma row_irreflexive : forall u d, (u, d) ∉ row_neighbors u.
Proof.
  intros u d H. apply row_cases in H. simpl in H. lia.
Qed.

Example row_components :
  SCULPT_connected_components_ensure 4 row_index same row_neighbors all_visible 5 None
  = Some [1; 1; 1; 0].
Proof. vm_compute. reflexivity. Qed.

Lemma connected_components_same_id_along_paths_witness :
  graph_in_range row_index row_neighbors (Z.to_nat 4)
  /\ (forall a b : PBVHVertRef, row_index a = row_index b -> a = b)
  /\ (forall i, 0 <= i < 4 -> row_index (same i) = i)
  /\ symmetric_graph row_neighbors
  /\ exists cc,
       SCULPT_connected_components_ensure 4 row_index same row_neighbors all_visible
         (S (Z.to_nat 4)) None = Some cc
       /\ rd cc (row_index 0) = rd cc (row_index 2).
Proof.
  split; [exact row4_in_range|]. split; [intros a b H; exact H|].
  split; [intros i _; reflexivity|]. split; [exact row_symmetric|].
  destruct (connected_components_same_id_along_paths 4 row_index same row_neighbors
              all_visible row4_in_range (fun a b H => H) (fun i _ => eq_refl)
              row_symmetric) as [(cc & Hens & _ & H) _].
  exists cc. split; [exact Hens|]. apply H.
  - unfold row_index. lia.
  - reflexivity.
  - apply (FloodFillReach.reach_step _ _ _ 1 2 false).
    + apply (FloodFillReach.reach_step _ _ _ 0 1 false).
      * apply (FloodFillReach.reach_seed _ _ [Initial 0] (Initial 0)).
        apply list_elem_of_singleton. reflexivity.
      * apply list_elem_of_here.
      * reflexivity.
    + apply list_elem_of_further, list_elem_of_here.
    + reflexivity.
Defined.

Lemma connected_components_ids_separate_witness :
  graph_in_range row_index row_neighbors (Z.to_nat 4)
  /\ (forall a b : PBVHVertRef, row_index a = row_index b -> a = b)
  /\ (forall i, 0 <= i < 4 -> row_index (same i) = i)
  /\ symmetric_graph row_neighbors
  /\ (forall u d, (u, d) ∉ row_neighbors u)
  /\ exists cc,
       SCULPT_connected_components_ensure 4 row_index same row_neighbors all_visible
         (S (Z.to_nat 4)) None = Some cc
       /\ rd cc (row_index 3) = Some SCULPT_TOPOLOGY_ID_NONE
       /\ exists x, rd cc (row_index 0) = Some x /\ 1 <= x.
Proof.
  split; [exact row4_in_range|]. split; [intros a b H; exact H|].
  split; [intros i _; reflexivity|]. split; [exact row_symmetric|].
  split; [exact row_irreflexive|].
  destruct (connected_components_ids_separate 4 row_index same row_neighbors
              all_visible row4_in_range (fun a b H => H) (fun i _ => eq_refl)
              row_symmetric row_irreflexive) as (cc & Hens & Hid & _ & Hlone).
  exists cc. split; [exact Hens|]. split.
  - apply Hlone; [unfold row_index; lia|]. right. intros x d H.
    apply elem_of_nil in H. contradiction.
  - apply Hid; [unfold row_index; lia|]. split; [reflexivity|].
    exists 1, false. split; [apply list_elem_of_here | reflexivity].
Defined.

End ConnectedComponents.

(* ===================================================================== *)
(** ** The face sets around a vertex *)
(* ===================================================================== *)

Module VertexFaceSets.

Import FaceSets.

Local Open Scope Z_scope.

(** The flag words of the vertices ([MSculptVert.flag]), by vertex
    reference. *)
Definition flag_store : Type := PBVHVertRef -> Z.

(** [MV_ADD_FLAG(mv, flag)] on the vertex [vertex]. *)
Definition MV_ADD_FLAG (flags : flag_store) (vertex : PBVHVertRef) (flag : Z)
    : flag_store :=
  fun w => if w =? vertex then Z.lor (flags w) flag else flags w.

Section WithMesh.

(** Outside the sources at hand: the flag, the size of a grid
    ([key->grid_area]), the face of a grid, and for BMesh the loops around a
    vertex, each as its face [l->f] (by position in the mesh) and its vertex
    [l->v]. *)
Variable SCULPTVERT_NEED_BOUNDARY : Z.
Variable grid_area : Z.
Variable BKE_subdiv_ccg_grid_to_face_index : Z -> Z.
Variable BM_LOOPS_OF_VERT : PBVHVertRef -> list (nat * PBVHVertRef).

(** The polygons around a vertex of the base mesh; none for a vertex
    without entry. *)
Definition polys_of_vert (ss : SculptSession) (index : PBVHVertRef) : list Z :=
  match rd (pmap ss) index with
  | Some vert_map => map_entries vert_map
  | None => []
  end.

Definition grid_face_index (index : PBVHVertRef) : Z :=
  BKE_subdiv_ccg_grid_to_face_index (Z.quot index grid_area).

(** [BM_ELEM_CD_GET_INT(l->f, ss->cd_faceset_offset)] *)
Definition loop_face_set (ss : SculptSession) (l : nat * PBVHVertRef) : option Z :=
  match bm ss with
  | Some b =>
      match bm_faces b !! l.1 with
      | Some f => Some (BM_ELEM_CD_GET_INT f (cd_faceset_offset ss))
      | None => None
      end
  | None => None
  end.

(** [SCULPT_vertex_any_face_set_visible_get] (sculpt.c, 889). *)
Definition SCULPT_vertex_any_face_set_visible_get (ss : SculptSession)
    (index : PBVHVertRef) : bool :=
  match pbvh_type ss with
  | PBVH_FACES => existsb (fun p => face_set_at ss p >? 0) (polys_of_vert ss index)
  | PBVH_BMESH =>
      existsb (fun l => match loop_face_set ss l with
                        | Some fset => fset >=? 0
                        | None => false
                        end) (BM_LOOPS_OF_VERT index)
  | PBVH_GRIDS => true
  end.

(** [SCULPT_vertex_all_face_sets_visible_get] (sculpt.c, 921). *)
Definition SCULPT_vertex_all_face_sets_visible_get (ss : SculptSession)
    (index : PBVHVertRef) : bool :=
  match pbvh_type ss with
  | PBVH_FACES => forallb (fun p => negb (face_set_at ss p <? 0)) (polys_of_vert ss index)
  | PBVH_BMESH =>
      forallb (fun l => match loop_face_set ss l with
                        | Some fset => negb (fset <? 0)
                        | None => true
                        end) (BM_LOOPS_OF_VERT index)
  | PBVH_GRIDS => face_set_at ss (grid_face_index index) >? 0
  end.

(** The body of the loop of [SCULPT_vertex_face_set_set] over the polygons
    around the vertex. *)
Definition face_set_set_poly (ss : SculptSession) (face_set : Z)
    (acc : list Z * flag_store) (p : Z) : list Z * flag_store :=
  let flags :=
    match rd (mpoly ss) p with
    | Some mp =>
        fold_left (fun fl ml => MV_ADD_FLAG fl (v ml) SCULPTVERT_NEED_BOUNDARY)
                  (poly_loops ss mp) acc.2
    | None => acc.2
    end in
  let fs :=
    if default 0 (rd acc.1 p) >? 0 then wr acc.1 p (abs face_set) else acc.1 in
  (fs, flags).

(** The body of its loop over the BMesh loops around the vertex. *)
Definition face_set_set_loop (off face_set : Z) (acc : list BMFace * flag_store)
    (l : nat * PBVHVertRef) : list BMFace * flag_store :=
  match acc.1 !! l.1 with
  | Some f =>
      let fset := BM_ELEM_CD_GET_INT f off in
      let faces :=
        if (fset >=? 0) && negb (fset =? abs face_set)
        then <[l.1 := BM_ELEM_CD_SET_INT f off (abs face_set)]> acc.1
        else acc.1 in
      (faces, MV_ADD_FLAG acc.2 l.2 SCULPTVERT_NEED_BOUNDARY)
  | None => acc
  end.

(** [SCULPT_vertex_face_set_set] (sculpt.c, 957). *)
Definition SCULPT_vertex_face_set_set (ss : SculptSession) (flags : flag_store)
    (index : PBVHVertRef) (face_set : Z) : SculptSession * flag_store :=
  match pbvh_type ss with
  | PBVH_FACES =>
      let flags := MV_ADD_FLAG flags index SCULPTVERT_NEED_BOUNDARY in
      let res := fold_left (face_set_set_poly ss face_set) (polys_of_vert ss index)
                           (face_sets ss, flags) in
      (FaceSetOps.set_face_sets ss res.1, res.2)
  | PBVH_BMESH =>
      match bm ss with
      | Some b =>
          let flags := MV_ADD_FLAG flags index SCULPTVERT_NEED_BOUNDARY in
          let res := fold_left (face_set_set_loop (cd_faceset_offset ss) face_set)
                               (BM_LOOPS_OF_VERT index) (bm_faces b, flags) in
          (FaceSetOps.set_bm_faces ss b res.1 (update_triangulation ss), res.2)
      | None => (ss, flags)
      end
  | PBVH_GRIDS =>
      let face_index := grid_face_index index in
      if face_set_at ss face_index >? 0
      then (FaceSetOps.set_face_sets ss (wr (face_sets ss) face_index (abs face_set)),
            flags)
      else (ss, flags)
  end.

(** [SCULPT_vertex_face_set_get] (sculpt.c, 1055). *)
Definition SCULPT_vertex_face_set_get (ss : SculptSession) (index : PBVHVertRef) : Z :=
  match pbvh_type ss with
  | PBVH_FACES =>
      fold_left (fun face_set p =>
                   if face_set_at ss p >? face_set then abs (face_set_at ss p)
                   else face_set)
                (polys_of_vert ss index) 0
  | PBVH_BMESH =>
      fold_left (fun ret l =>
                   match loop_face_set ss l with
                   | Some fset => if abs fset >? ret then abs fset else ret
                   | None => ret
                   end)
                (BM_LOOPS_OF_VERT index) (-1)
  | PBVH_GRIDS => face_set_at ss (grid_face_index index)
  end.

(** *** What assigning a face set changes *)

Lemma rd_length_eq {A} (a b : list A) (q : Z) :
  length a = length b -> rd a q = None -> rd b q = None.
Proof.
  unfold rd. intros Hlen. destruct (q <? 0); [reflexivity|].
  rewrite !lookup_ge_None. lia.
Qed.

Lemma rd_Some_range {A} (a : list A) (q : Z) (x : A) :
  rd a q = Some x -> 0 <= q < Z.of_nat (length a).
Proof.
  unfold rd. destruct (q <? 0) eqn:E; [discriminate|]. apply Z.ltb_ge in E.
  intros H. apply lookup_lt_Some in H. lia.
Qed.

(** The polygons [l] done: a value changes only from positive to the
    absolute value of the face set, and does so at the polygons of [l]. *)
Lemma set_polys_values ss face_set (l : list Z) : forall acc,
  length (fold_left (face_set_set_poly ss face_set) l acc).1 = length acc.1
  /\ (forall q x, rd acc.1 q = Some x ->
        rd (fold_left (face_set_set_poly ss face_set) l acc).1 q = Some x
        \/ (0 < x /\ rd (fold_left (face_set_set_poly ss face_set) l acc).1 q
                      = Some (abs face_set)))
  /\ (forall p x, p ∈ l -> rd acc.1 p = Some x -> 0 < x ->
        rd (fold_left (face_set_set_poly ss face_set) l acc).1 p = Some (abs face_set)).
Proof.
  induction l as [|p0 l IH]; intros acc; cbn [fold_left].
  - split; [reflexivity|]. split; [intros q x H; left; exact H|].
    intros p x Hp. apply elem_of_nil in Hp. contradiction.
  - set (acc1 := face_set_set_poly ss face_set acc p0).
    destruct (IH acc1) as (Hlen & Hval & Hset).
    assert (Hlen1 : length acc1.1 = length acc.1).
    { unfold acc1, face_set_set_poly. simpl.
      destruct (default 0 (rd acc.1 p0) >? 0); [apply length_wr | reflexivity]. }
    assert (Hstep : forall q x, rd acc.1 q = Some x ->
              (rd acc1.1 q = Some x /\ (q = p0 -> x <= 0))
              \/ (0 < x /\ q = p0 /\ rd acc1.1 q = Some (abs face_set))).
    { intros q x Hq. unfold acc1, face_set_set_poly. simpl.
      destruct (Z.eq_dec q p0) as [->|Hne].
      - rewrite Hq. simpl. destruct (Z.gtb_spec x 0) as [Hpos|Hle].
        + right. split; [lia|]. split; [reflexivity|].
          apply rd_wr_eq. apply (rd_Some_range _ _ _ Hq).
        + left. split; [exact Hq | intros _; lia].
      - left. split; [|intros E; contradiction].
        destruct (default 0 (rd acc.1 p0) >? 0); [|exact Hq].
        rewrite rd_wr_ne by congruence. exact Hq. }
    split; [rewrite Hlen; exact Hlen1|]. split.
    + intros q x Hq. destruct (Hstep q x Hq) as [[H1 _] | (Hx & _ & H1)].
      * apply Hval. exact H1.
      * right. split; [exact Hx|].
        destruct (Hval q _ H1) as [H|[_ H]]; exact H.
    + intros p x Hp Hq Hx. destruct (Hstep p x Hq) as [[H1 Hle] | (_ & _ & H1)].
      * apply elem_of_cons in Hp as [->|Hp]; [specialize (Hle eq_refl); lia|].
        apply (Hset p x Hp H1 Hx).
      * destruct (Hval p _ H1) as [H|[_ H]]; exact H.
Qed.

(** The same for the loops around a BMesh vertex: a value changes only
    from non-negative to the absolute value of the face set. *)
Lemma set_loops_values off face_set (l : list (nat * PBVHVertRef)) : forall acc,
  length (fold_left (face_set_set_loop off face_set) l acc).1 = length acc.1
  /\ forall i f, acc.1 !! i = Some f ->
       exists f', (fold_left (face_set_set_loop off face_set) l acc).1 !! i = Some f'
                  /\ (BM_ELEM_CD_GET_INT f' off = BM_ELEM_CD_GET_INT f off
                      \/ (0 <= BM_ELEM_CD_GET_INT f off
                          /\ BM_ELEM_CD_GET_INT f' off = abs face_set)).
Proof.
  induction l as [|l0 l IH]; intros acc; cbn [fold_left].
  - split; [reflexivity|]. intros i f H. exists f. split; [exact H | left; reflexivity].
  - set (acc1 := face_set_set_loop off face_set acc l0).
    destruct (IH acc1) as (Hlen & Hval).
    assert (Hstep : length acc1.1 = length acc.1
                    /\ forall i f, acc.1 !! i = Some f ->
                         exists f1, acc1.1 !! i = Some f1
                           /\ (BM_ELEM_CD_GET_INT f1 off = BM_ELEM_CD_GET_INT f off
                               \/ (0 <= BM_ELEM_CD_GET_INT f off
                                   /\ BM_ELEM_CD_GET_INT f1 off = abs face_set))).
    { unfold acc1, face_set_set_loop.
      destruct (acc.1 !! l0.1) as [f0|] eqn:E0;
        [|split; [reflexivity | intros i f H; exists f; split; [exact H | left; reflexivity]]].
      simpl.
      destruct ((BM_ELEM_CD_GET_INT f0 off >=? 0)
                && negb (BM_ELEM_CD_GET_INT f0 off =? abs face_set)) eqn:Ec;
        [|split; [reflexivity | intros i f H; exists f; split; [exact H | left; reflexivity]]].
      split; [apply length_insert|]. intros i f H.
      destruct (Nat.eq_dec i l0.1) as [->|Hne].
      - rewrite E0 in H. injection H as ->.
        exists (BM_ELEM_CD_SET_INT f off (abs face_set)).
        split; [apply list_lookup_insert_eq; apply lookup_lt_Some in E0; exact E0|].
        right. apply andb_true_iff in Ec as [Ec _]. rewrite BM_ELEM_CD_GET_SET.
        split; [lia | reflexivity].
      - exists f. split; [rewrite list_lookup_insert_ne by congruence; exact H|].
        left. reflexivity. }
    destruct Hstep as [Hlen1 Hstep].
    split; [rewrite Hlen; exact Hlen1|].
    intros i f H. destruct (Hstep i f H) as (f1 & H1 & Hv1).
    destruct (Hval i f1 H1) as (f' & H' & Hv'). exists f'. split; [exact H'|].
    unfold abs in *. destruct Hv1 as [E1 | [Hp1 E1]]; destruct Hv' as [E' | [Hp' E']];
      [left; congruence | right; split; [lia | exact E']
       | right; split; [exact Hp1 | congruence] | right; split; [exact Hp1 | exact E']].
Qed.

(** Every loop of [l] whose face was shown carries the absolute value of
    the face set afterwards. *)
Lemma set_loops_assigned off face_set (l : list (nat * PBVHVertRef)) : forall acc lp f,
  lp ∈ l -> acc.1 !! lp.1 = Some f -> 0 <= BM_ELEM_CD_GET_INT f off ->
  exists f', (fold_left (face_set_set_loop off face_set) l acc).1 !! lp.1 = Some f'
             /\ BM_ELEM_CD_GET_INT f' off = abs face_set.
Proof.
  induction l as [|l0 l IH]; intros acc lp f Hin Hf Hpos; cbn [fold_left].
  - apply elem_of_nil in Hin. contradiction.
  - destruct (set_loops_values off face_set [l0] acc) as [_ Hone].
    cbn [fold_left] in Hone.
    destruct (Hone _ _ Hf) as (f1 & Hf1 & Hv1).
    assert (Hpos1 : 0 <= BM_ELEM_CD_GET_INT f1 off).
    { unfold abs in Hv1. destruct Hv1 as [E | [_ E]]; rewrite E; lia. }
    apply elem_of_cons in Hin as [->|Hin]; [|apply (IH _ lp f1 Hin Hf1 Hpos1)].
    assert (Hset : exists f2, (face_set_set_loop off face_set acc l0).1 !! l0.1 = Some f2
                              /\ BM_ELEM_CD_GET_INT f2 off = abs face_set).
    { unfold face_set_set_loop. rewrite Hf. simpl.
      destruct (Z.geb_spec (BM_ELEM_CD_GET_INT f off) 0) as [_|Hn]; [|lia]. simpl.
      destruct (Z.eqb_spec (BM_ELEM_CD_GET_INT f off) (abs face_set)) as [E|_]; simpl.
      - exists f. split; [exact Hf | exact E].
      - exists (BM_ELEM_CD_SET_INT f off (abs face_set)).
        split; [apply list_lookup_insert_eq; apply lookup_lt_Some in Hf; exact Hf|].
        apply BM_ELEM_CD_GET_SET. }
    destruct Hset as (f2 & Hf2 & Hv2).
    destruct (set_loops_values off face_set l (face_set_set_loop off face_set acc l0))
      as [_ Hrest].
    destruct (Hrest _ _ Hf2) as (f' & Hf' & Hv'). exists f'. split; [exact Hf'|].
    destruct Hv' as [E | [_ E]]; congruence.
Qed.

Lemma existsb_pointwise {A} (f g : A -> bool) (l : list A) :
  (forall x, f x = g x) -> existsb f l = existsb g l.
Proof. intros H. induction l as [|x l IH]; simpl; [reflexivity | rewrite H, IH; reflexivity]. Qed.

Lemma forallb_pointwise {A} (f g : A -> bool) (l : list A) :
  (forall x, f x = g x) -> forallb f l = forallb g l.
Proof. intros H. induction l as [|x l IH]; simpl; [reflexivity | rewrite H, IH; reflexivity]. Qed.

(** Two arrays of one length, the second with some positive values replaced
    by a positive [a]: the values have the same signs. *)
Lemma same_signs (fs fs' : list Z) (a : Z) :
  0 < a -> length fs' = length fs ->
  (forall q x, rd fs q = Some x -> rd fs' q = Some x \/ (0 < x /\ rd fs' q = Some a)) ->
  forall p, (default 0 (rd fs' p) >? 0) = (default 0 (rd fs p) >? 0)
            /\ (default 0 (rd fs' p) <? 0) = (default 0 (rd fs p) <? 0).
Proof.
  intros Ha Hlen Hval p. destruct (rd fs p) as [x|] eqn:E.
  - destruct (Hval p x E) as [H | [Hx H]]; rewrite H; simpl; [split; reflexivity|].
    split; [lia|]. destruct (Z.ltb_spec a 0), (Z.ltb_spec x 0); (reflexivity || lia).
  - rewrite (rd_length_eq fs fs' p (eq_sym Hlen) E).
    split; reflexivity.
Qed.

Lemma vertex_face_set_set_signs_faces ss flags index face_set :
  pbvh_type ss = PBVH_FACES -> face_set <> 0 ->
  forall p, (face_set_at (SCULPT_vertex_face_set_set ss flags index face_set).1 p >? 0)
            = (face_set_at ss p >? 0)
            /\ (face_set_at (SCULPT_vertex_face_set_set ss flags index face_set).1 p <? 0)
               = (face_set_at ss p <? 0).
Proof.
  intros Hty Hne. unfold SCULPT_vertex_face_set_set. rewrite Hty. cbn [fst].
  unfold face_set_at. cbn [face_sets FaceSetOps.set_face_sets].
  match goal with
  | |- context [fold_left ?f ?l ?a] => destruct (set_polys_values ss face_set l a) as (Hlen & Hval & _)
  end.
  apply (same_signs _ _ (abs face_set)); [unfold abs; lia | exact Hlen | exact Hval].
Qed.

Lemma vertex_face_set_set_signs_grids ss flags index face_set :
  pbvh_type ss = PBVH_GRIDS -> face_set <> 0 ->
  forall p, (face_set_at (SCULPT_vertex_face_set_set ss flags index face_set).1 p >? 0)
            = (face_set_at ss p >? 0).
Proof.
  intros Hty Hne p. unfold SCULPT_vertex_face_set_set. rewrite Hty.
  destruct (face_set_at ss (grid_face_index index) >? 0) eqn:E; [|reflexivity].
  cbn [fst]. unfold face_set_at in *. cbn [face_sets FaceSetOps.set_face_sets].
  destruct (Z.eq_dec p (grid_face_index index)) as [->|Hp].
  - rewrite E. destruct (rd (face_sets ss) (grid_face_index index)) as [x|] eqn:Ex;
      [|simpl in E; discriminate].
    rewrite rd_wr_eq by (apply (rd_Some_range _ _ _ Ex)). simpl. unfold abs. lia.
  - rewrite rd_wr_ne by congruence. reflexivity.
Qed.

Lemma vertex_face_set_set_signs_bmesh ss flags index face_set :
  pbvh_type ss = PBVH_BMESH ->
  forall l,
    match loop_face_set (SCULPT_vertex_face_set_set ss flags index face_set).1 l,
          loop_face_set ss l with
    | Some fset', Some fset => (fset' >=? 0) = (fset >=? 0) /\ (fset' <? 0) = (fset <? 0)
    | None, None => True
    | _, _ => False
    end.
Proof.
  intros Hty l. unfold SCULPT_vertex_face_set_set. rewrite Hty.
  unfold loop_face_set. destruct (bm ss) as [b|] eqn:Eb; cbn [fst]; [|rewrite Eb; exact I].
  cbn [bm FaceSetOps.set_bm_faces bm_faces cd_faceset_offset].
  match goal with
  | |- context [fold_left ?f ?ls ?a] =>
      destruct (set_loops_values (cd_faceset_offset ss) face_set ls a) as (Hlen & Hval)
  end.
  cbn [fst] in Hlen, Hval.
  destruct (bm_faces b !! l.1) as [f|] eqn:Ef.
  - destruct (Hval _ _ Ef) as (f' & -> & Hv). unfold abs in Hv.
    destruct Hv as [-> | [Hpos ->]]; [split; reflexivity|].
    split; [lia|].
    destruct (Z.ltb_spec (Z.abs face_set) 0), (Z.ltb_spec (BM_ELEM_CD_GET_INT f (cd_faceset_offset ss)) 0);
      (reflexivity || lia).
  - apply lookup_ge_None in Ef. rewrite <- Hlen in Ef. apply lookup_ge_None in Ef.
    rewrite Ef. exact I.
Qed.

Lemma vertex_face_set_set_pbvh_type ss flags index face_set :
  pbvh_type (SCULPT_vertex_face_set_set ss flags index face_set).1 = pbvh_type ss.
Proof.
  unfold SCULPT_vertex_face_set_set. destruct (pbvh_type ss) eqn:E; cbn [fst].
  - exact E.
  - destruct (face_set_at ss (grid_face_index index) >? 0); exact E.
  - destruct (bm ss); exact E.
Qed.

Lemma vertex_face_set_set_polys ss flags index face_set w :
  polys_of_vert (SCULPT_vertex_face_set_set ss flags index face_set).1 w
  = polys_of_vert ss w.
Proof.
  unfold SCULPT_vertex_face_set_set, polys_of_vert. destruct (pbvh_type ss); cbn [fst].
  - reflexivity.
  - destruct (face_set_at ss (grid_face_index index) >? 0); reflexivity.
  - destruct (bm ss); reflexivity.
Qed.

(** X21.  Assigning a face set other than 0 to a vertex
    ([SCULPT_vertex_face_set_set]) neither hides nor shows a face: for every
    vertex, on each of the three kinds of mesh, both
    [SCULPT_vertex_any_face_set_visible_get] and
    [SCULPT_vertex_all_face_sets_visible_get] answer afterwards what they
    answered before. *)
Theorem vertex_face_set_set_keeps_visibility ss flags index face_set w :
  face_set <> 0 -> INT_MIN < face_set <= INT_MAX ->
  SCULPT_vertex_any_face_set_visible_get
    (SCULPT_vertex_face_set_set ss flags index face_set).1 w
  = SCULPT_vertex_any_face_set_visible_get ss w
  /\ SCULPT_vertex_all_face_sets_visible_get
       (SCULPT_vertex_face_set_set ss flags index face_set).1 w
     = SCULPT_vertex_all_face_sets_visible_get ss w.
Proof.
  intros Hne _.
  unfold SCULPT_vertex_any_face_set_visible_get, SCULPT_vertex_all_face_sets_visible_get.
  rewrite vertex_face_set_set_pbvh_type, vertex_face_set_set_polys.
  destruct (pbvh_type ss) eqn:Hty.
  - split.
    + apply existsb_pointwise. intros p.
      apply (vertex_face_set_set_signs_faces ss flags index face_set Hty Hne p).
    + apply forallb_pointwise. intros p. f_equal.
      apply (vertex_face_set_set_signs_faces ss flags index face_set Hty Hne p).
  - split; [reflexivity|].
    apply (vertex_face_set_set_signs_grids ss flags index face_set Hty Hne).
  - split; [apply existsb_pointwise | apply forallb_pointwise]; intros l;
      pose proof (vertex_face_set_set_signs_bmesh ss flags index face_set Hty l) as H;
      destruct (loop_face_set (SCULPT_vertex_face_set_set ss flags index face_set).1 l),
               (loop_face_set ss l); try contradiction; try reflexivity.
    + apply H.
    + f_equal. apply H.
Qed.

(** *** Reading back an assigned face set *)

(** The loop of [SCULPT_vertex_face_set_get] over polygons whose values are
    [a] or not positive. *)
Lemma get_polys_fold (g : Z -> Z) (a : Z) (l : list Z) : forall a0,
  0 <= a -> (a0 = 0 \/ a0 = a) ->
  (forall p, p ∈ l -> g p <= 0 \/ g p = a) ->
  (a0 = a \/ exists p, p ∈ l /\ g p = a) ->
  fold_left (fun face_set p => if g p >? face_set then abs (g p) else face_set) l a0 = a.
Proof.
  induction l as [|p l IH]; intros a0 Ha Ha0 Hall Hex; cbn [fold_left].
  - destruct Hex as [E | (p & Hp & _)]; [exact E|]. apply elem_of_nil in Hp. contradiction.
  - assert (Hp : g p <= 0 \/ g p = a) by (apply Hall; left).
    apply IH; [exact Ha | | intros q Hq; apply Hall; right; exact Hq |].
    + unfold abs. destruct (Z.gtb_spec (g p) a0); lia.
    + destruct Hex as [E | (q & Hq & Eq)].
      * left. unfold abs. destruct (Z.gtb_spec (g p) a0); lia.
      * apply elem_of_cons in Hq as [->|Hq]; [|right; exists q; split; assumption].
        left. unfold abs. destruct (Z.gtb_spec (g p) a0); lia.
Qed.

(** Its loop over BMesh loops whose faces all carry [a]. *)
Lemma get_loops_fold (g : nat * PBVHVertRef -> option Z) (a : Z)
    (l : list (nat * PBVHVertRef)) : forall r0,
  0 <= a -> (r0 = -1 \/ r0 = a) ->
  (forall lp, lp ∈ l -> g lp = None \/ g lp = Some a) ->
  (r0 = a \/ exists lp, lp ∈ l /\ g lp = Some a) ->
  fold_left (fun ret lp => match g lp with
                           | Some fset => if abs fset >? ret then abs fset else ret
                           | None => ret
                           end) l r0 = a.
Proof.
  induction l as [|lp l IH]; intros r0 Ha Hr0 Hall Hex; cbn [fold_left].
  - destruct Hex as [E | (q & Hq & _)]; [exact E|]. apply elem_of_nil in Hq. contradiction.
  - assert (Hlp : g lp = None \/ g lp = Some a) by (apply Hall; left).
    apply IH; [exact Ha | | intros q Hq; apply Hall; right; exact Hq |].
    + destruct Hlp as [-> | ->]; [exact Hr0|].
      unfold abs. destruct (Z.gtb_spec (Z.abs a) r0); lia.
    + destruct Hex as [E | (q & Hq & Eq)].
      * left. destruct Hlp as [-> | ->]; [exact E|].
        unfold abs. destruct (Z.gtb_spec (Z.abs a) r0); lia.
      * apply elem_of_cons in Hq as [->|Hq]; [|right; exists q; split; assumption].
        left. rewrite Eq. unfold abs. destruct (Z.gtb_spec (Z.abs a) r0); lia.
Qed.

Lemma vertex_face_set_get_set_faces ss flags index face_set :
  pbvh_type ss = PBVH_FACES ->
  SCULPT_vertex_any_face_set_visible_get ss index = true ->
  SCULPT_vertex_face_set_get (SCULPT_vertex_face_set_set ss flags index face_set).1 index
  = abs face_set.
Proof.
  intros Hty Hany. unfold SCULPT_vertex_face_set_get.
  rewrite vertex_face_set_set_pbvh_type, vertex_face_set_set_polys, Hty.
  unfold SCULPT_vertex_any_face_set_visible_get in Hany. rewrite Hty in Hany.
  apply existsb_exists in Hany as (p0 & Hp0 & Hv0). apply list_elem_of_In in Hp0.
  assert (Hnew : forall p, p ∈ polys_of_vert ss index ->
            (face_set_at ss p <= 0
             /\ face_set_at (SCULPT_vertex_face_set_set ss flags index face_set).1 p <= 0)
            \/ (0 < face_set_at ss p
                /\ face_set_at (SCULPT_vertex_face_set_set ss flags index face_set).1 p
                   = abs face_set)).
  { intros p Hp. unfold SCULPT_vertex_face_set_set. rewrite Hty. cbn [fst].
    unfold face_set_at. cbn [face_sets FaceSetOps.set_face_sets].
    match goal with
    | |- context [fold_left ?f ?l ?a] =>
        destruct (set_polys_values ss face_set l a) as (Hlen & Hval & Hset)
    end.
    cbn [fst] in Hlen, Hval, Hset.
    destruct (rd (face_sets ss) p) as [x|] eqn:Ex.
    - destruct (Z.lt_ge_cases 0 x) as [Hpos|Hle].
      + right. rewrite (Hset p x Hp Ex Hpos). simpl. split; [exact Hpos | reflexivity].
      + left. destruct (Hval p x Ex) as [H | [H _]]; [|lia]. rewrite H. simpl. lia.
    - left. rewrite (rd_length_eq _ _ p (eq_sym Hlen) Ex). simpl. lia. }
  apply get_polys_fold.
  - unfold abs. lia.
  - left. reflexivity.
  - intros p Hp. destruct (Hnew p Hp) as [[_ H] | [_ H]]; [left | right]; exact H.
  - right. exists p0. split; [exact Hp0|].
    destruct (Hnew p0 Hp0) as [[H _] | [_ H]]; [lia | exact H].
Qed.

Lemma vertex_face_set_get_set_grids ss flags index face_set :
  pbvh_type ss = PBVH_GRIDS ->
  SCULPT_vertex_all_face_sets_visible_get ss index = true ->
  SCULPT_vertex_face_set_get (SCULPT_vertex_face_set_set ss flags index face_set).1 index
  = abs face_set.
Proof.
  intros Hty Hall. unfold SCULPT_vertex_face_set_get.
  rewrite vertex_face_set_set_pbvh_type, Hty.
  unfold SCULPT_vertex_all_face_sets_visible_get in Hall. rewrite Hty in Hall.
  unfold SCULPT_vertex_face_set_set. rewrite Hty, Hall. cbn [fst].
  unfold face_set_at in *. cbn [face_sets FaceSetOps.set_face_sets].
  destruct (rd (face_sets ss) (grid_face_index index)) as [x|] eqn:Ex;
    [|simpl in Hall; discriminate].
  rewrite rd_wr_eq by (apply (rd_Some_range _ _ _ Ex)). reflexivity.
Qed.

Lemma vertex_face_set_get_set_bmesh ss flags index face_set :
  pbvh_type ss = PBVH_BMESH ->
  SCULPT_vertex_any_face_set_visible_get ss index = true ->
  SCULPT_vertex_all_face_sets_visible_get ss index = true ->
  SCULPT_vertex_face_set_get (SCULPT_vertex_face_set_set ss flags index face_set).1 index
  = abs face_set.
Proof.
  intros Hty Hany Hall. unfold SCULPT_vertex_face_set_get.
  rewrite vertex_face_set_set_pbvh_type, Hty.
  unfold SCULPT_vertex_any_face_set_visible_get in Hany. rewrite Hty in Hany.
  unfold SCULPT_vertex_all_face_sets_visible_get in Hall. rewrite Hty in Hall.
  apply existsb_exists in Hany as (l0 & Hl0 & Hv0). apply list_elem_of_In in Hl0.
  rewrite forallb_forall in Hall.
  assert (Hnew : forall l, l ∈ BM_LOOPS_OF_VERT index ->
            match loop_face_set ss l with
            | Some _ => loop_face_set (SCULPT_vertex_face_set_set ss flags index face_set).1 l
                        = Some (abs face_set)
            | None => loop_face_set (SCULPT_vertex_face_set_set ss flags index face_set).1 l
                      = None
            end).
  { intros l Hl. specialize (Hall l (proj1 (list_elem_of_In _ _) Hl)).
    unfold SCULPT_vertex_face_set_set. rewrite Hty.
    unfold loop_face_set in *. destruct (bm ss) as [b|] eqn:Eb; cbn [fst]; [|rewrite Eb; reflexivity].
    cbn [bm FaceSetOps.set_bm_faces bm_faces cd_faceset_offset].
    destruct (bm_faces b !! l.1) as [f|] eqn:Ef.
    - destruct (set_loops_assigned (cd_faceset_offset ss) face_set (BM_LOOPS_OF_VERT index)
                  (bm_faces b, MV_ADD_FLAG flags index SCULPTVERT_NEED_BOUNDARY) l f Hl Ef)
        as (f' & -> & ->); [|reflexivity].
      destruct (Z.ltb_spec (BM_ELEM_CD_GET_INT f (cd_faceset_offset ss)) 0);
        [discriminate | lia].
    - match goal with
      | |- context [fold_left ?f ?ls ?a] =>
          destruct (set_loops_values (cd_faceset_offset ss) face_set ls a) as (Hlen & _)
      end.
      cbn [fst] in Hlen.
      apply lookup_ge_None in Ef. rewrite <- Hlen in Ef. apply lookup_ge_None in Ef.
      rewrite Ef. reflexivity. }
  apply get_loops_fold.
  - unfold abs. lia.
  - left. reflexivity.
  - intros l Hl. specialize (Hnew l Hl). destruct (loop_face_set ss l); [right | left]; exact Hnew.
  - right. exists l0. split; [exact Hl0|]. specialize (Hnew l0 Hl0).
    destruct (loop_face_set ss l0); [exact Hnew | discriminate].
Qed.

(** X22.  A face set assigned to a vertex is read back: when the vertex has
    a visible face and, except on a base mesh, no hidden one,
    [SCULPT_vertex_face_set_get] after [SCULPT_vertex_face_set_set] returns
    the absolute value of the face set assigned, on each of the three kinds
    of mesh. *)
Theorem vertex_face_set_get_after_set ss flags index face_set :
  INT_MIN < face_set <= INT_MAX ->
  SCULPT_vertex_any_face_set_visible_get ss index = true ->
  (pbvh_type ss <> PBVH_FACES ->
   SCULPT_vertex_all_face_sets_visible_get ss index = true) ->
  SCULPT_vertex_face_set_get (SCULPT_vertex_face_set_set ss flags index face_set).1 index
  = abs face_set.
Proof.
  intros _ Hany Hall. destruct (pbvh_type ss) eqn:Hty.
  - apply vertex_face_set_get_set_faces; assumption.
  - apply vertex_face_set_get_set_grids; [exact Hty | apply Hall; discriminate].
  - apply vertex_face_set_get_set_bmesh; [exact Hty | exact Hany | apply Hall; discriminate].
Qed.

(** *** The boundary flags *)

(** No bit of a flag word is cleared from [a] to [b]. *)
Definition keeps_flags (a b : flag_store) : Prop :=
  forall w n, Z.testbit (a w) n = true -> Z.testbit (b w) n = true.

Lemma keeps_flags_refl a : keeps_flags a a.
Proof. intros w n H. exact H. Qed.

Lemma keeps_flags_trans a b c : keeps_flags a b -> keeps_flags b c -> keeps_flags a c.
Proof. intros Hab Hbc w n H. apply Hbc, Hab, H. Qed.

Lemma MV_ADD_FLAG_keeps flags vertex flag : keeps_flags flags (MV_ADD_FLAG flags vertex flag).
Proof.
  intros w n H. unfold MV_ADD_FLAG. destruct (w =? vertex); [|exact H].
  rewrite Z.lor_spec, H. reflexivity.
Qed.

Lemma MV_ADD_FLAG_sets flags vertex flag :
  Z.land (MV_ADD_FLAG flags vertex flag vertex) flag = flag.
Proof.
  unfold MV_ADD_FLAG. rewrite Z.eqb_refl. apply Z.bits_inj'. intros n _.
  rewrite Z.land_spec, Z.lor_spec. destruct (Z.testbit flag n), (Z.testbit (flags vertex) n);
    reflexivity.
Qed.

Lemma keeps_flags_land a b w flag :
  keeps_flags a b -> Z.land (a w) flag = flag -> Z.land (b w) flag = flag.
Proof.
  intros Hk Ha. apply Z.bits_inj'. intros n _. rewrite Z.land_spec.
  destruct (Z.testbit flag n) eqn:Ef; [|apply andb_false_r].
  rewrite (Hk w n); [reflexivity|].
  rewrite <- Ha, Z.land_spec in Ef. apply andb_true_iff in Ef as [H _]. exact H.
Qed.

Lemma poly_flags_keep (loops : list MLoop) : forall fl,
  keeps_flags fl (fold_left (fun fl ml => MV_ADD_FLAG fl (v ml) SCULPTVERT_NEED_BOUNDARY)
                            loops fl).
Proof.
  induction loops as [|ml loops IH]; intros fl; cbn [fold_left].
  - apply keeps_flags_refl.
  - eapply keeps_flags_trans; [apply MV_ADD_FLAG_keeps | apply IH].
Qed.

Lemma set_polys_flags ss face_set (l : list Z) : forall acc,
  keeps_flags acc.2 (fold_left (face_set_set_poly ss face_set) l acc).2.
Proof.
  induction l as [|p l IH]; intros acc; cbn [fold_left].
  - apply keeps_flags_refl.
  - eapply keeps_flags_trans; [|apply IH].
    unfold face_set_set_poly. cbn [snd].
    destruct (rd (mpoly ss) p); [apply poly_flags_keep | apply keeps_flags_refl].
Qed.

Lemma set_loops_flags off face_set (l : list (nat * PBVHVertRef)) : forall acc,
  keeps_flags acc.2 (fold_left (face_set_set_loop off face_set) l acc).2.
Proof.
  induction l as [|lp l IH]; intros acc; cbn [fold_left].
  - apply keeps_flags_refl.
  - eapply keeps_flags_trans; [|apply IH].
    unfold face_set_set_loop.
    destruct (acc.1 !! lp.1); [apply MV_ADD_FLAG_keeps | apply keeps_flags_refl].
Qed.

(** X23.  [SCULPT_vertex_face_set_set] never clears a bit of a flag word.
    On a base mesh, and with BMesh, it leaves the vertex flagged
    [SCULPTVERT_NEED_BOUNDARY]; on multires grids it touches no flag. *)
Theorem vertex_face_set_set_flags ss flags index face_set :
  keeps_flags flags (SCULPT_vertex_face_set_set ss flags index face_set).2
  /\ (pbvh_type ss = PBVH_GRIDS ->
      (SCULPT_vertex_face_set_set ss flags index face_set).2 = flags)
  /\ (pbvh_type ss = PBVH_FACES \/ (pbvh_type ss = PBVH_BMESH /\ bm ss <> None) ->
      Z.land ((SCULPT_vertex_face_set_set ss flags index face_set).2 index)
             SCULPTVERT_NEED_BOUNDARY
      = SCULPTVERT_NEED_BOUNDARY).
Proof.
  unfold SCULPT_vertex_face_set_set. destruct (pbvh_type ss) eqn:Hty.
  - cbn [snd].
    pose proof (set_polys_flags ss face_set (polys_of_vert ss index)
                  (face_sets ss, MV_ADD_FLAG flags index SCULPTVERT_NEED_BOUNDARY)) as Hk.
    cbn [snd] in Hk. split; [|split; [discriminate|]].
    + eapply keeps_flags_trans; [apply MV_ADD_FLAG_keeps | exact Hk].
    + intros _. eapply keeps_flags_land; [exact Hk | apply MV_ADD_FLAG_sets].
  - destruct (face_set_at ss (grid_face_index index) >? 0); cbn [snd];
      (split; [apply keeps_flags_refl|]); (split; [reflexivity|]);
      intros [H | [H _]]; discriminate.
  - destruct (bm ss) as [b|]; cbn [snd].
    + pose proof (set_loops_flags (cd_faceset_offset ss) face_set (BM_LOOPS_OF_VERT index)
                    (bm_faces b, MV_ADD_FLAG flags index SCULPTVERT_NEED_BOUNDARY)) as Hk.
      cbn [snd] in Hk. split; [|split; [discriminate|]].
      * eapply keeps_flags_trans; [apply MV_ADD_FLAG_keeps | exact Hk].
      * intros _. eapply keeps_flags_land; [exact Hk | apply MV_ADD_FLAG_sets].
    + split; [apply keeps_flags_refl|]. split; [discriminate|].
      intros [H | [_ H]]; [discriminate | contradiction].
Qed.

End WithMesh.

(** *** On concrete meshes *)

(** Two triangles [0 1 2] and [1 0 3] of a base mesh, the first shown with
    face set 3, the second hidden with face set 2. *)
Definition fan_session : SculptSession :=
  {| pbvh_type := PBVH_FACES; totfaces := 2; face_sets := [3; -2];
     bm := None; cd_faceset_offset := -1; cd_face_node_offset := -1;
     update_triangulation := [];
     pmap := [ {| indices := [0; 1]; count := 2 |};
               {| indices := [0; 1]; count := 2 |};
               {| indices := [0]; count := 1 |};
               {| indices := [1]; count := 1 |} ];
     mpoly := [ {| loopstart := 0; totloop := 3 |};
                {| loopstart := 3; totloop := 3 |} ];
     mloop := [ {| v := 0; e := 0 |}; {| v := 1; e := 1 |}; {| v := 2; e := 2 |};
                {| v := 1; e := 0 |}; {| v := 0; e := 3 |}; {| v := 3; e := 4 |} ] |}.

Definition no_flags : flag_store := fun _ => 0.

Lemma vertex_face_set_set_keeps_visibility_witness :
  SCULPT_vertex_any_face_set_visible_get (fun _ => [])
    (SCULPT_vertex_face_set_set 4 1 (fun g => g) (fun _ => []) fan_session no_flags 0 5).1 1
  = true
  /\ SCULPT_vertex_all_face_sets_visible_get 1 (fun g => g) (fun _ => [])
       (SCULPT_vertex_face_set_set 4 1 (fun g => g) (fun _ => []) fan_session no_flags 0 5).1 1
     = false.
Proof.
  destruct (vertex_face_set_set_keeps_visibility 4 1 (fun g => g) (fun _ => [])
              fan_session no_flags 0 5 1) as [Hany Hall].
  - lia.
  - unfold INT_MIN, INT_MAX. lia.
  - rewrite Hany, Hall. split; reflexivity.
Defined.

Lemma vertex_face_set_set_flags_witness :
  Z.land ((SCULPT_vertex_face_set_set 4 1 (fun g => g) (fun _ => [])
             fan_session no_flags 0 5).2 0) 4 = 4.
Proof.
  destruct (vertex_face_set_set_flags 4 1 (fun g => g) (fun _ => [])
              fan_session no_flags 0 5) as (_ & _ & H).
  apply H. left. reflexivity.
Defined.

Lemma vertex_face_set_get_after_set_witness :
  SCULPT_vertex_face_set_get 1 (fun g => g) (fun _ => [])
    (SCULPT_vertex_face_set_set 4 1 (fun g => g) (fun _ => []) fan_session no_flags 0 5).1 0
  = 5.
Proof.
  rewrite (vertex_face_set_get_after_set 4 1 (fun g => g) (fun _ => [])
             fan_session no_flags 0 5).
  - reflexivity.
  - unfold INT_MIN, INT_MAX. lia.
  - reflexivity.
  - intros H. exfalso. apply H. reflexivity.
Defined.

End VertexFaceSets.

(* ===================================================================== *)
(** ** Neighbours of a vertex and the cached valence *)
(* ===================================================================== *)

Module VertexNeighbors.

Local Open Scope Z_scope.

Abbreviation MeshElemMap := FaceSets.MeshElemMap.
Abbreviation map_entries := FaceSets.map_entries.
Abbreviation FAKE_NEIGHBOR_NONE := FakeNeighbors.FAKE_NEIGHBOR_NONE.

Definition PBVHEdgeRef := Z.

Record MEdge := { v1 : Z; v2 : Z }.

(** [MSculptVert], the two members read here. *)
Record MSculptVert := { flag : Z; valence : Z }.

(** [struct _SculptNeighborRef] *)
Record SculptNeighborRef := { vertex : PBVHVertRef; edge : PBVHEdgeRef }.

(** [SculptVertexNeighborIter].  [neighbors] and [neighbor_indices] are the
    cells [0 .. size-1] of the two arrays, [capacity] is the number of cells
    allocated, [on_heap] tells that [iter->neighbors] is no longer
    [iter->neighbors_fixed]. *)
Record SculptVertexNeighborIter := {
  neighbors : list SculptNeighborRef;
  neighbor_indices : list Z;
  capacity : Z;
  on_heap : bool;
  num_duplicates : Z;
  is_duplicate : bool;
  has_edge : bool;
  no_free : bool
}.

(** [iter->size] *)
Definition size (iter : SculptVertexNeighborIter) : Z :=
  Z.of_nat (length (neighbors iter)).

Record SubdivCCGCoord := { grid_index : Z; x : Z; y : Z }.

(** [SubdivCCGNeighbors]: [coords[0 .. size-1]] and [num_duplicates]. *)
Record SubdivCCGNeighbors := {
  coords : list SubdivCCGCoord;
  ccg_num_duplicates : Z
}.

Record SculptSession := {
  pbvh_type : PBVHType;
  (** [ss->vemap], [None] for the null pointer; [ss->medge] *)
  vemap : option (list MeshElemMap);
  medge : list MEdge;
  (** the [MSculptVert] of a vertex ([ss->mdyntopo_verts + i], or
      [BKE_PBVH_SCULPTVERT] with BMesh), by vertex reference *)
  mdyntopo_verts : PBVHVertRef -> MSculptVert;
  (** [ss->fake_neighbors] *)
  use_fake_neighbors : bool;
  fake_neighbor_index : list PBVHVertRef
}.

Definition set_sculptvert (ss : SculptSession) (vertex : PBVHVertRef) (mv : MSculptVert)
    : SculptSession :=
  {| pbvh_type := pbvh_type ss; vemap := vemap ss; medge := medge ss;
     mdyntopo_verts := fun w => if w =? vertex then mv else mdyntopo_verts ss w;
     use_fake_neighbors := use_fake_neighbors ss;
     fake_neighbor_index := fake_neighbor_index ss |}.

Section WithMesh.

(** Outside the sources at hand: two constants and two flags of headers,
    the index of a vertex, the edges [BKE_pbvh_pmap_to_edges] finds around a
    vertex of the base mesh, the disk cycle of a BMesh vertex (each edge
    with its other vertex, from [v->e] on; empty when [v->e] is null), the
    grid key and the neighbours the subdivision library finds. *)
Variable SCULPT_VERTEX_NEIGHBOR_FIXED_CAPACITY : Z.
Variable SCULPTVERT_VERT_FSET_HIDDEN : Z.
Variable SCULPTVERT_NEED_VALENCE : Z.
Variable BKE_pbvh_vertex_to_index : PBVHVertRef -> Z.
Variable BM_elem_index_get : PBVHVertRef -> Z.
Variable BKE_pbvh_pmap_to_edges : PBVHVertRef -> list Z.
Variable disk_cycle : PBVHVertRef -> list (PBVHEdgeRef * PBVHVertRef).
Variable grid_area : Z.
Variable grid_size : Z.
Variable BKE_subdiv_ccg_neighbor_coords_get : SubdivCCGCoord -> bool -> SubdivCCGNeighbors.

(** The growth of the two arrays when they are full. *)
Definition grow (iter : SculptVertexNeighborIter) : SculptVertexNeighborIter :=
  if size iter >=? capacity iter then
    {| neighbors := neighbors iter; neighbor_indices := neighbor_indices iter;
       capacity := capacity iter + SCULPT_VERTEX_NEIGHBOR_FIXED_CAPACITY;
       on_heap := true;
       num_duplicates := num_duplicates iter; is_duplicate := is_duplicate iter;
       has_edge := has_edge iter; no_free := no_free iter |}
  else iter.

(** [sculpt_vertex_neighbor_add_nocheck] (sculpt.c, 1469). *)
Definition sculpt_vertex_neighbor_add_nocheck (iter : SculptVertexNeighborIter)
    (neighbor : PBVHVertRef) (edge : PBVHEdgeRef) (neighbor_index : Z)
    : SculptVertexNeighborIter :=
  let iter := grow iter in
  {| neighbors := neighbors iter ++ [ {| vertex := neighbor; edge := edge |} ];
     neighbor_indices := neighbor_indices iter ++ [neighbor_index];
     capacity := capacity iter; on_heap := on_heap iter;
     num_duplicates := num_duplicates iter; is_duplicate := is_duplicate iter;
     has_edge := has_edge iter; no_free := no_free iter |}.

(** [sculpt_vertex_neighbor_add] (sculpt.c, 1430): the same after a search
    for the vertex among the neighbours present. *)
Definition sculpt_vertex_neighbor_add (iter : SculptVertexNeighborIter)
    (neighbor : PBVHVertRef) (edge : PBVHEdgeRef) (neighbor_index : Z)
    : SculptVertexNeighborIter :=
  if existsb (fun n => vertex n =? neighbor) (neighbors iter) then iter
  else sculpt_vertex_neighbor_add_nocheck iter neighbor edge neighbor_index.

(** The start of the four functions below: the fields they assign; the
    others ([has_edge] in two of them) keep what the caller's structure
    holds. *)
Definition iter_init (iter : SculptVertexNeighborIter) (num_duplicates : Z)
    (is_duplicate has_edge : bool) : SculptVertexNeighborIter :=
  {| neighbors := []; neighbor_indices := [];
     capacity := SCULPT_VERTEX_NEIGHBOR_FIXED_CAPACITY; on_heap := false;
     num_duplicates := num_duplicates; is_duplicate := is_duplicate;
     has_edge := has_edge; no_free := false |}.

(** The end of the four functions: the fake neighbour of the vertex, when
    fake neighbours are in use and the vertex has one. *)
Definition add_fake_neighbor (ss : SculptSession) (index : Z)
    (iter : SculptVertexNeighborIter) : SculptVertexNeighborIter :=
  if use_fake_neighbors ss then
    match rd (fake_neighbor_index ss) index with
    | Some fake =>
        if negb (fake =? FAKE_NEIGHBOR_NONE)
        then sculpt_vertex_neighbor_add iter fake PBVH_REF_NONE fake
        else iter
    | None => iter
    end
  else iter.

(** [e->v1 == vertex.i ? e->v2 : e->v1] *)
Definition other_vert (me : MEdge) (vertex : PBVHVertRef) : Z :=
  if v1 me =? vertex then v2 me else v1 me.

(** Body of the loop of [sculpt_vertex_neighbors_get_bmesh] over the disk
    cycle. *)
Definition bmesh_step (ss : SculptSession) (iter : SculptVertexNeighborIter)
    (ev : PBVHEdgeRef * PBVHVertRef) : SculptVertexNeighborIter :=
  if Z.land (flag (mdyntopo_verts ss ev.2)) SCULPTVERT_VERT_FSET_HIDDEN =? 0
  then sculpt_vertex_neighbor_add_nocheck iter ev.2 ev.1 (BM_elem_index_get ev.2)
  else iter.

(** [sculpt_vertex_neighbors_get_bmesh] (sculpt.c, 1504). *)
Definition sculpt_vertex_neighbors_get_bmesh (ss : SculptSession) (index : PBVHVertRef)
    (iter : SculptVertexNeighborIter) : SculptVertexNeighborIter :=
  let iter := iter_init iter 0 false true in
  match disk_cycle index with
  | [] => iter
  | cycle =>
      add_fake_neighbor ss (BM_elem_index_get index) (fold_left (bmesh_step ss) cycle iter)
  end.

(** Body of the loop of [sculpt_vertex_neighbors_get_faces] over the edges. *)
Definition faces_step (ss : SculptSession) (vertex : PBVHVertRef)
    (iter : SculptVertexNeighborIter) (e : Z) : SculptVertexNeighborIter :=
  match rd (medge ss) e with
  | Some me =>
      let v2 := other_vert me vertex in
      sculpt_vertex_neighbor_add iter v2 e v2
  | None => iter
  end.

(** [sculpt_vertex_neighbors_get_faces] (sculpt.c, 1558). *)
Definition sculpt_vertex_neighbors_get_faces (ss : SculptSession) (vertex : PBVHVertRef)
    (iter : SculptVertexNeighborIter) : SculptVertexNeighborIter :=
  let index := BKE_pbvh_vertex_to_index vertex in
  let iter := iter_init iter 0 false true in
  add_fake_neighbor ss index
    (fold_left (faces_step ss vertex) (BKE_pbvh_pmap_to_edges vertex) iter).

(** Body of the loop of [sculpt_vertex_neighbors_get_faces_vemap]. *)
Definition vemap_step (ss : SculptSession) (vertex : PBVHVertRef)
    (iter : SculptVertexNeighborIter) (e : Z) : SculptVertexNeighborIter :=
  match rd (medge ss) e with
  | Some me =>
      let v := other_vert me vertex in
      if negb (Z.land (flag (mdyntopo_verts ss v)) SCULPTVERT_VERT_FSET_HIDDEN =? 0)
      then iter
      else sculpt_vertex_neighbor_add iter v e v
  | None => iter
  end.

(** The edges around a vertex in [ss->vemap]. *)
Definition vemap_edges (ss : SculptSession) (index : Z) : list Z :=
  match vemap ss with
  | Some maps =>
      match rd maps index with
      | Some vert_map => map_entries vert_map
      | None => []
      end
  | None => []
  end.

(** [sculpt_vertex_neighbors_get_faces_vemap] (sculpt.c, 1640). *)
Definition sculpt_vertex_neighbors_get_faces_vemap (ss : SculptSession)
    (vertex : PBVHVertRef) (iter : SculptVertexNeighborIter) : SculptVertexNeighborIter :=
  let index := BKE_pbvh_vertex_to_index vertex in
  let iter := iter_init iter 0 false (has_edge iter) in
  add_fake_neighbor ss index
    (fold_left (vemap_step ss vertex) (vemap_edges ss index) iter).

(** The vertex of a grid coordinate. *)
Definition grid_vertex (c : SubdivCCGCoord) : Z :=
  grid_index c * grid_area + y c * grid_size + x c.

Definition grids_step (iter : SculptVertexNeighborIter) (c : SubdivCCGCoord)
    : SculptVertexNeighborIter :=
  sculpt_vertex_neighbor_add iter (grid_vertex c) PBVH_REF_NONE (grid_vertex c).

(** [sculpt_vertex_neighbors_get_grids] (sculpt.c, 1681). *)
Definition sculpt_vertex_neighbors_get_grids (ss : SculptSession) (vertex : PBVHVertRef)
    (include_duplicates : bool) (iter : SculptVertexNeighborIter)
    : SculptVertexNeighborIter :=
  let index := vertex in
  let grid_index := Z.quot index grid_area in
  let vertex_index := index - grid_index * grid_area in
  let coord := {| grid_index := grid_index;
                  x := Z.rem vertex_index grid_size;
                  y := Z.quot vertex_index grid_size |} in
  let neighbors := BKE_subdiv_ccg_neighbor_coords_get coord include_duplicates in
  let iter := iter_init iter (ccg_num_duplicates neighbors) include_duplicates
                        (has_edge iter) in
  add_fake_neighbor ss index (fold_left grids_step (coords neighbors) iter).

(** [SCULPT_vertex_neighbors_get] (sculpt.c, 1883); the neighbour cache is
    compiled out. *)
Definition SCULPT_vertex_neighbors_get (ss : SculptSession) (vertex : PBVHVertRef)
    (include_duplicates : bool) (iter : SculptVertexNeighborIter)
    : SculptVertexNeighborIter :=
  match pbvh_type ss with
  | PBVH_FACES =>
      match vemap ss with
      | Some _ => sculpt_vertex_neighbors_get_faces_vemap ss vertex iter
      | None => sculpt_vertex_neighbors_get_faces ss vertex iter
      end
  | PBVH_BMESH => sculpt_vertex_neighbors_get_bmesh ss vertex iter
  | PBVH_GRIDS => sculpt_vertex_neighbors_get_grids ss vertex include_duplicates iter
  end.

(** Modelled from the spec: the macro [SCULPT_VERTEX_NEIGHBORS_ITER_BEGIN]
    belongs to a header outside the sources at hand; the valence is the
    neighbour count, so the loop runs its body once for each of the [size]
    entries that [SCULPT_vertex_neighbors_get] delivers without
    duplicates.  [tot] counts them. *)
Definition neighbors_iter_count (ss : SculptSession) (vertex : PBVHVertRef)
    (ni : SculptVertexNeighborIter) : Z :=
  size (SCULPT_vertex_neighbors_get ss vertex false ni).

(** [SCULPT_vertex_valence_get] (sculpt.c, 9499): the value returned and the
    session afterwards. *)
Definition SCULPT_vertex_valence_get (ss : SculptSession) (vertex : PBVHVertRef)
    (ni : SculptVertexNeighborIter) : Z * SculptSession :=
  let mv := mdyntopo_verts ss vertex in
  if negb (Z.land (flag mv) SCULPTVERT_NEED_VALENCE =? 0) then
    let tot := neighbors_iter_count ss vertex ni in
    let mv := {| flag := Z.land (flag mv) (Z.lnot SCULPTVERT_NEED_VALENCE);
                 valence := tot |} in
    (valence mv, set_sculptvert ss vertex mv)
  else (valence mv, ss).

(** *** The arrays never overflow *)

(** The two arrays have one length, the entries fit the cells allocated,
    and an iterator still in its fixed arrays has their capacity. *)
Definition fits (iter : SculptVertexNeighborIter) : Prop :=
  length (neighbors iter) = length (neighbor_indices iter)
  /\ size iter <= capacity iter
  /\ (on_heap iter = false -> capacity iter = SCULPT_VERTEX_NEIGHBOR_FIXED_CAPACITY).

Hypothesis capacity_pos : 0 < SCULPT_VERTEX_NEIGHBOR_FIXED_CAPACITY.

(** After the growth the cell written, [size], lies within the capacity. *)
Lemma grow_room iter :
  fits iter ->
  size (grow iter) < capacity (grow iter)
  /\ neighbors (grow iter) = neighbors iter
  /\ neighbor_indices (grow iter) = neighbor_indices iter
  /\ (on_heap (grow iter) = false ->
      capacity (grow iter) = SCULPT_VERTEX_NEIGHBOR_FIXED_CAPACITY).
Proof.
  intros (Hlen & Hsize & Hfixed). unfold grow.
  destruct (Z.geb_spec (size iter) (capacity iter)) as [Hfull|Hroom].
  - unfold size in *. simpl. repeat split; try reflexivity; [lia | discriminate].
  - repeat split; try reflexivity; [lia | exact Hfixed].
Qed.

Lemma neighbor_add_nocheck_fits iter neighbor edge neighbor_index :
  fits iter -> fits (sculpt_vertex_neighbor_add_nocheck iter neighbor edge neighbor_index).
Proof.
  intros Hfits. destruct (grow_room iter Hfits) as (Hroom & Hn & Hi & Hfixed).
  pose proof Hfits as (Hlen & _ & _).
  unfold sculpt_vertex_neighbor_add_nocheck, fits, size in *. simpl.
  rewrite !length_app, Hn, Hi, Hlen. simpl. rewrite Hn in Hroom.
  split; [reflexivity|]. split; [lia | exact Hfixed].
Qed.

Lemma neighbor_add_fits iter neighbor edge neighbor_index :
  fits iter -> fits (sculpt_vertex_neighbor_add iter neighbor edge neighbor_index).
Proof.
  intros Hfits. unfold sculpt_vertex_neighbor_add.
  destruct (existsb _ _); [exact Hfits | apply neighbor_add_nocheck_fits, Hfits].
Qed.

Lemma iter_init_fits iter nd dup he : fits (iter_init iter nd dup he).
Proof. unfold fits, iter_init, size. simpl. split; [reflexivity|]. split; [lia | reflexivity]. Qed.

Lemma add_fake_neighbor_fits ss index iter : fits iter -> fits (add_fake_neighbor ss index iter).
Proof.
  intros Hfits. unfold add_fake_neighbor.
  destruct (use_fake_neighbors ss); [|exact Hfits].
  destruct (rd (fake_neighbor_index ss) index) as [fake|]; [|exact Hfits].
  destruct (negb (fake =? FAKE_NEIGHBOR_NONE)); [apply neighbor_add_fits, Hfits | exact Hfits].
Qed.

Lemma fold_keeps {C} (P : SculptVertexNeighborIter -> Prop)
    (step : SculptVertexNeighborIter -> C -> SculptVertexNeighborIter) (cs : list C) :
  (forall iter c, P iter -> P (step iter c)) ->
  forall iter, P iter -> P (fold_left step cs iter).
Proof.
  intros Hstep. induction cs as [|c cs IH]; intros iter HP; cbn [fold_left].
  - exact HP.
  - apply IH, Hstep, HP.
Qed.

Lemma neighbors_get_fits ss vertex include_duplicates iter :
  fits (SCULPT_vertex_neighbors_get ss vertex include_duplicates iter).
Proof.
  unfold SCULPT_vertex_neighbors_get. destruct (pbvh_type ss).
  - destruct (vemap ss) as [maps|].
    + unfold sculpt_vertex_neighbors_get_faces_vemap.
      apply add_fake_neighbor_fits, fold_keeps; [|apply iter_init_fits].
      intros it e Hfits. unfold vemap_step.
      destruct (rd (medge ss) e) as [me|]; [|exact Hfits].
      destruct (negb _); [exact Hfits | apply neighbor_add_fits, Hfits].
    + unfold sculpt_vertex_neighbors_get_faces.
      apply add_fake_neighbor_fits, fold_keeps; [|apply iter_init_fits].
      intros it e Hfits. unfold faces_step.
      destruct (rd (medge ss) e) as [me|]; [apply neighbor_add_fits, Hfits | exact Hfits].
  - unfold sculpt_vertex_neighbors_get_grids.
    apply add_fake_neighbor_fits, fold_keeps; [|apply iter_init_fits].
    intros it c Hfits. apply neighbor_add_fits, Hfits.
  - unfold sculpt_vertex_neighbors_get_bmesh.
    destruct (disk_cycle vertex) as [|ev cycle] eqn:E; [apply iter_init_fits|].
    apply add_fake_neighbor_fits, fold_keeps; [|apply iter_init_fits].
    intros it c Hfits. unfold bmesh_step.
    destruct (_ =? 0); [apply neighbor_add_nocheck_fits, Hfits | exact Hfits].
Qed.

(** X24.  The neighbour arrays never overflow: with a positive fixed
    capacity, every entry that [sculpt_vertex_neighbor_add] or
    [sculpt_vertex_neighbor_add_nocheck] writes goes to a cell below the
    capacity, the arrays having grown before when they were full, and the
    iterator [SCULPT_vertex_neighbors_get] delivers holds no more entries
    than cells, on each of the three kinds of mesh. *)
Theorem neighbor_arrays_never_overflow :
  (forall iter neighbor edge neighbor_index,
     fits iter ->
     size (grow iter) < capacity (grow iter)
     /\ fits (sculpt_vertex_neighbor_add_nocheck iter neighbor edge neighbor_index)
     /\ fits (sculpt_vertex_neighbor_add iter neighbor edge neighbor_index))
  /\ (forall ss vertex include_duplicates iter,
        fits (SCULPT_vertex_neighbors_get ss vertex include_duplicates iter)).
Proof.
  split.
  - intros iter neighbor edge neighbor_index Hfits.
    split; [apply (grow_room iter Hfits)|].
    split; [apply neighbor_add_nocheck_fits | apply neighbor_add_fits]; exact Hfits.
  - apply neighbors_get_fits.
Qed.

(** *** Which vertices are delivered *)

Definition vertices (iter : SculptVertexNeighborIter) : list PBVHVertRef :=
  map vertex (neighbors iter).

Definition hidden (ss : SculptSession) (w : PBVHVertRef) : bool :=
  negb (Z.land (flag (mdyntopo_verts ss w)) SCULPTVERT_VERT_FSET_HIDDEN =? 0).

Lemma present_iff iter neighbor :
  existsb (fun n => vertex n =? neighbor) (neighbors iter) = true
  <-> neighbor ∈ vertices iter.
Proof.
  unfold vertices. rewrite existsb_exists, list_elem_of_fmap. split.
  - intros (n & Hn & E). apply Z.eqb_eq in E. exists n.
    split; [symmetry; exact E | apply list_elem_of_In, Hn].
  - intros (n & E & Hn). exists n.
    split; [apply list_elem_of_In, Hn | apply Z.eqb_eq; symmetry; exact E].
Qed.

Lemma grow_neighbors iter : neighbors (grow iter) = neighbors iter.
Proof. unfold grow. destruct (size iter >=? capacity iter); reflexivity. Qed.

Lemma neighbor_add_nocheck_vertices iter neighbor edge neighbor_index :
  vertices (sculpt_vertex_neighbor_add_nocheck iter neighbor edge neighbor_index)
  = vertices iter ++ [neighbor].
Proof.
  unfold vertices, sculpt_vertex_neighbor_add_nocheck. simpl.
  rewrite grow_neighbors, map_app. reflexivity.
Qed.

Lemma neighbor_add_vertices iter neighbor edge neighbor_index :
  vertices (sculpt_vertex_neighbor_add iter neighbor edge neighbor_index)
  = if existsb (fun n => vertex n =? neighbor) (neighbors iter)
    then vertices iter else vertices iter ++ [neighbor].
Proof.
  unfold sculpt_vertex_neighbor_add.
  destruct (existsb _ _); [reflexivity | apply neighbor_add_nocheck_vertices].
Qed.

Lemma neighbor_add_elem iter neighbor edge neighbor_index w :
  w ∈ vertices (sculpt_vertex_neighbor_add iter neighbor edge neighbor_index)
  <-> w ∈ vertices iter \/ w = neighbor.
Proof.
  rewrite neighbor_add_vertices.
  destruct (existsb _ _) eqn:E.
  - apply present_iff in E. split; [intros H; left; exact H|].
    intros [H | ->]; [exact H | exact E].
  - rewrite elem_of_app, list_elem_of_singleton. reflexivity.
Qed.

Lemma neighbor_add_NoDup iter neighbor edge neighbor_index :
  NoDup (vertices iter) ->
  NoDup (vertices (sculpt_vertex_neighbor_add iter neighbor edge neighbor_index)).
Proof.
  intros Hnd. rewrite neighbor_add_vertices.
  destruct (existsb _ _) eqn:E; [exact Hnd|].
  apply NoDup_app. split; [exact Hnd|]. split; [|apply NoDup_singleton].
  intros w Hw Hn. apply list_elem_of_singleton in Hn. subst w.
  apply present_iff in Hw. congruence.
Qed.

(** A loop whose body adds the candidate of its element, if it has one:
    the vertices delivered are those present before and the candidates. *)
Lemma fold_add_elem {C} (step : SculptVertexNeighborIter -> C -> SculptVertexNeighborIter)
    (cand : C -> option PBVHVertRef) (cs : list C) :
  (forall iter c,
     match cand c with
     | Some n => exists e i, step iter c = sculpt_vertex_neighbor_add iter n e i
     | None => step iter c = iter
     end) ->
  forall iter w,
    w ∈ vertices (fold_left step cs iter)
    <-> w ∈ vertices iter \/ exists c, c ∈ cs /\ cand c = Some w.
Proof.
  intros Hstep. induction cs as [|c cs IH]; intros iter w; cbn [fold_left].
  - split; [intros H; left; exact H|].
    intros [H | (c & Hc & _)]; [exact H|]. apply elem_of_nil in Hc. contradiction.
  - rewrite IH. specialize (Hstep iter c). split.
    + intros [H | (c' & Hc' & E)].
      * destruct (cand c) as [n|] eqn:En.
        -- destruct Hstep as (e & i & Hs). rewrite Hs in H.
           apply neighbor_add_elem in H as [H | ->].
           ++ left. exact H.
           ++ right. exists c. split; [left | exact En].
        -- rewrite Hstep in H. left. exact H.
      * right. exists c'. split; [right; exact Hc' | exact E].
    + intros [H | (c' & Hc' & E)].
      * left. destruct (cand c) as [n|].
        -- destruct Hstep as (e & i & ->). apply neighbor_add_elem. left. exact H.
        -- rewrite Hstep. exact H.
      * apply elem_of_cons in Hc' as [-> | Hc'].
        -- left. rewrite E in Hstep. destruct Hstep as (e & i & ->).
           apply neighbor_add_elem. right. reflexivity.
        -- right. exists c'. split; [exact Hc' | exact E].
Qed.

(** The fake neighbour of the table slot [index], if one is to be added. *)
Definition fake_of (ss : SculptSession) (index : Z) : option PBVHVertRef :=
  if use_fake_neighbors ss then
    match rd (fake_neighbor_index ss) index with
    | Some fake => if negb (fake =? FAKE_NEIGHBOR_NONE) then Some fake else None
    | None => None
    end
  else None.

Lemma add_fake_neighbor_as_add ss index iter :
  add_fake_neighbor ss index iter
  = match fake_of ss index with
    | Some fake => sculpt_vertex_neighbor_add iter fake PBVH_REF_NONE fake
    | None => iter
    end.
Proof.
  unfold add_fake_neighbor, fake_of. destruct (use_fake_neighbors ss); [|reflexivity].
  destruct (rd (fake_neighbor_index ss) index) as [fake|]; [|reflexivity].
  destruct (negb (fake =? FAKE_NEIGHBOR_NONE)); reflexivity.
Qed.

Lemma fake_of_iff ss index w :
  fake_of ss index = Some w
  <-> use_fake_neighbors ss = true /\ rd (fake_neighbor_index ss) index = Some w
      /\ w <> FAKE_NEIGHBOR_NONE.
Proof.
  unfold fake_of. destruct (use_fake_neighbors ss); [|split; [discriminate | intros [H _]; discriminate]].
  destruct (rd (fake_neighbor_index ss) index) as [fake|];
    [|split; [discriminate | intros (_ & H & _); discriminate]].
  destruct (Z.eqb_spec fake FAKE_NEIGHBOR_NONE) as [E|E]; simpl.
  - split; [discriminate|]. intros (_ & H & Hne). congruence.
  - split.
    + intros H. injection H as <-. repeat split. exact E.
    + intros (_ & H & _). exact H.
Qed.

Lemma add_fake_neighbor_elem ss index iter w :
  w ∈ vertices (add_fake_neighbor ss index iter)
  <-> w ∈ vertices iter \/ fake_of ss index = Some w.
Proof.
  rewrite add_fake_neighbor_as_add. destruct (fake_of ss index) as [fake|].
  - rewrite neighbor_add_elem. split; (intros [H | H]; [left; exact H | right; congruence]).
  - split; [intros H; left; exact H | intros [H | H]; [exact H | discriminate]].
Qed.

Lemma add_fake_neighbor_NoDup ss index iter :
  NoDup (vertices iter) -> NoDup (vertices (add_fake_neighbor ss index iter)).
Proof.
  intros Hnd. rewrite add_fake_neighbor_as_add.
  destruct (fake_of ss index); [apply neighbor_add_NoDup, Hnd | exact Hnd].
Qed.

Lemma iter_init_vertices iter nd dup he : vertices (iter_init iter nd dup he) = [].
Proof. reflexivity. Qed.

Lemma neighbors_get_NoDup ss vertex include_duplicates iter :
  pbvh_type ss <> PBVH_BMESH ->
  NoDup (vertices (SCULPT_vertex_neighbors_get ss vertex include_duplicates iter)).
Proof.
  intros Hty. unfold SCULPT_vertex_neighbors_get. destruct (pbvh_type ss); [| |contradiction].
  - destruct (vemap ss) as [maps|].
    + unfold sculpt_vertex_neighbors_get_faces_vemap.
      apply add_fake_neighbor_NoDup.
      apply (fold_keeps (fun it => NoDup (vertices it))); [|apply NoDup_nil_2].
      intros it e Hnd. unfold vemap_step.
      destruct (rd (medge ss) e) as [me|]; [|exact Hnd].
      destruct (negb _); [exact Hnd | apply neighbor_add_NoDup, Hnd].
    + unfold sculpt_vertex_neighbors_get_faces.
      apply add_fake_neighbor_NoDup.
      apply (fold_keeps (fun it => NoDup (vertices it))); [|apply NoDup_nil_2].
      intros it e Hnd. unfold faces_step.
      destruct (rd (medge ss) e) as [me|]; [apply neighbor_add_NoDup, Hnd | exact Hnd].
  - unfold sculpt_vertex_neighbors_get_grids.
    apply add_fake_neighbor_NoDup.
    apply (fold_keeps (fun it => NoDup (vertices it))); [|apply NoDup_nil_2].
    intros it c Hnd. apply neighbor_add_NoDup, Hnd.
Qed.

(** X25.  On a base mesh and on multires grids the neighbours
    [SCULPT_vertex_neighbors_get] delivers are pairwise distinct vertices,
    the fake neighbour included. *)
Theorem neighbors_get_no_duplicates ss vertex include_duplicates iter :
  pbvh_type ss <> PBVH_BMESH ->
  NoDup (vertices (SCULPT_vertex_neighbors_get ss vertex include_duplicates iter)).
Proof. apply neighbors_get_NoDup. Qed.

(** The edges gone through on a base mesh: those of [ss->vemap] when it
    exists, else those [BKE_pbvh_pmap_to_edges] finds. *)
Definition faces_edges (ss : SculptSession) (vertex : PBVHVertRef) : list Z :=
  match vemap ss with
  | Some _ => vemap_edges ss (BKE_pbvh_vertex_to_index vertex)
  | None => BKE_pbvh_pmap_to_edges vertex
  end.

(** X26.  The neighbours of a vertex of a base mesh are exactly the other
    ends of its edges and its fake neighbour, if fake neighbours are in use
    and it has one; going by [ss->vemap] leaves out the ends flagged
    [SCULPTVERT_VERT_FSET_HIDDEN], going by [BKE_pbvh_pmap_to_edges] does
    not. *)
Theorem neighbors_get_faces_exact ss vertex include_duplicates iter w :
  pbvh_type ss = PBVH_FACES ->
  w ∈ vertices (SCULPT_vertex_neighbors_get ss vertex include_duplicates iter)
  <-> (exists e me, e ∈ faces_edges ss vertex /\ rd (medge ss) e = Some me
                    /\ other_vert me vertex = w
                    /\ (vemap ss <> None -> hidden ss w = false))
      \/ (use_fake_neighbors ss = true
          /\ rd (fake_neighbor_index ss) (BKE_pbvh_vertex_to_index vertex) = Some w
          /\ w <> FAKE_NEIGHBOR_NONE).
Proof.
  intros Hty. unfold SCULPT_vertex_neighbors_get, faces_edges. rewrite Hty.
  rewrite <- fake_of_iff.
  destruct (vemap ss) as [maps|] eqn:Emaps.
  - unfold sculpt_vertex_neighbors_get_faces_vemap.
    rewrite add_fake_neighbor_elem.
    rewrite (fold_add_elem (vemap_step ss vertex)
               (fun e => match rd (medge ss) e with
                         | Some me => if hidden ss (other_vert me vertex) then None
                                      else Some (other_vert me vertex)
                         | None => None
                         end)).
    + rewrite iter_init_vertices. split.
      * intros [[H | (e & He & Hc)] | H]; [apply elem_of_nil in H; contradiction | | right; exact H].
        left. destruct (rd (medge ss) e) as [me|] eqn:Eme; [|discriminate].
        destruct (hidden ss (other_vert me vertex)) eqn:Eh; [discriminate|].
        injection Hc as <-. exists e, me. repeat split; try assumption.
        intros _. exact Eh.
      * intros [(e & me & He & Eme & Ew & Hh) | H]; [|right; exact H].
        left. right. exists e. split; [exact He|]. rewrite Eme, Ew, Hh; [reflexivity|discriminate].
    + intros it e. unfold vemap_step, hidden.
      destruct (rd (medge ss) e) as [me|]; [|reflexivity].
      destruct (negb _); [reflexivity|]. eexists _, _. reflexivity.
  - unfold sculpt_vertex_neighbors_get_faces.
    rewrite add_fake_neighbor_elem.
    rewrite (fold_add_elem (faces_step ss vertex)
               (fun e => match rd (medge ss) e with
                         | Some me => Some (other_vert me vertex)
                         | None => None
                         end)).
    + rewrite iter_init_vertices. split.
      * intros [[H | (e & He & Hc)] | H]; [apply elem_of_nil in H; contradiction | | right; exact H].
        left. destruct (rd (medge ss) e) as [me|] eqn:Eme; [|discriminate].
        injection Hc as <-. exists e, me. repeat split; try assumption.
        intros Hn. contradiction.
      * intros [(e & me & He & Eme & Ew & _) | H]; [|right; exact H].
        left. right. exists e. split; [exact He|]. rewrite Eme, Ew. reflexivity.
    + intros it e. unfold faces_step.
      destruct (rd (medge ss) e) as [me|]; [|reflexivity]. eexists _, _. reflexivity.
Qed.

Lemma present_as_vertices (l : list SculptNeighborRef) (w : PBVHVertRef) :
  existsb (fun n => vertex n =? w) l = existsb (Z.eqb w) (map vertex l).
Proof.
  induction l as [|n l IH]; simpl; [reflexivity|].
  rewrite IH, (Z.eqb_sym (vertex n) w). reflexivity.
Qed.

Lemma bmesh_loop_vertices ss (cycle : list (PBVHEdgeRef * PBVHVertRef)) : forall iter,
  vertices (fold_left (bmesh_step ss) cycle iter)
  = vertices iter ++ List.filter (fun w => negb (hidden ss w)) (map snd cycle).
Proof.
  induction cycle as [|ev cycle IH]; intros iter; cbn [fold_left map List.filter].
  - rewrite app_nil_r. reflexivity.
  - rewrite IH. unfold bmesh_step, hidden. rewrite negb_involutive.
    destruct (_ =? 0).
    + rewrite neighbor_add_nocheck_vertices, <- app_assoc. reflexivity.
    + reflexivity.
Qed.

(** X27.  With BMesh the neighbours are the vertices across the edges of
    the disk cycle that are not flagged [SCULPTVERT_VERT_FSET_HIDDEN], in
    the order of the cycle and once for each edge, so a vertex across two
    edges is delivered twice; the fake neighbour follows unless it is among
    them.  A vertex without edge gets no neighbour, not even its fake
    neighbour. *)
Theorem neighbors_get_bmesh_exact ss vertex include_duplicates iter :
  pbvh_type ss = PBVH_BMESH ->
  vertices (SCULPT_vertex_neighbors_get ss vertex include_duplicates iter)
  = match disk_cycle vertex with
    | [] => []
    | cycle =>
        let shown := List.filter (fun w => negb (hidden ss w)) (map snd cycle) in
        shown ++ match fake_of ss (BM_elem_index_get vertex) with
                 | Some fake => if existsb (Z.eqb fake) shown then [] else [fake]
                 | None => []
                 end
    end.
Proof.
  intros Hty. unfold SCULPT_vertex_neighbors_get, sculpt_vertex_neighbors_get_bmesh.
  rewrite Hty. destruct (disk_cycle vertex) as [|ev cycle]; [reflexivity|].
  cbv zeta. rewrite add_fake_neighbor_as_add.
  destruct (fake_of ss (BM_elem_index_get vertex)) as [fake|].
  - rewrite neighbor_add_vertices, present_as_vertices.
    fold (vertices (fold_left (bmesh_step ss) (ev :: cycle) (iter_init iter 0 false true))).
    rewrite bmesh_loop_vertices, iter_init_vertices. cbn [app].
    destruct (existsb _ _); [rewrite app_nil_r|]; reflexivity.
  - rewrite bmesh_loop_vertices, iter_init_vertices, app_nil_r. reflexivity.
Qed.

(** *** The cached valence *)

Lemma land_clear (a f : Z) : Z.land (Z.land a (Z.lnot f)) f = 0.
Proof.
  apply Z.bits_inj'. intros n Hn.
  rewrite !Z.land_spec, Z.lnot_spec, Z.bits_0 by exact Hn.
  destruct (Z.testbit a n), (Z.testbit f n); reflexivity.
Qed.

Lemma valence_get_unflagged ss vertex ni :
  Z.land (flag (mdyntopo_verts ss vertex)) SCULPTVERT_NEED_VALENCE = 0 ->
  SCULPT_vertex_valence_get ss vertex ni = (valence (mdyntopo_verts ss vertex), ss).
Proof.
  intros H. unfold SCULPT_vertex_valence_get. rewrite H. reflexivity.
Qed.

(** X28.  The valence is cached.  [SCULPT_vertex_valence_get] on a vertex
    flagged [SCULPTVERT_NEED_VALENCE] counts the neighbours anew; on a
    vertex not flagged it returns the stored valence and changes nothing.
    After any call the vertex is not flagged: as long as its record is not
    touched, every further call returns the same value and changes nothing,
    whatever has become of the mesh. *)
Theorem valence_get_cached ss vertex ni :
  (Z.land (flag (mdyntopo_verts ss vertex)) SCULPTVERT_NEED_VALENCE <> 0 ->
   (SCULPT_vertex_valence_get ss vertex ni).1 = neighbors_iter_count ss vertex ni)
  /\ (Z.land (flag (mdyntopo_verts ss vertex)) SCULPTVERT_NEED_VALENCE = 0 ->
      SCULPT_vertex_valence_get ss vertex ni = (valence (mdyntopo_verts ss vertex), ss))
  /\ (forall ss' ni',
        mdyntopo_verts ss' vertex
        = mdyntopo_verts (SCULPT_vertex_valence_get ss vertex ni).2 vertex ->
        SCULPT_vertex_valence_get ss' vertex ni'
        = ((SCULPT_vertex_valence_get ss vertex ni).1, ss')).
Proof.
  split; [|split].
  - intros H. unfold SCULPT_vertex_valence_get.
    destruct (Z.eqb_spec (Z.land (flag (mdyntopo_verts ss vertex)) SCULPTVERT_NEED_VALENCE) 0);
      [contradiction | reflexivity].
  - apply valence_get_unflagged.
  - intros ss' ni' Hmv.
    destruct (Z.eq_dec (Z.land (flag (mdyntopo_verts ss vertex)) SCULPTVERT_NEED_VALENCE) 0)
      as [H0 | Hflag].
    + rewrite (valence_get_unflagged ss vertex ni H0) in *. cbn [fst snd] in *.
      rewrite valence_get_unflagged by (rewrite Hmv; exact H0).
      rewrite Hmv. reflexivity.
    + assert (Hres : SCULPT_vertex_valence_get ss vertex ni
                     = (neighbors_iter_count ss vertex ni,
                        set_sculptvert ss vertex
                          {| flag := Z.land (flag (mdyntopo_verts ss vertex))
                                            (Z.lnot SCULPTVERT_NEED_VALENCE);
                             valence := neighbors_iter_count ss vertex ni |})).
      { unfold SCULPT_vertex_valence_get.
        destruct (Z.eqb_spec (Z.land (flag (mdyntopo_verts ss vertex))
                                     SCULPTVERT_NEED_VALENCE) 0);
          [contradiction | reflexivity]. }
      rewrite Hres in *. cbn [fst snd] in *.
      unfold set_sculptvert in Hmv. cbn [mdyntopo_verts] in Hmv.
      rewrite Z.eqb_refl in Hmv.
      rewrite valence_get_unflagged by (rewrite Hmv; apply land_clear).
      rewrite Hmv. reflexivity.
Qed.

End WithMesh.

(** *** On concrete meshes *)

Definition sculptvert_of (flags : list Z) (w : PBVHVertRef) : MSculptVert :=
  {| flag := default 0 (rd flags w); valence := 0 |}.

(** A vertex 0 of a base mesh with edges to the vertices 1, 2 and 3, the
    last one hidden (flag 8) and its valence to be counted (flag 4); the
    edge map lists the edge to vertex 1 twice.  The vertex has the fake
    neighbour 5. *)
Definition star_session (with_vemap : bool) : SculptSession :=
  {| pbvh_type := PBVH_FACES;
     vemap := if with_vemap
              then Some [ {| FaceSets.indices := [0; 1; 0; 2]; FaceSets.count := 4 |} ]
              else None;
     medge := [ {| v1 := 0; v2 := 1 |}; {| v1 := 2; v2 := 0 |}; {| v1 := 0; v2 := 3 |} ];
     mdyntopo_verts := sculptvert_of [4; 0; 0; 8];
     use_fake_neighbors := true;
     fake_neighbor_index := [5; -1; -1; -1; -1; 0] |}.

(** The same vertex with BMesh, the disk cycle passing vertex 1 twice. *)
Definition star_bmesh : SculptSession :=
  {| pbvh_type := PBVH_BMESH; vemap := None; medge := [];
     mdyntopo_verts := sculptvert_of [4; 0; 0; 8];
     use_fake_neighbors := true;
     fake_neighbor_index := [5; -1; -1; -1; -1; 0] |}.

Definition star_cycle (w : PBVHVertRef) : list (PBVHEdgeRef * PBVHVertRef) :=
  if w =? 0 then [(0, 1); (1, 2); (3, 1); (2, 3)] else [].

Definition no_coords (c : SubdivCCGCoord) (include_duplicates : bool) : SubdivCCGNeighbors :=
  {| coords := []; ccg_num_duplicates := 0 |}.

Definition blank_iter : SculptVertexNeighborIter :=
  {| neighbors := []; neighbor_indices := []; capacity := 0; on_heap := false;
     num_duplicates := 0; is_duplicate := false; has_edge := false; no_free := false |}.

(** The neighbours of the vertex 0, with a fixed capacity of 2 cells. *)
Definition star_neighbors (ss : SculptSession) : SculptVertexNeighborIter :=
  SCULPT_vertex_neighbors_get 2 8 (fun w => w) (fun w => w) (fun _ => [0; 1; 2])
    star_cycle 1 1 no_coords ss 0 false blank_iter.

Example star_neighbors_by_edge_map :
  vertices (star_neighbors (star_session true)) = [1; 2; 5]
  /\ vertices (star_neighbors (star_session false)) = [1; 2; 3; 5]
  /\ capacity (star_neighbors (star_session false)) = 4.
Proof. repeat split; reflexivity. Qed.

Lemma neighbor_arrays_never_overflow_witness :
  fits 2 (star_neighbors (star_session false)).
Proof.
  destruct (neighbor_arrays_never_overflow 2 8 (fun w => w) (fun w => w)
              (fun _ => [0; 1; 2]) star_cycle 1 1 no_coords) as [_ H].
  - lia.
  - apply H.
Defined.

Lemma neighbors_get_no_duplicates_witness :
  NoDup (vertices (star_neighbors (star_session true))).
Proof.
  apply (neighbors_get_no_duplicates 2 8 (fun w => w) (fun w => w)
           (fun _ => [0; 1; 2]) star_cycle 1 1 no_coords (star_session true)).
  discriminate.
Defined.

Lemma neighbors_get_faces_exact_witness :
  ~ 3 ∈ vertices (star_neighbors (star_session true)).
Proof.
  intros H.
  destruct (neighbors_get_faces_exact 2 8 (fun w => w) (fun w => w)
              (fun _ => [0; 1; 2]) star_cycle 1 1 no_coords (star_session true)
              0 false blank_iter 3) as [Hin _]; [reflexivity|].
  destruct (Hin H) as [(e & me & _ & _ & _ & Hh) | (_ & Hf & _)].
  - assert (Hhid : hidden 8 (star_session true) 3 = false)
      by (apply Hh; discriminate).
    discriminate Hhid.
  - discriminate Hf.
Defined.

Lemma neighbors_get_bmesh_exact_witness :
  vertices (star_neighbors star_bmesh) = [1; 2; 1; 5].
Proof.
  unfold star_neighbors.
  rewrite (neighbors_get_bmesh_exact 2 8 (fun w => w) (fun w => w)
             (fun _ => [0; 1; 2]) star_cycle 1 1 no_coords star_bmesh 0 false blank_iter).
  - reflexivity.
  - reflexivity.
Defined.

Lemma valence_get_cached_witness :
  (SCULPT_vertex_valence_get 2 8 4 (fun w => w) (fun w => w) (fun _ => [0; 1; 2])
     star_cycle 1 1 no_coords (star_session true) 0 blank_iter).1 = 3.
Proof.
  destruct (valence_get_cached 2 8 4 (fun w => w) (fun w => w) (fun _ => [0; 1; 2])
              star_cycle 1 1 no_coords (star_session true) 0 blank_iter) as (H & _ & _).
  rewrite H; [reflexivity | discriminate].
Defined.

End VertexNeighbors.

(* ===================================================================== *)
(** ** Symmetry areas and mirrored brush locations *)
(* ===================================================================== *)

Module SymmetryAreas.

Local Open Scope Z_scope.

Abbreviation axis_of := SymmetryDriver.axis_of.
Abbreviation passes := Symmetry.passes.
Abbreviation SCULPT_is_symmetry_iteration_valid := Symmetry.SCULPT_is_symmetry_iteration_valid.

(** Modelled from the spec: [flip_v3_v3] belongs to the math library,
    outside the sources at hand; it mirrors a vector across the planes
    indicated by the bits of [symm], negating x for bit 1, y for bit 2 and
    z for bit 4.  [flip_v3] is the same in place. *)
Definition flip_v3_v3 (v : vec3) (symm : Z) : vec3 :=
  let '(x, y, z) := v in
  ((if negb (Z.land symm 1 =? 0) then - x else x)%R,
   (if negb (Z.land symm 2 =? 0) then - y else y)%R,
   (if negb (Z.land symm 4 =? 0) then - z else z)%R).

Definition flip_v3 (v : vec3) (symm : Z) : vec3 := flip_v3_v3 v symm.

(** [ePaintSymmetryAreas]; declared in a header outside the sources at
    hand, as the bits of the three axes. *)
Definition PAINT_SYMM_AREA_DEFAULT : Z := 0.
Definition PAINT_SYMM_AREA_X : Z := 1.
Definition PAINT_SYMM_AREA_Y : Z := 2.
Definition PAINT_SYMM_AREA_Z : Z := 4.

(** [a == b] on [float]. *)
Definition float_eq (a b : R) : bool := if Req_dec_T a b then true else false.

(** Body of the loop of [SCULPT_check_vertex_pivot_symmetry]. *)
Definition pivot_symmetry_axis (vco pco : vec3) (symm : Z) (is_in_symmetry_area : bool)
    (i : Z) : bool :=
  let symm_it := Z.shiftl 1 i in
  if negb (Z.land symm symm_it =? 0) then
    let is_in_symmetry_area :=
      if float_eq (axis_of pco i) 0
      then (if float_gt (axis_of vco i) 0 then false else is_in_symmetry_area)
      else is_in_symmetry_area in
    if float_lt (axis_of vco i * axis_of pco i) 0 then false else is_in_symmetry_area
  else is_in_symmetry_area.

(** [SCULPT_check_vertex_pivot_symmetry] (sculpt.c, 2308). *)
Definition SCULPT_check_vertex_pivot_symmetry (vco pco : vec3) (symm : Z) : bool :=
  fold_left (pivot_symmetry_axis vco pco symm) [0; 1; 2] true.

(** [SCULPT_is_vertex_inside_brush_radius_symm] (sculpt.c, 2415): the loop
    returns at the first valid pass whose mirrored brush location is within
    the radius. *)
Definition SCULPT_is_vertex_inside_brush_radius_symm (vertex br_co : vec3) (radius : R)
    (symm : Z) : bool :=
  existsb (fun i =>
             SCULPT_is_symmetry_iteration_valid i symm
             && float_lt (len_squared_v3v3 (flip_v3_v3 br_co i) vertex) (radius * radius))
          (passes symm).

(** [SCULPT_get_vertex_symm_area] (sculpt.c, 4700). *)
Definition SCULPT_get_vertex_symm_area (co : vec3) : Z :=
  let symm_area := PAINT_SYMM_AREA_DEFAULT in
  let symm_area :=
    if float_lt (axis_of co 0) 0 then Z.lor symm_area PAINT_SYMM_AREA_X else symm_area in
  let symm_area :=
    if float_lt (axis_of co 1) 0 then Z.lor symm_area PAINT_SYMM_AREA_Y else symm_area in
  let symm_area :=
    if float_lt (axis_of co 2) 0 then Z.lor symm_area PAINT_SYMM_AREA_Z else symm_area in
  symm_area.

(** Body of the loop of [SCULPT_flip_v3_by_symm_area]. *)
Definition flip_by_symm_area_axis (symm symmarea : Z) (pivot : vec3) (v : vec3) (i : Z)
    : vec3 :=
  let symm_it := Z.shiftl 1 i in
  if Z.land symm symm_it =? 0 then v
  else
    let v := if negb (Z.land symmarea symm_it =? 0) then flip_v3 v symm_it else v in
    if float_lt (axis_of pivot i) 0 then flip_v3 v symm_it else v.

(** [SCULPT_flip_v3_by_symm_area] (sculpt.c, 4715). *)
Definition SCULPT_flip_v3_by_symm_area (v : vec3) (symm symmarea : Z) (pivot : vec3)
    : vec3 :=
  fold_left (flip_by_symm_area_axis symm symmarea pivot) [0; 1; 2] v.

(** *** The pivot flipped into the area of a vertex *)

(** The axis [i] is mirrored by [symm]. *)
Definition enabled (symm i : Z) : Prop := Z.land symm (Z.shiftl 1 i) <> 0.

(** What the check asks of one axis. *)
Definition axis_in_area (vco pco : vec3) (i : Z) : Prop :=
  (axis_of pco i = 0%R -> (axis_of vco i <= 0)%R)
  /\ (0 <= axis_of vco i * axis_of pco i)%R.

Lemma float_eq_true a b : float_eq a b = true <-> a = b.
Proof. unfold float_eq. destruct (Req_dec_T a b); split; (congruence || discriminate). Qed.

Lemma pivot_symmetry_axis_true vco pco symm b i :
  pivot_symmetry_axis vco pco symm b i = true
  <-> b = true /\ (enabled symm i -> axis_in_area vco pco i).
Proof.
  unfold pivot_symmetry_axis, enabled, axis_in_area.
  destruct (Z.eqb_spec (Z.land symm (Z.shiftl 1 i)) 0) as [E|E]; simpl.
  - split; [intros H; split; [exact H | intros Hn; contradiction] | intros [H _]; exact H].
  - destruct (float_lt (axis_of vco i * axis_of pco i) 0) eqn:Elt.
    + apply float_lt_true in Elt. split; [discriminate|].
      intros [_ H]. destruct (H E) as [_ H2]. lra.
    + apply float_lt_false in Elt.
      destruct (float_eq (axis_of pco i) 0) eqn:Eeq.
      * apply float_eq_true in Eeq.
        destruct (float_gt (axis_of vco i) 0) eqn:Egt.
        -- apply float_gt_true in Egt. split; [discriminate|].
           intros [_ H]. destruct (H E) as [H1 _]. specialize (H1 Eeq). lra.
        -- apply float_gt_false in Egt. split.
           ++ intros ->. split; [reflexivity|]. intros _. split; [intros _; exact Egt | exact Elt].
           ++ intros [H _]. exact H.
      * split.
        -- intros ->. split; [reflexivity|]. intros _. split; [|exact Elt].
           intros H0. rewrite <- float_eq_true in H0. congruence.
        -- intros [H _]. exact H.
Qed.

Lemma check_vertex_pivot_symmetry_true vco pco symm :
  SCULPT_check_vertex_pivot_symmetry vco pco symm = true
  <-> forall i, 0 <= i < 3 -> enabled symm i -> axis_in_area vco pco i.
Proof.
  unfold SCULPT_check_vertex_pivot_symmetry. cbn [fold_left].
  rewrite !pivot_symmetry_axis_true. split.
  - intros (((_ & H0) & H1) & H2) i Hi.
    assert (Hc : i = 0 \/ i = 1 \/ i = 2) by lia.
    destruct Hc as [-> | [-> | ->]]; assumption.
  - intros H. split; [split; [split; [reflexivity|] |] |]; apply H; lia.
Qed.

(** The sign by which [SCULPT_flip_v3_by_symm_area] multiplies the
    coordinate [i]. *)
Definition area_sign (symm symmarea : Z) (pivot : vec3) (i : Z) : R :=
  if Z.land symm (Z.shiftl 1 i) =? 0 then 1%R
  else ((if negb (Z.land symmarea (Z.shiftl 1 i) =? 0) then -1 else 1)
        * (if float_lt (axis_of pivot i) 0 then -1 else 1))%R.

Lemma flip_by_symm_area_value v symm symmarea pivot :
  SCULPT_flip_v3_by_symm_area v symm symmarea pivot
  = ((area_sign symm symmarea pivot 0 * axis_of v 0)%R,
     (area_sign symm symmarea pivot 1 * axis_of v 1)%R,
     (area_sign symm symmarea pivot 2 * axis_of v 2)%R).
Proof.
  destruct v as [[x y] z].
  unfold SCULPT_flip_v3_by_symm_area, flip_by_symm_area_axis, area_sign, flip_v3,
    SymmetryDriver.axis_of.
  cbn [fold_left fst snd Z.eqb].
  change (Z.shiftl 1 0) with 1. change (Z.shiftl 1 1) with 2. change (Z.shiftl 1 2) with 4.
  remember (Z.land symm 1 =? 0) as s0. remember (Z.land symm 2 =? 0) as s1.
  remember (Z.land symm 4 =? 0) as s2.
  remember (negb (Z.land symmarea 1 =? 0)) as a0.
  remember (negb (Z.land symmarea 2 =? 0)) as a1.
  remember (negb (Z.land symmarea 4 =? 0)) as a2.
  remember (float_lt (axis_of pivot 0) 0) as p0.
  remember (float_lt (axis_of pivot 1) 0) as p1.
  remember (float_lt (axis_of pivot 2) 0) as p2.
  assert (H0 : forall (s a p : bool) (x y z : R),
            (if s then (x, y, z)
             else if p then flip_v3_v3 (if a then flip_v3_v3 (x, y, z) 1 else (x, y, z)) 1
                  else if a then flip_v3_v3 (x, y, z) 1 else (x, y, z))
            = (((if s then 1 else (if a then -1 else 1) * (if p then -1 else 1)) * x)%R, y, z)).
  { intros [] [] [] x' y' z'; unfold flip_v3_v3; simpl; f_equal; f_equal; lra. }
  assert (H1 : forall (s a p : bool) (x y z : R),
            (if s then (x, y, z)
             else if p then flip_v3_v3 (if a then flip_v3_v3 (x, y, z) 2 else (x, y, z)) 2
                  else if a then flip_v3_v3 (x, y, z) 2 else (x, y, z))
            = (x, ((if s then 1 else (if a then -1 else 1) * (if p then -1 else 1)) * y)%R, z)).
  { intros [] [] [] x' y' z'; unfold flip_v3_v3; simpl; f_equal; f_equal; lra. }
  assert (H2 : forall (s a p : bool) (x y z : R),
            (if s then (x, y, z)
             else if p then flip_v3_v3 (if a then flip_v3_v3 (x, y, z) 4 else (x, y, z)) 4
                  else if a then flip_v3_v3 (x, y, z) 4 else (x, y, z))
            = (x, y, ((if s then 1 else (if a then -1 else 1) * (if p then -1 else 1)) * z)%R)).
  { intros [] [] [] x' y' z'; unfold flip_v3_v3; simpl; f_equal; lra. }
  rewrite H0, H1, H2. reflexivity.
Qed.

Lemma symm_area_bit co i :
  0 <= i < 3 ->
  (Z.land (SCULPT_get_vertex_symm_area co) (Z.shiftl 1 i) =? 0)
  = negb (float_lt (axis_of co i) 0).
Proof.
  intros Hi. assert (Hc : i = 0 \/ i = 1 \/ i = 2) by lia.
  unfold SCULPT_get_vertex_symm_area.
  destruct Hc as [-> | [-> | ->]];
    destruct (float_lt (axis_of co 0) 0), (float_lt (axis_of co 1) 0),
             (float_lt (axis_of co 2) 0); reflexivity.
Qed.

(** X29.  [SCULPT_flip_v3_by_symm_area] brings a point into the symmetry
    area of a vertex: if on every mirrored axis the point has a coordinate
    other than 0 on the side of the pivot, then flipped by the area
    [SCULPT_get_vertex_symm_area] finds for the vertex it is a pivot for
    which [SCULPT_check_vertex_pivot_symmetry] accepts the vertex. *)
Theorem flipped_pivot_accepts_vertex (co v pivot : vec3) (symm : Z) :
  (forall i, 0 <= i < 3 -> enabled symm i ->
     axis_of v i <> 0%R /\ ((axis_of pivot i < 0)%R <-> (axis_of v i < 0)%R)) ->
  SCULPT_check_vertex_pivot_symmetry co
    (SCULPT_flip_v3_by_symm_area v symm (SCULPT_get_vertex_symm_area co) pivot) symm
  = true.
Proof.
  intros Hside. apply check_vertex_pivot_symmetry_true. intros i Hi Hen.
  destruct (Hside i Hi Hen) as [Hnz Hiff].
  rewrite flip_by_symm_area_value.
  assert (Hval : axis_of (area_sign symm (SCULPT_get_vertex_symm_area co) pivot 0
                            * axis_of v 0,
                          area_sign symm (SCULPT_get_vertex_symm_area co) pivot 1
                            * axis_of v 1,
                          area_sign symm (SCULPT_get_vertex_symm_area co) pivot 2
                            * axis_of v 2)%R i
                 = (area_sign symm (SCULPT_get_vertex_symm_area co) pivot i
                    * axis_of v i)%R).
  { assert (Hc : i = 0 \/ i = 1 \/ i = 2) by lia.
    destruct Hc as [-> | [-> | ->]]; reflexivity. }
  unfold axis_in_area. rewrite Hval. clear Hval.
  unfold area_sign. unfold enabled in Hen.
  destruct (Z.eqb_spec (Z.land symm (Z.shiftl 1 i)) 0) as [E|_]; [contradiction|].
  rewrite (symm_area_bit co i Hi), negb_involutive.
  remember (axis_of co i) as c. remember (axis_of v i) as x.
  remember (axis_of pivot i) as p.
  destruct (float_lt c 0) eqn:Ec; destruct (float_lt p 0) eqn:Ep;
    [apply float_lt_true in Ec | apply float_lt_true in Ec
     | apply float_lt_false in Ec | apply float_lt_false in Ec];
    [apply float_lt_true in Ep | apply float_lt_false in Ep
     | apply float_lt_true in Ep | apply float_lt_false in Ep].
  - assert (Hx : (x < 0)%R) by (apply Hiff; exact Ep).
    split; [intros H0; lra|].
    pose proof (Rmult_le_pos (- c) (- x)) as Hm. lra.
  - assert (Hx : (0 < x)%R).
    { destruct (Rlt_dec x 0) as [Hlt|Hge]; [apply Hiff in Hlt; lra | lra]. }
    split; [intros H0; lra|].
    pose proof (Rmult_le_pos (- c) x) as Hm. lra.
  - assert (Hx : (x < 0)%R) by (apply Hiff; exact Ep).
    split; [intros H0; lra|].
    pose proof (Rmult_le_pos c (- x)) as Hm. lra.
  - assert (Hx : (0 < x)%R).
    { destruct (Rlt_dec x 0) as [Hlt|Hge]; [apply Hiff in Hlt; lra | lra]. }
    split; [intros H0; lra|].
    pose proof (Rmult_le_pos c x) as Hm. lra.
Qed.

Lemma flipped_pivot_accepts_vertex_witness :
  SCULPT_check_vertex_pivot_symmetry (-1, 2, 3)%R
    (SCULPT_flip_v3_by_symm_area (2, 1, 1)%R 1
       (SCULPT_get_vertex_symm_area (-1, 2, 3)%R) (2, 1, 1)%R) 1
  = true.
Proof.
  apply (flipped_pivot_accepts_vertex (-1, 2, 3)%R (2, 1, 1)%R (2, 1, 1)%R 1).
  intros i Hi Hen. assert (Hc : i = 0 \/ i = 1 \/ i = 2) by lia.
  destruct Hc as [-> | [-> | ->]].
  - unfold SymmetryDriver.axis_of. simpl. split; [lra | reflexivity].
  - exfalso. apply Hen. reflexivity.
  - exfalso. apply Hen. reflexivity.
Defined.

(** *** Mirrored brush locations *)

Lemma flip_v3_v3_twice (v : vec3) (j : Z) : flip_v3_v3 (flip_v3_v3 v j) j = v.
Proof.
  destruct v as [[x y] z]. unfold flip_v3_v3.
  destruct (negb (Z.land j 1 =? 0)), (negb (Z.land j 2 =? 0)), (negb (Z.land j 4 =? 0));
    f_equal; try f_equal; lra.
Qed.

Lemma below_eight (i : Z) :
  0 <= i <= 7 -> i = 0 \/ i = 1 \/ i = 2 \/ i = 3 \/ i = 4 \/ i = 5 \/ i = 6 \/ i = 7.
Proof. lia. Qed.

(** Mirroring both points moves the brush location by the passes combined. *)
Lemma len_squared_flipped (a b : vec3) (i j : Z) :
  0 <= i <= 7 -> 0 <= j <= 7 ->
  len_squared_v3v3 (flip_v3_v3 a i) (flip_v3_v3 b j)
  = len_squared_v3v3 (flip_v3_v3 a (Z.lxor i j)) b.
Proof.
  intros Hi Hj. destruct a as [[ax ay] az], b as [[bx by_] bz].
  destruct (below_eight i Hi) as [-> | [-> | [-> | [-> | [-> | [-> | [-> | ->]]]]]]];
    destruct (below_eight j Hj) as [-> | [-> | [-> | [-> | [-> | [-> | [-> | ->]]]]]]];
    unfold flip_v3_v3, len_squared_v3v3; simpl; ring.
Qed.

(** The valid passes of a mirror setting are closed under combination. *)
Lemma valid_passes_combine_table :
  forallb (fun symm =>
    forallb (fun i =>
      forallb (fun j =>
        negb (SCULPT_is_symmetry_iteration_valid i symm)
        || negb (SCULPT_is_symmetry_iteration_valid j symm)
        || ((Z.lxor i j <=? symm)
            && SCULPT_is_symmetry_iteration_valid (Z.lxor i j) symm))
        (passes symm))
      (passes symm))
    (passes 7) = true.
Proof. vm_compute. reflexivity. Qed.

Lemma valid_passes_combine symm i j :
  0 <= symm <= 7 -> 0 <= i <= symm -> 0 <= j <= symm ->
  SCULPT_is_symmetry_iteration_valid i symm = true ->
  SCULPT_is_symmetry_iteration_valid j symm = true ->
  0 <= Z.lxor i j <= symm
  /\ SCULPT_is_symmetry_iteration_valid (Z.lxor i j) symm = true.
Proof.
  intros Hs Hi Hj Vi Vj.
  pose proof valid_passes_combine_table as T.
  rewrite forallb_forall in T.
  specialize (T symm (proj1 (list_elem_of_In _ _) (proj2 (Symmetry.elem_of_passes symm 7 ltac:(lia)) Hs))).
  rewrite forallb_forall in T.
  specialize (T i (proj1 (list_elem_of_In _ _) (proj2 (Symmetry.elem_of_passes i symm ltac:(lia)) Hi))).
  rewrite forallb_forall in T.
  specialize (T j (proj1 (list_elem_of_In _ _) (proj2 (Symmetry.elem_of_passes j symm ltac:(lia)) Hj))).
  rewrite Vi, Vj in T. simpl in T. apply andb_true_iff in T as [Hle Hv].
  split; [|exact Hv]. split; [apply Z.lxor_nonneg; lia | apply Z.leb_le, Hle].
Qed.

Lemma inside_radius_symm_mirrored vertex br_co radius symm j :
  0 <= symm <= 7 -> 0 <= j <= symm ->
  SCULPT_is_symmetry_iteration_valid j symm = true ->
  SCULPT_is_vertex_inside_brush_radius_symm (flip_v3_v3 vertex j) br_co radius symm = true ->
  SCULPT_is_vertex_inside_brush_radius_symm vertex br_co radius symm = true.
Proof.
  intros Hs Hj Vj H. unfold SCULPT_is_vertex_inside_brush_radius_symm in *.
  apply existsb_exists in H as (i & Hin & Hi).
  apply andb_true_iff in Hi as [Vi Hd].
  apply list_elem_of_In, Symmetry.elem_of_passes in Hin; [|lia].
  destruct (valid_passes_combine symm i j Hs Hin Hj Vi Vj) as [Hr Vx].
  apply existsb_exists. exists (Z.lxor i j). split.
  - apply list_elem_of_In, Symmetry.elem_of_passes; [lia | exact Hr].
  - rewrite Vx. simpl. rewrite <- len_squared_flipped by lia. exact Hd.
Qed.

(** X30.  [SCULPT_is_vertex_inside_brush_radius_symm] does not tell a
    vertex from its mirror images: for a mirror setting [symm] in [0..7]
    and a valid pass [j] of it, the vertex mirrored by [j] is inside the
    brush radius exactly when the vertex is. *)
Theorem inside_brush_radius_symm_of_mirror_image vertex br_co radius symm j :
  0 <= symm <= 7 -> 0 <= j <= symm ->
  SCULPT_is_symmetry_iteration_valid j symm = true ->
  SCULPT_is_vertex_inside_brush_radius_symm (flip_v3_v3 vertex j) br_co radius symm
  = SCULPT_is_vertex_inside_brush_radius_symm vertex br_co radius symm.
Proof.
  intros Hs Hj Vj.
  destruct (SCULPT_is_vertex_inside_brush_radius_symm vertex br_co radius symm) eqn:E.
  - apply (inside_radius_symm_mirrored _ br_co radius symm j Hs Hj Vj).
    rewrite flip_v3_v3_twice. exact E.
  - destruct (SCULPT_is_vertex_inside_brush_radius_symm (flip_v3_v3 vertex j) br_co
                radius symm) eqn:E'; [|reflexivity].
    rewrite (inside_radius_symm_mirrored vertex br_co radius symm j Hs Hj Vj E') in E.
    discriminate.
Qed.

Lemma inside_brush_radius_symm_of_mirror_image_witness :
  SCULPT_is_vertex_inside_brush_radius_symm (flip_v3_v3 (-2, 1, 0)%R 1) (2, 1, 0)%R 1 1
  = SCULPT_is_vertex_inside_brush_radius_symm (-2, 1, 0)%R (2, 1, 0)%R 1 1.
Proof.
  apply (inside_brush_radius_symm_of_mirror_image (-2, 1, 0)%R (2, 1, 0)%R 1 1 1);
    [lia | lia | reflexivity].
Defined.

End SymmetryAreas.
